(* ===== verification/_CoqProject ===== *)
-Q . S2P
Prelude.v
Text.v
Resp.v
Glob.v
F64.v
Rounding.v
Decimals.v
Store.v
StoreStrings.v
StoreLists.v
StoreStreams.v
StoreSortedSets.v
StoreSteps.v
Command.v
StoreCommands.v
Geo.v
Places.v
Families.v
StoreSafety.v
Users.v
Channels.v
Config.v
Replicas.v
Transactions.v
Aof.v
Rdb.v
RdbEnds.v
Dispatch.v
Replies.v
Alike.v
Twins.v
Owing.v
Sessions.v
Connection.v
ReplicaSide.v
Joining.v
Startup.v
Histories.v
Accounts.v
Durability.v
Interleaving.v
Converging.v
Reference.v
Testing.v
TestsResp.v
TestsGlob.v
TestsChannels.v
TestsServer.v
TestsUsers.v
TestsStrings.v
TestsCommands.v
TestsConfig.v
TestsReplica.v
TestsAof.v
TestsRdb.v
TestsSortedSets.v
TestsZCommands.v
TestsAcl.v
TestsPubsub.v
TestsGeo.v
Playing.v
ScenariosStore.v
ScenariosStreams.v
ScenariosSorted.v
ScenariosSessions.v
ScenariosReplication.v
ScenariosRecord.v
ScenariosDataset.v
ScenariosFollowing.v
ScenariosHeard.v
