(* ===== verification/Prelude.v ===== *)
(** * A verification development for the Redis server under src/

    The program is a server that speaks the Redis protocol: clients keep strings,
    lists, streams, sorted sets and places in it, publish and subscribe, queue
    transactions and watch keys; it keeps a record of what changed (an append-only
    file), comes up from that record or from a saved dataset, and is followed by
    replicas or follows a master itself.  What is modelled is all of src/src/, each
    function translated where it can be run, so that a theorem is about what the
    code does on every branch and an example is evaluated.

    ** The parts, and which file has them

    A client's bytes take this way through the program, and through the files here:

    - _What everything stands on_.  [Prelude] has bytes, machine integers and the
      lists of the standard library the source uses, with the lemmas and tactics the
      other files share; [Text] has Rust's text: UTF-8, case, decimal integers;
      [F64] its doubles, which are read ([str::parse]) and written (the shortest
      spelling of [to_string], and [{:.4}]), on the standard library's SpecFloat;
      [Rounding] bounds what their arithmetic loses of the reals', and [Decimals]
      says what number a text is.
    - _The wire_ (resp.rs): [Resp], the encoder and the incremental parser.
    - _The connection_ (connection.rs): [Connection], the buffer of a client and the
      loop of [serve]; [read] runs every whole request there is in what was read,
      and [resume] takes up a command that waited.
    - _The dispatcher_ (commands/mod.rs): [Command] reads a command out of a value
      and says what a command that worked is written down as; [Dispatch] takes it
      through the gates (who is let in, who is listening, who has a transaction open)
      and asks the modules of commands in the order the source asks them
      ([run_against]), then records it and passes it on ([finish]).
    - _The commands_: [StoreCommands] (commands/strings.rs, keys.rs, lists.rs,
      streams.rs, sorted_sets.rs), [Geo] (commands/geo.rs; [Places] judges it by the
      reals), [Users] (users.rs and
      commands/acl.rs), [Channels] (channels.rs and commands/pubsub.rs), [Config]
      (config.rs, commands/settings.rs, commands/info.rs), [Replicas] (replicas.rs,
      the replication half of server.rs, commands/replication.rs), [Transactions]
      (commands/transactions.rs).  The patterns of KEYS are in [Glob] (glob.rs).
    - _The store_ (store/): [Store] is the state behind the lock and what every
      family shares; [StoreStrings], [StoreLists], [StoreStreams] and
      [StoreSortedSets] are the families, one file of the source each.  [StoreSteps]
      makes them one step relation.
    - _What the dispatcher asks of a module_: [Families] is the interface between the
      two.  A module that works on the store is a [Family] of commands; what it
      promises is an instance of a class ([Claims], [Upholds] a law, [Agrees] between
      two runs), which asking one family after the other keeps.  The laws: every
      command comes to steps of the store, and seldom panics ([StoreSafety]); it
      replies in its own shape ([Replies]); it is answered alike by stores that hold
      the same data ([Alike], whose questions are [Proper] for that relation).  Those
      that write do the same to two stores that hold the same under the key they
      work on ([Twins]), and keep a store that is behind another behind by what the
      other has handed to waiting clients since ([Owing]).
    - _What outlasts the server_: [Aof] (aof.rs), the record and its manifest on a
      file system whose every access may fail; [Rdb] (rdb.rs), the saved dataset,
      with [RdbEnds] on its reading coming to an end; [Startup] (main.rs,
      [Server::new]), which puts a server together from them.
    - _Replication_: [ReplicaSide] (replica.rs) is a server that follows a master.

    Nine files are about the parts put together: [Sessions] (what a client can count
    on over several requests), [Replies] (what shape an answer has), [Alike] (servers
    that hold the same data), [Joining] (a replica's end against a master's),
    [Histories] (what a server goes through, one act at a time, and how it is gone
    through again), [Accounts] (what the record has of it), [Durability] (a restart against the server before it),
    [Interleaving] (connections side by side) and [Converging] (a replica's data, and
    its answers, against its master's).

    ** State and effects

    A Rust struct is a [Record] under its name, an enum an [Inductive] with its
    constructors, [Result] is [result], and a panic is a value of its own
    ([Panic], [Crashes], [Lost]) wherever the source can reach one.  A function
    that mutates takes the state and gives it back; an operation that takes the
    lock of the store is one function from [State] to [State].  Messages that leave
    an operation while the lock is held (an element handed to a client that waited,
    a watcher woken: [Event]; a message published) come back beside the state ([Heard]).
    A command that has to wait gives back what it waits on ([Pending]) and is taken
    up by [resume]; a connection is then [Waiting].  Integers are [Z] held in their
    width, and wrap, saturate or refuse as the operation in the source does; a
    release build is modelled, whose [+] wraps.

    What the code asks of the world is an argument: the two clocks, and whether a
    waiting client, watcher, listener or replica is still there ([Env], [Moment]);
    what the file system does with an access (the [faults] of [Aof] and [Append]); the master's
    bytes, in whatever pieces they come ([Conversation]); the working directory and
    the port.  No theorem fixes them, beyond what its statement says.  Code of other
    crates and of the platform is a class: [PasswordHash] (SHA-256 of the sha2
    crate), [Trig] (sine, cosine, arc sine), [UnicodeTables] (the case tables of
    the standard library).  [Reference] has one concrete function for each of the
    first two, SHA-256 by its standard among them, for what is evaluated.

    ** What is shown

    - _The store keeps its shape_ ([StoreSteps]): every state any operations reach,
      in any order, is well formed: no empty list, stream or set under a key, ids that
      climb, sets in order and without NaN, nobody waiting on a key that has
      something for them; and equal versions at EXEC mean unchanged keys.
    - _Each operation does what it is for_: pushes against an abstract list with a
      queue of clients, XADD and XRANGE and XREAD against what an append-only log
      gives, sorted sets against a finite map and their ranks against a count, places
      against the reals (within half a square), SET and GET against deadlines,
      patterns against an inductive reading of them.  Errors and the cases that
      panic are in the statements.
    - _The wire_ ([Resp], [Connection]): round trip, torn input, limits, and that how
      a client's bytes are cut makes no difference.
    - _Who may do what_ ([Dispatch], [Sessions], [Users], [Channels]): someone not
      let in, someone listening, someone in a transaction; AUTH; who a message
      reaches, and the tally in step.
    - _Nothing is lost on the way out_ ([Sessions], [Accounts], [Interleaving]): a
      write is in the record and queued for every replica before its client hears of
      it, and told as failed if it could not be recorded; the words of the record
      account, one after the other, for all that became of the data; and whatever
      the order connections go from lock to lock in ([Interleaving.go_on]), no write is
      lost, made up or told twice.
    - _Coming back_ ([Aof], [Startup], [Durability], [Rdb], [RdbEnds]): the record
      reads back, a torn end is left out, preparing again goes on in the same file,
      a restart restores the data, clients blocked on lists or not; a dataset in any encoding is read as what it saves,
      one cut short is refused, and reading always ends.
    - _Following_ ([Replicas], [ReplicaSide], [Joining], [Converging]): a replica is
      answered as it expects, takes the dataset for the dataset, and carries out what
      is passed on in order; however much of the stream has got to it, it holds what
      its master held when the master's offset was the one it has counted to, and
      answers what its master would have then; one that a WAIT counts holds what was
      done before the WAIT; and one that joins a master from the start, from its
      introduction on, ends up with all that its master holds.
    - _Types_ ([Replies], [StoreSafety]): every answer is an error or of its command's
      shape; a connection is brought down in two known cases.

    The properties carry their numbers (C1, C2, ...) in the comments above them, and
    each that has hypotheses is followed by a [_witness] at a concrete input.

    ** The source's own tests

    The unit tests inside the modules are translated under their own names
    ([Testing] and the [Tests] files), as are all of those under src/tests/, which
    start a server and talk to it (the [Scenarios] files, played by [Playing] on the
    whole server: its clients, its files and restarts over them, stand-ins for a
    replica and for a master).  Each file of them ends with the lemma that all of them
    pass.
    They are no properties of the program; they check the translation against what
    the program's authors say of it.

    ** Loops and fuel

    A loop over a list is a [Fixpoint] on it.  The others have fuel, and enough of it
    is part of what is shown: [Resp.parse] has the length of its input and the limit
    on depth; [Connection.drain] the length of the buffer, of which every request
    takes something; [Glob.matches] the most rounds its three positions allow, with
    termination in [glob_correct]; the reader of datasets the length of the file, in
    [dataset_ends]; a replica's loops the number of reads that are still to bring
    something ([Joining]).  [Playing] gives up after a hundred hand-overs at one
    moment, and then fails a test rather than passing it.

    ** What is not modelled, and why

    - Sockets, tasks and their scheduler: bytes come in pieces and go out as a list.
      Interleavings are those of moments at which a lock is held ([Interleaving]);
      in [Dispatch] a command is one moment.  Memory is not bounded.
    - A lock that was poisoned by a panic: the source takes it all the same.
    - What is printed to the log, and the time it takes.
    - Aliasing of handles ([Arc]): one state is passed along, and the two unit tests
      that are about two handles on it are left out.
    - The text of a server's log: the three tests that read it check what makes the
      server print the line.

    ** What a restart and a replica are held to

    [restart_restores], [replica_holds_what_master_held] and those after it are about
    histories of acts, each command finished, recorded and passed on before the next
    ([Histories.act]), and about the keys one is [sure] of ([steady]): nothing is put
    under them with a deadline or with an id from the clock, whose meaning depends on when
    they are replayed, and while elements of their lists are handed over to clients who
    have yet to tell of it, nobody takes from these lists or puts to their front.  Other
    keys may have anything done to them, so long as their deadlines are within what the
    clock of whoever replays it can hold ([until]).  Each of the conditions is needed:
    [auto_id_told_as_star], [handed_over_told_late] and [record_may_cross] are what
    happens otherwise.

    ** What is left

    A statement that relates the clock of a server to that of whoever replays its record
    would take in deadlines and ids from the clock.  [wait_counts_those_that_hold] is
    about a WAIT that has to wait, and not about one that is answered at once. *)
From Stdlib Require Export Strings.Byte ZArith Lia.
From stdpp Require Export gmap strings list option sorting.

Open Scope Z_scope.

(** ** Bytes

    Rust's [u8] is [byte]; [Bytes], [Vec<u8>], [&[u8]] and, under their UTF-8
    encoding, [String] and [&str] are all lists of bytes. *)
Abbreviation Bytes := (list byte).

#[export] Instance byte_eq_decision : EqDecision byte := Byte.byte_eq_dec.

#[export] Program Instance byte_countable : Countable byte :=
  inj_countable' Byte.to_N (fun n => default x00 (Byte.of_N n)) _.
Next Obligation. intros c; cbn. by rewrite Byte.of_to_N. Qed.

(** The bytes of a string literal, as [b"..."] is in the source. *)
Definition lit (s : string) : Bytes := String.list_byte_of_string s.

(** The value of a byte, and the byte of a value taken modulo 256. *)
Definition u8 (c : byte) : Z := Z.of_N (Byte.to_N c).
Definition byte_of (z : Z) : byte :=
  match Byte.of_N (Z.to_N (z mod 256)) with Some c => c | None => x00 end.

Definition CRLF : Bytes := [x0d; x0a].

(** [a == b] on byte strings. *)
Definition beq (x y : Bytes) : bool := bool_decide (x = y).
Notation "x =b? y" := (beq x y) (at level 70, no associativity).

(** The length of a slice, as a [usize]. *)
Definition len {A} (l : list A) : Z := Z.of_nat (length l).

(** The lexicographic order on byte strings, which is [Ord for [u8]]. *)
Fixpoint bytes_lt (x y : Bytes) : bool :=
  match x, y with
  | _, [] => false
  | [], _ :: _ => true
  | c :: x', d :: y' =>
      if (u8 c <? u8 d) then true
      else if (u8 d <? u8 c) then false
      else bytes_lt x' y'
  end.

(** ** Machine integers *)
Definition U8_MAX : Z := 255.
Definition U16_MAX : Z := 65535.
Definition U32_MAX : Z := 4294967295.
Definition U64_MAX : Z := 18446744073709551615.
Definition I64_MAX : Z := 9223372036854775807.
Definition I64_MIN : Z := -9223372036854775808.
(** The server is built for a 64-bit target: [usize] is as wide as [u64]. *)
Definition USIZE_MAX : Z := U64_MAX.
Definition ISIZE_MAX : Z := I64_MAX.

(** Wrapping arithmetic, which is what a release build does with [+] and what
    [fetch_add] does in any build. *)
Definition wrap_u64 (z : Z) : Z := z mod 18446744073709551616.
Definition wrap_u32 (z : Z) : Z := z mod 4294967296.

(** [x as i64] of an unsigned 64-bit number. *)
Definition as_i64 (z : Z) : Z :=
  if z <=? I64_MAX then z else z - 18446744073709551616.

(** ** Results *)
Inductive result (A E : Type) : Type :=
| Ok (a : A)
| Err (e : E).
Arguments Ok {A E} _.
Arguments Err {A E} _.

Definition rbind {A B E} (r : result A E) (k : A -> result B E) : result B E :=
  match r with Ok a => k a | Err e => Err e end.

(** [let x = e?; k], and the same where [e] is an [Option] turned into an
    error by [context], [ok_or] or [ok_or_else]. *)
Notation "'try?' x <- e ; k" := (rbind e (fun x => k))
  (at level 10, x pattern, e at level 100, k at level 200).

Definition ok_or {A E} (o : option A) (e : E) : result A E :=
  match o with Some a => Ok a | None => Err e end.

Definition ok {A E} (r : result A E) : option A :=
  match r with Ok a => Some a | Err _ => None end.

Definition map_err {A E F} (f : E -> F) (r : result A E) : result A F :=
  match r with Ok a => Ok a | Err e => Err (f e) end.

(** A computation that may panic instead of returning. *)
Inductive may (A : Type) : Type :=
| Done (a : A)
| Panic.
Arguments Done {A} _.
Arguments Panic {A}.

Definition mbind_may {A B} (m : may A) (k : A -> may B) : may B :=
  match m with Done a => k a | Panic => Panic end.

(** [iter().map(f).collect::<Result<Vec<_>, _>>()]: the first error wins. *)
Fixpoint collect_results {A B E} (f : A -> result B E) (l : list A) : result (list B) E :=
  match l with
  | [] => Ok []
  | a :: l' => try? x <- f a; try? xs <- collect_results f l'; Ok (x :: xs)
  end.

(** [collect::<Option<Vec<_>>>()]. *)
Fixpoint collect_options {A B} (f : A -> option B) (l : list A) : option (list B) :=
  match l with
  | [] => Some []
  | a :: l' =>
      match f a with
      | Some x => match collect_options f l' with Some xs => Some (x :: xs) | None => None end
      | None => None
      end
  end.

(** [chunks_exact(2)]: pairs, a last odd element left out. *)
Fixpoint pairs_of {A} (l : list A) : list (A * A) :=
  match l with a :: a' :: l' => (a, a') :: pairs_of l' | _ => [] end.

(** [chunks_exact(3)]. *)
Fixpoint triples_of {A} (l : list A) : list (A * A * A) :=
  match l with a :: a' :: a'' :: l' => (a, a', a'') :: triples_of l' | _ => [] end.

(** Settle every comparison of integers the context decides. *)
Ltac decide_leb :=
  repeat match goal with
  | |- context [?a <=? ?b] =>
      first [ replace (a <=? b) with true by (symmetry; apply Z.leb_le; lia)
            | replace (a <=? b) with false by (symmetry; apply Z.leb_gt; lia) ]
  | |- context [?a <? ?b] =>
      first [ replace (a <? b) with true by (symmetry; apply Z.ltb_lt; lia)
            | replace (a <? b) with false by (symmetry; apply Z.ltb_ge; lia) ]
  end; cbn [andb orb negb].

(** ** Facts about bytes *)
Lemma u8_range c : 0 <= u8 c < 256.
Proof.
  unfold u8. pose proof (Byte.to_N_bounded c). lia.
Qed.

Lemma u8_inj c d : u8 c = u8 d -> c = d.
Proof.
  unfold u8. intros H%N2Z.inj.
  assert (Byte.of_N (Byte.to_N c) = Byte.of_N (Byte.to_N d)) as E by by rewrite H.
  rewrite !Byte.of_to_N in E. congruence.
Qed.

Lemma u8_byte_of z : u8 (byte_of z) = z mod 256.
Proof.
  unfold byte_of. pose proof (Z.mod_pos_bound z 256 ltac:(lia)) as Hb.
  destruct (Byte.of_N (Z.to_N (z mod 256))) as [c|] eqn:E.
  - unfold u8. apply Byte.to_of_N in E. rewrite E. lia.
  - apply Byte.of_N_None_iff in E. lia.
Qed.

Lemma beq_true x y : (x =b? y) = true <-> x = y.
Proof. apply bool_decide_eq_true. Qed.

(** Words told apart. *)
Ltac told_apart := repeat match goal with |- context [lit ?a =b? lit ?b] =>
  let r := eval vm_compute in (lit a =b? lit b) in change (lit a =b? lit b) with r end; cbv iota.

Lemma beq_false x y : (x =b? y) = false <-> x <> y.
Proof. apply bool_decide_eq_false. Qed.

Lemma beq_refl x : (x =b? x) = true.
Proof. by apply beq_true. Qed.

(** ** The order on byte strings is a strict total order *)
Lemma bytes_lt_irrefl x : bytes_lt x x = false.
Proof. induction x as [|c x IH]; [done|]. cbn. by rewrite Z.ltb_irrefl. Qed.

Lemma bytes_lt_trans x y z :
  bytes_lt x y = true -> bytes_lt y z = true -> bytes_lt x z = true.
Proof.
  revert y z; induction x as [|c x IH]; intros [|d y] [|e z]; try done.
  cbn. destruct (Z.ltb_spec (u8 c) (u8 d)), (Z.ltb_spec (u8 d) (u8 c)),
    (Z.ltb_spec (u8 d) (u8 e)), (Z.ltb_spec (u8 e) (u8 d)); intros; try done;
    decide_leb; try done. by eapply IH.
Qed.

Lemma bytes_lt_total x y : bytes_lt x y = false -> bytes_lt y x = false -> x = y.
Proof.
  revert y; induction x as [|c x IH]; intros [|d y]; try done.
  cbn. destruct (Z.ltb_spec (u8 c) (u8 d)), (Z.ltb_spec (u8 d) (u8 c)); try done; try lia.
  intros. f_equal; [apply u8_inj; lia|by apply IH].
Qed.

(** ** Facts about results *)
Lemma rbind_Ok {A B E} (r : result A E) (k : A -> result B E) x :
  rbind r k = Ok x <-> exists a, r = Ok a /\ k a = Ok x.
Proof.
  destruct r as [a|e]; cbn; split.
  - intros H. by exists a.
  - by intros (a' & [= ->] & H).
  - done.
  - by intros (a' & ? & _).
Qed.

Lemma ok_Some {A E} (r : result A E) a : ok r = Some a <-> r = Ok a.
Proof. destruct r; cbn; split; congruence. Qed.

Lemma collect_results_map {A B E} (f : A -> result B E) (l : list A) (k : list B) :
  Forall2 (fun a x => f a = Ok x) l k -> collect_results f l = Ok k.
Proof. induction 1 as [|a x l k Ha _ IH]; [done|]. cbn. by rewrite Ha; cbn; rewrite IH. Qed.

Lemma collect_results_Ok {A B E} (f : A -> result B E) (l : list A) (k : list B) :
  collect_results f l = Ok k -> Forall2 (fun a x => f a = Ok x) l k.
Proof.
  revert k; induction l as [|a l IH]; intros k; cbn.
  - intros [= <-]. constructor.
  - intros (x & Hx & (xs & Hxs & [= <-])%rbind_Ok)%rbind_Ok. constructor; auto.
Qed.

Lemma collect_results_nil {A B E} (f : A -> result B E) l : collect_results f l = Ok [] -> l = [].
Proof.
  destruct l as [|a l]; [done|]. cbn. by intros (x & _ & (xs & _ & [=])%rbind_Ok)%rbind_Ok.
Qed.

Lemma collect_results_Err {A B E} (f : A -> result B E) (l : list A) e :
  collect_results f l = Err e -> exists a, f a = Err e.
Proof.
  induction l as [|a l IH]; [done|]. cbn. destruct (f a) eqn:Ef; cbn; [|intros [= <-]; by exists a].
  destruct (collect_results f l); cbn; [done|]. by intros [= <-]; apply IH.
Qed.

Lemma collect_results_ext {A B E} (f g : A -> result B E) (l : list A) :
  (forall a, f a = g a) -> collect_results f l = collect_results g l.
Proof. intros H. induction l as [|a l IH]; [done|]. cbn. by rewrite H, IH. Qed.

(** ** Lists *)
Lemma len_app {A} (l k : list A) : len (l ++ k) = len l + len k.
Proof. unfold len. rewrite length_app. lia. Qed.

Lemma len_nonneg {A} (l : list A) : 0 <= len l.
Proof. unfold len. lia. Qed.

Lemma len_cons {A} (a : A) l : len (a :: l) = len l + 1.
Proof. unfold len. cbn. lia. Qed.

Lemma len_nil {A} : len (@nil A) = 0.
Proof. done. Qed.

(** What [filter] keeps, counted. *)
Lemma filter_length_le {A} (p q : A -> bool) (l : list A) :
  (forall a, a ∈ l -> p a = true -> q a = true) ->
  (length (List.filter p l) <= length (List.filter q l))%nat.
Proof.
  induction l as [|a l IH]; intros H; cbn; [lia|].
  specialize (IH (fun b Hb => H b (list_elem_of_further _ _ _ Hb))).
  specialize (H a (list_elem_of_here _ _)). destruct (p a); [rewrite H by done; cbn; lia|].
  case_match; cbn; lia.
Qed.

Lemma filter_length_lt {A} (p q : A -> bool) (l : list A) :
  (forall a, a ∈ l -> p a = true -> q a = true) ->
  (exists a, a ∈ l /\ p a = false /\ q a = true) ->
  (length (List.filter p l) < length (List.filter q l))%nat.
Proof.
  induction l as [|a l IH]; intros H (b & Hb & Hp & Hq); cbn; [by apply not_elem_of_nil in Hb|].
  assert (Hl : forall b, b ∈ l -> p b = true -> q b = true) by (intros; apply H; [by right|done]).
  apply elem_of_cons in Hb as [<-|Hb].
  - rewrite Hp, Hq. cbn. pose proof (filter_length_le p q l Hl). lia.
  - specialize (IH Hl (ex_intro _ b (conj Hb (conj Hp Hq)))).
    specialize (H a (list_elem_of_here _ _)). destruct (p a); [rewrite H by done; cbn; lia|].
    case_match; cbn; lia.
Qed.

Lemma filter_andb {A} (p q : A -> bool) (l : list A) :
  List.filter p (List.filter q l) = List.filter (fun a => p a && q a) l.
Proof.
  induction l as [|a l IH]; [done|]. cbn. destruct (q a) eqn:Eq; cbn; rewrite ?IH;
    by destruct (p a).
Qed.

Lemma filter_ext_elem {A} (p q : A -> bool) (l : list A) :
  (forall a, a ∈ l -> p a = q a) -> List.filter p l = List.filter q l.
Proof.
  induction l as [|a l IH]; intros H; [done|]. cbn. rewrite H by left.
  rewrite IH by (intros; apply H; by right). done.
Qed.

Lemma StronglySorted_filter {A} (R : relation A) p l :
  StronglySorted R l -> StronglySorted R (List.filter p l).
Proof.
  induction 1 as [|a l Hs IH Ha]; [constructor|]. cbn. destruct (p a); [|done].
  constructor; [done|]. apply Forall_forall. intros b Hb.
  apply list_elem_of_In, List.filter_In in Hb as [Hb _].
  rewrite Forall_forall in Ha. apply Ha. by apply list_elem_of_In.
Qed.

(** ** Binary search

    [slice::partition_point], with the loop of the standard library: [base] is
    where the slice still being searched starts, [size] how long it is. *)
Section PartitionPoint.
Context {A : Type} (pred : A -> bool) (l : list A).

Definition pred_at (i : nat) : bool :=
  match l !! i with Some x => pred x | None => false end.

Fixpoint search (fuel base size : nat) : nat :=
  match fuel with
  | O => base
  | S fuel =>
      if (size <=? 1)%nat then base
      else
        let half := (size / 2)%nat in
        let mid := (base + half)%nat in
        search fuel (if pred_at mid then mid else base) (size - half)
  end.

Definition partition_point : nat :=
  match l with
  | [] => 0%nat
  | _ =>
      let base := search (length l) 0 (length l) in
      if pred_at base then S base else base
  end.

(** In a slice whose first [n] elements satisfy the predicate and whose
    others do not, that is where the search ends. *)
Context (n : nat).
Hypothesis Hn : (n <= length l)%nat.
Hypothesis Hbefore : forall i, (i < n)%nat -> pred_at i = true.
Hypothesis Hafter : forall i, (n <= i)%nat -> pred_at i = false.

Lemma pred_at_boundary i : pred_at i = true <-> (i < n)%nat.
Proof.
  split; [|apply Hbefore]. intros H. destruct (decide (n <= i)%nat); [|lia].
  rewrite Hafter in H by done. done.
Qed.

Lemma search_spec fuel base size :
  (size <= fuel)%nat -> (0 < size)%nat -> (base = 0 \/ base < n)%nat -> (n <= base + size)%nat ->
  let b := search fuel base size in (b = 0 \/ b < n)%nat /\ (n <= b + 1)%nat.
Proof.
  revert base size; induction fuel as [|fuel IH]; intros base size Hf Hs Hb Hr; [lia|].
  cbn [search]. cbv zeta. destruct (Nat.leb_spec size 1); [split; [done|lia]|].
  assert (0 < size / 2)%nat by (apply Nat.div_str_pos; lia).
  assert (size / 2 < size)%nat by (apply Nat.div_lt; lia).
  destruct (pred_at (base + size / 2)) eqn:E.
  - apply pred_at_boundary in E. apply IH; [lia|lia|lia|lia].
  - assert (~ (base + size / 2 < n)%nat) by (rewrite <- pred_at_boundary; congruence).
    apply IH; [lia|lia|done|].
    assert (size / 2 <= size - size / 2)%nat by (pose proof (Nat.Div0.div_mod size 2);
      pose proof (Nat.mod_upper_bound size 2 ltac:(lia)); lia). lia.
Qed.

Lemma partition_point_spec : partition_point = n.
Proof.
  destruct (decide (l = [])) as [Hnil|Hne].
  - assert (n = 0%nat) as -> by (rewrite Hnil in Hn; cbn in Hn; lia).
    unfold partition_point. by rewrite Hnil.
  - assert (partition_point = let base := search (length l) 0 (length l) in
                              if pred_at base then S base else base) as ->
      by (unfold partition_point; by destruct l).
    assert (0 < length l)%nat by (destruct l; [done|cbn; lia]).
    destruct (search_spec (length l) 0 (length l)) as [Hb Hr]; [lia|done|by left|lia|].
    cbn zeta. destruct (pred_at _) eqn:E.
    + apply pred_at_boundary in E. lia.
    + assert (~ (search (length l) 0 (length l) < n)%nat)
        by (rewrite <- pred_at_boundary; congruence). lia.
Qed.
End PartitionPoint.

(** In a sorted slice, a predicate that holds of everything before an element it
    holds of cuts the slice in two, and the search finds where. *)
Section SortedPartition.
Context {A : Type} (R : relation A) (pred : A -> bool).
Hypothesis Hdown : forall a b, R a b -> pred b = true -> pred a = true.

Lemma sorted_split l :
  StronglySorted R l -> l = List.filter pred l ++ List.filter (fun a => negb (pred a)) l.
Proof.
  induction 1 as [|a l Hs IH Ha]; [done|]. cbn. destruct (pred a) eqn:E; cbn; [by f_equal|].
  assert (forall b, b ∈ l -> pred b = false) as Hall.
  { intros b Hb. destruct (pred b) eqn:Eb; [|done]. rewrite Forall_forall in Ha.
    rewrite (Hdown a b) in E by auto. done. }
  assert (List.filter pred l = []) as ->.
  { clear -Hall. induction l as [|b l IH]; [done|]. cbn. rewrite Hall by set_solver.
    apply IH. set_solver. }
  cbn. f_equal. clear -Hall. induction l as [|b l IH]; [done|]. cbn.
  rewrite Hall by set_solver. cbn. f_equal. apply IH. set_solver.
Qed.

Lemma partition_point_sorted l :
  StronglySorted R l -> partition_point pred l = length (List.filter pred l).
Proof.
  intros Hs. pose proof (sorted_split l Hs) as E. apply partition_point_spec.
  - rewrite E at 2. rewrite length_app. lia.
  - intros i Hi. unfold pred_at. rewrite E, lookup_app_l by done.
    destruct (lookup_lt_is_Some_2 _ _ Hi) as [a Ha]. rewrite Ha.
    apply list_elem_of_lookup_2, list_elem_of_In, List.filter_In in Ha. tauto.
  - intros i Hi. unfold pred_at. rewrite E, lookup_app_r by done.
    destruct (_ !! _) as [a|] eqn:Ha; [|done].
    apply list_elem_of_lookup_2, list_elem_of_In, List.filter_In in Ha as [_ Ha].
    by destruct (pred a).
Qed.

Lemma partition_take l :
  StronglySorted R l -> take (partition_point pred l) l = List.filter pred l.
Proof.
  intros Hs. rewrite partition_point_sorted by done.
  rewrite (sorted_split l Hs) at 2. apply take_app_length.
Qed.

Lemma partition_drop l :
  StronglySorted R l ->
  drop (partition_point pred l) l = List.filter (fun a => negb (pred a)) l.
Proof.
  intros Hs. rewrite partition_point_sorted by done.
  rewrite (sorted_split l Hs) at 2. apply drop_app_length.
Qed.
End SortedPartition.

(** ** Automation shared by the files below *)
Create HintDb server.
Create Rewrite HintDb server.
#[export] Hint Resolve len_nonneg u8_range beq_refl : server.
#[export] Hint Rewrite @len_app @len_cons @len_nil : server.

(** Split every boolean test on byte strings in sight. *)
Ltac beq_cases :=
  repeat match goal with
  | H : context [beq ?x ?y] |- _ =>
      let E := fresh "Hbeq" in
      destruct (beq x y) eqn:E; [apply beq_true in E|apply beq_false in E]
  | |- context [beq ?x ?y] =>
      let E := fresh "Hbeq" in
      destruct (beq x y) eqn:E; [apply beq_true in E|apply beq_false in E]
  end.
