(* ===== verification/Text.v ===== *)
(** * Text: what the server uses of Rust's strings and integers

    Rust's standard library, as far as the source uses it: UTF-8 validation
    ([str::from_utf8], [String::from_utf8_lossy]), ASCII and Unicode case
    mapping, [split_once], [split_whitespace], [lines], and the reading and
    writing of decimal integers ([str::parse], [to_string]).  [text] is the
    helper of that name in src/src/commands/mod.rs.

    The theorems are the round trip between [to_string] and [parse] and the
    facts about ASCII text every command relies on. *)
From S2P Require Import Prelude.
Open Scope Z_scope.

(** ** UTF-8 *)
Definition in_range (lo : Z) (c : byte) (hi : Z) : bool := (lo <=? u8 c) && (u8 c <=? hi).

(** A continuation byte. *)
Definition cont (c : byte) : bool := in_range 0x80 c 0xBF.

(** The second byte a three- or four-byte character may have after its first. *)
Definition second3 (c d : byte) : bool :=
  if u8 c =? 0xE0 then in_range 0xA0 d 0xBF
  else if u8 c =? 0xED then in_range 0x80 d 0x9F
  else cont d.
Definition second4 (c d : byte) : bool :=
  if u8 c =? 0xF0 then in_range 0x90 d 0xBF
  else if u8 c =? 0xF4 then in_range 0x80 d 0x8F
  else cont d.

(** What the validator makes of the next character: its width, or how many
    bytes are at fault ([None]: the input ends inside a character). *)
Inductive Utf8Step : Type :=
| Valid (width : nat)
| Invalid (error_len : option nat).

Definition utf8_step (c : byte) (rest : Bytes) : Utf8Step :=
  if u8 c <? 0x80 then Valid 1
  else if in_range 0xC2 c 0xDF then
    match rest with
    | [] => Invalid None
    | d :: _ => if cont d then Valid 2 else Invalid (Some 1%nat)
    end
  else if in_range 0xE0 c 0xEF then
    match rest with
    | [] => Invalid None
    | d :: rest =>
        if second3 c d then
          match rest with
          | [] => Invalid None
          | e :: _ => if cont e then Valid 3 else Invalid (Some 2%nat)
          end
        else Invalid (Some 1%nat)
    end
  else if in_range 0xF0 c 0xF4 then
    match rest with
    | [] => Invalid None
    | d :: rest =>
        if second4 c d then
          match rest with
          | [] => Invalid None
          | e :: rest =>
              if cont e then
                match rest with
                | [] => Invalid None
                | f :: _ => if cont f then Valid 4 else Invalid (Some 3%nat)
                end
              else Invalid (Some 2%nat)
          end
        else Invalid (Some 1%nat)
    end
  else Invalid (Some 1%nat).

Record Utf8Error := { valid_up_to : nat; error_len : option nat }.

(** Each character takes at least one byte, so as many rounds as there are
    bytes are enough. *)
Fixpoint utf8_check (fuel : nat) (from : nat) (s : Bytes) : option Utf8Error :=
  match fuel, s with
  | _, [] => None
  | O, _ => None
  | S fuel, c :: rest =>
      match utf8_step c rest with
      | Valid n => utf8_check fuel (from + n) (drop n s)
      | Invalid e => Some {| valid_up_to := from; error_len := e |}
      end
  end.

(** [str::from_utf8]. *)
Definition from_utf8 (s : Bytes) : result Bytes Utf8Error :=
  match utf8_check (length s) 0 s with
  | None => Ok s
  | Some e => Err e
  end.

(** U+FFFD, which [from_utf8_lossy] puts in place of what is not text. *)
Definition REPLACEMENT : Bytes := [xef; xbf; xbd].

Fixpoint lossy (fuel : nat) (s : Bytes) : Bytes :=
  match fuel, s with
  | _, [] => []
  | O, _ => []
  | S fuel, c :: rest =>
      match utf8_step c rest with
      | Valid n => take n s ++ lossy fuel (drop n s)
      | Invalid None => REPLACEMENT
      | Invalid (Some n) => REPLACEMENT ++ lossy fuel (drop n s)
      end
  end.

(** [String::from_utf8_lossy]. *)
Definition from_utf8_lossy (s : Bytes) : Bytes := lossy (length s) s.

(** Reads an argument as text. *)
Definition text (argument : Bytes) : option Bytes := ok (from_utf8 argument).

(** [byte as char], written out: the Latin-1 character of that number. *)
Definition char_of_byte (c : byte) : Bytes :=
  if u8 c <? 0x80 then [c]
  else [byte_of (0xC0 + u8 c / 64); byte_of (0x80 + u8 c mod 64)].

(** ** Case *)
Definition is_ascii (s : Bytes) : bool := forallb (fun c => u8 c <? 0x80) s.

Definition ascii_upper (c : byte) : byte :=
  if in_range 0x61 c 0x7A then byte_of (u8 c - 32) else c.
Definition ascii_lower (c : byte) : byte :=
  if in_range 0x41 c 0x5A then byte_of (u8 c + 32) else c.

Definition to_ascii_lowercase (s : Bytes) : Bytes := map ascii_lower s.
Definition eq_ignore_ascii_case (x y : Bytes) : bool :=
  to_ascii_lowercase x =b? to_ascii_lowercase y.

(** The tables of the Unicode standard the standard library is built with: how
    a text holding characters outside ASCII is mapped.  Nothing is assumed of
    them. *)
Class UnicodeTables := {
  unicode_upper : Bytes -> Bytes;
  unicode_lower : Bytes -> Bytes;
}.

(** [str::to_uppercase] and [str::to_lowercase]. *)
Definition to_uppercase `{UnicodeTables} (s : Bytes) : Bytes :=
  if is_ascii s then map ascii_upper s else unicode_upper s.
Definition to_lowercase `{UnicodeTables} (s : Bytes) : Bytes :=
  if is_ascii s then map ascii_lower s else unicode_lower s.

(** ** Cutting text up *)

(** [split_once(c)] for an ASCII character. *)
Fixpoint split_once (c : byte) (s : Bytes) : option (Bytes * Bytes) :=
  match s with
  | [] => None
  | d :: s' =>
      if bool_decide (c = d) then Some ([], s')
      else match split_once c s' with
           | Some (before, after) => Some (d :: before, after)
           | None => None
           end
  end.

(** [strip_prefix]. *)
Fixpoint strip_prefix (p s : Bytes) : option Bytes :=
  match p, s with
  | [], _ => Some s
  | c :: p', d :: s' => if bool_decide (c = d) then strip_prefix p' s' else None
  | _ :: _, [] => None
  end.

Definition starts_with (p s : Bytes) : bool :=
  match strip_prefix p s with Some _ => true | None => false end.

(** The width in bytes of the character of the Unicode property [White_Space]
    the text starts with, or 0. *)
Definition whitespace_width (s : Bytes) : nat :=
  match s with
  | [] => 0
  | c :: rest =>
      if in_range 0x09 c 0x0D || (u8 c =? 0x20) then 1%nat
      else match rest with
           | [] => 0%nat
           | d :: rest =>
               if (u8 c =? 0xC2) && ((u8 d =? 0x85) || (u8 d =? 0xA0)) then 2%nat
               else match rest with
                    | [] => 0%nat
                    | e :: _ =>
                        let code := (u8 c * 65536 + u8 d * 256 + u8 e) in
                        if (code =? 0xE19A80) || ((0xE28080 <=? code) && (code <=? 0xE2808A))
                           || (code =? 0xE280A8) || (code =? 0xE280A9) || (code =? 0xE280AF)
                           || (code =? 0xE2819F) || (code =? 0xE38080)
                        then 3%nat else 0%nat
                    end
           end
  end.

(** [split_whitespace]: [word] is the word being gathered, last byte first. *)
Fixpoint split_words (fuel : nat) (word : Bytes) (s : Bytes) : list Bytes :=
  let close := match word with [] => [] | _ => [rev word] end in
  match fuel, s with
  | _, [] => close
  | O, _ => close
  | S fuel, c :: rest =>
      match whitespace_width s with
      | O => split_words fuel (c :: word) rest
      | n => close ++ split_words fuel [] (drop n s)
      end
  end.
Definition split_whitespace (s : Bytes) : list Bytes := split_words (length s) [] s.

(** [lines]: cut at each newline, a carriage return before it going with it,
    and no empty last line. *)
Definition strip_cr (word : Bytes) : Bytes :=
  match word with x0d :: w => rev w | w => rev w end.
Fixpoint split_lines (line : Bytes) (s : Bytes) : list Bytes :=
  match s with
  | [] => match line with [] => [] | _ => [rev line] end
  | x0a :: s' => strip_cr line :: split_lines [] s'
  | c :: s' => split_lines (c :: line) s'
  end.
Definition lines (s : Bytes) : list Bytes := split_lines [] s.

(** [trim_end_matches(c)]. *)
Fixpoint drop_while_byte (c : byte) (s : Bytes) : Bytes :=
  match s with
  | d :: s' => if bool_decide (c = d) then drop_while_byte c s' else s
  | [] => []
  end.
Definition trim_end_matches (c : byte) (s : Bytes) : Bytes :=
  rev (drop_while_byte c (rev s)).

(** ** Decimal integers *)
Inductive IntErrorKind : Type := Empty | InvalidDigit | PosOverflow | NegOverflow.

Definition digit (d : Z) : byte := byte_of (48 + d).
Definition to_digit (c : byte) : option Z :=
  if in_range 48 c 57 then Some (u8 c - 48) else None.

(** The loop of [from_str_radix]: [sign] is 1 or -1.  A digit is looked at
    before the overflow of what came before it is reported. *)
Fixpoint accumulate (sign lo hi : Z) (acc : Z) (s : Bytes) : result Z IntErrorKind :=
  let overflow := if sign =? 1 then PosOverflow else NegOverflow in
  let checked z := if (lo <=? z) && (z <=? hi) then Some z else None in
  match s with
  | [] => Ok acc
  | c :: s' =>
      try? x <- ok_or (to_digit c) InvalidDigit;
      try? multiplied <- ok_or (checked (acc * 10)) overflow;
      try? added <- ok_or (checked (multiplied + sign * x)) overflow;
      accumulate sign lo hi added s'
  end.

Definition plus_sign : byte := "+".
Definition minus_sign : byte := "-".

(** [str::parse] into an integer type of the given range: unsigned types take
    no minus sign. *)
Definition parse_int (lo hi : Z) (s : Bytes) : result Z IntErrorKind :=
  match s with
  | [] => Err Empty
  | c :: ds =>
      if bool_decide (c = plus_sign) then
        match ds with [] => Err InvalidDigit | _ => accumulate 1 lo hi 0 ds end
      else if bool_decide (c = minus_sign) then
        match ds with
        | [] => Err InvalidDigit
        | _ => if lo <? 0 then accumulate (-1) lo hi 0 ds else Err InvalidDigit
        end
      else accumulate 1 lo hi 0 s
  end.

Definition parse_u16 := parse_int 0 U16_MAX.
Definition parse_u64 := parse_int 0 U64_MAX.
Definition parse_usize := parse_int 0 USIZE_MAX.
Definition parse_i64 := parse_int I64_MIN I64_MAX.

(** Digits of a number not below zero, in front of [tail]. *)
Fixpoint show_loop (fuel : nat) (n : Z) (tail : Bytes) : Bytes :=
  match fuel with
  | O => tail
  | S fuel =>
      if n <? 10 then digit n :: tail
      else show_loop fuel (n / 10) (digit (n mod 10) :: tail)
  end.
Definition show_nat_fuel (n : Z) : nat := S (Z.to_nat (Z.log2 n)).
Definition show_unsigned (n : Z) : Bytes := show_loop (show_nat_fuel n) n [].

(** [to_string] of an integer. *)
Definition show (n : Z) : Bytes :=
  if n <? 0 then minus_sign :: show_unsigned (- n) else show_unsigned n.

(** ** [to_string] and [parse] *)
Lemma to_digit_digit d : 0 <= d < 10 -> to_digit (digit d) = Some d.
Proof.
  intros Hd. unfold to_digit, digit, in_range.
  rewrite u8_byte_of, Z.mod_small by lia.
  destruct (Z.leb_spec 48 (48 + d)), (Z.leb_spec (48 + d) 57); cbn; try lia.
  f_equal; lia.
Qed.

Lemma digit_not_sign d : 0 <= d < 10 -> digit d <> plus_sign /\ digit d <> minus_sign.
Proof.
  intros Hd; split; intros E; apply (f_equal u8) in E; revert E;
    unfold digit; rewrite u8_byte_of, Z.mod_small by lia; cbn; lia.
Qed.

Lemma show_fuel_enough n : 0 <= n -> n < 10 ^ Z.of_nat (show_nat_fuel n).
Proof.
  intros Hn. unfold show_nat_fuel. rewrite Nat2Z.inj_succ, Z2Nat.id by apply Z.log2_nonneg.
  destruct (decide (n = 0)) as [->|Hz]; [cbn; lia|].
  destruct (Z.log2_spec n ltac:(lia)) as [_ Hl].
  eapply Z.lt_le_trans; [exact Hl|].
  apply Z.pow_le_mono_l. lia.
Qed.

Lemma accumulate_show_loop sign lo hi fuel n tail :
  sign = 1 \/ sign = -1 ->
  0 <= n < 10 ^ Z.of_nat fuel ->
  lo <= 0 <= hi -> lo <= sign * n <= hi ->
  fuel <> O ->
  accumulate sign lo hi 0 (show_loop fuel n tail) = accumulate sign lo hi (sign * n) tail.
Proof.
  intros Hs. revert n tail; induction fuel as [|fuel IH]; intros n tail Hn Hr Hb Hf; [done|].
  cbn [show_loop]. destruct (Z.ltb_spec n 10).
  - cbn [accumulate]. rewrite to_digit_digit by lia. cbn [ok_or rbind].
    change (0 * 10) with 0. decide_leb. cbn [andb ok_or rbind].
    rewrite Z.add_0_l. decide_leb. done.
  - assert (Hdm := Z.div_mod n 10 ltac:(lia)).
    assert (Hm := Z.mod_pos_bound n 10 ltac:(lia)).
    rewrite Nat2Z.inj_succ, Z.pow_succ_r in Hn by lia.
    assert (1 <= n / 10) by (apply Z.div_le_lower_bound; lia).
    rewrite IH; cycle 1.
    + split; [lia|]. apply Z.div_lt_upper_bound; lia.
    + done.
    + destruct Hs; subst sign; lia.
    + intros ->. cbn in Hn. lia.
    + cbn [accumulate]. rewrite to_digit_digit by lia. cbn [ok_or rbind].
      assert (lo <= sign * (n / 10) * 10 <= hi) by (destruct Hs; subst sign; lia).
      decide_leb. cbn [ok_or rbind].
      replace (sign * (n / 10) * 10 + sign * (n mod 10)) with (sign * n) by (destruct Hs; subst sign; lia).
      decide_leb. done.
Qed.

Lemma show_loop_cons fuel n tail :
  fuel <> O -> 0 <= n -> exists d ds, 0 <= d < 10 /\ show_loop fuel n tail = digit d :: ds.
Proof.
  revert n tail; induction fuel as [|fuel IH]; intros n tail Hf Hn; [done|].
  cbn [show_loop]. destruct (Z.ltb_spec n 10).
  - exists n, tail. split; [lia|done].
  - destruct fuel as [|fuel].
    + exists (n mod 10), tail. split; [apply Z.mod_pos_bound; lia|done].
    + apply IH; [done|]. apply Z.div_pos; lia.
Qed.

Lemma show_unsigned_cons n : 0 <= n -> exists d ds, 0 <= d < 10 /\ show_unsigned n = digit d :: ds.
Proof. intros. by apply show_loop_cons. Qed.

(** What [to_string] writes, [parse] reads back. *)
Lemma parse_show lo hi n :
  lo <= 0 <= hi -> lo <= n <= hi -> parse_int lo hi (show n) = Ok n.
Proof.
  intros Hr Hn. unfold show. destruct (Z.ltb_spec n 0).
  - unfold parse_int. rewrite bool_decide_false by done. rewrite bool_decide_true by done.
    destruct (show_unsigned_cons (- n)) as (d & ds & Hd & E); [lia|].
    rewrite E. destruct (Z.ltb_spec lo 0); [|lia]. rewrite <- E.
    pose proof (show_fuel_enough (- n) ltac:(lia)).
    unfold show_unsigned. rewrite accumulate_show_loop;
      [cbn [accumulate]; f_equal; lia|auto|split; [lia|done]|lia|lia|done].
  - destruct (show_unsigned_cons n) as (d & ds & Hd & E); [lia|].
    unfold parse_int. rewrite E.
    destruct (digit_not_sign d Hd) as [Hp Hm].
    rewrite !bool_decide_false by done. rewrite <- E.
    pose proof (show_fuel_enough n ltac:(lia)).
    unfold show_unsigned. rewrite accumulate_show_loop;
      [cbn [accumulate]; f_equal; lia|auto|split; [lia|done]|lia|lia|done].
Qed.

(** What [parse] reads fits the type it reads into. *)
Lemma accumulate_range sign lo hi acc s n :
  lo <= acc <= hi -> accumulate sign lo hi acc s = Ok n -> lo <= n <= hi.
Proof.
  revert acc; induction s as [|c s IH]; intros acc Ha; cbn [accumulate]; [by intros [= <-]|].
  intros (x & _ & (m & _ & (a & Hok & H)%rbind_Ok)%rbind_Ok)%rbind_Ok.
  apply (IH a); [|done].
  destruct (Z.leb_spec lo (m + sign * x)), (Z.leb_spec (m + sign * x) hi); cbn in Hok; try done.
  injection Hok as <-. lia.
Qed.

Lemma parse_int_range lo hi s n :
  lo <= 0 <= hi -> parse_int lo hi s = Ok n -> lo <= n <= hi.
Proof.
  intros Hr. unfold parse_int. repeat case_match; try done; by apply accumulate_range.
Qed.

Lemma show_inj lo hi n m :
  lo <= 0 <= hi -> lo <= n <= hi -> lo <= m <= hi -> show n = show m -> n = m.
Proof.
  intros Hr Hn Hm E.
  assert (parse_int lo hi (show n) = parse_int lo hi (show m)) as H by by rewrite E.
  rewrite !parse_show in H by done. congruence.
Qed.

(** ** ASCII text *)
Lemma is_ascii_cons c s : is_ascii (c :: s) = (u8 c <? 0x80) && is_ascii s.
Proof. done. Qed.

Lemma is_ascii_app s t : is_ascii (s ++ t) = is_ascii s && is_ascii t.
Proof. apply forallb_app. Qed.

Lemma utf8_check_ascii fuel from s : is_ascii s = true -> utf8_check fuel from s = None.
Proof.
  revert fuel from; induction s as [|c s IH]; intros [|fuel] from; try done.
  rewrite is_ascii_cons, andb_true_iff. intros [Hc Hs].
  cbn. unfold utf8_step. rewrite Hc. cbn. by apply IH.
Qed.

Lemma from_utf8_ascii s : is_ascii s = true -> from_utf8 s = Ok s.
Proof. intros H. unfold from_utf8. by rewrite utf8_check_ascii. Qed.

Lemma text_ascii s : is_ascii s = true -> text s = Some s.
Proof. intros H. unfold text. by rewrite from_utf8_ascii. Qed.

Lemma digit_ascii d : 0 <= d < 10 -> (u8 (digit d) <? 0x80) = true.
Proof. intros. unfold digit. rewrite u8_byte_of, Z.mod_small by lia. apply Z.ltb_lt; lia. Qed.

Lemma show_loop_ascii fuel n tail :
  0 <= n -> is_ascii tail = true -> is_ascii (show_loop fuel n tail) = true.
Proof.
  revert n tail; induction fuel as [|fuel IH]; intros n tail Hn Ht; [done|].
  cbn [show_loop]. destruct (Z.ltb_spec n 10).
  - rewrite is_ascii_cons, Ht, digit_ascii by lia. done.
  - apply IH; [apply Z.div_pos; lia|].
    rewrite is_ascii_cons, Ht, digit_ascii by (apply Z.mod_pos_bound; lia). done.
Qed.

Lemma show_ascii n : is_ascii (show n) = true.
Proof.
  unfold show. destruct (Z.ltb_spec n 0).
  - rewrite is_ascii_cons. change (is_ascii (show_unsigned (- n)) = true).
    apply show_loop_ascii; [lia|done].
  - apply show_loop_ascii; [lia|done].
Qed.

Lemma text_show n : text (show n) = Some (show n).
Proof. apply text_ascii, show_ascii. Qed.

Lemma text_id s t : text s = Some t -> t = s.
Proof. unfold text, from_utf8. by case_match; cbn; intros [= ->]. Qed.

#[export] Hint Resolve show_ascii : server.
#[export] Hint Rewrite text_show : server.

Lemma ascii_upper_ascii c : (u8 c <? 0x80) = true -> (u8 (ascii_upper c) <? 0x80) = true.
Proof.
  unfold ascii_upper, in_range. intros Hc.
  destruct (Z.leb_spec 0x61 (u8 c)), (Z.leb_spec (u8 c) 0x7A); cbn; try done.
  rewrite u8_byte_of, Z.mod_small by lia. apply Z.ltb_lt; lia.
Qed.

Lemma split_once_app c s t :
  c ∉ s -> split_once c (s ++ c :: t) = Some (s, t).
Proof.
  induction s as [|d s IH]; intros Hs; cbn.
  - by rewrite bool_decide_true.
  - apply not_elem_of_cons in Hs as [Hd Hs]. rewrite bool_decide_false by done.
    by rewrite IH.
Qed.

Lemma split_once_Some c s x y : split_once c s = Some (x, y) -> s = x ++ c :: y /\ c ∉ x.
Proof.
  revert x y; induction s as [|d s IH]; intros x y; cbn; [done|].
  case_bool_decide as Hc.
  - intros [= <- <-]. subst. split; [done|]. apply not_elem_of_nil.
  - destruct (split_once c s) as [[x' y']|] eqn:E; [|done]. intros [= <- <-].
    destruct (IH x' y' eq_refl) as [-> Hx]. split; [done|].
    by apply not_elem_of_cons.
Qed.

Lemma split_once_None c s : split_once c s = None -> c ∉ s.
Proof.
  induction s as [|d s IH]; cbn; [intros _; apply not_elem_of_nil|].
  case_bool_decide as Hc; [done|].
  destruct (split_once c s) as [[x' y']|]; [done|]. intros _.
  apply not_elem_of_cons; split; [done|by apply IH].
Qed.

Lemma strip_prefix_app p s : strip_prefix p (p ++ s) = Some s.
Proof. induction p as [|c p IH]; cbn; [done|]. by rewrite bool_decide_true. Qed.

Lemma strip_prefix_Some p s t : strip_prefix p s = Some t -> s = p ++ t.
Proof.
  revert s; induction p as [|c p IH]; intros [|d s]; cbn; try congruence.
  case_bool_decide; [|done]. intros H'. subst. f_equal. by apply IH.
Qed.

(** A digit string holds neither a dash nor a line break. *)
Lemma show_unsigned_free n c : 0 <= n -> to_digit c = None -> c ∉ show_unsigned n.
Proof.
  intros Hn Hc. unfold show_unsigned.
  generalize (show_nat_fuel n); intros fuel.
  assert (c ∉ @nil byte) as Ht by apply not_elem_of_nil. revert Ht.
  generalize (@nil byte); intros tail. revert n Hn tail.
  induction fuel as [|fuel IH]; intros n Hn tail Ht; [done|].
  assert (forall d, 0 <= d < 10 -> c ∉ digit d :: tail) as Hd.
  { intros d Hd. apply not_elem_of_cons; split; [|done].
    intros ->. by rewrite to_digit_digit in Hc. }
  cbn [show_loop]. destruct (Z.ltb_spec n 10).
  - apply Hd; lia.
  - apply IH; [apply Z.div_pos; lia|]. apply Hd. apply Z.mod_pos_bound; lia.
Qed.
