(* ===== verification/Resp.v ===== *)
(** * The wire protocol: src/src/resp.rs

    [Value] is the enum of that name, [encode] is [Value::encode], and [parse]
    is the free function [parse] with the methods of [Parser].  The parser of
    the source keeps its input and a position; here it keeps what is left of
    the input, and [parse] works out how much was taken.

    The theorems: what is encoded is read back once it is all there, whatever
    follows it, and waited for until then ([parse_encode]); an answer, value or refusal, does not change when more
    bytes arrive ([parse_stable]); and whatever is read takes up bytes, nests no
    deeper than the limit, and can be encoded and read again ([parse_sound]). *)
From S2P Require Import Prelude Text.
Open Scope Z_scope.

(** The largest bulk string, and how deeply values may nest. *)
Definition MAX_BULK_LENGTH : Z := 512 * 1024 * 1024.
Definition MAX_DEPTH : nat := 8.

#[warnings="-register-all"]
Inductive Value : Type :=
| SimpleString (s : Bytes)
| Error (s : Bytes)
| Integer (n : Z)
| BulkString (s : Bytes)
| Array (values : list Value)
| Null
| NullArray
| File (s : Bytes)
| Sequence (values : list Value).

(** Induction that goes under the lists of values. *)
Section value_ind.
Variable P : Value -> Prop.
Hypothesis HS : forall s, P (SimpleString s).
Hypothesis HE : forall s, P (Error s).
Hypothesis HI : forall n, P (Integer n).
Hypothesis HB : forall s, P (BulkString s).
Hypothesis HA : forall l, Forall P l -> P (Array l).
Hypothesis HN : P Null.
Hypothesis HNA : P NullArray.
Hypothesis HF : forall s, P (File s).
Hypothesis HQ : forall l, Forall P l -> P (Sequence l).

Fixpoint value_ind' (v : Value) : P v :=
  let all := fix all (l : list Value) : Forall P l :=
    match l with
    | [] => Forall_nil_2 P
    | v :: l => Forall_cons_2 P v l (value_ind' v) (all l)
    end in
  match v with
  | SimpleString s => HS s
  | Error s => HE s
  | Integer n => HI n
  | BulkString s => HB s
  | Array l => HA l (all l)
  | Null => HN
  | NullArray => HNA
  | File s => HF s
  | Sequence l => HQ l (all l)
  end.
End value_ind.

Definition is_error (v : Value) : bool := match v with Error _ => true | _ => false end.

(** ** Writing *)
Fixpoint encode (v : Value) : Bytes :=
  match v with
  | SimpleString s => lit "+" ++ s ++ CRLF
  | Error s => lit "-" ++ s ++ CRLF
  | Integer n => lit ":" ++ show n ++ CRLF
  | BulkString s => lit "$" ++ show (len s) ++ CRLF ++ s ++ CRLF
  | Array values => lit "*" ++ show (len values) ++ CRLF ++ flat_map encode values
  | Null => lit "$-1" ++ CRLF
  | NullArray => lit "*-1" ++ CRLF
  | File s => lit "$" ++ show (len s) ++ CRLF ++ s
  | Sequence values => flat_map encode values
  end.

(** ** Reading *)
Inductive ParseError : Type :=
| EmptyFrame
| UnknownType (kind : byte)
| NotText (e : Utf8Error)
| NotANumber (e : IntErrorKind)
| InvalidBulkLength
| NestedTooDeeply.

(** Consumes up to the next CRLF: the bytes before it and what is left. *)
Fixpoint line (rest : Bytes) : option (Bytes * Bytes) :=
  match rest with
  | [] => None
  | c :: tail =>
      match tail with
      | [] => None
      | d :: after =>
          if bool_decide ([c; d] = CRLF) then Some ([], after)
          else match line tail with
               | Some (before, after) => Some (c :: before, after)
               | None => None
               end
      end
  end.

(** [text], which only the sizes and the server's own replies are read with. *)
Definition as_text (s : Bytes) : result Bytes ParseError := map_err NotText (from_utf8 s).

Definition number_of (parser : Bytes -> result Z IntErrorKind) (payload : Bytes)
  : result Z ParseError :=
  try? t <- as_text payload; map_err NotANumber (parser t).

Definition Parsed : Type := result (option (Value * Bytes)) ParseError.

Definition bulk_string (payload rest : Bytes) : Parsed :=
  try? n <- number_of parse_usize payload;
  if MAX_BULK_LENGTH <? n then Err InvalidBulkLength
  else if len rest <? n + 2 then Ok None
  else Ok (Some (BulkString (take (Z.to_nat n) rest), drop (Z.to_nat n + 2) rest)).

(** The loop of [Parser::array].  [values] is what has been pushed so far, the
    last first.  An element takes at least one byte, so as many rounds as
    there are bytes left are enough: [elements_fuel]. *)
Fixpoint elements (element : Bytes -> Parsed) (fuel : nat) (n : Z)
    (values : list Value) (rest : Bytes) : Parsed :=
  if n <=? 0 then Ok (Some (Array (rev values), rest))
  else match fuel with
       | O => Ok None
       | S fuel =>
           try? r <- element rest;
           match r with
           | None => Ok None
           | Some (v, rest') => elements element fuel (n - 1) (v :: values) rest'
           end
       end.

(** [Parser::value] and [Parser::array].  [room] is how many more arrays a
    value may be inside: [MAX_DEPTH] less the source's [depth]. *)
Fixpoint value (room : nat) (rest : Bytes) : Parsed :=
  match line rest with
  | None => Ok None
  | Some ([], _) => Err EmptyFrame
  | Some (kind :: payload, rest') =>
      if bool_decide (kind = "+"%byte) then
        try? t <- as_text payload; Ok (Some (SimpleString t, rest'))
      else if bool_decide (kind = "-"%byte) then
        try? t <- as_text payload; Ok (Some (Error t, rest'))
      else if bool_decide (kind = ":"%byte) then
        try? n <- number_of parse_i64 payload; Ok (Some (Integer n, rest'))
      else if bool_decide (kind = "$"%byte) then bulk_string payload rest'
      else if bool_decide (kind = "*"%byte) then
        match room with
        | O => Err NestedTooDeeply
        | S room =>
            try? n <- number_of parse_usize payload;
            elements (value room) (length rest') n [] rest'
        end
      else Err (UnknownType kind)
  end.

(** Parses the value at the start of [input], with the number of bytes it
    occupied.  [Ok None]: the caller should read more and try again. *)
Definition parse (input : Bytes) : result (option (Value * Z)) ParseError :=
  try? r <- value MAX_DEPTH input;
  Ok (match r with
      | None => None
      | Some (v, rest) => Some (v, len input - len rest)
      end).

(** ** How an error reads, once [anyhow] has written it out *)
Definition show_utf8_error (e : Utf8Error) : Bytes :=
  match error_len e with
  | Some n => lit "invalid utf-8 sequence of " ++ show (Z.of_nat n)
                ++ lit " bytes from index " ++ show (Z.of_nat (valid_up_to e))
  | None => lit "incomplete utf-8 byte sequence from index "
                ++ show (Z.of_nat (valid_up_to e))
  end.
Definition show_int_error (e : IntErrorKind) : Bytes :=
  match e with
  | Empty => lit "cannot parse integer from empty string"
  | InvalidDigit => lit "invalid digit found in string"
  | PosOverflow => lit "number too large to fit in target type"
  | NegOverflow => lit "number too small to fit in target type"
  end.
Definition show_parse_error (e : ParseError) : Bytes :=
  match e with
  | EmptyFrame => lit "empty frame"
  | UnknownType kind => lit "unknown type byte '" ++ char_of_byte kind ++ lit "'"
  | NotText e => show_utf8_error e
  | NotANumber e => show_int_error e
  | InvalidBulkLength => lit "invalid bulk length"
  | NestedTooDeeply => lit "values nested too deeply"
  end.

(** ** What may go over the wire: the values a client can be sent and read *)
Fixpoint wire (room : nat) (v : Value) : Prop :=
  match v with
  | SimpleString s | Error s => from_utf8 s = Ok s /\ line s = None
  | Integer n => I64_MIN <= n <= I64_MAX
  | BulkString s => len s <= MAX_BULK_LENGTH
  | Array values =>
      match room with
      | O => False
      | S room =>
          len values <= USIZE_MAX
          /\ (fix all (l : list Value) : Prop :=
                match l with [] => True | v :: l => wire room v /\ all l end) values
      end
  | _ => False
  end.

Lemma wire_array room values :
  wire (S room) (Array values) <-> len values <= USIZE_MAX /\ Forall (wire room) values.
Proof.
  cbn. split; intros [Hl H]; split; [done| |done|].
  - clear Hl. induction values as [|v l IH]; [constructor|]. destruct H. constructor; auto.
  - clear Hl. induction H as [|v l Hv _ IH]; [done|]. by split.
Qed.

(** ** Lines *)
Lemma line_cons2 c d s :
  line (c :: d :: s) =
  if bool_decide ([c; d] = CRLF) then Some ([], s)
  else match line (d :: s) with
       | Some (before, after) => Some (c :: before, after)
       | None => None
       end.
Proof. done. Qed.
#[local] Arguments line : simpl never.

Lemma line_app s l r more : line s = Some (l, r) -> line (s ++ more) = Some (l, r ++ more).
Proof.
  revert l r; induction s as [|c [|d s] IH]; intros l r; [done|done|].
  cbn [app] in *. rewrite !line_cons2. case_bool_decide; [by intros [= <- <-]|].
  destruct (line (d :: s)) as [[b a]|]; [|done].
  intros [= <- <-]. by rewrite (IH b a).
Qed.

Lemma line_Some s l r : line s = Some (l, r) -> s = l ++ CRLF ++ r /\ line l = None.
Proof.
  revert l r; induction s as [|c [|d s] IH]; intros l r; [done|done|].
  rewrite line_cons2. case_bool_decide as Hc.
  - intros [= <- <-]. split; [by injection Hc as -> ->|done].
  - destruct (line (d :: s)) as [[b a]|]; [|done].
    intros [= <- <-]. destruct (IH b a eq_refl) as [Hs Hb]. split; [cbn; by f_equal|].
    destruct b as [|e b]; [done|]. cbn in Hs. injection Hs as <- Hs.
    rewrite line_cons2, bool_decide_false by done. by rewrite Hb.
Qed.

Lemma line_crlf s r : line s = None -> line (s ++ CRLF ++ r) = Some (s, r).
Proof.
  induction s as [|c [|d s] IH]; intros H; [done| |].
  - cbn. rewrite line_cons2, bool_decide_false by (by intros [=]). done.
  - rewrite line_cons2 in H. case_bool_decide as Hc; [done|].
    destruct (line (d :: s)) as [[b a]|] eqn:E; [done|].
    cbn [app] in *. rewrite line_cons2, bool_decide_false by done. by rewrite IH.
Qed.

Lemma line_cons c s : c <> x0d -> line s = None -> line (c :: s) = None.
Proof.
  intros Hc Hs. destruct s as [|d s]; [done|].
  rewrite line_cons2, bool_decide_false by (by intros [=]). by rewrite Hs.
Qed.

Lemma line_None_free s : x0d ∉ s -> line s = None.
Proof.
  induction s as [|c s IH]; [done|].
  intros [Hc Hs]%not_elem_of_cons. apply line_cons; [congruence|auto].
Qed.

Lemma line_show n : line (show n) = None.
Proof.
  apply line_None_free. unfold show. destruct (Z.ltb_spec n 0).
  - apply not_elem_of_cons; split; [done|]. apply show_unsigned_free; [lia|done].
  - by apply show_unsigned_free.
Qed.

(** What follows the type byte, up to the end of the line. *)
Lemma line_header c s rest :
  c <> x0d -> line s = None -> line ([c] ++ s ++ CRLF ++ rest) = Some (c :: s, rest).
Proof.
  intros Hc Hs. change ([c] ++ s ++ CRLF ++ rest) with ((c :: s) ++ CRLF ++ rest).
  by apply line_crlf, line_cons.
Qed.

(** ** Reading takes up bytes *)
Lemma number_of_range lo hi payload n :
  lo <= 0 <= hi -> number_of (parse_int lo hi) payload = Ok n -> lo <= n <= hi.
Proof.
  intros Hr. unfold number_of. intros (t & _ & H)%rbind_Ok.
  destruct (parse_int lo hi t) as [m|] eqn:E; [|done]. injection H as <-.
  by apply parse_int_range in E.
Qed.

Lemma number_of_show lo hi n :
  lo <= 0 <= hi -> lo <= n <= hi -> number_of (parse_int lo hi) (show n) = Ok n.
Proof.
  intros. unfold number_of, as_text. rewrite from_utf8_ascii by apply show_ascii.
  cbn. by rewrite parse_show.
Qed.

Definition takes (element : Bytes -> Parsed) : Prop :=
  forall rest v rest', element rest = Ok (Some (v, rest')) ->
    exists used, rest = used ++ rest' /\ (3 <= length used)%nat.

Lemma elements_takes element fuel n values rest v rest' :
  takes element ->
  elements element fuel n values rest = Ok (Some (v, rest')) ->
  exists used, rest = used ++ rest'.
Proof.
  intros He. revert n values rest; induction fuel as [|fuel IH]; intros n values rest; cbn.
  - case_match; [|done]. intros [= <- <-]. by exists [].
  - case_match; [intros [= <- <-]; by exists []|].
    destruct (element rest) as [[[w r]|]|] eqn:E; cbn; try done.
    intros H'. destruct (He _ _ _ E) as (u & -> & _), (IH _ _ _ H') as [u' ->].
    exists (u ++ u'). by rewrite app_assoc.
Qed.

Lemma value_takes room : takes (value room).
Proof.
  assert (forall l r, line l = Some r -> exists used,
            l = used ++ snd r /\ (length (fst r) + 2 = length used)%nat) as Hline.
  { intros l [a b] H. apply line_Some in H as [-> _]. exists (a ++ CRLF).
    cbn. rewrite <- app_assoc. by rewrite length_app. }
  assert (forall payload r v rest', bulk_string payload r = Ok (Some (v, rest')) ->
            exists used, r = used ++ rest') as Hbulk.
  { intros payload r v rest'. unfold bulk_string.
    destruct (number_of parse_usize payload) as [n|]; cbn; [|done].
    case_match; [done|]. case_match; [done|]. intros [= _ <-].
    eexists. symmetry. apply take_drop. }
  induction room as [|room IH]; intros rest v rest'; cbn [value].
  all: destruct (line rest) as [[[|kind payload] r]|] eqn:El; try done;
    destruct (Hline _ _ El) as (u & -> & Hu); cbn in Hu |- *.
  all: assert (forall used, r = used ++ rest' ->
         exists used0, u ++ r = used0 ++ rest' /\ (3 <= length used0)%nat) as Hend
       by (intros used ->; exists (u ++ used); rewrite app_assoc, length_app;
           split; [done|lia]).
  all: do 3 (case_bool_decide; [intros (? & _ & [= <- <-])%rbind_Ok; by apply (Hend [])|]).
  all: case_bool_decide; [by intros [used Hused]%Hbulk; apply (Hend used)|].
  all: case_bool_decide; [|done].
  - done.
  - intros (n & _ & H')%rbind_Ok. apply elements_takes in H' as [used Hused]; [|exact IH].
    by apply (Hend used).
Qed.

(** As many rounds as there are bytes left are enough: more change nothing. *)
Lemma elements_fuel element fuel fuel' n values rest :
  takes element -> element [] = Ok None ->
  (length rest <= fuel)%nat -> (length rest <= fuel')%nat ->
  elements element fuel n values rest = elements element fuel' n values rest.
Proof.
  intros He Hnil. revert fuel' n values rest; induction fuel as [|fuel IH];
    intros [|fuel'] n values rest Hf Hf'; [done| | |].
  - destruct rest; [|cbn in Hf; lia]. cbn. by rewrite Hnil.
  - destruct rest; [|cbn in Hf'; lia]. cbn. by rewrite Hnil.
  - cbn. case_match; [done|]. destruct (element rest) as [[[v r]|]|] eqn:E; cbn; [|done..].
    destruct (He _ _ _ E) as (u & -> & Hu). rewrite length_app in Hf, Hf'.
    apply IH; lia.
Qed.

Lemma value_nil room : value room [] = Ok None.
Proof. by destruct room. Qed.

(** ** An answer does not change when more bytes arrive *)
Definition stable (element : Bytes -> Parsed) : Prop :=
  forall rest more,
    match element rest with
    | Ok None => True
    | Ok (Some (v, rest')) => element (rest ++ more) = Ok (Some (v, rest' ++ more))
    | Err e => element (rest ++ more) = Err e
    end.

Lemma elements_stable element fuel n values rest more :
  takes element -> element [] = Ok None -> stable element -> (length rest <= fuel)%nat ->
  match elements element fuel n values rest with
  | Ok None => True
  | Ok (Some (v, rest')) =>
      elements element (fuel + length more) n values (rest ++ more) = Ok (Some (v, rest' ++ more))
  | Err e => elements element (fuel + length more) n values (rest ++ more) = Err e
  end.
Proof.
  intros Ht Hnil Hs. revert n values rest; induction fuel as [|fuel IH]; intros n values rest Hf.
  - cbn. destruct (n <=? 0) eqn:Hn; [|done]. by destruct (length more); cbn; rewrite Hn.
  - cbn. destruct (n <=? 0) eqn:Hn; [done|].
    specialize (Hs rest more). destruct (element rest) as [[[v r]|]|e] eqn:E; cbn; [|done|by rewrite Hs].
    rewrite Hs. cbn. apply IH.
    destruct (Ht _ _ _ E) as (u & -> & Hu). rewrite length_app in Hf. lia.
Qed.

Lemma bulk_string_stable payload : stable (bulk_string payload).
Proof.
  intros rest more. unfold bulk_string.
  destruct (number_of parse_usize payload) as [n|e] eqn:En; cbn; [|done].
  apply number_of_range in En; [|done].
  destruct (Z.ltb_spec MAX_BULK_LENGTH n); [done|].
  destruct (Z.ltb_spec (len rest) (n + 2)); [done|].
  rewrite len_app. pose proof (len_nonneg more). decide_leb.
  do 3 f_equal.
  - unfold len in *. rewrite take_app_le by lia. done.
  - unfold len in *. rewrite drop_app_le by lia. done.
Qed.

Lemma value_stable room : stable (value room).
Proof.
  induction room as [|room IH]; intros rest more; cbn [value].
  all: destruct (line rest) as [[[|kind payload] r]|] eqn:El; [by rewrite (line_app _ _ _ _ El)| |done];
    rewrite (line_app _ _ _ _ El).
  all: do 2 (case_bool_decide; [by destruct (as_text payload)|]).
  all: case_bool_decide; [by destruct (number_of parse_i64 payload)|].
  all: case_bool_decide; [apply bulk_string_stable|].
  all: case_bool_decide; [|done].
  1: done.
  destruct (number_of parse_usize payload) as [n|e]; cbn; [|done].
  pose proof (elements_stable (value room) (length r) n [] r more
                (value_takes room) (value_nil room) IH ltac:(lia)) as H'.
  by rewrite length_app.
Qed.

(** ** What is written is read back *)
Lemma elements_encode room values seen fuel more :
  Forall (fun v => forall more, value room (encode v ++ more) = Ok (Some (v, more))) values ->
  (length (flat_map encode values ++ more) <= fuel)%nat ->
  elements (value room) fuel (len values) seen (flat_map encode values ++ more)
  = Ok (Some (Array (rev seen ++ values), more)).
Proof.
  intros Hv Hf.
  rewrite (elements_fuel _ fuel (length values + length (flat_map encode values ++ more)))
    by (auto using value_takes, value_nil with lia).
  clear Hf. revert seen; induction Hv as [|v values Hv _ IH]; intros seen.
  - cbn. destruct (length more); cbn; by rewrite app_nil_r.
  - cbn [flat_map length Nat.add elements]. rewrite len_cons.
    pose proof (len_nonneg values). decide_leb.
    rewrite <- app_assoc, Hv. cbn [rbind].
    rewrite Z.add_simpl_r.
    rewrite (elements_fuel _ _ (length values + length (flat_map encode values ++ more)))
      by (rewrite ?length_app; auto using value_takes, value_nil with lia).
    rewrite IH. cbn [rev]. by rewrite <- app_assoc.
Qed.

Lemma value_encode room v more :
  wire room v -> value room (encode v ++ more) = Ok (Some (v, more)).
Proof.
  revert room more; induction v as [s|s|n|s|values IH| | |s|values _] using value_ind';
    intros room more Hw; try by destruct room.
  - assert (from_utf8 s = Ok s /\ line s = None) as [Hu Hl] by by destruct room.
    replace (encode (SimpleString s) ++ more) with (["+"%byte] ++ s ++ CRLF ++ more)
      by (cbn [encode]; by rewrite <- !app_assoc).
    destruct room; cbn [value]; rewrite line_header by done; cbn; unfold as_text; by rewrite Hu.
  - assert (from_utf8 s = Ok s /\ line s = None) as [Hu Hl] by by destruct room.
    replace (encode (Error s) ++ more) with (["-"%byte] ++ s ++ CRLF ++ more)
      by (cbn [encode]; by rewrite <- !app_assoc).
    destruct room; cbn [value]; rewrite line_header by done; cbn; unfold as_text; by rewrite Hu.
  - assert (I64_MIN <= n <= I64_MAX) as Hn by by destruct room.
    replace (encode (Integer n) ++ more) with ([":"%byte] ++ show n ++ CRLF ++ more)
      by (cbn [encode]; by rewrite <- !app_assoc).
    destruct room; cbn [value]; rewrite line_header by (done || apply line_show); cbn;
      unfold parse_i64; by rewrite number_of_show.
  - assert (len s <= MAX_BULK_LENGTH) as Hn by by destruct room.
    replace (encode (BulkString s) ++ more)
      with (["$"%byte] ++ show (len s) ++ CRLF ++ s ++ CRLF ++ more)
      by (cbn [encode]; by rewrite <- !app_assoc).
    assert (bulk_string (show (len s)) (s ++ CRLF ++ more) = Ok (Some (BulkString s, more))) as Hb.
    { unfold bulk_string, parse_usize. pose proof (len_nonneg s).
      rewrite number_of_show by (unfold MAX_BULK_LENGTH, USIZE_MAX, U64_MAX in *; lia).
      cbn [rbind]. decide_leb. rewrite !len_app. change (len CRLF) with 2.
      pose proof (len_nonneg more). decide_leb.
      replace (Z.to_nat (len s)) with (length s) by (unfold len; lia).
      rewrite take_app_length, <- drop_drop, drop_app_length. done. }
    destruct room; cbn [value]; rewrite line_header by (done || apply line_show); exact Hb.
  - destruct room as [|room]; [done|]. apply wire_array in Hw as [Hn Hw].
    replace (encode (Array values) ++ more)
      with (["*"%byte] ++ show (len values) ++ CRLF ++ (flat_map encode values ++ more))
      by (cbn [encode]; by rewrite <- !app_assoc).
    cbn [value]. rewrite line_header by (done || apply line_show). cbn -[elements].
    pose proof (len_nonneg values). unfold parse_usize.
    rewrite number_of_show by (unfold USIZE_MAX, U64_MAX in *; lia). cbn [rbind].
    rewrite elements_encode; [done| |done].
    apply Forall_forall. intros v Hv more'. rewrite Forall_forall in IH, Hw. by apply IH; auto.
Qed.

(** A value cut short is waited for. *)
Lemma value_cut room v cut missing :
  wire room v -> encode v = cut ++ missing -> missing <> [] -> value room cut = Ok None.
Proof.
  intros Hw He Hm. pose proof (value_encode _ _ [] Hw) as Hv. rewrite app_nil_r, He in Hv.
  pose proof (value_stable room cut missing) as Hs.
  destruct (value room cut) as [[[w r]|]|e]; [|done|congruence].
  rewrite Hs in Hv. injection Hv as _ Hr. by apply app_nil in Hr as [_ ->].
Qed.

(** ** What is read could have been written *)
Lemma as_text_Ok s t : as_text s = Ok t -> t = s /\ from_utf8 s = Ok s.
Proof. unfold as_text, from_utf8. by case_match; cbn; intros [= ->]. Qed.

Lemma elements_wire room fuel n values rest v rest' :
  (forall rest v rest', value room rest = Ok (Some (v, rest')) -> wire room v) ->
  0 <= n -> len values + n <= USIZE_MAX -> Forall (wire room) values ->
  elements (value room) fuel n values rest = Ok (Some (v, rest')) -> wire (S room) v.
Proof.
  intros Hv. revert n values rest; induction fuel as [|fuel IH]; intros n values rest Hn Hl Hw; cbn [elements].
  all: destruct (Z.leb_spec n 0).
  1, 3: intros [= <- <-]; apply wire_array; split; [|by apply Forall_rev];
    unfold len in *; rewrite length_rev; lia.
  - done.
  - intros ([[w r]|] & E & H')%rbind_Ok; [|done].
    eapply IH; [..|exact H']; [lia|rewrite len_cons; lia|].
    constructor; [by eapply Hv|done].
Qed.

Lemma value_wire room rest v rest' :
  value room rest = Ok (Some (v, rest')) -> wire room v.
Proof.
  revert rest v rest'; induction room as [|room IH]; intros rest v rest'; cbn [value].
  all: destruct (line rest) as [[[|kind payload] r]|] eqn:El; try done;
    apply line_Some in El as [_ Hl].
  all: assert (line payload = None) as Hp
    by (destruct payload as [|d payload]; [done|]; rewrite line_cons2 in Hl;
        case_bool_decide; [done|]; by destruct (line (d :: payload)) as [[? ?]|]).
  all: do 2 (case_bool_decide; [intros (t & [-> Ht]%as_text_Ok & [= <- <-])%rbind_Ok; done|]).
  all: case_bool_decide;
    [intros (n & Hn%number_of_range & [= <- <-])%rbind_Ok; cbn; unfold I64_MIN, I64_MAX in *; lia|].
  all: case_bool_decide; [unfold bulk_string; intros (n & Hn & H')%rbind_Ok;
    apply number_of_range in Hn; [|done];
    destruct (Z.ltb_spec MAX_BULK_LENGTH n); [done|];
    destruct (Z.ltb_spec (len r) (n + 2)); [done|]; injection H' as <- <-;
    cbn; unfold len in *; rewrite length_take; lia|].
  all: case_bool_decide; [|done].
  1: done.
  intros (n & Hn%number_of_range & H')%rbind_Ok; [|done].
  eapply elements_wire in H'; [done|exact IH|lia|rewrite len_nil; lia|constructor].
Qed.

(** An answer given is the answer to any longer input. *)
Lemma parse_stable input more :
  match parse input with
  | Ok None => True
  | answer => parse (input ++ more) = answer
  end.
Proof.
  unfold parse. pose proof (value_stable MAX_DEPTH input more) as Hs.
  destruct (value MAX_DEPTH input) as [[[v r]|]|e]; cbn [rbind]; [|done|by rewrite Hs].
  rewrite Hs. cbn [rbind]. rewrite !len_app. do 3 f_equal. lia.
Qed.

(** What has been read took up bytes there were. *)
Lemma parse_takes input v consumed :
  parse input = Ok (Some (v, consumed)) -> 3 <= consumed <= len input.
Proof.
  unfold parse. intros ([[w r]|] & Hv & [= <- <-])%rbind_Ok.
  destruct (value_takes _ _ _ _ Hv) as (used & -> & Hu).
  rewrite len_app. unfold len in *. lia.
Qed.

(** A value on the wire is read whole. *)
Lemma parse_whole v more :
  wire MAX_DEPTH v -> parse (encode v ++ more) = Ok (Some (v, len (encode v))).
Proof.
  intros Hw. unfold parse. rewrite value_encode by done. cbn [rbind].
  rewrite len_app. do 3 f_equal. lia.
Qed.

(** A value cut short anywhere is neither misread nor refused. *)
Lemma parse_torn v cut missing :
  wire MAX_DEPTH v -> encode v = cut ++ missing -> missing <> [] -> parse cut = Ok None.
Proof. intros Hw He Hm. unfold parse. by rewrite (value_cut _ _ _ _ Hw He Hm). Qed.

(** ** The properties *)

(** C22.  Reading back what was written: of the encoding of any value fit for the
    wire, followed by anything at all, take as much as has been read so far.  As
    long as the value is not all there, cut wherever it may be, the parser asks for
    more, and neither misreads nor refuses it; from then on it is parsed as that
    value, and the number of bytes reported is exactly the length of its encoding,
    so that commands pipelined one behind the other are never lost. *)
Theorem parse_encode v more read unread :
  wire MAX_DEPTH v -> encode v ++ more = read ++ unread ->
  parse read = Ok (if len (encode v) <=? len read then Some (v, len (encode v)) else None).
Proof.
  intros Hw He. destruct (Z.leb_spec (len (encode v)) (len read)) as [Hl|Hl].
  - assert (read = encode v ++ drop (length (encode v)) read) as ->; [|by apply parse_whole].
    rewrite <- (take_drop (length (encode v)) read) at 1. f_equal. symmetry.
    apply (f_equal (take (length (encode v)))) in He. unfold len in Hl.
    by rewrite take_app_length, take_app_le in He by lia.
  - apply (parse_torn v read (drop (length read) (encode v))); [done| |].
    + apply (f_equal (take (length read))) in He. unfold len in Hl.
      rewrite take_app_length, take_app_le in He by lia. by rewrite <- He at 1; rewrite take_drop.
    + intros E. apply (f_equal length) in E. rewrite length_drop in E. unfold len in Hl. cbn in E. lia.
Qed.

Definition PING : Value := Array [BulkString (lit "PING")].

Lemma parse_encode_witness :
  parse (encode PING ++ take 3 (encode PING)) = Ok (Some (PING, 14)) /\ parse (take 9 (encode PING)) = Ok None.
Proof.
  assert (wire MAX_DEPTH PING) as H by (vm_compute; repeat split; discriminate). split.
  - by rewrite (parse_encode PING (encode PING) _ (drop 3 (encode PING)) H) by reflexivity.
  - by rewrite (parse_encode PING [] _ (drop 9 (encode PING)) H) by reflexivity.
Defined.

(** C23.  The parser is sound: a value it returns took up at least three bytes
    and no more than there were, nests no deeper than [MAX_DEPTH] arrays, holds
    only numbers, lengths and texts within their limits, and can be written
    out and read again to the same value. *)
Theorem parse_sound input v consumed :
  parse input = Ok (Some (v, consumed)) ->
  3 <= consumed <= len input
  /\ wire MAX_DEPTH v
  /\ parse (encode v) = Ok (Some (v, len (encode v))).
Proof.
  unfold parse. intros ([[w r]|] & Hv & [= <- <-])%rbind_Ok.
  assert (Hw := value_wire _ _ _ _ Hv).
  destruct (value_takes _ _ _ _ Hv) as (used & -> & Hu).
  rewrite len_app. repeat split; [unfold len; lia|pose proof (len_nonneg r); lia|done|].
  rewrite <- (app_nil_r (encode w)) at 1. rewrite value_encode by done.
  cbn [rbind]. rewrite len_nil. do 3 f_equal. lia.
Qed.

Lemma parse_sound_witness :
  let input := lit "*1" ++ CRLF ++ lit "$4" ++ CRLF ++ lit "PING" ++ CRLF in
  parse input = Ok (Some (PING, 14)) /\ 3 <= 14 <= len input.
Proof.
  intros input. assert (parse input = Ok (Some (PING, 14))) as H by reflexivity.
  split; [exact H|]. exact (proj1 (parse_sound input PING 14 H)).
Defined.

(** The two bytes that close a bulk string are skipped without being looked
    at: anything may stand there. *)
Lemma bulk_string_any_ending :
  parse (lit "$3" ++ CRLF ++ lit "heyXY") = Ok (Some (BulkString (lit "hey"), 9)).
Proof. reflexivity. Qed.
