(* ===== verification/Glob.v ===== *)
(** * Glob patterns: src/src/glob.rs

    [parse_pattern] is [Pattern::parse], [set] the function of that name,
    [item_matches] is [Item::matches] and [matches] is [Pattern::matches].  The
    loops of the source keep an index into the pattern; reading a pattern is
    done here on what is left of it.

    [Glob] says declaratively which keys a list of items stands for.  The
    matcher, which keeps a single place to fall back on, always comes to an
    answer ([loop_total]) and the answer is the declarative one ([glob_correct]);
    quoting every byte of a key gives a pattern for that key alone
    ([glob_quote]). *)
From S2P Require Import Prelude.
Open Scope Z_scope.

Inductive Item : Type :=
| Anything
| One
| Byte (c : byte)
| OneOf (ranges : list (byte * byte)) (negated : bool).

#[export] Instance item_eq_decision : EqDecision Item.
Proof. solve_decision. Defined.

Definition min_byte (c d : byte) : byte := if u8 d <? u8 c then d else c.
Definition max_byte (c d : byte) : byte := if u8 d <? u8 c then c else d.

(** ** Reading a pattern *)

(** The loop of [set], on what follows the [\[] and its [^]: the ranges, and
    what is left after the closing bracket.  Each round takes a byte. *)
Fixpoint set_loop (fuel : nat) (ranges : list (byte * byte)) (s : Bytes)
  : list (byte * byte) * Bytes :=
  match fuel, s with
  | _, [] => (rev ranges, [])
  | O, _ => (rev ranges, s)
  | S fuel, c :: s =>
      if bool_decide (c = "]"%byte) then (rev ranges, s)
      else
        let '(first, s) :=
          match s with
          | escaped :: s' => if bool_decide (c = "\"%byte) then (escaped, s') else (c, s)
          | [] => (c, s)
          end in
        let '(last, s) :=
          match s with
          | dash :: e :: s' =>
              if bool_decide (dash = "-"%byte) && negb (bool_decide (e = "]"%byte))
              then (e, s') else (first, s)
          | _ => (first, s)
          end in
        set_loop fuel ((min_byte first last, max_byte first last) :: ranges) s
  end.

Definition set (s : Bytes) : Item * Bytes :=
  let negated := bool_decide (head s = Some "^"%byte) in
  let '(ranges, rest) := set_loop (length s) [] (if negated then drop 1 s else s) in
  (OneOf ranges negated, rest).

(** [Pattern::parse].  [items] is what has been pushed so far, the last
    first. *)
Fixpoint parse_items (fuel : nat) (items : list Item) (s : Bytes) : list Item :=
  match fuel, s with
  | _, [] => rev items
  | O, _ => rev items
  | S fuel, c :: s =>
      if bool_decide (c = "*"%byte) then
        if bool_decide (head items = Some Anything) then parse_items fuel items s
        else parse_items fuel (Anything :: items) s
      else if bool_decide (c = "?"%byte) then parse_items fuel (One :: items) s
      else if bool_decide (c = "["%byte) then
        let '(item, s) := set s in parse_items fuel (item :: items) s
      else if bool_decide (c = "\"%byte) then
        match s with
        | escaped :: s => parse_items fuel (Byte escaped :: items) s
        | [] => parse_items fuel (Byte "\"%byte :: items) []
        end
      else parse_items fuel (Byte c :: items) s
  end.

Definition parse_pattern (pattern : Bytes) : list Item :=
  parse_items (length pattern) [] pattern.

(** ** Matching *)
Definition item_matches (i : Item) (c : byte) : bool :=
  match i with
  | Anything | One => true
  | Byte expected => bool_decide (expected = c)
  | OneOf ranges negated =>
      let named := existsb (fun '(first, last) => (u8 first <=? u8 c) && (u8 c <=? u8 last)) ranges in
      negb (Bool.eqb named negated)
  end.

Definition is_anything (i : Item) : bool := match i with Anything => true | _ => false end.

(** Where the matcher stands: the next item, the next byte, and the last run
    met with how much of the key it had taken. *)
Record Cursor := { item : nat; at_byte : nat; run : option (nat * nat) }.

Inductive Outcome : Type :=
| Continue (c : Cursor)
| Answer (b : bool).

(** One round of the loop of [Pattern::matches], or what follows it once the
    key is spent. *)
Definition step (items : list Item) (key : Bytes) (c : Cursor) : Outcome :=
  match key !! at_byte c with
  | None => Answer (forallb is_anything (drop (item c) items))
  | Some k =>
      let fall_back :=
        match run c with
        | Some (at_, taken) =>
            Continue {| item := at_ + 1; at_byte := taken + 1; run := Some (at_, taken + 1)%nat |}
        | None => Answer false
        end in
      match items !! item c with
      | Some Anything =>
          Continue {| item := item c + 1; at_byte := at_byte c; run := Some (item c, at_byte c) |}
      | Some i =>
          if item_matches i k
          then Continue {| item := item c + 1; at_byte := at_byte c + 1; run := run c |}
          else fall_back
      | None => fall_back
      end
  end.

Fixpoint loop (fuel : nat) (items : list Item) (key : Bytes) (c : Cursor) : option bool :=
  match step items key c with
  | Answer b => Some b
  | Continue c =>
      match fuel with O => None | S fuel => loop fuel items key c end
  end.

Definition start : Cursor := {| item := 0; at_byte := 0; run := None |}.

(** Every round either moves past an item, hands the run one more byte, or
    meets a run further on: [loop_total] shows this is fuel enough. *)
Definition enough (items : list Item) (key : Bytes) : nat :=
  (length items + 2) * ((length key + 1) * (length items + 1)).

(** [Pattern::matches]. *)
Definition matches (items : list Item) (key : Bytes) : bool :=
  default false (loop (enough items key) items key start).

(** ** What a pattern stands for *)
Inductive Glob : list Item -> Bytes -> Prop :=
| Glob_nil : Glob [] []
| Glob_run items s t : Glob items t -> Glob (Anything :: items) (s ++ t)
| Glob_one i items c s :
    i <> Anything -> item_matches i c = true -> Glob items s -> Glob (i :: items) (c :: s).

Lemma Glob_run_skip items s t : Glob (Anything :: items) t -> Glob (Anything :: items) (s ++ t).
Proof.
  intros H. inversion H as [|? s' t' Ht|? ? ? ? Hn]; subst; [|done].
  rewrite app_assoc. by constructor.
Qed.

Lemma Glob_run_inv items t :
  Glob (Anything :: items) t <-> exists n, (n <= length t)%nat /\ Glob items (drop n t).
Proof.
  split.
  - intros H. inversion H as [|? s' t' Ht|? ? ? ? Hn]; subst; [|done].
    exists (length s'). rewrite drop_app_length, length_app. split; [lia|done].
  - intros (n & _ & H). rewrite <- (take_drop n t). by constructor.
Qed.

Lemma Glob_one_inv i items c s :
  i <> Anything -> Glob (i :: items) (c :: s) <-> item_matches i c = true /\ Glob items s.
Proof.
  intros Hi. split; [|intros [? ?]; by constructor].
  intros H. inversion H; subst; done.
Qed.

Lemma Glob_spent items : Glob items [] <-> forallb is_anything items = true.
Proof.
  induction items as [|i items IH].
  - split; [done|constructor].
  - cbn. rewrite andb_true_iff, <- IH. destruct i; cbn.
    + rewrite Glob_run_inv. split.
      * intros (n & Hn & H). destruct n; [done|cbn in Hn; lia].
      * intros [_ H]. exists 0%nat. by split; [cbn; lia|].
    + split; [intros H; inversion H|by intros [? _]].
    + split; [intros H; inversion H|by intros [? _]].
    + split; [intros H; inversion H|by intros [? _]].
Qed.

(** Items standing for one byte each take as many bytes as they are. *)
Lemma Glob_segment seg items s :
  Forall (fun i => i <> Anything) seg -> Glob (seg ++ items) s ->
  (length seg <= length s)%nat /\ Glob items (drop (length seg) s).
Proof.
  intros Hs. revert s; induction Hs as [|i seg Hi _ IH]; intros s H.
  - split; [cbn; lia|done].
  - cbn in H. inversion H as [| |? ? c s' _ _ Hg]; subst; [done|].
    destruct (IH _ Hg) as [Hl Hd]. split; [cbn; lia|done].
Qed.

(** ** The matcher's invariant *)
Section Matcher.
Context (items : list Item) (key : Bytes).

(** The cursor is inside the pattern and the key; the items since the last
    run each took one byte. *)
Record Inv (c : Cursor) : Prop := {
  inv_item : (item c <= length items)%nat;
  inv_byte : (at_byte c <= length key)%nat;
  inv_run : forall r taken, run c = Some (r, taken) ->
    (r < item c)%nat /\ (taken <= at_byte c)%nat
    /\ (at_byte c - taken = item c - S r)%nat
    /\ Forall (fun i => i <> Anything) (take (item c - S r) (drop (S r) items));
}.

(** The key can still be matched: from here, or with the last run taking
    more. *)
Definition Alive (c : Cursor) : Prop :=
  Glob (drop (item c) items) (drop (at_byte c) key)
  \/ exists r taken t, run c = Some (r, taken) /\ (taken < t <= length key)%nat
       /\ Glob (drop (S r) items) (drop t key).

Lemma Inv_start : Inv start.
Proof. split; cbn; [lia|lia|done]. Qed.

Lemma Alive_start : Alive start <-> Glob items key.
Proof.
  unfold Alive; cbn. rewrite !drop_0. split; [|auto].
  by intros [?|(? & ? & ? & ? & _)].
Qed.

(** A run that took more would leave the items since it that much further
    along the key. *)
Lemma run_further c r taken t :
  Inv c -> run c = Some (r, taken) -> (taken < t <= length key)%nat ->
  Glob (drop (S r) items) (drop t key) ->
  exists u, (at_byte c < u <= length key)%nat /\ Glob (drop (item c) items) (drop u key).
Proof.
  intros Hi Hr Ht Hg. destruct (inv_run _ Hi _ _ Hr) as (Hri & Htb & Heq & Hseg).
  pose proof (inv_item _ Hi). set (m := (item c - S r)%nat) in *.
  rewrite <- (take_drop m (drop (S r) items)) in Hg.
  apply Glob_segment in Hg as [Hl Hg]; [|done].
  rewrite length_take, !length_drop in Hl, Hg.
  replace (m `min` (length items - S r))%nat with m in Hl, Hg by lia.
  rewrite length_drop in Hl. rewrite !drop_drop in Hg. exists (t + m)%nat. split; [lia|].
  by replace (S r + m)%nat with (item c) in Hg by lia.
Qed.

Lemma spent_correct c :
  Inv c -> key !! at_byte c = None ->
  Alive c <-> forallb is_anything (drop (item c) items) = true.
Proof.
  intros Hi Hk. apply lookup_ge_None in Hk. unfold Alive.
  rewrite (drop_ge key) by lia. rewrite <- Glob_spent. split; [|auto].
  intros [Hg|(r & taken & t & Hr & Ht & Hg)]; [done|].
  destruct (run_further _ _ _ _ Hi Hr Ht Hg) as (u & Hu & _). lia.
Qed.

Lemma run_correct c :
  Inv c -> (at_byte c < length key)%nat -> items !! item c = Some Anything ->
  let c' := {| item := item c + 1; at_byte := at_byte c; run := Some (item c, at_byte c) |} in
  Inv c' /\ (Alive c' <-> Alive c).
Proof.
  intros Hi Hb Hit c'. pose proof (lookup_lt_Some _ _ _ Hit) as Hlt.
  assert (Hstar : forall n, (n <= length key)%nat ->
    Glob (drop (item c) items) (drop n key) <->
    exists t, (n <= t <= length key)%nat /\ Glob (drop (S (item c)) items) (drop t key)).
  { intros n Hn. rewrite (drop_S _ _ _ Hit), Glob_run_inv. split.
    - intros (k & Hk & Hg). rewrite length_drop in Hk. rewrite drop_drop in Hg.
      exists (n + k)%nat. split; [lia|done].
    - intros (t & Ht & Hg). exists (t - n)%nat. rewrite length_drop, drop_drop.
      replace (n + (t - n))%nat with t by lia. split; [lia|done]. }
  split.
  - split; cbn; [lia|lia|]. intros r taken [= <- <-]. repeat split; try lia.
    replace (item c + 1 - S (item c))%nat with 0%nat by lia. constructor.
  - unfold Alive; cbn. replace (item c + 1)%nat with (S (item c)) by lia. split.
    + intros [Hg|(r & taken & t & [= <- <-] & Ht & Hg)]; left; apply Hstar; try lia.
      * exists (at_byte c). split; [lia|done].
      * exists t. split; [lia|done].
    + assert (Glob (drop (item c) items) (drop (at_byte c) key) ->
        Glob (drop (S (item c)) items) (drop (at_byte c) key)
        \/ (exists r taken t, Some (item c, at_byte c) = Some (r, taken)
             /\ (taken < t <= length key)%nat /\ Glob (drop (S r) items) (drop t key))) as Hl.
      { intros (t & Ht & Hg)%Hstar; [|lia].
        destruct (decide (t = at_byte c)) as [->|]; [by left|right].
        exists (item c), (at_byte c), t. repeat split; [lia|lia|done]. }
      intros [Hg|(r & taken & t & Hr & Ht & Hg)]; [by apply Hl|apply Hl].
      destruct (run_further _ _ _ _ Hi Hr Ht Hg) as (u & Hu & Hg').
      apply Hstar; [lia|]. apply Hstar in Hg' as (v & Hv & Hg'); [|lia].
      exists v. split; [lia|done].
Qed.

Lemma take_segment_snoc n r i :
  (r < n)%nat -> items !! n = Some i ->
  take (n + 1 - S r) (drop (S r) items) = take (n - S r) (drop (S r) items) ++ [i].
Proof.
  intros Hr Hi. replace (n + 1 - S r)%nat with (S (n - S r)) by lia.
  apply take_S_r. rewrite lookup_drop. by replace (S r + (n - S r))%nat with n by lia.
Qed.

Lemma match_correct c i k :
  Inv c -> key !! at_byte c = Some k -> items !! item c = Some i -> i <> Anything ->
  item_matches i k = true ->
  let c' := {| item := item c + 1; at_byte := at_byte c + 1; run := run c |} in
  Inv c' /\ (Alive c' <-> Alive c).
Proof.
  intros Hi Hk Hit Hn Hm c'.
  pose proof (lookup_lt_Some _ _ _ Hit). pose proof (lookup_lt_Some _ _ _ Hk). split.
  - split; cbn; [lia|lia|]. intros r taken Hr.
    destruct (inv_run _ Hi _ _ Hr) as (? & ? & ? & Hseg). repeat split; try lia.
    rewrite (take_segment_snoc _ _ i) by done. apply Forall_app. split; [done|by constructor].
  - unfold Alive; cbn. rewrite (drop_S _ _ _ Hit), (drop_S _ _ _ Hk), Glob_one_inv by done.
    replace (item c + 1)%nat with (S (item c)) by lia.
    replace (at_byte c + 1)%nat with (S (at_byte c)) by lia. tauto.
Qed.

(** The item, if there is one, does not match: only the run can help. *)
Definition stuck (c : Cursor) (k : byte) : Prop :=
  match items !! item c with
  | Some i => i <> Anything /\ item_matches i k = false
  | None => True
  end.

Lemma stuck_dead c k :
  key !! at_byte c = Some k -> stuck c k ->
  ~ Glob (drop (item c) items) (drop (at_byte c) key).
Proof.
  intros Hk Hs. unfold stuck in Hs. rewrite (drop_S _ _ _ Hk).
  destruct (items !! item c) as [i|] eqn:Hit.
  - destruct Hs as [Hn Hm]. rewrite (drop_S _ _ _ Hit), Glob_one_inv by done. intros [? _]; congruence.
  - apply lookup_ge_None in Hit. rewrite drop_ge by done. intros Hg; inversion Hg.
Qed.

Lemma fall_back_correct c k r taken :
  Inv c -> key !! at_byte c = Some k -> stuck c k -> run c = Some (r, taken) ->
  let c' := {| item := r + 1; at_byte := taken + 1; run := Some (r, taken + 1)%nat |} in
  Inv c' /\ (Alive c' <-> Alive c).
Proof.
  intros Hi Hk Hs Hr c'. pose proof (lookup_lt_Some _ _ _ Hk).
  pose proof (stuck_dead _ _ Hk Hs) as Hd. pose proof (inv_item _ Hi).
  destruct (inv_run _ Hi _ _ Hr) as (? & ? & ? & _). split.
  - split; cbn; [lia|lia|]. intros r' taken' [= <- <-]. repeat split; try lia.
    replace (r + 1 - S r)%nat with 0%nat by lia. constructor.
  - unfold Alive; cbn. rewrite Hr.
    replace (r + 1)%nat with (S r) by lia. replace (taken + 1)%nat with (S taken) by lia. split.
    + intros [Hg|(r' & taken' & t & [= <- <-] & Ht & Hg)]; right; exists r, taken.
      * exists (S taken). repeat split; [lia|lia|done].
      * exists t. repeat split; [lia|lia|done].
    + intros [Hg|(r' & taken' & t & [= <- <-] & Ht & Hg)]; [done|].
      destruct (decide (t = S taken)) as [->|]; [by left|right].
      exists r, (S taken), t. repeat split; [lia|lia|done].
Qed.

Lemma no_run_dead c k :
  key !! at_byte c = Some k -> stuck c k -> run c = None -> ~ Alive c.
Proof.
  intros Hk Hs Hr [Hg|(r & taken & t & Hr' & _)]; [by eapply stuck_dead|congruence].
Qed.

(** ** Every round makes headway *)
Definition run_rank (c : Cursor) : nat :=
  match run c with None => length items + 1 | Some (r, _) => length items - r end.
Definition taken_rank (c : Cursor) : nat :=
  match run c with None => 0 | Some (_, taken) => length key - taken end.
Definition rank (c : Cursor) : nat :=
  run_rank c * ((length key + 1) * (length items + 1))
  + taken_rank c * (length items + 1) + (length items - item c).

Lemma step_correct c :
  Inv c ->
  match step items key c with
  | Answer b => Alive c <-> b = true
  | Continue c' => Inv c' /\ (Alive c' <-> Alive c) /\ (rank c' < rank c)%nat
  end.
Proof.
  intros Hi. unfold step. destruct (key !! at_byte c) as [k|] eqn:Hk;
    [|by apply spent_correct].
  pose proof (lookup_lt_Some _ _ _ Hk) as Hb.
  set (back := match run c with Some _ => _ | None => _ end).
  assert (stuck c k -> match back with
    | Answer b => Alive c <-> b = true
    | Continue c' => Inv c' /\ (Alive c' <-> Alive c) /\ (rank c' < rank c)%nat
    end) as Hback.
  { intros Hs. unfold back. destruct (run c) as [[r taken]|] eqn:Hr.
    - destruct (fall_back_correct _ _ _ _ Hi Hk Hs Hr) as [Hi' Ha].
      split; [done|split; [done|]]. destruct (inv_run _ Hi _ _ Hr) as (? & ? & _).
      unfold rank, run_rank, taken_rank. rewrite Hr; cbn [run item at_byte].
      replace (length key - taken)%nat with (S (length key - (taken + 1))) by lia.
      rewrite Nat.mul_succ_l. lia.
    - pose proof (no_run_dead _ _ Hk Hs Hr). by split. }
  unfold stuck in Hback. destruct (items !! item c) as [i|] eqn:Hit; [|by apply Hback].
  pose proof (lookup_lt_Some _ _ _ Hit) as Hlt.
  assert (i <> Anything -> match (if item_matches i k
      then Continue {| item := item c + 1; at_byte := at_byte c + 1; run := run c |}
      else back) with
    | Answer b => Alive c <-> b = true
    | Continue c' => Inv c' /\ (Alive c' <-> Alive c) /\ (rank c' < rank c)%nat
    end) as Hone.
  { intros Hn. destruct (item_matches i k) eqn:Hm; [|by apply Hback].
    destruct (match_correct _ _ _ Hi Hk Hit Hn Hm) as [Hi' Ha].
    split; [done|split; [done|]]. unfold rank, run_rank, taken_rank; cbn. lia. }
  destruct i; [|by apply Hone..].
  destruct (run_correct _ Hi Hb Hit) as [Hi' Ha]. split; [done|split; [done|]].
  assert (S (length items - item c) <= run_rank c)%nat as Hrank.
  { unfold run_rank. destruct (run c) as [[r taken]|] eqn:Hr; [|lia].
    destruct (inv_run _ Hi _ _ Hr) as (? & ? & _). lia. }
  unfold rank. apply (Nat.mul_le_mono_r _ _ ((length key + 1) * (length items + 1))) in Hrank.
  rewrite Nat.mul_succ_l in Hrank. unfold run_rank at 1, taken_rank at 1. cbn [run item at_byte].
  assert ((length key - at_byte c) * (length items + 1) <= length key * (length items + 1))%nat
    by (apply Nat.mul_le_mono_r; lia).
  rewrite Nat.mul_add_distr_r in Hrank |- *. lia.
Qed.

Lemma loop_correct fuel c :
  Inv c -> (rank c <= fuel)%nat ->
  exists b, loop fuel items key c = Some b /\ (Alive c <-> b = true).
Proof.
  revert c; induction fuel as [|fuel IH]; intros c Hi Hf; cbn;
    pose proof (step_correct c Hi) as Hs; destruct (step items key c) as [c'|b].
  - lia.
  - by exists b.
  - destruct Hs as (Hi' & Ha & Hr). destruct (IH c' Hi' ltac:(lia)) as (b & Hl & Hb).
    exists b. by rewrite <- Ha.
  - by exists b.
Qed.

Lemma rank_start : (rank start <= enough items key)%nat.
Proof. unfold rank, enough, run_rank, taken_rank; cbn. nia. Qed.
End Matcher.

(** ** Quoting *)
Lemma parse_items_quote key fuel items :
  (length (flat_map (fun c => ["\"%byte; c]) key) <= fuel)%nat ->
  parse_items fuel items (flat_map (fun c => ["\"%byte; c]) key) = rev items ++ map Byte key.
Proof.
  revert fuel items; induction key as [|c key IH]; intros fuel items Hf; cbn.
  - rewrite app_nil_r. by destruct fuel.
  - cbn in Hf. destruct fuel as [|fuel]; [lia|]. cbn.
    rewrite IH by lia. cbn. by rewrite <- app_assoc.
Qed.

Lemma Glob_bytes key key' : Glob (map Byte key) key' <-> key' = key.
Proof.
  revert key'; induction key as [|c key IH]; intros key'; cbn.
  - split; [by inversion 1|]. intros ->; constructor.
  - split.
    + inversion 1 as [| |? ? d s _ Hm Hg]; subst. apply IH in Hg. cbn in Hm.
      apply bool_decide_eq_true in Hm. by subst.
    + intros ->. constructor; [done|by apply bool_decide_eq_true|by apply IH].
Qed.

(** ** Reading a pattern takes no more rounds than it has bytes *)
Lemma set_loop_fuel fuel fuel' ranges s :
  (length s <= fuel)%nat -> (length s <= fuel')%nat ->
  set_loop fuel ranges s = set_loop fuel' ranges s
  /\ (length (snd (set_loop fuel ranges s)) <= length s)%nat.
Proof.
  revert fuel' ranges s; induction fuel as [|fuel IH]; intros [|fuel'] ranges [|c s] Hf Hf';
    cbn in Hf, Hf'; try lia; try (split; [done|cbn; lia]).
  cbn [set_loop]. case_bool_decide; [split; [done|cbn; lia]|].
  assert (forall ranges s', (length s' <= length s)%nat ->
    set_loop fuel ranges s' = set_loop fuel' ranges s'
    /\ (length (snd (set_loop fuel ranges s')) <= length (c :: s))%nat) as Hrec.
  { intros ranges' s' Hs'. destruct (IH fuel' ranges' s') as [He Hl]; [lia|lia|].
    split; [done|]. cbn. lia. }
  destruct s as [|d s]; [by apply Hrec|].
  case_bool_decide.
  - destruct s as [|e [|f s]]; try (by apply Hrec; cbn; lia).
    destruct (_ && _); apply Hrec; cbn; lia.
  - destruct s as [|e s]; [by apply Hrec|]. destruct (_ && _); apply Hrec; cbn; lia.
Qed.

Lemma set_shorter s : (length (snd (set s)) <= length s)%nat.
Proof.
  unfold set. case_bool_decide.
  - pose proof (set_loop_fuel (length s) (length s) [] (drop 1 s)) as H'.
    destruct (set_loop (length s) [] (drop 1 s)) as [rs rest]. rewrite length_drop in H'.
    cbn in *. destruct H'; lia.
  - pose proof (set_loop_fuel (length s) (length s) [] s) as H'.
    destruct (set_loop (length s) [] s) as [rs rest]. cbn in *. destruct H'; lia.
Qed.

Lemma parse_items_fuel fuel fuel' items s :
  (length s <= fuel)%nat -> (length s <= fuel')%nat ->
  parse_items fuel items s = parse_items fuel' items s.
Proof.
  revert fuel' items s; induction fuel as [|fuel IH]; intros [|fuel'] items [|c s] Hf Hf';
    cbn in Hf, Hf'; try lia; try done.
  cbn [parse_items].
  case_bool_decide; [case_bool_decide; apply IH; lia|].
  case_bool_decide; [apply IH; lia|].
  case_bool_decide.
  { pose proof (set_shorter s). destruct (set s) as [i s']; cbn in *. apply IH; lia. }
  case_bool_decide; [|apply IH; lia].
  destruct s; apply IH; cbn in *; lia.
Qed.

(** ** The properties *)

(** C40.  The matcher always comes to an answer, and the answer is right: the
    loop with its single place to fall back on ends within [enough] rounds,
    and says yes exactly to the keys some way of splitting them among the
    pattern's runs would match. *)
Theorem glob_correct items key :
  loop (enough items key) items key start = Some (matches items key)
  /\ (matches items key = true <-> Glob items key).
Proof.
  destruct (loop_correct items key (enough items key) start (Inv_start _ _) (rank_start _ _))
    as (b & Hl & Hb).
  unfold matches. rewrite Hl. cbn. split; [done|]. by rewrite <- Hb, Alive_start.
Qed.

(** Every byte of a key can be taken for itself: a pattern that puts a
    backslash before each byte of a key stands for that key and no other,
    whatever bytes the key is made of. *)
Theorem glob_quote key key' :
  matches (parse_pattern (flat_map (fun c => ["\"%byte; c]) key)) key' = true <-> key' = key.
Proof.
  unfold parse_pattern. rewrite parse_items_quote by done. cbn [rev app].
  rewrite <- (Glob_bytes key key').
  destruct (loop_correct (map Byte key) key' _ start (Inv_start _ _) (rank_start _ _))
    as (b & Hl & Hb).
  unfold matches. rewrite Hl. cbn. by rewrite <- Hb, Alive_start.
Qed.

(** The cases the source's own tests settle. *)
Definition glob (pattern key : string) : bool := matches (parse_pattern (lit pattern)) (lit key).
Example glob_tests :
  forallb (fun '(p, k) => glob p k)
    [("*"%string, ""%string); ("foo*", "foobar"); ("*oob*", "foobar"); ("f***o", "foo");
     ("*abc", "abxabc"); ("key:[0-9]", "key:7"); ("f[^a]o", "foo"); ("[a-]", "-");
     ("f\*o", "f*o"); ("\[a]", "[a]"); ("[abc", "a")]%string = true
  /\ existsb (fun '(p, k) => glob p k)
    [("foo", "foobar"); ("foo*", "barfoo"); ("*a*b*c*", "xxaxxcxxbxx"); ("f?o", "fo");
     ("f[ao]o", "fio"); ("[a-c][a-c]", "bd"); ("[^0-9]", "5"); ("[a-]", "b"); ("f\*o", "foo");
     ("\?", "x"); ("", "foo"); ("[abc", "d")]%string = false.
Proof. split; vm_compute; reflexivity. Qed.
