(* ===== verification/F64.v ===== *)
(** * Rust's [f64]

    The doubles of the source (scores, coordinates, timeouts, distances), as
    the standard library's specification of binary floating point with 53 bits
    of precision and a largest exponent of 1024.  Written out here is what the
    source uses of Rust's [f64]: comparison, arithmetic, the saturating [as]
    casts, reading a number ([str::parse::<f64>], correctly rounded, with its
    [inf] and [nan]), and the two ways of writing one: the shortest spelling
    that reads back as the same number ([to_string]) and a fixed number of
    places ([{:.N}], the exact value rounded half to even).

    The theorems say that comparing doubles other than NaN is a total preorder:
    [compare_key] reduces it to comparing triples of integers. *)
From Stdlib Require Export Floats.SpecFloat.
From S2P Require Import Prelude Text.
Open Scope Z_scope.

Abbreviation f64 := spec_float.

#[export] Instance f64_eq_decision : EqDecision f64.
Proof. solve_decision. Defined.

(** ** Arithmetic *)
Definition PREC : Z := 53.
Definition EMAX : Z := 1024.
Definition f_add : f64 -> f64 -> f64 := SFadd PREC EMAX.
Definition f_sub : f64 -> f64 -> f64 := SFsub PREC EMAX.
Definition f_mul : f64 -> f64 -> f64 := SFmul PREC EMAX.
Definition f_div : f64 -> f64 -> f64 := SFdiv PREC EMAX.
Definition f_sqrt : f64 -> f64 := SFsqrt PREC EMAX.

(** [f64::from] of a narrower integer, and [as f64] of a wider one. *)
Definition f_of_Z (z : Z) : f64 := binary_normalize PREC EMAX z 0 false.

Definition is_nan (x : f64) : bool := match x with S754_nan => true | _ => false end.

(** [partial_cmp], and the comparison operators. *)
Definition partial_cmp (x y : f64) : option comparison := SFcompare x y.
Definition f_lt (x y : f64) : bool := match partial_cmp x y with Some Lt => true | _ => false end.
Definition f_le (x y : f64) : bool :=
  match partial_cmp x y with Some Lt | Some Eq => true | _ => false end.
Definition f_eq (x y : f64) : bool := match partial_cmp x y with Some Eq => true | _ => false end.

(** [as u64] and [as u32]: towards zero, and held at the ends of the range. *)
Definition f_trunc (x : f64) : Z :=
  match x with
  | S754_finite s m e =>
      let magnitude := if 0 <=? e then Z.pos m * 2 ^ e else Z.pos m / 2 ^ (- e) in
      if s then - magnitude else magnitude
  | _ => 0
  end.
Definition saturate (hi : Z) (x : f64) : Z :=
  match x with
  | S754_infinity s => if s then 0 else hi
  | _ => Z.max 0 (Z.min hi (f_trunc x))
  end.
Definition as_u64 : f64 -> Z := saturate U64_MAX.
Definition as_u32 : f64 -> Z := saturate U32_MAX.

(** ** Reading a number *)

(** The double nearest to [digits * 10 ^ exponent], ties to even. *)
Definition decimal (negative : bool) (digits exponent : Z) : f64 :=
  match digits with
  | Z.pos _ =>
      let places := len (show_unsigned digits) + exponent in
      if 310 <? places then S754_infinity negative
      else if places <? -330 then S754_zero negative
      else if 0 <=? exponent then
        binary_round PREC EMAX negative (Z.to_pos (digits * 10 ^ exponent)) 0
      else
        let '(mantissa, e, loc) := SFdiv_core_binary PREC EMAX digits 0 (10 ^ (- exponent)) 0 in
        binary_round_aux PREC EMAX negative mantissa e loc
  | _ => S754_zero negative
  end.

(** Digits at the front, as a number with how many there were, and the rest. *)
Fixpoint take_digits (acc count : Z) (s : Bytes) : Z * Z * Bytes :=
  match s with
  | c :: s' =>
      match to_digit c with
      | Some d => take_digits (acc * 10 + d) (count + 1) s'
      | None => (acc, count, s)
      end
  | [] => (acc, count, s)
  end.

Definition take_sign (s : Bytes) : bool * Bytes :=
  match s with
  | c :: s' =>
      if bool_decide (c = minus_sign) then (true, s')
      else if bool_decide (c = plus_sign) then (false, s')
      else (false, s)
  | [] => (false, s)
  end.

(** What follows the digits: nothing, or an exponent and then nothing. *)
Definition take_exponent (s : Bytes) : option Z :=
  match s with
  | [] => Some 0
  | c :: s' =>
      if bool_decide (c = "e"%byte) || bool_decide (c = "E"%byte) then
        let '(negative, s') := take_sign s' in
        let '(e, count, rest) := take_digits 0 0 s' in
        if (0 <? count) && bool_decide (rest = []) then Some (if negative then - e else e)
        else None
      else None
  end.

(** [str::parse::<f64>]. *)
Definition parse_f64 (s : Bytes) : option f64 :=
  let '(negative, body) := take_sign s in
  let word := to_ascii_lowercase body in
  if (word =b? lit "inf") || (word =b? lit "infinity") then Some (S754_infinity negative)
  else if word =b? lit "nan" then Some S754_nan
  else
    let '(whole, n_whole, rest) := take_digits 0 0 body in
    let '(digits, n_digits, n_places, rest) :=
      match rest with
      | c :: rest' =>
          if bool_decide (c = "."%byte) then
            let '(digits, n_digits, rest'') := take_digits whole n_whole rest' in
            (digits, n_digits, n_digits - n_whole, rest'')
          else (whole, n_whole, 0, rest)
      | [] => (whole, n_whole, 0, rest)
      end in
    if n_digits =? 0 then None
    else match take_exponent rest with
         | Some e => Some (decimal negative digits (e - n_places))
         | None => None
         end.

(** ** Writing a number *)
Definition zeros (n : Z) : Bytes := replicate (Z.to_nat n) (digit 0).

(** A finite double other than zero as a fraction, its sign aside. *)
Definition fraction (m : positive) (e : Z) : Z * Z :=
  if 0 <=? e then (Z.pos m * 2 ^ e, 1) else (Z.pos m, 2 ^ (- e)).

(** [digits * 10 ^ exponent], written out with no exponent. *)
Definition spell (digits exponent : Z) : Bytes :=
  let s := show_unsigned digits in
  if 0 <=? exponent then s ++ zeros exponent
  else if - exponent <? len s then
    take (Z.to_nat (len s + exponent)) s ++ lit "." ++ drop (Z.to_nat (len s + exponent)) s
  else lit "0." ++ zeros (- exponent - len s) ++ s.

(** How many digits stand before the point of [n / d], or, for a number below
    one, less the zeros that follow it: the [k] with
    [10 ^ (k - 1) <= n / d < 10 ^ k]. *)
Definition below_power (n d k : Z) : bool :=
  if 0 <=? k then n <? d * 10 ^ k else n * 10 ^ (- k) <? d.
Fixpoint adjust (fuel : nat) (n d k : Z) : Z :=
  match fuel with
  | O => k
  | S fuel =>
      if negb (below_power n d k) then adjust fuel n d (k + 1)
      else if below_power n d (k - 1) then adjust fuel n d (k - 1)
      else k
  end.
Definition decimal_places (n d : Z) : Z :=
  adjust 8 n d ((Z.log2 n - Z.log2 d) * 30103 / 100000 + 1).

(** The shortest digits that read back as the number, and of those the
    nearest to it; seventeen always do. *)
Fixpoint shortest (tries : nat) (x : f64) (n d k count : Z) : Z * Z :=
  let q := k - count in
  let '(num, den) := if 0 <=? q then (n, d * 10 ^ q) else (n * 10 ^ (- q), d) in
  let lo := num / den in
  let reads_back z := bool_decide (decimal false z q = x) in
  let nearer_up := den <=? 2 * (num mod den) in
  match tries with
  | O => (lo, q)
  | S tries =>
      match reads_back lo, reads_back (lo + 1) with
      | true, true => (if nearer_up then lo + 1 else lo, q)
      | true, false => (lo, q)
      | false, true => (lo + 1, q)
      | false, false => shortest tries x n d k (count + 1)
      end
  end.

(** Digits that end in zeros, with the zeros moved into the exponent. *)
Fixpoint strip_zeros (fuel : nat) (digits exponent : Z) : Z * Z :=
  match fuel with
  | O => (digits, exponent)
  | S fuel =>
      if (digits mod 10 =? 0) && (0 <? digits) then strip_zeros fuel (digits / 10) (exponent + 1)
      else (digits, exponent)
  end.

Definition with_sign (negative : bool) (s : Bytes) : Bytes :=
  if negative then minus_sign :: s else s.

(** [to_string]. *)
Definition show_f64 (x : f64) : Bytes :=
  match x with
  | S754_nan => lit "NaN"
  | S754_infinity s => with_sign s (lit "inf")
  | S754_zero s => with_sign s (lit "0")
  | S754_finite s m e =>
      let '(n, d) := fraction m e in
      let '(digits, q) := shortest 17 (S754_finite false m e) n d (decimal_places n d) 1 in
      let '(digits, q) := strip_zeros 20 digits q in
      with_sign s (spell digits q)
  end.

Definition round_half_even (n d : Z) : Z :=
  let q := n / d in
  let r := n mod d in
  if 2 * r <? d then q
  else if d <? 2 * r then q + 1
  else if Z.even q then q else q + 1.

(** [format!("{:.places$}")]. *)
Definition show_fixed (places : Z) (x : f64) : Bytes :=
  let fixed z :=
    let s := show_unsigned z in
    let s := zeros (places + 1 - len s) ++ s in
    let point := Z.to_nat (len s - places) in
    take point s ++ lit "." ++ drop point s in
  match x with
  | S754_nan => lit "NaN"
  | S754_infinity s => with_sign s (lit "inf")
  | S754_zero s => with_sign s (fixed 0)
  | S754_finite s m e =>
      let '(n, d) := fraction m e in
      with_sign s (fixed (round_half_even (n * 10 ^ places) d))
  end.

(** The numbers the source's own tests read and write. *)
Definition read_f64 (s : string) : f64 := default S754_nan (parse_f64 (lit s)).
Example f64_reads :
  map (fun s => parse_f64 (lit s))
    ["8"; "8.0"; "-1.5"; "1e3"; "+inf"; "-inf"; ".5"; "5."]%string
  = [Some (f_of_Z 8); Some (f_of_Z 8); Some (f_div (f_of_Z (-3)) (f_of_Z 2)); Some (f_of_Z 1000);
     Some (S754_infinity false); Some (S754_infinity true);
     Some (f_div (f_of_Z 1) (f_of_Z 2)); Some (f_of_Z 5)]
  /\ map (fun s => parse_f64 (lit s)) [""; "."; "e3"; "1e"; "abc"; "1 "; "--1"; "0x10"]%string
     = repeat None 8.
Proof. split; vm_compute; reflexivity. Qed.
Example f64_writes :
  map (fun s => show_f64 (read_f64 s)) ["20.0"; "8.25"; "-1.5"; "1e21"; "1e-7"; "0.1"; "-0"; "5e-324"]%string
  = [lit "20"; lit "8.25"; lit "-1.5"; lit "1000000000000000000000"; lit "0.0000001"; lit "0.1";
     lit "-0"; lit "0." ++ zeros 323 ++ lit "5"].
Proof. vm_compute; reflexivity. Qed.
Example f64_writes_places :
  show_fixed 17 (read_f64 "51.5073509") = lit "51.50735089999999872"
  /\ show_fixed 6 (read_f64 "-200") = lit "-200.000000" /\ show_fixed 4 (read_f64 "0.03125") = lit "0.0312".
Proof. split_and!; vm_compute; reflexivity. Qed.

(** ** The order on doubles *)

(** A triple of integers that falls where the double does. *)
Definition order_key (x : f64) : Z * Z * Z :=
  match x with
  | S754_infinity true => (-2, 0, 0)
  | S754_finite true m e => (-1, - e, - Z.pos m)
  | S754_zero _ | S754_nan => (0, 0, 0)
  | S754_finite false m e => (1, e, Z.pos m)
  | S754_infinity false => (2, 0, 0)
  end.

Definition compare_keys (x y : Z * Z * Z) : comparison :=
  match fst (fst x) ?= fst (fst y) with
  | Eq => match snd (fst x) ?= snd (fst y) with
          | Eq => snd x ?= snd y
          | c => c
          end
  | c => c
  end.

Lemma compare_key x y :
  is_nan x = false -> is_nan y = false -> partial_cmp x y = Some (compare_keys (order_key x) (order_key y)).
Proof.
  intros Hx Hy. unfold partial_cmp.
  destruct x as [sx|sx| |sx mx ex], y as [sy|sy| |sy my ey]; try done;
    destruct sx; try destruct sy; try done.
  unfold compare_keys. cbn [order_key fst snd SFcompare].
  rewrite Z.compare_refl, !Z.compare_opp, (Z.compare_antisym ex ey).
  destruct (ex ?= ey); cbn; [|done..]. by rewrite <- Pos.compare_antisym.
Qed.

Lemma compare_keys_refl k : compare_keys k k = Eq.
Proof. destruct k as [[a b] c]. unfold compare_keys; cbn. by rewrite !Z.compare_refl. Qed.

Lemma compare_keys_antisym k l : compare_keys l k = CompOpp (compare_keys k l).
Proof.
  destruct k as [[a b] c], l as [[a' b'] c']. unfold compare_keys; cbn.
  rewrite (Z.compare_antisym a a'), (Z.compare_antisym b b'), (Z.compare_antisym c c').
  by destruct (a ?= a'), (b ?= b'), (c ?= c').
Qed.

Lemma compare_keys_eq k l : compare_keys k l = Eq <-> k = l.
Proof.
  split; [|intros ->; apply compare_keys_refl].
  destruct k as [[a b] c], l as [[a' b'] c']. unfold compare_keys; cbn.
  destruct (Z.compare_spec a a'), (Z.compare_spec b b'), (Z.compare_spec c c'); congruence.
Qed.

Lemma compare_keys_trans k l m :
  compare_keys k l = Lt -> compare_keys l m = Lt -> compare_keys k m = Lt.
Proof.
  destruct k as [[a b] c], l as [[a' b'] c'], m as [[a'' b''] c'']. unfold compare_keys; cbn.
  destruct (Z.compare_spec a a'), (Z.compare_spec b b'), (Z.compare_spec c c'); try done; intros _;
  destruct (Z.compare_spec a' a''), (Z.compare_spec b' b''), (Z.compare_spec c' c''); try done; intros _;
  destruct (Z.compare_spec a a''), (Z.compare_spec b b''), (Z.compare_spec c c''); try done; lia.
Qed.

(** ** Rounding a number gives a number *)
Lemma iter_pos_inv {A} (P : A -> Prop) (f : A -> A) p x :
  (forall y, P y -> P (f y)) -> P x -> P (SpecFloat.iter_pos f p x).
Proof. intros Hf. revert x; induction p as [p IH|p IH|]; intros x Hx; cbn; auto. Qed.

Lemma shr_fexp_nonneg m e l : 0 <= m -> 0 <= shr_m (shr_fexp PREC EMAX m e l).1.
Proof.
  intros Hm. unfold shr_fexp, shr.
  assert (0 <= shr_m (shr_record_of_loc m l)) as H0 by (by destruct l as [|[]]).
  destruct (fexp _ _ _ - e) as [|p|p]; [done| |done]. cbn [fst].
  apply (iter_pos_inv (fun r => 0 <= shr_m r)); [|done].
  intros [[|[p'|p'|]|p'] r s] Hr; cbn in *; lia.
Qed.

Lemma binary_round_aux_number s m e l : 0 <= m -> is_nan (binary_round_aux PREC EMAX s m e l) = false.
Proof.
  intros Hm. unfold binary_round_aux.
  pose proof (shr_fexp_nonneg m e l Hm) as H1. destruct (shr_fexp PREC EMAX m e l) as [r1 e1].
  cbn [fst] in H1. set (m2 := round_nearest_even _ _).
  assert (0 <= m2) as H2.
  { unfold m2, round_nearest_even. destruct (loc_of_shr_record r1) as [|[]]; try lia.
    destruct (Z.even _); lia. }
  pose proof (shr_fexp_nonneg m2 e1 loc_Exact H2) as H3.
  destruct (shr_fexp PREC EMAX m2 e1 loc_Exact) as [r2 e2]. cbn [fst] in H3.
  destruct (shr_m r2); [done|by case_match|lia].
Qed.

Lemma f_of_Z_number z : is_nan (f_of_Z z) = false.
Proof.
  unfold f_of_Z, binary_normalize. destruct z as [|p|p]; [done| |]; unfold binary_round;
    destruct (shl_align _ _ _); by apply binary_round_aux_number.
Qed.

(** ** Whole numbers of 53 bits

    They are doubles, and are what they were when they are cast back. *)
Lemma digits2_shift d p : digits2_pos (Pos.iter xO p d) = (digits2_pos p + d)%positive.
Proof.
  induction d as [|d IH] using Pos.peano_ind; [cbn; lia|].
  rewrite Pos.iter_succ. cbn [digits2_pos]. lia.
Qed.
Lemma pos_iter_xO p d : Z.pos (Pos.iter xO p d) = Z.pos p * 2 ^ Z.pos d.
Proof.
  induction d as [|d IH] using Pos.peano_ind; [cbn; lia|].
  rewrite Pos.iter_succ, Pos2Z.inj_succ, Z.pow_succ_r by lia.
  change (Z.pos (Pos.iter xO p d)~0) with (2 * Z.pos (Pos.iter xO p d)). lia.
Qed.
Lemma digits2_size p : digits2_pos p = Pos.size p.
Proof. by induction p as [p IH|p IH|]; cbn; [rewrite IH..|]. Qed.
Lemma digits2_bound k p : Z.pos p < 2 ^ k -> 0 <= k -> Z.pos (digits2_pos p) <= k.
Proof.
  intros Hp Hk. rewrite digits2_size. pose proof (Pos.size_le p) as Hs.
  assert (2 ^ Z.pos (Pos.size p) < 2 ^ (k + 1)) as Hlt.
  { rewrite Z.pow_add_r, <- Pos2Z.inj_pow by lia. change (2 ^ 1) with 2.
    enough (Z.pos (2 ^ Pos.size p) <= Z.pos p~0) by lia. lia. }
  apply Z.pow_lt_mono_r_iff in Hlt; lia.
Qed.

(** A number of 53 bits is not rounded. *)
Lemma round_aux_exact s p e :
  Z.pos (digits2_pos p) = PREC -> -1074 <= e <= 971 ->
  binary_round_aux PREC EMAX s (Z.pos p) e loc_Exact = S754_finite s p e.
Proof.
  intros Hp He. unfold binary_round_aux, shr_fexp. cbn [Zdigits2 shr_record_of_loc].
  assert (SpecFloat.fexp PREC EMAX (Z.pos (digits2_pos p) + e) - e = 0) as Hf.
  { rewrite Hp. unfold SpecFloat.fexp, SpecFloat.emin, PREC, EMAX. lia. }
  rewrite Hf. cbn. rewrite Hf. cbn. 
  destruct (Z.leb_spec e (EMAX - PREC)); [done|unfold EMAX, PREC in *; lia].
Qed.

Lemma f_of_Z_exact n : 0 <= n < 2 ^ 53 -> f_trunc (f_of_Z n) = n.
Proof.
  intros Hn. unfold f_of_Z, binary_normalize. destruct n as [|p|p]; [done| |lia].
  pose proof (digits2_bound 53 p) as Hd. unfold binary_round, shl_align.
  assert (SpecFloat.fexp PREC EMAX (Z.pos (digits2_pos p) + 0) - 0
          = - (53 - Z.pos (digits2_pos p))) as ->.
  { unfold SpecFloat.fexp, SpecFloat.emin, PREC, EMAX. lia. }
  destruct (53 - Z.pos (digits2_pos p)) as [|d|d] eqn:E; cbv beta iota delta [Z.opp]; [| |lia].
  - rewrite round_aux_exact by (unfold PREC; lia). cbn. lia.
  - rewrite round_aux_exact; [|rewrite digits2_shift; unfold PREC; lia|].
    2: { unfold SpecFloat.fexp, SpecFloat.emin, PREC, EMAX. lia. }
    unfold SpecFloat.fexp, SpecFloat.emin, PREC, EMAX, f_trunc.
    rewrite Z.max_l by lia. replace (_ + 0 - 53) with (Z.neg d) by lia. cbn [Z.leb Z.compare Z.opp].
    rewrite pos_iter_xO. apply Z.div_mul. lia.
Qed.
Lemma as_u64_exact n : 0 <= n < 2 ^ 53 -> as_u64 (f_of_Z n) = n.
Proof.
  intros Hn. pose proof (f_of_Z_exact n Hn) as E. unfold as_u64, saturate.
  destruct (f_of_Z n) eqn:Ef; [rewrite E; unfold U64_MAX; lia| |rewrite E; unfold U64_MAX; lia..].
  cbn in E. by subst n.
Qed.
