(* ===== verification/Rounding.v ===== *)
(** * How far the arithmetic of doubles is from that of the reals

    What a double stands for ([real]), and that adding, subtracting, multiplying and
    dividing doubles gives what the reals give, but for a part in [2^50] of it
    ([near]): each of them is exact but for the one rounding at its end, which is
    [binary_round_aux], and what that does to a number is in [round_aux_near].  The
    bounds are not the best there are: they are all that is needed. *)
From Stdlib Require Import Reals Lra.
From S2P Require Import Prelude Text F64.
Open Scope Z_scope.

Definition pow2 (e : Z) : R := powerRZ 2 e.

(** The real number a double stands for, where it stands for one. *)
Definition real (x : f64) : R :=
  match x with
  | S754_finite s m e => ((if s then - IZR (Z.pos m) else IZR (Z.pos m)) * pow2 e)%R
  | _ => 0%R
  end.
Definition finite (x : f64) : bool :=
  match x with S754_zero _ | S754_finite _ _ _ => true | _ => false end.

Open Scope R_scope.

Lemma pow2_add a b : pow2 (a + b) = pow2 a * pow2 b.
Proof. apply powerRZ_add. lra. Qed.
Lemma pow2_pos e : 0 < pow2 e.
Proof. apply powerRZ_lt. lra. Qed.
Lemma pow2_IZR n : (0 <= n)%Z -> pow2 n = IZR (2 ^ n).
Proof.
  intros Hn. unfold pow2. rewrite <- (Z2Nat.id n) at 1 by done. rewrite <- pow_powerRZ, pow_IZR.
  f_equal. by rewrite Z2Nat.id.
Qed.
Lemma pow2_neg n : (0 <= n)%Z -> pow2 (- n) = / IZR (2 ^ n).
Proof. intros Hn. rewrite <- pow2_IZR by done. apply powerRZ_neg'. Qed.

Lemma pow2_ge_1 n : (0 <= n)%Z -> 1 <= pow2 n.
Proof. intros Hn. rewrite pow2_IZR by done. apply (IZR_le 1). pose proof (Z.pow_pos_nonneg 2 n). lia. Qed.
Lemma pow2_le a b : (a <= b)%Z -> pow2 a <= pow2 b.
Proof.
  intros Hab. replace b with (a + (b - a))%Z by lia. rewrite pow2_add.
  pose proof (pow2_pos a). pose proof (pow2_ge_1 (b - a) ltac:(lia)). nra.
Qed.
Lemma pow2_lt a b : (a < b)%Z -> pow2 a < pow2 b.
Proof.
  intros Hab. apply Rlt_le_trans with (pow2 (a + 1)); [|apply pow2_le; lia].
  rewrite pow2_add. change (pow2 1) with (2 * 1). pose proof (pow2_pos a). lra.
Qed.
Lemma pow2_le_inv a b : pow2 a <= pow2 b -> (a <= b)%Z.
Proof. intros Hp. destruct (Z.le_gt_cases a b) as [|Hlt]; [done|]. apply Z.lt_gt, Z.gt_lt, pow2_lt in Hlt. lra. Qed.

(** ** One rounding *)

(** [x] is between [m] and [m + 1] steps of [2^e]. *)
Definition cell (m e : Z) (x : R) : Prop := IZR m * pow2 e <= x <= IZR (m + 1) * pow2 e.

Lemma cell_exact m e : cell m e (IZR m * pow2 e).
Proof. unfold cell. rewrite plus_IZR. pose proof (pow2_pos e). nra. Qed.

Lemma cell_shift m e x n : (0 <= n)%Z -> cell m e x -> cell (m / 2 ^ n) (e + n) x.
Proof.
  intros Hn [Hlo Hhi]. unfold cell. rewrite pow2_add. pose proof (pow2_pos e) as Hp.
  pose proof (Z.pow_pos_nonneg 2 n ltac:(lia) Hn) as Hpos.
  pose proof (Z.mul_div_le m (2 ^ n) Hpos) as H1. pose proof (Z.mul_succ_div_gt m (2 ^ n) Hpos) as H2.
  assert (IZR (m / 2 ^ n) * pow2 n <= IZR m).
  { rewrite pow2_IZR, <- mult_IZR by done. apply IZR_le. lia. }
  assert (IZR (m + 1) <= IZR (m / 2 ^ n + 1) * pow2 n).
  { rewrite pow2_IZR, <- mult_IZR by done. apply IZR_le. lia. }
  split; [apply Rle_trans with (IZR m * pow2 e)|apply Rle_trans with (IZR (m + 1) * pow2 e)]; try done; nra.
Qed.

Lemma shr_1_half r : (0 <= shr_m r)%Z -> shr_m (shr_1 r) = (shr_m r / 2)%Z.
Proof.
  destruct r as [[|[p|p|]|p] b s]; cbn [shr_m shr_1]; intros Hm; try done.
  - rewrite Pos2Z.inj_xI. apply (Z.div_unique _ _ _ 1); lia.
  - rewrite Pos2Z.inj_xO. apply (Z.div_unique _ _ _ 0); lia.
Qed.

Lemma shr_steps p r : (0 <= shr_m r)%Z -> shr_m (SpecFloat.iter_pos shr_1 p r) = (shr_m r / 2 ^ Z.pos p)%Z.
Proof.
  assert (Hdiv : forall a n, (0 <= a)%Z -> (0 <= a / 2 ^ Z.pos n)%Z) by (intros; apply Z.div_pos; lia).
  revert r; induction p as [p IH|p IH|]; intros r Hr; cbn [SpecFloat.iter_pos].
  - assert (0 <= shr_m (shr_1 r))%Z as H1 by (rewrite shr_1_half by done; apply Z.div_pos; lia).
    rewrite (IH (SpecFloat.iter_pos shr_1 p (shr_1 r))), IH, shr_1_half by (rewrite ?IH by done; auto).
    rewrite !Z.div_div by lia. f_equal.
    rewrite Pos2Z.inj_xI, Z.pow_add_r, Z.pow_mul_r, Z.pow_2_r, <- Z.pow_mul_l by lia.
    rewrite Z.pow_mul_l. lia.
  - rewrite (IH (SpecFloat.iter_pos shr_1 p r)), IH by (rewrite ?IH by done; auto).
    rewrite Z.div_div by lia. f_equal. rewrite Pos2Z.inj_xO, <- Z.pow_add_r by lia. f_equal. lia.
  - by apply shr_1_half.
Qed.

Abbreviation exponent_of m e := (SpecFloat.fexp PREC EMAX (Zdigits2 m + e)).

Lemma shr_fexp_near m e l x :
  (0 <= m)%Z -> cell m e x ->
  let '(r, e1) := shr_fexp PREC EMAX m e l in
  (0 <= shr_m r)%Z /\ cell (shr_m r) e1 x /\ e1 = Z.max e (exponent_of m e)
  /\ (e1 = e -> r = shr_record_of_loc m l).
Proof.
  intros Hm Hc. unfold shr_fexp, shr.
  assert (Hl : shr_m (shr_record_of_loc m l) = m) by (by destruct l as [|[]]).
  destruct (exponent_of m e - e)%Z as [|p|p] eqn:E.
  - rewrite Hl. split_and!; [done|done|lia|done].
  - rewrite shr_steps, Hl by (by rewrite Hl). split_and!; [apply Z.div_pos; lia| |lia|lia].
    by apply cell_shift.
  - rewrite Hl. split_and!; [done|done|lia|done].
Qed.

Lemma digits_low p : (2 ^ (Z.pos (digits2_pos p) - 1) <= Z.pos p)%Z.
Proof.
  rewrite digits2_size. pose proof (Pos.size_le p) as Hs.
  assert (2 ^ Z.pos (Pos.size p) <= Z.pos p~0)%Z as Hz by (rewrite <- Pos2Z.inj_pow; lia).
  replace (Z.pos (Pos.size p)) with (Z.pos (Pos.size p) - 1 + 1)%Z in Hz at 1 by lia.
  rewrite Z.pow_add_r in Hz by lia. lia.
Qed.
Lemma digits_high p : (Z.pos p < 2 ^ Z.pos (digits2_pos p))%Z.
Proof. rewrite digits2_size, <- Pos2Z.inj_pow. apply Pos.size_gt. Qed.

(** The step a double is rounded to is small beside it. *)
Lemma step_small m e x :
  (0 <= m)%Z -> IZR m * pow2 e <= x -> (e <= exponent_of m e)%Z ->
  pow2 (exponent_of m e) <= x * / 4503599627370496 + pow2 (-1074).
Proof.
  intros Hm Hx He. assert (pow2 (-1074) > 0) as Ht by apply pow2_pos.
  unfold SpecFloat.fexp, SpecFloat.emin, PREC, EMAX in *.
  destruct (Z.max_spec (Zdigits2 m + e - 53) (3 - 1024 - 53)) as [[Hlt E]|[Hle E]]; rewrite E in *.
  - assert (0 <= x); [|change (3 - 1024 - 53)%Z with (-1074)%Z; lra].
    apply Rle_trans with (2 := Hx). apply Rmult_le_pos; [by apply IZR_le|apply Rlt_le, pow2_pos].
  - destruct m as [|p|p]; [cbn [Zdigits2] in *; lia| |lia]. cbn [Zdigits2] in *.
    replace (Z.pos (digits2_pos p) + e - 53)%Z with (Z.pos (digits2_pos p) - 1 + e + -52)%Z by lia.
    rewrite !pow2_add. change (pow2 (-52)) with (pow2 (- (52))). rewrite pow2_neg by lia.
    pose proof (digits_low p) as Hd. apply IZR_le in Hd. rewrite <- pow2_IZR in Hd by lia.
    change (2 ^ 52)%Z with 4503599627370496%Z. pose proof (pow2_pos e). nra.
Qed.

(** [r] is [y], but for rounding. *)
Definition near (r : f64) (y : R) : Prop :=
  finite r = true /\ Rabs (real r - y) <= Rabs y * / 1125899906842624 + 16 * pow2 (-1074).

Definition signed (s : bool) (x : R) : R := if s then - x else x.
Lemma Rabs_signed s x : Rabs (signed s x) = Rabs x.
Proof. destruct s; [apply Rabs_Ropp|done]. Qed.
Lemma signed_minus s a b : signed s a - signed s b = signed s (a - b).
Proof. destruct s; cbn; lra. Qed.
Lemma real_finite s m e : real (S754_finite s m e) = signed s (IZR (Z.pos m) * pow2 e).
Proof. destruct s; cbn [real signed]; lra. Qed.

Lemma round_to_either r : let m := shr_m r in
  round_nearest_even m (loc_of_shr_record r) = m \/ round_nearest_even m (loc_of_shr_record r) = (m + 1)%Z.
Proof.
  cbn zeta. unfold round_nearest_even. destruct (loc_of_shr_record r) as [|[]]; auto. destruct (Z.even _); auto.
Qed.
Lemma loc_of_record m l : loc_of_shr_record (shr_record_of_loc m l) = l.
Proof. by destruct l as [|[]]. Qed.

Lemma within a b : Rabs a <= b -> - b <= a <= b.
Proof. unfold Rabs. destruct (Rcase_abs a); lra. Qed.

(** Of a cell, either end is within a step of what is in it. *)
Lemma cell_end m m' e x : cell m e x -> m' = m \/ m' = (m + 1)%Z -> Rabs (IZR m' * pow2 e - x) <= pow2 e.
Proof.
  intros [Hlo Hhi] Hm. rewrite plus_IZR in Hhi. pose proof (pow2_pos e).
  apply Rabs_le. destruct Hm as [->| ->]; [|rewrite plus_IZR]; lra.
Qed.

(** The first of the two shifts, and the choice of a neighbour. *)
Lemma chosen_near m e l x :
  (0 <= m)%Z -> cell m e x -> (l = loc_Exact -> x = IZR m * pow2 e) ->
  (l <> loc_Exact -> (e <= exponent_of m e)%Z) -> (e <= 900)%Z -> x <= pow2 900 ->
  let '(r, e1) := shr_fexp PREC EMAX m e l in
  let m1 := round_nearest_even (shr_m r) (loc_of_shr_record r) in
  (0 <= m1)%Z /\ (e1 <= 900)%Z
  /\ (m1 = m /\ e1 = e /\ x = IZR m1 * pow2 e1 /\ (exponent_of m e <= e)%Z
      \/ Rabs (IZR m1 * pow2 e1 - x) <= x * / 4503599627370496 + pow2 (-1074)).
Proof.
  intros Hm Hc Hexact Hinexact He Hx.
  assert (0 <= x) as Hx0.
  { destruct Hc as [Hlo _]. apply Rle_trans with (2 := Hlo). apply Rmult_le_pos; [by apply IZR_le|apply Rlt_le, pow2_pos]. }
  pose proof (shr_fexp_near m e l x Hm Hc) as Hs.
  destruct (shr_fexp PREC EMAX m e l) as [r e1]. destruct Hs as (Hr & Hc1 & He1 & Hsame). cbn zeta.
  assert (Hsmall : (e <= exponent_of m e)%Z ->
            pow2 (exponent_of m e) <= x * / 4503599627370496 + pow2 (-1074)).
  { intros Hge. apply step_small with (m := m) (e := e); [done| |done]. by destruct Hc. }
  split_and!.
  - destruct (round_to_either r) as [-> | ->]; lia.
  - destruct (Z.max_spec e (exponent_of m e)) as [[Hlt E]|[_ E]]; rewrite E in He1; subst e1; [|done].
    apply pow2_le_inv. apply Rle_trans with (1 := Hsmall ltac:(lia)).
    pose proof (pow2_le (-1074) 0 ltac:(lia)) as Ht. change (pow2 0) with 1 in Ht.
    pose proof (pow2_le 1 900 ltac:(lia)) as H2. change (pow2 1) with (2 * 1) in H2. lra.
  - assert ((l = loc_Exact /\ (exponent_of m e <= e)%Z) \/ (e <= exponent_of m e)%Z) as [[-> Hle]|Hge].
    { destruct (Z.le_gt_cases (exponent_of m e) e); [|right; lia]. destruct l; [by left|]. right. by apply Hinexact. }
    + left. assert (e1 = e) as -> by lia. rewrite (Hsame eq_refl). cbn. auto.
    + right.
      apply Rle_trans with (pow2 e1); [apply (cell_end (shr_m r)); [done|apply round_to_either]|].
      rewrite He1, Z.max_r by done. auto.
Qed.

(** What [binary_round_aux] does to a number: next to nothing. *)
Lemma round_aux_near s m e l x :
  (0 <= m)%Z -> cell m e x -> (l = loc_Exact -> x = IZR m * pow2 e) ->
  (l <> loc_Exact -> (e <= exponent_of m e)%Z) -> (e <= 900)%Z -> x <= pow2 900 ->
  near (binary_round_aux PREC EMAX s m e l) (signed s x).
Proof.
  intros Hm Hc Hexact Hinexact He Hx. unfold binary_round_aux.
  pose proof (chosen_near m e l x Hm Hc Hexact Hinexact He Hx) as Hfirst.
  destruct (shr_fexp PREC EMAX m e l) as [r e1]. set (m1 := round_nearest_even _ _) in *. cbn zeta in Hfirst.
  destruct Hfirst as (Hm1 & He1 & Hnear).
  assert (0 <= x) as Hx0.
  { destruct Hc as [Hlo _]. apply Rle_trans with (2 := Hlo). apply Rmult_le_pos; [by apply IZR_le|apply Rlt_le, pow2_pos]. }
  pose proof (pow2_pos (-1074)) as Ht. pose proof (pow2_le (-1074) 0 ltac:(lia)) as Ht1. change (pow2 0) with 1 in Ht1.
  pose proof (pow2_le 1 900 ltac:(lia)) as H2. change (pow2 1) with (2 * 1) in H2.
  assert (Hx1 : Rabs (IZR m1 * pow2 e1 - x) <= x * / 4503599627370496 + pow2 (-1074)).
  { destruct Hnear as [(_ & _ & <- & _)|]; [|done]. rewrite Rminus_diag, Rabs_R0. lra. }
  pose proof (shr_fexp_near m1 e1 loc_Exact _ Hm1 (cell_exact m1 e1)) as Hs.
  destruct (shr_fexp PREC EMAX m1 e1 loc_Exact) as [r2 e2]. destruct Hs as (Hr2 & Hc2 & He2 & Hsame).
  assert (Hx2 : (e2 <= 901)%Z /\ Rabs (IZR (shr_m r2) * pow2 e2 - x)
                <= x * / 1125899906842624 + 16 * pow2 (-1074)).
  { apply within in Hx1. destruct (Z.le_gt_cases (exponent_of m1 e1) e1) as [Hle|Hgt].
    - assert (e2 = e1) as -> by lia. rewrite (Hsame eq_refl). cbn [shr_record_of_loc shr_m].
      split; [lia|]. apply Rabs_le. lra.
    - assert (Hsmall : pow2 e2 <= IZR m1 * pow2 e1 * / 4503599627370496 + pow2 (-1074)).
      { rewrite He2, Z.max_r by lia. apply step_small with (m := m1) (e := e1); [done|lra|lia]. }
      pose proof (cell_end _ _ _ _ Hc2 (or_introl eq_refl)) as Hend. apply within in Hend.
      split; [|apply Rabs_le; lra]. apply pow2_le_inv. replace 901%Z with (900 + 1)%Z by lia.
      rewrite pow2_add. change (pow2 1) with (2 * 1). lra. }
  destruct Hx2 as [He3 Hx3].
  assert (Hreal : near (match shr_m r2 with
      | 0%Z => S754_zero s
      | Z.pos p => if (e2 <=? EMAX - PREC)%Z then S754_finite s p e2 else S754_infinity s
      | Z.neg _ => S754_nan end) (signed s x)); [|done].
  unfold near. rewrite Rabs_signed, (Rabs_pos_eq x) by done.
  destruct (shr_m r2) as [|p|p]; [| |lia].
  - split; [done|]. replace (real (S754_zero s)) with (signed s (0 * pow2 e2)) by (destruct s; cbn; lra).
    rewrite signed_minus, Rabs_signed. exact Hx3.
  - destruct (Z.leb_spec e2 (EMAX - PREC)); [|unfold EMAX, PREC in *; lia]. split; [done|].
    rewrite real_finite, signed_minus, Rabs_signed. exact Hx3.
Qed.

(** ** The operations *)
Lemma exponent_bound p e b : IZR (Z.pos p) * pow2 e <= pow2 b -> (e <= b)%Z.
Proof.
  intros Hp. apply pow2_le_inv. pose proof (pow2_pos e). pose proof (IZR_le 1 (Z.pos p) ltac:(lia)). nra.
Qed.

Lemma near_0 r y : finite r = true -> real r = y -> near r y.
Proof.
  intros Hf <-. split; [done|]. rewrite Rminus_diag, Rabs_R0. pose proof (Rabs_pos (real r)).
  pose proof (pow2_pos (-1074)). lra.
Qed.

Lemma real_signed s m e : Rabs (real (S754_finite s m e)) = IZR (Z.pos m) * pow2 e.
Proof.
  rewrite real_finite, Rabs_signed. apply Rabs_pos_eq, Rmult_le_pos; [by apply IZR_le|apply Rlt_le, pow2_pos].
Qed.

Lemma f_mul_near a b :
  finite a = true -> finite b = true -> Rabs (real a * real b) <= pow2 900 -> near (f_mul a b) (real a * real b).
Proof.
  destruct a as [s| | |s m e], b as [s'| | |s' m' e']; try done; intros _ _ Hab; cbn [f_mul SFmul];
    try (apply near_0; [done|cbn [real]; lra]).
  unfold f_mul. cbn [SFmul]. rewrite Rabs_mult, !real_signed in Hab.
  assert (Hx : IZR (Z.pos (m * m')) * pow2 (e + e') = IZR (Z.pos m) * pow2 e * (IZR (Z.pos m') * pow2 e')).
  { rewrite Pos2Z.inj_mul, mult_IZR, pow2_add. ring. }
  assert (real (S754_finite s m e) * real (S754_finite s' m' e')
          = signed (xorb s s') (IZR (Z.pos (m * m')) * pow2 (e + e'))) as ->.
  { rewrite Hx, !real_finite. destruct s, s'; cbn [xorb signed]; ring. }
  apply round_aux_near; [done|apply cell_exact|done|done| |by rewrite Hx].
  apply (exponent_bound (m * m')). by rewrite Hx.
Qed.

Lemma shl_align_keeps m e e' :
  let '(mz, ez) := shl_align m e e' in
  IZR (Z.pos mz) * pow2 ez = IZR (Z.pos m) * pow2 e /\ (ez <= e)%Z /\ (ez = e' \/ ez = e).
Proof.
  unfold shl_align. destruct (e' - e)%Z as [|d|d] eqn:E; [split_and!; (done || auto)..|].
  split_and!; [|lia|by left]. rewrite pos_iter_xO, mult_IZR, <- pow2_IZR, Rmult_assoc, <- pow2_add by lia.
  do 2 f_equal. lia.
Qed.

Lemma round_near s p e :
  IZR (Z.pos p) * pow2 e <= pow2 900 -> near (binary_round PREC EMAX s p e) (signed s (IZR (Z.pos p) * pow2 e)).
Proof.
  intros Hp. unfold binary_round. pose proof (exponent_bound _ _ _ Hp) as He.
  pose proof (shl_align_keeps p e (SpecFloat.fexp PREC EMAX (Z.pos (digits2_pos p) + e))) as Hk.
  destruct (shl_align _ _ _) as [mz ez]. destruct Hk as (E & Hez & _). rewrite <- E in *.
  apply round_aux_near; (done || lia || apply cell_exact).
Qed.

Lemma normalize_near z e :
  Rabs (IZR z * pow2 e) <= pow2 900 -> near (binary_normalize PREC EMAX z e false) (IZR z * pow2 e).
Proof.
  intros Hz. rewrite Rabs_mult, (Rabs_pos_eq (pow2 e)) in Hz by apply Rlt_le, pow2_pos.
  unfold binary_normalize. destruct z as [|p|p].
  - apply near_0; [done|cbn; lra].
  - apply (round_near false). by rewrite Rabs_pos_eq in Hz by (by apply IZR_le).
  - change (Z.neg p) with (- Z.pos p)%Z in *. rewrite opp_IZR in *. rewrite Rabs_Ropp in Hz.
    rewrite Rabs_pos_eq in Hz by (by apply IZR_le).
    replace (- IZR (Z.pos p) * pow2 e) with (signed true (IZR (Z.pos p) * pow2 e)) by (cbn [signed]; ring).
    by apply round_near.
Qed.

Lemma aligned s m e ez :
  (ez <= e)%Z -> IZR (cond_Zopp s (Z.pos (shl_align m e ez).1)) * pow2 ez = real (S754_finite s m e).
Proof.
  intros He. pose proof (shl_align_keeps m e ez) as Hk. unfold shl_align in *.
  assert (Hz : IZR (Z.pos (match (ez - e)%Z with Z.neg d => (Pos.iter xO m d, ez) | _ => (m, e) end).1) * pow2 ez
               = IZR (Z.pos m) * pow2 e).
  { destruct (ez - e)%Z as [|d|d] eqn:E; cbn [fst]; [by replace ez with e by lia|lia|by destruct Hk]. }
  rewrite real_finite, <- Hz. destruct s; cbn [cond_Zopp signed]; [rewrite opp_IZR; ring|done].
Qed.

Lemma f_add_near a b :
  finite a = true -> finite b = true -> Rabs (real a + real b) <= pow2 900 -> near (f_add a b) (real a + real b).
Proof.
  destruct a as [s| | |s m e], b as [s'| | |s' m' e']; try done; intros _ _ Hab; unfold f_add; cbn [SFadd].
  - apply near_0; [by destruct s, s'|destruct s, s'; cbn; lra].
  - apply near_0; [done|cbn [real]; lra].
  - apply near_0; [done|cbn [real]; lra].
  - cbn zeta. rewrite <- (aligned s m e (Z.min e e')), <- (aligned s' m' e' (Z.min e e')) in * by lia.
    rewrite <- Rmult_plus_distr_r, <- plus_IZR in *. by apply normalize_near.
Qed.

Lemma f_sub_near a b :
  finite a = true -> finite b = true -> Rabs (real a - real b) <= pow2 900 -> near (f_sub a b) (real a - real b).
Proof.
  destruct a as [s| | |s m e], b as [s'| | |s' m' e']; try done; intros _ _ Hab; unfold f_sub; cbn [SFsub].
  - apply near_0; [by destruct s, s'|destruct s, s'; cbn; lra].
  - apply near_0; [done|]. rewrite !real_finite. destruct s'; cbn [real signed negb]; ring.
  - apply near_0; [done|cbn [real]; lra].
  - cbn zeta. rewrite <- (aligned s m e (Z.min e e')), <- (aligned s' m' e' (Z.min e e')) in * by lia.
    rewrite <- Rmult_minus_distr_r, <- minus_IZR in *. by apply normalize_near.
Qed.

(** A quotient is worked out to 53 digits, and what is left of it. *)
Lemma new_location_exact n k : new_location n k = loc_Exact <-> k = 0%Z.
Proof.
  unfold new_location, new_location_even, new_location_odd. destruct (Z.even n), (Z.eqb_spec k 0); by split.
Qed.

Lemma quotient_cell m e m' e' s q r :
  (0 <= s)%Z -> Z.div_eucl (Z.shiftl (Z.pos m) s) (Z.pos m') = (q, r) ->
  let x := IZR (Z.pos m) * pow2 e / (IZR (Z.pos m') * pow2 e') in
  (0 <= q)%Z /\ cell q (e - e' - s) x /\ (r = 0%Z -> x = IZR q * pow2 (e - e' - s))
  /\ (Z.shiftl (Z.pos m) s < (q + 1) * Z.pos m')%Z.
Proof.
  intros Hs Hd. pose proof (Z_div_mod (Z.shiftl (Z.pos m) s) (Z.pos m') ltac:(lia)) as Hdm. rewrite Hd in Hdm.
  destruct Hdm as [Hm Hr]. rewrite Z.shiftl_mul_pow2 in * by done.
  assert (0 <= q)%Z as Hq.
  { pose proof (Z.pow_pos_nonneg 2 s ltac:(lia) Hs). apply Z.lt_succ_r, (Z.mul_pos_cancel_l (Z.pos m')); nia. }
  set (step := pow2 (e - e' - s)). cbn zeta.
  assert (Hx : IZR (Z.pos m) * pow2 e / (IZR (Z.pos m') * pow2 e') = (IZR q + IZR r / IZR (Z.pos m')) * step).
  { apply (f_equal IZR) in Hm. rewrite plus_IZR, !mult_IZR, <- pow2_IZR in Hm by done.
    assert (pow2 e = pow2 s * step * pow2 e') as -> by (unfold step; rewrite <- !pow2_add; f_equal; lia).
    pose proof (pow2_pos e'). pose proof (IZR_lt 0 (Z.pos m') ltac:(lia)).
    assert (IZR (Z.pos m) * (pow2 s * step * pow2 e') = (IZR (Z.pos m') * IZR q + IZR r) * step * pow2 e') as ->
      by (rewrite <- Hm; ring). field. lra. }
  rewrite Hx. pose proof (pow2_pos (e - e' - s)) as Hp. fold step in Hp.
  assert (0 <= IZR r / IZR (Z.pos m') <= 1) as Hfrac.
  { assert (0 < IZR (Z.pos m')) as Hm' by (apply (IZR_lt 0); lia). split.
    - apply Rle_mult_inv_pos; [apply (IZR_le 0); lia|done].
    - apply Rmult_le_reg_r with (IZR (Z.pos m')); [done|]. unfold Rdiv.
      rewrite Rmult_assoc, Rinv_l, Rmult_1_r, Rmult_1_l by lra. apply IZR_le. lia. }
  split_and!; [done| |intros ->; unfold Rdiv; ring|nia].
  unfold cell. fold step. rewrite plus_IZR. nra.
Qed.

Lemma f_div_near a b :
  finite a = true -> finite b = true -> real b <> 0 -> Rabs (real a / real b) <= pow2 900 ->
  near (f_div a b) (real a / real b).
Proof.
  destruct a as [s| | |s m e], b as [s'| | |s' m' e']; try done; intros _ _ Hb Hab;
    try (by destruct Hb); [apply near_0; [done|symmetry; apply Rmult_0_l]|].
  unfold f_div. cbn [SFdiv]. unfold SFdiv_core_binary. cbn [Zdigits2].
  set (d := Z.pos (digits2_pos m)). set (d' := Z.pos (digits2_pos m')).
  set (ez := Z.min (SpecFloat.fexp PREC EMAX (d + e - (d' + e'))) (e - e')).
  assert (ez <= e - e')%Z as Hez by (unfold ez; lia).
  assert (match (e - e' - ez)%Z with 0%Z => Z.pos m | Z.pos _ => Z.shiftl (Z.pos m) (e - e' - ez) | Z.neg _ => 0%Z end
          = Z.shiftl (Z.pos m) (e - e' - ez)) as -> by (destruct (e - e' - ez)%Z eqn:E; [done..|lia]).
  destruct (Z.div_eucl _ _) as [q r] eqn:Ed.
  destruct (quotient_cell m e m' e' (e - e' - ez) q r ltac:(lia) Ed) as (Hq & Hc & Hexact & Hdigits).
  replace (e - e' - (e - e' - ez))%Z with ez in * by lia.
  assert (Hpos : forall p n, 0 < IZR (Z.pos p) * pow2 n).
  { intros p n. apply Rmult_lt_0_compat; [by apply IZR_lt|apply pow2_pos]. }
  pose proof (Hpos m e) as Hx. pose proof (Hpos m' e') as Hy.
  assert (real (S754_finite s m e) / real (S754_finite s' m' e')
          = signed (xorb s s') (IZR (Z.pos m) * pow2 e / (IZR (Z.pos m') * pow2 e'))) as Ereal.
  { rewrite !real_finite. pose proof (pow2_pos e'). pose proof (IZR_lt 0 (Z.pos m') ltac:(lia)).
    destruct s, s'; cbn [xorb signed]; field; lra. }
  rewrite Ereal in Hab |- *. rewrite Rabs_signed, Rabs_pos_eq in Hab by (by apply Rlt_le, Rdiv_lt_0_compat).
  assert (Hlow : pow2 (d + e - (d' + e') - 1) <= IZR (Z.pos m) * pow2 e / (IZR (Z.pos m') * pow2 e')).
  { apply Rmult_le_reg_r with (1 := Hy). unfold Rdiv. rewrite (Rmult_assoc _ (/ _)), Rinv_l, Rmult_1_r by lra.
    pose proof (digits_low m) as H1. pose proof (digits_high m') as H2.
    apply IZR_le in H1. apply IZR_lt in H2. rewrite <- pow2_IZR in H1, H2 by lia. fold d in H1. fold d' in H2.
    apply Rle_trans with (pow2 (d - 1) * pow2 e); [|pose proof (pow2_pos e); nra].
    apply Rle_trans with (pow2 (d + e - (d' + e') - 1) * (pow2 d' * pow2 e')).
    - pose proof (pow2_pos (d + e - (d' + e') - 1)). pose proof (pow2_pos e').
      apply Rmult_le_compat_l; [lra|]. apply Rmult_le_compat_r; lra.
    - rewrite <- !pow2_add. apply Req_le. f_equal. lia. }
  assert (Hfits : (SpecFloat.fexp PREC EMAX (d + e - (d' + e')) <= 900)%Z).
  { assert (d + e - (d' + e') - 1 <= 900)%Z by (apply pow2_le_inv; lra).
    unfold SpecFloat.fexp, SpecFloat.emin, PREC, EMAX. lia. }
  apply round_aux_near; [done|exact Hc|by intros E; apply Hexact, (new_location_exact (Z.pos m'))| |lia|done].
  intros _. apply Z.le_trans with (SpecFloat.fexp PREC EMAX (d + e - (d' + e'))); [lia|].
  unfold SpecFloat.fexp. apply Z.max_le_compat_r.
  enough (d + e - d' - e' <= Zdigits2 q + ez)%Z by lia.
  assert (Hlog : (2 ^ (d - 1 + (e - e' - ez)) < 2 ^ (Zdigits2 q + d'))%Z).
  { apply Z.le_lt_trans with (Z.shiftl (Z.pos m) (e - e' - ez)).
    - rewrite Z.shiftl_mul_pow2, Z.pow_add_r by (unfold d; lia). apply Z.mul_le_mono_nonneg_r; [lia|apply digits_low].
    - apply Z.lt_le_trans with (1 := Hdigits). rewrite Z.pow_add_r by (unfold d'; destruct q; cbn; lia).
      pose proof (digits_high m'). fold d' in H.
      apply Z.mul_le_mono_nonneg; [lia| |lia|lia].
      destruct q as [|q|q]; [cbn; lia| |lia]. pose proof (digits_high q). cbn [Zdigits2]. lia. }
  apply Z.pow_lt_mono_r_iff in Hlog; [lia..|]. unfold d'. destruct q; cbn; lia.
Qed.

(** Whole numbers of 53 bits are doubles. *)
Lemma real_of_Z n : (0 <= n < 2 ^ 53)%Z -> finite (f_of_Z n) = true /\ real (f_of_Z n) = IZR n.
Proof.
  intros Hn. unfold f_of_Z, binary_normalize. destruct n as [|p|p]; [done| |lia].
  pose proof (digits2_bound 53 p) as Hd. unfold binary_round.
  set (e := SpecFloat.fexp PREC EMAX (Z.pos (digits2_pos p) + 0)).
  assert (e = Z.pos (digits2_pos p) - 53)%Z as He by (unfold e, SpecFloat.fexp, SpecFloat.emin, PREC, EMAX; lia).
  pose proof (shl_align_keeps p 0 e) as Hk. unfold shl_align in *. rewrite Z.sub_0_r in *.
  change (pow2 0) with 1 in Hk.
  destruct e as [|d|d] eqn:Ee; [| lia|];
    (rewrite round_aux_exact; [|rewrite ?digits2_shift; unfold PREC; lia|lia]);
    split; try done; rewrite real_finite; cbn [signed]; [change (pow2 0) with 1; lra|].
  destruct Hk as [-> _]. lra.
Qed.

(** ** What is read is tidy: a mantissa of 53 bits at most *)
Definition tidy (x : f64) : Prop :=
  match x with S754_finite _ m _ => (Z.pos m < 2 ^ 53)%Z | _ => True end.

Lemma round_aux_tidy s m e l : (0 <= m)%Z -> tidy (binary_round_aux PREC EMAX s m e l).
Proof.
  intros Hm. unfold binary_round_aux.
  pose proof (shr_fexp_near m e l _ Hm (cell_exact m e)) as H1.
  destruct (shr_fexp PREC EMAX m e l) as [r1 e1]. destruct H1 as (Hr1 & _).
  assert (0 <= round_nearest_even (shr_m r1) (loc_of_shr_record r1))%Z as Hm1.
  { destruct (round_to_either r1) as [-> | ->]; lia. }
  revert Hm1. generalize (round_nearest_even (shr_m r1) (loc_of_shr_record r1)). intros m1 Hm1.
  unfold shr_fexp, shr. cbn [shr_record_of_loc].
  assert (Hd : (m1 < 2 ^ Zdigits2 m1)%Z) by (destruct m1 as [|p|p]; [cbn; lia|apply digits_high|lia]).
  assert (Hexp : (Zdigits2 m1 + e1 - 53 <= exponent_of m1 e1)%Z).
  { unfold SpecFloat.fexp, PREC. lia. }
  assert (Hsmall : (shr_m (match (exponent_of m1 e1 - e1)%Z with
      | Z.pos p => (SpecFloat.iter_pos shr_1 p {| shr_m := m1; shr_r := false; shr_s := false |}, (e1 + Z.pos p)%Z)
      | _ => ({| shr_m := m1; shr_r := false; shr_s := false |}, e1) end).1 < 2 ^ 53)%Z).
  { destruct (exponent_of m1 e1 - e1)%Z as [|p|p] eqn:E; cbn [fst]; rewrite ?shr_steps by done; cbn [shr_m].
    2: { apply Z.div_lt_upper_bound; [lia|]. rewrite <- Z.pow_add_r by lia.
         apply Z.lt_le_trans with (1 := Hd). apply Z.pow_le_mono_r; lia. }
    all: apply Z.lt_le_trans with (1 := Hd); apply Z.pow_le_mono_r; lia. }
  destruct (exponent_of m1 e1 - e1)%Z as [|n|n]; cbn [fst] in Hsmall; revert Hsmall; cbn [shr_m];
    [generalize m1|generalize (shr_m (SpecFloat.iter_pos shr_1 n {| shr_m := m1; shr_r := false; shr_s := false |}))
    |generalize m1]; intros [|p|p] Hp; try done; by case_match.
Qed.

Lemma decimal_tidy negative digits e : tidy (decimal negative digits e).
Proof.
  unfold decimal. destruct digits as [|p|p]; [done| |done].
  destruct (310 <? _)%Z; [done|]. destruct (_ <? -330)%Z; [done|]. destruct (0 <=? e)%Z eqn:Ee.
  - unfold binary_round. destruct (shl_align _ _ _). by apply round_aux_tidy.
  - unfold SFdiv_core_binary. cbv zeta.
    match goal with |- context [Z.div_eucl ?a ?b] => set (n := a); set (d := b) end.
    assert (0 < d)%Z as Hd by (apply Z.pow_pos_nonneg; lia).
    assert (0 <= n)%Z as Hn.
    { unfold n. destruct (_ - _ - _)%Z; [done| |done]. by apply Z.shiftl_nonneg. }
    pose proof (Z_div_mod n d ltac:(lia)) as Hdm. destruct (Z.div_eucl n d) as [q r].
    apply round_aux_tidy. destruct Hdm. nia.
Qed.

Lemma parse_f64_tidy t x : parse_f64 t = Some x -> tidy x.
Proof. unfold parse_f64. intros Hp. repeat (case_match; try done); simplify_eq; (done || apply decimal_tidy). Qed.

(** ** The casts: towards zero, and no further than the type *)
Lemma f_trunc_below m e :
  let x := IZR (Z.pos m) * pow2 e in
  let k := (if 0 <=? e then Z.pos m * 2 ^ e else Z.pos m / 2 ^ (- e))%Z in
  (0 <= k)%Z /\ IZR k <= x < IZR k + 1.
Proof.
  cbn zeta. destruct (Z.leb_spec 0 e) as [He|He].
  - split; [apply Z.mul_nonneg_nonneg; [lia|apply Z.pow_nonneg; lia]|].
    rewrite mult_IZR, <- pow2_IZR by done. lra.
  - split; [apply Z.div_pos; [lia|apply Z.pow_pos_nonneg; lia]|].
    destruct (cell_shift (Z.pos m) e _ (- e) ltac:(lia) (cell_exact _ _)) as [Hlo _].
    rewrite Z.add_opp_diag_r in Hlo. change (pow2 0) with 1 in Hlo. split; [lra|].
    pose proof (Z.mul_succ_div_gt (Z.pos m) (2 ^ (- e)) ltac:(apply Z.pow_pos_nonneg; lia)) as Hlt.
    apply IZR_lt in Hlt. rewrite mult_IZR, succ_IZR, <- pow2_IZR in Hlt by lia.
    assert (pow2 (- e) * pow2 e = 1) as E by (rewrite <- pow2_add, Z.add_opp_diag_l; done).
    apply (Rmult_lt_compat_r (pow2 e)) in Hlt; [|apply pow2_pos].
    rewrite (Rmult_comm (pow2 (- e))), Rmult_assoc, E in Hlt. lra.
Qed.

Lemma as_u32_near x :
  finite x = true -> real x <= 4294967295 ->
  (0 <= as_u32 x)%Z /\ real x < IZR (as_u32 x) + 1 /\ (IZR (as_u32 x) <= real x \/ as_u32 x = 0%Z).
Proof.
  destruct x as [s| | |s m e]; try done; intros _ Hx; unfold as_u32, saturate, U32_MAX.
  - split_and!; [done|change (0 < 0 + 1); lra|by right].
  - destruct (f_trunc_below m e) as (Hk & Hlo & Hhi). unfold f_trunc. set (k := if (0 <=? e)%Z then _ else _) in *.
    rewrite real_finite in *. destruct s; cbn [signed] in *.
    + replace (Z.max 0 (Z.min 4294967295 (- k))) with 0%Z by lia. split_and!; [done| |by right].
      pose proof (IZR_le 0 k Hk). lra.
    + assert (k <= 4294967295)%Z by (apply le_IZR; lra).
      replace (Z.max 0 (Z.min 4294967295 k)) with k by lia. split_and!; [done|lra|by left].
Qed.
