(* ===== verification/Decimals.v ===== *)
(** * What a number written out stands for

    The real number a decimal text is ([decimal_text]): digits with a point among them
    or not, and a sign before them or not.  It is how what [{:.N}] writes
    ([show_fixed]) is judged: it is the number, to within a unit of its last place
    ([show_fixed_close]), and so is what is left of it when the zeros at its end are
    taken off ([trimmed_same]). *)
From Stdlib Require Import Reals Lra.
From S2P Require Import Prelude Text F64 Rounding.
Open Scope Z_scope.

(** The number the digits make so far, and how many there have been since the point. *)
Definition decimal_step (st : option (Z * option Z)) (c : byte) : option (Z * option Z) :=
  match st with
  | None => None
  | Some (v, places) =>
      if bool_decide (c = "."%byte) then
        match places with None => Some (v, Some 0) | Some _ => None end
      else if (48 <=? u8 c) && (u8 c <=? 57) then Some (v * 10 + (u8 c - 48), option_map (Z.add 1) places)
      else None
  end.
Definition decimal_run (s : Bytes) (st : option (Z * option Z)) : option (Z * option Z) :=
  fold_left decimal_step s st.

Definition decimal_value (v : Z) (places : option Z) : R := (IZR v / IZR (10 ^ default 0%Z places))%R.

Definition unsigned_text (s : Bytes) : option R :=
  match s, decimal_run s (Some (0, None)) with
  | _ :: _, Some (v, places) => Some (decimal_value v places)
  | _, _ => None
  end.
Definition decimal_text (s : Bytes) : option R :=
  match s with
  | c :: s' => if bool_decide (c = "-"%byte) then option_map Ropp (unsigned_text s') else unsigned_text s
  | [] => None
  end.

Lemma decimal_run_app s t st : decimal_run (s ++ t) st = decimal_run t (decimal_run s st).
Proof. apply fold_left_app. Qed.
Lemma decimal_run_None s : decimal_run s None = None.
Proof. by induction s as [|c s IH]. Qed.

Lemma decimal_step_digit d v places :
  0 <= d < 10 -> decimal_step (Some (v, places)) (digit d) = Some (v * 10 + d, option_map (Z.add 1) places).
Proof.
  intros Hd. unfold decimal_step, digit.
  assert (u8 (byte_of (48 + d)) = 48 + d) as E by (rewrite u8_byte_of, Z.mod_small; lia).
  rewrite bool_decide_false by (intros E'; rewrite E' in E; revert E; vm_compute u8; lia).
  rewrite E. decide_leb. cbn [andb]. do 2 f_equal. lia.
Qed.

(** Past the point is past the point. *)
Lemma decimal_run_past s v p w q : decimal_run s (Some (v, Some p)) = Some (w, q) -> is_Some q.
Proof.
  revert v p; induction s as [|c s IH]; intros v p; cbn; [by intros [= _ <-]|].
  destruct (bool_decide _); [by rewrite decimal_run_None|]. destruct (_ && _); [apply IH|by rewrite decimal_run_None].
Qed.

(** With no point in it, it is digits. *)
Lemma decimal_run_digits s v w places :
  decimal_run s (Some (v, None)) = Some (w, None) ->
  decimal_run s (Some (v, Some places)) = Some (w, Some (places + len s)) /\ ("."%byte ∉ s) /\ ("-"%byte ∉ s).
Proof.
  revert v places; induction s as [|c s IH]; intros v places.
  - intros [= ->]. rewrite len_nil, Z.add_0_r. split_and!; [done|apply not_elem_of_nil..].
  - cbn. destruct (bool_decide (c = "."%byte)) eqn:Ec.
    + by intros [? ?]%decimal_run_past.
    + apply bool_decide_eq_false in Ec. destruct ((48 <=? u8 c) && (u8 c <=? 57)) eqn:Ed; [|by rewrite decimal_run_None].
      cbn [option_map]. intros Hrun. destruct (IH _ (1 + places) Hrun) as (E & Hp & Hm).
      split_and!; [|apply not_elem_of_cons; by split|apply not_elem_of_cons; split; [|done]].
      * unfold decimal_run in E. rewrite E, len_cons. do 3 f_equal. lia.
      * intros <-. by vm_compute in Ed.
Qed.

Lemma decimal_run_before s t v w :
  decimal_run (s ++ t) (Some (v, None)) = Some (w, None) -> exists u, decimal_run s (Some (v, None)) = Some (u, None).
Proof.
  rewrite decimal_run_app. destruct (decimal_run s _) as [[u [p|]]|]; [|by exists u|by rewrite decimal_run_None].
  by intros [? ?]%decimal_run_past.
Qed.

(** *** What [show_unsigned] writes *)
Lemma decimal_run_loop fuel n tail :
  0 <= n < 10 ^ Z.of_nat fuel -> fuel <> O ->
  decimal_run (show_loop fuel n tail) (Some (0, None)) = decimal_run tail (Some (n, None)).
Proof.
  revert n tail; induction fuel as [|fuel IH]; intros n tail Hn Hf; [done|]. cbn [show_loop].
  destruct (Z.ltb_spec n 10).
  - unfold decimal_run. cbn [fold_left]. by rewrite decimal_step_digit by lia.
  - assert (Hdm := Z.div_mod n 10 ltac:(lia)). assert (Hm := Z.mod_pos_bound n 10 ltac:(lia)).
    rewrite Nat2Z.inj_succ, Z.pow_succ_r in Hn by lia.
    assert (1 <= n / 10) by (apply Z.div_le_lower_bound; lia).
    rewrite IH; [|split; [lia|apply Z.div_lt_upper_bound; lia]|intros ->; cbn in Hn; lia].
    unfold decimal_run. cbn [fold_left]. rewrite decimal_step_digit by lia. cbn [option_map]. do 4 f_equal. lia.
Qed.

Lemma decimal_run_unsigned n : 0 <= n -> decimal_run (show_unsigned n) (Some (0, None)) = Some (n, None).
Proof.
  intros Hn. unfold show_unsigned. rewrite decimal_run_loop; [done|split; [done|by apply show_fuel_enough]|done].
Qed.
Lemma decimal_run_zeros k : decimal_run (zeros k) (Some (0, None)) = Some (0, None).
Proof. unfold zeros. by induction (Z.to_nat k) as [|n IH]. Qed.

(** A point put among the last of the digits. *)
Lemma decimal_run_pointed s z places :
  decimal_run s (Some (0, None)) = Some (z, None) -> 0 <= places < len s ->
  let point := Z.to_nat (len s - places) in
  decimal_run (take point s ++ lit "." ++ drop point s) (Some (0, None)) = Some (z, Some places).
Proof.
  intros Hs Hp point. rewrite <- (take_drop point s) in Hs.
  destruct (decimal_run_before _ _ _ _ Hs) as [a Ha]. rewrite decimal_run_app in Hs |- *. rewrite Ha in *.
  destruct (decimal_run_digits _ _ _ 0 Hs) as [Hd _].
  change (decimal_run (lit "." ++ drop point s) (Some (a, None))) with (decimal_run (drop point s) (Some (a, Some 0))).
  rewrite Hd. do 3 f_equal. subst point. unfold len in *. rewrite length_drop. lia.
Qed.

(** *** Taking off what is at the end *)
Lemma trim_snoc c s d :
  trim_end_matches c (s ++ [d]) = if bool_decide (c = d) then trim_end_matches c s else s ++ [d].
Proof.
  unfold trim_end_matches. rewrite rev_app_distr. cbn [rev app drop_while_byte].
  destruct (bool_decide (c = d)); [done|]. cbn [rev]. by rewrite rev_involutive.
Qed.

Lemma trim_end c s : exists n, s = trim_end_matches c s ++ replicate n c.
Proof.
  induction s as [|d s IH] using rev_ind; [by exists O|]. rewrite trim_snoc. case_bool_decide as E.
  - subst d. destruct IH as [n IH]. exists (S n). rewrite replicate_S_end, app_assoc. by rewrite <- IH.
  - exists O. by rewrite app_nil_r.
Qed.

Lemma trim_cons c d s : c <> d -> trim_end_matches c (d :: s) = d :: trim_end_matches c s.
Proof.
  intros Hne. induction s as [|x s IH] using rev_ind.
  - change [d] with ([] ++ [d]). rewrite trim_snoc. by rewrite bool_decide_false.
  - change (d :: s ++ [x]) with ((d :: s) ++ [x]). rewrite !trim_snoc. case_bool_decide; [done|done].
Qed.

Lemma decimal_run_places s v p w q :
  decimal_run s (Some (v, p)) = Some (w, Some q) -> 0 <= default 0 p -> 0 <= q.
Proof.
  revert v p; induction s as [|c s IH]; intros v p; [by intros [= -> ->]|]. cbn.
  destruct (bool_decide _); [destruct p; [by rewrite decimal_run_None|]|].
  - intros Hs _. by eapply IH.
  - destruct (_ && _); [|by rewrite decimal_run_None]. intros Hs Hp. eapply IH; [exact Hs|].
    destruct p; cbn in *; lia.
Qed.

(** A zero at the end of the places is no matter, nor is a point after which there is nothing. *)
Lemma trim_zeros s v p :
  decimal_run s (Some (0, None)) = Some (v, Some p) ->
  exists w q, decimal_run (trim_end_matches "0"%byte s) (Some (0, None)) = Some (w, Some q)
  /\ decimal_value w (Some q) = decimal_value v (Some p).
Proof.
  revert v p; induction s as [|d s IH] using rev_ind; intros v p Hs; [done|]. rewrite trim_snoc.
  case_bool_decide as E; [subst d|by exists v, p].
  rewrite decimal_run_app in Hs. destruct (decimal_run s _) as [[w [q|]]|] eqn:Ew; [|done..].
  pose proof (decimal_run_places _ _ _ _ _ Ew ltac:(done)) as Hq.
  change (Some (w * 10 + 0, Some (1 + q)) = Some (v, Some p)) in Hs. injection Hs as <- <-.
  destruct (IH _ _ eq_refl) as (w' & q' & E & Ev). exists w', q'. split; [done|]. rewrite Ev.
  unfold decimal_value. cbn [default from_option Datatypes.id]. rewrite Z.add_0_r, mult_IZR, Z.pow_add_r, mult_IZR by lia.
  pose proof (IZR_lt 0 (10 ^ q) ltac:(apply Z.pow_pos_nonneg; lia)). change (IZR (10 ^ 1)) with 10%R. field. lra.
Qed.

Lemma trim_point s v p :
  decimal_run s (Some (0, None)) = Some (v, p) ->
  exists q, decimal_run (trim_end_matches "."%byte s) (Some (0, None)) = Some (v, q)
  /\ decimal_value v q = decimal_value v p.
Proof.
  destruct s as [|d s _] using rev_ind; [by exists p|]. intros Hs. rewrite trim_snoc.
  case_bool_decide as E; [subst d|by exists p].
  rewrite decimal_run_app in Hs. destruct (decimal_run s _) as [[w [q|]]|] eqn:Ew; [done| |done].
  change (Some (w, Some 0) = Some (v, p)) in Hs. injection Hs as <- <-.
  destruct (decimal_run_digits _ _ _ 0 Ew) as [_ [Hno _]]. destruct (trim_end "."%byte s) as [[|n] Es].
  - exists None. rewrite app_nil_r in Es. by rewrite <- Es.
  - destruct Hno. rewrite Es. apply elem_of_app. right. by left.
Qed.

(** What is left of a text with a point in it when the zeros at its end are taken off,
    and the point with them if there is nothing after it. *)
Lemma trimmed_same s x :
  unsigned_text s = Some x -> "."%byte ∈ s -> head s <> Some "."%byte ->
  unsigned_text (trim_end_matches "."%byte (trim_end_matches "0"%byte s)) = Some x.
Proof.
  intros Hx Hin Hhead. unfold unsigned_text in *. destruct s as [|c s]; [done|]. set (text := c :: s) in *.
  destruct (decimal_run text _) as [[v [p|]]|] eqn:Ev; [| |done].
  2: { destruct (decimal_run_digits _ _ _ 0 Ev) as [_ [Hno _]]. done. }
  destruct (trim_zeros _ _ _ Ev) as (w & q & Ew & Eq). destruct (trim_point _ _ _ Ew) as (q' & Ew' & Eq').
  destruct (trim_end_matches "."%byte _) as [|d t] eqn:Et; [exfalso|by rewrite Ew', Eq', Eq].
  cbn in Ew'. injection Ew' as <- <-.
  destruct (trim_end "."%byte (trim_end_matches "0"%byte text)) as [n En]. rewrite Et in En.
  destruct (trim_end "0"%byte text) as [k Ek]. rewrite En in Ek.
  destruct n as [|n]; [by rewrite En in Ew|]. by rewrite Ek in Hhead.
Qed.

Lemma signed_text negative s x :
  unsigned_text s = Some x -> head s <> Some "-"%byte ->
  decimal_text (with_sign negative s) = Some (signed negative x).
Proof.
  intros Hx Hh. destruct negative; cbn; [by rewrite Hx|]. destruct s as [|c s]; [done|].
  cbn. rewrite bool_decide_false by (intros ->; done). done.
Qed.

(** ** A fixed number of places *)
Lemma round_half_even_close n d :
  (0 < d)%Z -> (Rabs (IZR (round_half_even n d) - IZR n / IZR d) <= 1)%R.
Proof.
  intros Hd. pose proof (Z.div_mod n d ltac:(lia)) as Hn. pose proof (Z.mod_pos_bound n d Hd) as Hr.
  assert (round_half_even n d = n / d \/ round_half_even n d = n / d + 1) as Hq.
  { unfold round_half_even. repeat case_match; auto. }
  assert (0 < IZR d)%R as Hd' by (by apply IZR_lt).
  assert (IZR n / IZR d = IZR (n / d) + IZR (n mod d) / IZR d)%R as ->.
  { rewrite Hn at 1. rewrite plus_IZR, mult_IZR. field. lra. }
  assert (0 <= IZR (n mod d) / IZR d <= 1)%R as Hf.
  { split; [apply Rle_mult_inv_pos; [apply IZR_le; lia|done]|].
    apply Rmult_le_reg_r with (IZR d); [done|]. unfold Rdiv. rewrite Rmult_assoc, Rinv_l by lra.
    rewrite Rmult_1_r, Rmult_1_l. apply IZR_le. lia. }
  apply Rabs_le. destruct Hq as [-> | ->]; rewrite ?plus_IZR; lra.
Qed.

Lemma fraction_real m e : let '(n, d) := fraction m e in
  (0 <= n)%Z /\ (0 < d)%Z /\ (IZR (Z.pos m) * pow2 e = IZR n / IZR d)%R.
Proof.
  unfold fraction. destruct (Z.leb_spec 0 e) as [He|He].
  - split_and!; [apply Z.mul_nonneg_nonneg; [lia|apply Z.pow_nonneg; lia]|done|].
    rewrite mult_IZR, <- pow2_IZR by done. field.
  - split_and!; [lia|apply Z.pow_pos_nonneg; lia|]. replace e with (- (- e)) at 1 by lia.
    by rewrite pow2_neg by lia.
Qed.

(** The text of a whole number of units of the last place. *)
Definition fixed_text (places z : Z) : Bytes :=
  let s := show_unsigned z in
  let s := zeros (places + 1 - len s) ++ s in
  let point := Z.to_nat (len s - places) in
  take point s ++ lit "." ++ drop point s.

Lemma fixed_text_reads places z :
  0 <= places -> 0 <= z ->
  unsigned_text (fixed_text places z) = Some (decimal_value z (Some places))
  /\ "."%byte ∈ fixed_text places z
  /\ head (fixed_text places z) <> Some "."%byte /\ head (fixed_text places z) <> Some "-"%byte.
Proof.
  intros Hp Hz. unfold fixed_text. cbv zeta. set (s := zeros _ ++ _).
  assert (Hs : decimal_run s (Some (0, None)) = Some (z, None)).
  { unfold s. by rewrite decimal_run_app, decimal_run_zeros, decimal_run_unsigned. }
  assert (Hl : 0 <= places < len s).
  { unfold s, zeros, len. rewrite length_app, length_replicate. unfold len. lia. }
  pose proof (decimal_run_pointed s z places Hs Hl) as Hrun. cbn zeta in Hrun.
  assert (exists c t, take (Z.to_nat (len s - places)) s = c :: t /\ c ∈ s) as (c & t & Et & Hc).
  { destruct s as [|c s0]; [unfold len in Hl; cbn in Hl; lia|].
    destruct (Z.to_nat (len (c :: s0) - places)) as [|n] eqn:E; [lia|]. exists c, (take n s0). split; [done|by left]. }
  destruct (decimal_run_digits _ _ _ 0 Hs) as [_ [Hpoint Hminus]]. rewrite Et in *. cbn [app head] in *.
  split_and!.
  - unfold unsigned_text. by rewrite Hrun.
  - rewrite elem_of_cons, elem_of_app. right. right. by left.
  - intros [= ->]. done.
  - intros [= ->]. done.
Qed.

(** [{:.N}] writes the number, to within a unit of the last place it writes; and taking
    off the zeros at the end of that changes nothing. *)
Lemma show_fixed_close places x :
  0 <= places -> finite x = true ->
  exists y, decimal_text (trim_end_matches "."%byte (trim_end_matches "0"%byte (show_fixed places x))) = Some y
  /\ (Rabs (y - real x) <= / IZR (10 ^ places))%R.
Proof.
  intros Hp Hf.
  assert (Hpow : (0 < IZR (10 ^ places))%R) by (apply IZR_lt, Z.pow_pos_nonneg; lia).
  assert (exists s z, 0 <= z /\ show_fixed places x = with_sign s (fixed_text places z)
    /\ (Rabs (signed s (IZR z / IZR (10 ^ places)) - real x) <= / IZR (10 ^ places))%R) as (s & z & Hz & -> & Hclose).
  { destruct x as [s| | |s m e]; try done.
    - exists s, 0. split_and!; [done|done|]. replace (signed s (0 / IZR (10 ^ places)) - real (S754_zero s))%R with 0%R.
      + rewrite Rabs_R0. by apply Rlt_le, Rinv_0_lt_compat.
      + destruct s; cbn; unfold Rdiv; ring.
    - unfold show_fixed. pose proof (fraction_real m e) as Hfr. destruct (fraction m e) as [n d].
      destruct Hfr as (Hn & Hd & Hreal). pose proof (round_half_even_close (n * 10 ^ places) d Hd) as Hr.
      pose proof (IZR_lt 0 d Hd) as Hd'. exists s, (round_half_even (n * 10 ^ places) d). split_and!; [|done|].
      + assert (0 <= n * 10 ^ places / d) by (apply Z.div_pos; [apply Z.mul_nonneg_nonneg; lia|done]).
        unfold round_half_even. repeat case_match; lia.
      + rewrite real_finite, signed_minus, Rabs_signed, Hreal.
        replace (IZR (round_half_even (n * 10 ^ places) d) / IZR (10 ^ places) - IZR n / IZR d)%R
          with ((IZR (round_half_even (n * 10 ^ places) d) - IZR (n * 10 ^ places) / IZR d) * / IZR (10 ^ places))%R
          by (rewrite mult_IZR; field; lra).
        rewrite Rabs_mult, (Rabs_pos_eq (/ _)) by (by apply Rlt_le, Rinv_0_lt_compat).
        pose proof (Rinv_0_lt_compat _ Hpow). nra. }
  destruct (fixed_text_reads places z Hp Hz) as (Hreads & Hpoint & Hhead & Hminus).
  pose proof (trimmed_same _ _ Hreads Hpoint Hhead) as Htrim.
  exists (signed s (IZR z / IZR (10 ^ places))). split; [|done].
  assert (trim_end_matches "."%byte (trim_end_matches "0"%byte (with_sign s (fixed_text places z)))
          = with_sign s (trim_end_matches "."%byte (trim_end_matches "0"%byte (fixed_text places z)))) as ->.
  { destruct s; [|done]. cbn [with_sign]. by rewrite !trim_cons. }
  apply signed_text; [exact Htrim|].
  destruct (trim_end "0"%byte (fixed_text places z)) as [k Ek].
  destruct (trim_end "."%byte (trim_end_matches "0"%byte (fixed_text places z))) as [n En].
  rewrite En in Ek. rewrite Ek in Hminus. destruct (trim_end_matches "."%byte _); [done|exact Hminus].
Qed.
