(* ===== verification/Store.v ===== *)
(** * The key-value store: src/src/store/mod.rs

    The state behind the lock of [Store], as the record [State]; the data the
    four families of commands keep, as [Data]; and the operations every family
    shares: [kind], [keys], [versions], [unchanged], [next_version], expiry and
    [resolve_index].  Every operation of the source takes the lock and lets it
    go before it returns, so each is one function from a state to a state.  It
    is given the reading of the clock ([now], in nanoseconds).

    A client blocked on a list and a client waiting on streams are known by a
    number: the identity of the channel, or of the [Notify], they wait on.

    [Wf] is the invariant of the store, and [Evolves] how it changes: an entry
    either stays as it was, goes, or comes back under a version no one has seen.
    Every operation of the files that follow is shown to be a [Good] step.  On
    that rest the promises of [WATCH] ([watch_sound]). *)
From S2P Require Import Prelude Text F64.
Open Scope Z_scope.

(** ** The data *)

(** [EntryId] and [StreamEntry] of store/streams.rs. *)
Record EntryId := { milliseconds : Z; sequence : Z }.
Record StreamEntry := { entry_id : EntryId; fields : list (Bytes * Bytes) }.

(** [Member] of store/sorted_sets.rs. *)
Record Member := { score : f64; name : Bytes }.

Inductive Data : Type :=
| DString (value : Bytes)
| DList (list : list Bytes)
| DStream (stream : list StreamEntry)
| DSortedSet (set : list Member).

Record Entry := { data : Data; expires_at : option Z; version : Z }.

Abbreviation Entries := (gmap Bytes Entry).
Abbreviation waiter := nat.
Abbreviation watcher := nat.

Record State := {
  entries : Entries;
  waiters : gmap Bytes (list waiter);
  watchers : gmap Bytes (list watcher);
  changes : Z;
}.

Definition empty_state : State :=
  {| entries := ∅; waiters := ∅; watchers := ∅; changes := 0 |}.

(** The kind of value a key holds. *)
Inductive Kind : Type := KNone | KString | KList | KStream | KSortedSet.

(** [Entry::new]. *)
Definition new_entry (d : Data) (v : Z) : Entry :=
  {| data := d; expires_at := None; version := v |}.

Definition with_data (e : Entry) (d : Data) (v : Z) : Entry :=
  {| data := d; expires_at := expires_at e; version := v |}.

Definition with_entries (s : State) (es : Entries) : State :=
  {| entries := es; waiters := waiters s; watchers := watchers s; changes := changes s |}.

(** ** What every family shares *)

(** [Entry::has_expired]. *)
Definition has_expired (now : Z) (e : Entry) : bool :=
  match expires_at e with Some deadline => deadline <=? now | None => false end.

Definition drop_if_expired (now : Z) (es : Entries) (key : Bytes) : Entries :=
  match es !! key with
  | Some e => if has_expired now e then delete key es else es
  | None => es
  end.

(** [next_version]: the number to stamp the next change with. *)
Definition next_version (s : State) : State * Z :=
  let v := wrap_u64 (changes s + 1) in
  ({| entries := entries s; waiters := waiters s; watchers := watchers s; changes := v |}, v).

(** [resolve_index]. *)
Definition resolve_index (index length : Z) : Z :=
  if 0 <=? index then index else Z.max 0 (length - Z.abs index).

Definition kind_of (d : Data) : Kind :=
  match d with
  | DString _ => KString | DList _ => KList | DStream _ => KStream | DSortedSet _ => KSortedSet
  end.

(** [Store::kind]. *)
Definition kind (now : Z) (key : Bytes) (s : State) : State * Kind :=
  let es := drop_if_expired now (entries s) key in
  (with_entries s es,
   match es !! key with None => KNone | Some e => kind_of (data e) end).

(** [Store::keys]: the order the keys come out in is that of the table, which
    nobody is to rely on. *)
Definition keys (now : Z) (wanted : Bytes -> bool) (s : State) : State * list Bytes :=
  let es := filter (fun ke => has_expired now (snd ke) = false) (entries s) in
  (with_entries s es, List.filter wanted (map fst (map_to_list es))).

(** [Store::versions]. *)
Fixpoint versions_in (now : Z) (ks : list Bytes) (es : Entries) : Entries * list (option Z) :=
  match ks with
  | [] => (es, [])
  | k :: ks =>
      let es := drop_if_expired now es k in
      let v := version <$> es !! k in
      let '(es, vs) := versions_in now ks es in
      (es, v :: vs)
  end.
Definition versions (now : Z) (ks : list Bytes) (s : State) : State * list (option Z) :=
  let '(es, vs) := versions_in now ks (entries s) in (with_entries s es, vs).

(** [Store::unchanged], over the watched keys in the order they come out of
    the client's table; it stops at the first that changed. *)
Fixpoint unchanged_in (now : Z) (watched : list (Bytes * option Z)) (es : Entries)
  : Entries * bool :=
  match watched with
  | [] => (es, true)
  | (k, v) :: watched =>
      let es := drop_if_expired now es k in
      if bool_decide (version <$> es !! k = v) then unchanged_in now watched es else (es, false)
  end.
Definition unchanged (now : Z) (watched : list (Bytes * option Z)) (s : State) : State * bool :=
  let '(es, b) := unchanged_in now watched (entries s) in (with_entries s es, b).

(** ** Ordering *)

(** The derived order on [EntryId]. *)
Definition id_lt (i j : EntryId) : bool :=
  (milliseconds i <? milliseconds j)
  || ((milliseconds i =? milliseconds j) && (sequence i <? sequence j)).
Definition id_le (i j : EntryId) : bool := negb (id_lt j i).
Definition ZERO : EntryId := {| milliseconds := 0; sequence := 0 |}.
Definition MAX : EntryId := {| milliseconds := U64_MAX; sequence := U64_MAX |}.

(** [precedes] of store/sorted_sets.rs. *)
Definition precedes (member other : Member) : bool :=
  match partial_cmp (score member) (score other) with
  | Some Lt => true
  | Some Eq => bytes_lt (name member) (name other)
  | _ => false
  end.

(** ** The invariant *)
Definition id_ok (i : EntryId) : Prop :=
  0 <= milliseconds i <= U64_MAX /\ 0 <= sequence i <= U64_MAX.

(** No list, stream or sorted set is kept empty; ids climb from above zero;
    members stand in order, each under its own name and with a score. *)
Definition data_ok (d : Data) : Prop :=
  match d with
  | DString _ => True
  | DList l => l <> []
  | DStream es =>
      es <> []
      /\ StronglySorted (fun a b => id_lt (entry_id a) (entry_id b) = true) es
      /\ Forall (fun e => id_ok (entry_id e) /\ id_lt ZERO (entry_id e) = true) es
  | DSortedSet ms =>
      ms <> []
      /\ StronglySorted (fun a b => precedes a b = true) ms
      /\ NoDup (map name ms)
      /\ Forall (fun m => is_nan (score m) = false) ms
  end.

Definition entry_ok (changes : Z) (e : Entry) : Prop :=
  data_ok (data e) /\ 0 < version e <= changes
  /\ (is_Some (expires_at e) -> kind_of (data e) = KString).

(** Besides: nobody waits on a key whose list has an element to give. *)
Record Wf (s : State) : Prop := {
  wf_entries : forall k e, entries s !! k = Some e -> entry_ok (changes s) e;
  wf_waiters : forall k e, entries s !! k = Some e -> kind_of (data e) = KList ->
                 waiters s !! k = None;
  wf_changes : 0 <= changes s <= U64_MAX;
}.

(** How a state may change. *)
Definition entry_evolves (changes : Z) (o o' : option Entry) : Prop :=
  o' = o \/ match o' with None => True | Some e' => changes < version e' end.
Record Evolves (s s' : State) : Prop := {
  ev_changes : changes s <= changes s';
  ev_entries : forall k, entry_evolves (changes s) (entries s !! k) (entries s' !! k);
}.

(** What every operation does to a well-formed store, short of the counter
    running over. *)
Record Good (s s' : State) : Prop := { good_wf : Wf s'; good_evolves : Evolves s s' }.

Lemma Wf_empty : Wf empty_state.
Proof. split; cbn; [done|done|unfold U64_MAX; lia]. Qed.

Lemma Evolves_refl s : Evolves s s.
Proof. split; [lia|]. intros k. by left. Qed.

Lemma Evolves_trans s1 s2 s3 : Evolves s1 s2 -> Evolves s2 s3 -> Evolves s1 s3.
Proof.
  intros [C1 E1] [C2 E2]. split; [lia|]. intros k. specialize (E1 k). specialize (E2 k).
  unfold entry_evolves in *. destruct E2 as [E2|E2]; [by rewrite E2|].
  right. destruct (entries s3 !! k); [lia|done].
Qed.

Lemma Good_refl s : Wf s -> Good s s.
Proof. split; [done|apply Evolves_refl]. Qed.

Lemma Good_trans s1 s2 s3 : Good s1 s2 -> (Wf s2 -> Good s2 s3) -> Good s1 s3.
Proof.
  intros [W1 E1] H. destruct (H W1) as [W2 E2]. split; [done|by eapply Evolves_trans].
Qed.

(** Taking entries away is always good. *)
Lemma Good_drop s es :
  Wf s -> (forall k, es !! k = entries s !! k \/ es !! k = None) -> Good s (with_entries s es).
Proof.
  intros [We Ww Wc] H. split.
  - split; cbn; [|..].
    + intros k e Hk. destruct (H k) as [E|E]; [|congruence]. apply (We k). congruence.
    + intros k e Hk. destruct (H k) as [E|E]; [|congruence]. apply (Ww k e). congruence.
    + done.
  - split; cbn; [lia|]. intros k. destruct (H k) as [-> | ->]; [by left|by right].
Qed.

Lemma drop_if_expired_lookup now es key k :
  drop_if_expired now es key !! k = es !! k
  \/ drop_if_expired now es key !! k = None.
Proof.
  unfold drop_if_expired. destruct (es !! key) as [e|]; [|by left].
  case_match; [|by left].
  destruct (decide (key = k)) as [->|].
  - right. apply lookup_delete_eq.
  - left. by apply lookup_delete_ne.
Qed.

Lemma drop_if_expired_ne now es key k :
  key <> k -> drop_if_expired now es key !! k = es !! k.
Proof.
  intros. unfold drop_if_expired. repeat case_match; try done. by apply lookup_delete_ne.
Qed.

(** What a client sees at a key: what is there and has not expired. *)
Definition seen (now : Z) (es : Entries) (key : Bytes) : option Entry :=
  match es !! key with
  | Some e => if has_expired now e then None else Some e
  | None => None
  end.

Lemma drop_if_expired_seen now es key : drop_if_expired now es key !! key = seen now es key.
Proof.
  unfold drop_if_expired, seen. destruct (es !! key) as [e|] eqn:E; [|done].
  case_match; [apply lookup_delete_eq|done].
Qed.

Lemma seen_Some now es key e :
  seen now es key = Some e <-> es !! key = Some e /\ has_expired now e = false.
Proof.
  unfold seen. destruct (es !! key) as [e'|]; [|split; [done|by intros [? _]]].
  destruct (has_expired now e') eqn:E; split.
  - done.
  - intros [[= ->] ?]. congruence.
  - by intros [= ->].
  - by intros [[= ->] _].
Qed.

Lemma seen_drop_ne now now' es key k :
  key <> k -> seen now (drop_if_expired now' es key) k = seen now es k.
Proof. intros. unfold seen. by rewrite drop_if_expired_ne. Qed.

Lemma Good_drop_if_expired now key s :
  Wf s -> Good s (with_entries s (drop_if_expired now (entries s) key)).
Proof. intros W. apply Good_drop; [done|]. intros k. apply drop_if_expired_lookup. Qed.

Lemma next_version_eq s : Wf s -> changes s < U64_MAX -> snd (next_version s) = changes s + 1.
Proof.
  intros [_ _ W] H. unfold next_version; cbn. unfold wrap_u64. unfold U64_MAX in *.
  apply Z.mod_small. lia.
Qed.

(** ** The shared operations are good *)
Lemma kind_good now key s : Wf s -> Good s (fst (kind now key s)).
Proof. apply Good_drop_if_expired. Qed.

Lemma keys_good now wanted s : Wf s -> Good s (fst (keys now wanted s)).
Proof.
  intros W. apply Good_drop; [done|]. intros k.
  destruct (filter _ (entries s) !! k) as [e|] eqn:E; [|by right].
  left. apply map_lookup_filter_Some in E as [E _]. by rewrite E.
Qed.

Lemma versions_in_lookup now ks es k :
  fst (versions_in now ks es) !! k = es !! k \/ fst (versions_in now ks es) !! k = None.
Proof.
  revert es; induction ks as [|k' ks IH]; intros es; cbn; [by left|].
  specialize (IH (drop_if_expired now es k')).
  destruct (versions_in now ks (drop_if_expired now es k')) as [es' vs]; cbn in *.
  destruct IH as [-> | ->]; [apply drop_if_expired_lookup|by right].
Qed.

Lemma unchanged_in_lookup now ws es k :
  fst (unchanged_in now ws es) !! k = es !! k \/ fst (unchanged_in now ws es) !! k = None.
Proof.
  revert es; induction ws as [|[k' v] ws IH]; intros es; cbn; [by left|].
  case_bool_decide; cbn; [|apply drop_if_expired_lookup].
  destruct (IH (drop_if_expired now es k')) as [-> | ->]; [apply drop_if_expired_lookup|by right].
Qed.

Lemma versions_good now ks s : Wf s -> Good s (fst (versions now ks s)).
Proof.
  intros W. unfold versions. pose proof (versions_in_lookup now ks (entries s)) as H.
  destruct (versions_in now ks (entries s)) as [es vs]. by apply Good_drop.
Qed.

Lemma unchanged_good now ws s : Wf s -> Good s (fst (unchanged now ws s)).
Proof.
  intros W. unfold unchanged. pose proof (unchanged_in_lookup now ws (entries s)) as H.
  destruct (unchanged_in now ws (entries s)) as [es b]. by apply Good_drop.
Qed.

#[export] Hint Resolve kind_good keys_good versions_good unchanged_good Good_refl
  Good_drop_if_expired : server.

(** ** What [unchanged] finds out *)
Lemma unchanged_in_true now ws es :
  snd (unchanged_in now ws es) = true <->
  Forall (fun '(k, v) => version <$> seen now es k = v) ws.
Proof.
  revert es; induction ws as [|[k v] ws IH]; intros es; cbn; [split; [constructor|done]|].
  rewrite drop_if_expired_seen, Forall_cons.
  case_bool_decide as Hv; [|split; [done|by intros [? _]]].
  rewrite IH. split.
  - intros H. split; [done|]. eapply Forall_impl; [exact H|]. intros [k' v'].
    destruct (decide (k = k')) as [<-|]; [|by rewrite seen_drop_ne].
    unfold seen at 1. rewrite drop_if_expired_seen.
    destruct (seen now es k) as [e|] eqn:E; [|done].
    apply seen_Some in E as [_ E]. by rewrite E.
  - intros [_ H]. eapply Forall_impl; [exact H|]. intros [k' v'].
    destruct (decide (k = k')) as [<-|]; [|by rewrite seen_drop_ne].
    unfold seen at 2. rewrite drop_if_expired_seen.
    destruct (seen now es k) as [e|] eqn:E; [|done].
    apply seen_Some in E as [_ E]. by rewrite E.
Qed.

Lemma versions_in_seen now ks es :
  snd (versions_in now ks es) = map (fun k => version <$> seen now es k) ks.
Proof.
  revert es; induction ks as [|k ks IH]; intros es; cbn; [done|].
  rewrite drop_if_expired_seen. specialize (IH (drop_if_expired now es k)).
  destruct (versions_in now ks (drop_if_expired now es k)) as [es' vs]; cbn in *. subst vs.
  f_equal. apply map_ext. intros k'. f_equal.
  destruct (decide (k = k')) as [<-|]; [|by rewrite seen_drop_ne].
  unfold seen at 1. rewrite drop_if_expired_seen.
  destruct (seen now es k) as [e|] eqn:E; [|done].
  apply seen_Some in E as [_ E]. by rewrite E.
Qed.

(** ** A step that touches one key

    Nearly every operation that writes looks at one key, drops what has expired
    there, takes the next version, and leaves under the key either what a client
    saw there or something stamped with that version. *)
Definition fresh_entry (v : Z) (e : Entry) : Prop :=
  version e = v /\ data_ok (data e) /\ (is_Some (expires_at e) -> kind_of (data e) = KString).

Lemma fresh_new v d : data_ok d -> fresh_entry v {| data := d; expires_at := None; version := v |}.
Proof. intros Hd. split; [done|]. split; [done|]. by intros [? [=]]. Qed.

Lemma Good_touch now key s s' :
  Wf s -> changes s < U64_MAX -> changes s' = changes s + 1 ->
  (forall k, k <> key -> entries s' !! k = entries s !! k /\ waiters s' !! k = waiters s !! k) ->
  ((entries s' !! key = seen now (entries s) key /\ waiters s' !! key = waiters s !! key)
   \/ match entries s' !! key with
      | None => True
      | Some e => fresh_entry (changes s + 1) e
                  /\ (kind_of (data e) = KList -> waiters s' !! key = None)
      end) ->
  Good s s'.
Proof.
  intros [We Ww Wc] Hc Hc' Hne Hkey.
  assert (Hold : forall k e, entries s !! k = Some e -> entry_ok (changes s') e).
  { intros k e Hk. destruct (We k e Hk) as (? & ? & ?). split_and!; [done|lia|lia|done]. }
  split; [split|split].
  - intros k e Hk. destruct (decide (k = key)) as [->|Hk']; [|apply (Hold k); by destruct (Hne k Hk') as [<- _]].
    rewrite Hk in Hkey. destruct Hkey as [[Hkey _]|[(Hv & ? & ?) _]].
    + symmetry in Hkey. apply seen_Some in Hkey as [Hkey _]. by apply (Hold key).
    + split_and!; [done|lia|lia|done].
  - intros k e Hk Hl. destruct (decide (k = key)) as [->|Hk'].
    + rewrite Hk in Hkey. destruct Hkey as [[Hkey ->]|[_ ?]]; [|auto].
      symmetry in Hkey. apply seen_Some in Hkey as [Hkey _]. by apply (Ww _ e).
    + destruct (Hne k Hk') as [E ->]. apply (Ww _ e); [by rewrite <- E|done].
  - unfold U64_MAX in *. lia.
  - lia.
  - intros k. unfold entry_evolves. destruct (decide (k = key)) as [->|Hk'];
      [|left; by destruct (Hne k Hk') as [-> _]].
    destruct Hkey as [[-> _]|Hkey].
    + unfold seen. destruct (entries s !! key); [|by left]. case_match; [by right|by left].
    + right. destruct (entries s' !! key); [|done]. destruct Hkey as [(? & _) _]. lia.
Qed.

(** Returned when a command is used on a key holding another type of value. *)
Inductive WrongType_t : Type := WrongType.

(** What is said of an operation on [key] besides what it leaves under it: the
    rest of the table is as it was. *)
Definition elsewhere (key : Bytes) (s s' : State) : Prop :=
  forall k, k <> key -> entries s' !! k = entries s !! k.

Lemma wrap_next s : Wf s -> changes s < U64_MAX -> wrap_u64 (changes s + 1) = changes s + 1.
Proof. apply next_version_eq. Qed.

(** What an operation that has nothing to do with clients that wait leaves
    alone. *)
Record Quiet (key : Bytes) (s s' : State) : Prop := {
  quiet_good : Good s s';
  quiet_elsewhere : elsewhere key s s';
  quiet_waiters : waiters s' = waiters s;
  quiet_watchers : watchers s' = watchers s;
}.

Lemma quiet_written now key s s' :
  Wf s -> changes s < U64_MAX ->
  changes s' = changes s + 1 -> waiters s' = waiters s -> watchers s' = watchers s ->
  elsewhere key s s' ->
  (entries s' !! key = seen now (entries s) key
   \/ match entries s' !! key with
      | None => True
      | Some e => fresh_entry (changes s + 1) e
                  /\ (kind_of (data e) = KList -> waiters s !! key = None)
      end) ->
  Quiet key s s'.
Proof.
  intros W Hc Hc' Hw Hw' Hne Hkey. split; [|done..].
  apply (Good_touch now key); [done|done|done| |].
  - intros k Hk. rewrite Hw. split; [by apply Hne|done].
  - rewrite Hw. destruct Hkey as [H|H]; [by left|right]. exact H.
Qed.

Lemma drop_then_insert now key es e k :
  k <> key -> <[key := e]> (drop_if_expired now es key) !! k = es !! k.
Proof. intros. by rewrite lookup_insert_ne, drop_if_expired_ne. Qed.

Lemma drop_then_insert2 now key es e e' k :
  k <> key -> <[key := e]> (<[key := e']> (drop_if_expired now es key)) !! k = es !! k.
Proof. intros. by rewrite !lookup_insert_ne, drop_if_expired_ne. Qed.

Lemma quiet_dropped now key s :
  Wf s -> Quiet key s (with_entries s (drop_if_expired now (entries s) key)).
Proof.
  intros W. split; [by apply Good_drop_if_expired| |done|done].
  intros k Hk; cbn. by apply drop_if_expired_ne.
Qed.

(** Show that a step which leaves the state spelled out is quiet, down to what
    it leaves under the key. *)
Ltac quiet now :=
  apply (quiet_written now);
  [done|done|cbn; try done; by apply wrap_next|done|done
  |intros ? ?; cbn [entries with_entries];
   first [by apply drop_then_insert | by apply drop_then_insert2 | by apply drop_if_expired_ne]
  |cbn [entries with_entries]; rewrite ?lookup_insert_eq].

(** ** The entry an operation works on

    It makes one if a client sees none under the key. *)
Section WorkedOn.
Context (now : Z) (s : State) (key : Bytes) (d : Data) (v : Z).
Let e := default (new_entry d v) (seen now (entries s) key).

Lemma worked_on_untimed d' :
  Wf s -> kind_of (data e) <> KString ->
  with_data e d' v = {| data := d'; expires_at := None; version := v |}.
Proof.
  intros [We _ _] Hk. unfold with_data. f_equal. subst e.
  destruct (seen now (entries s) key) as [e|] eqn:Es; [|done]. cbn [default from_option id] in *.
  apply seen_Some in Es as [Hin _]. destruct (We _ _ Hin) as (_ & _ & Hx).
  destruct (expires_at e); [|done]. by destruct Hk; apply Hx.
Qed.

Lemma worked_on_found : data e <> d -> seen now (entries s) key = Some e.
Proof. subst e. by destruct (seen now (entries s) key). Qed.

(** Put back as it was, it is the entry it was. *)
Lemma worked_on_kept :
  Wf s -> changes s < U64_MAX -> seen now (entries s) key = Some e ->
  Quiet key s {| entries := <[key := e]> (drop_if_expired now (entries s) key);
                 waiters := waiters s; watchers := watchers s; changes := changes s + 1 |}.
Proof. intros W Hc He. quiet now. left. by rewrite He. Qed.
End WorkedOn.

(** Dropping what has expired is nothing a client can see. *)
Lemma seen_drop now es key k : seen now (drop_if_expired now es key) k = seen now es k.
Proof.
  destruct (decide (key = k)) as [<-|]; [|by apply seen_drop_ne].
  unfold seen at 1. rewrite drop_if_expired_seen.
  destruct (seen now es key) as [e|] eqn:E; [|done].
  apply seen_Some in E as [_ E]. by rewrite E.
Qed.

(** Once a client has stopped seeing an entry, it stays that way. *)
Lemma seen_later now now' es key :
  now <= now' ->
  seen now' (drop_if_expired now es key) key = seen now' es key.
Proof.
  intros Hle. unfold seen. rewrite drop_if_expired_seen. unfold seen.
  destruct (es !! key) as [e|]; [|done]. destruct (has_expired now e) eqn:E; [|done].
  unfold has_expired in *. destruct (expires_at e) as [d|]; [|done].
  assert ((d <=? now') = true) as -> by lia. done.
Qed.
