(* ===== verification/StoreStrings.v ===== *)
(** * Strings: src/src/store/strings.rs

    [SET], [GET] and [INCR] on the store.  [Instant::now() + delay] panics when
    the sum does not fit the clock's 64 bits of seconds, before the store has
    been changed: that is the [Panic] of [set]. *)
From S2P Require Import Prelude Text Store.
Open Scope Z_scope.

(** The last moment an [Instant] can hold, in nanoseconds. *)
Definition INSTANT_MAX : Z := (I64_MAX + 1) * 1000000000 - 1.

(** [Instant::now() + delay]. *)
Definition instant_add (now delay : Z) : may Z :=
  if now + delay <=? INSTANT_MAX then Done (now + delay) else Panic.

(** [Store::set]. *)
Definition set (now : Z) (key value : Bytes) (expires_in : option Z) (s : State) : may State :=
  mbind_may
    (match expires_in with
     | Some delay => mbind_may (instant_add now delay) (fun at_ => Done (Some at_))
     | None => Done None
     end)
    (fun expires_at =>
       let '(s, v) := next_version s in
       let entry := {| data := DString value; expires_at := expires_at; version := v |} in
       Done (with_entries s (<[key := entry]> (entries s)))).

(** [Store::get]. *)
Definition get (now : Z) (key : Bytes) (s : State)
  : State * result (option Bytes) WrongType_t :=
  let es := drop_if_expired now (entries s) key in
  (with_entries s es,
   match es !! key with
   | None => Ok None
   | Some e => match data e with DString value => Ok (Some value) | _ => Err WrongType end
   end).

(** Why an increment could not go through. *)
Inductive IncrementError : Type := NotAnInteger | Overflow | IncrementWrongType.

(** [as_number]: a number is one only if it is spelled as it would be printed. *)
Definition as_number (value : Bytes) : option Z :=
  match ok (from_utf8 value) with
  | None => None
  | Some text =>
      match parse_i64 text with
      | Ok number => if show number =b? text then Some number else None
      | Err _ => None
      end
  end.

(** [i64::checked_add(1)]. *)
Definition checked_succ_i64 (n : Z) : option Z := if n <? I64_MAX then Some (n + 1) else None.

(** [Store::increment]. *)
Definition increment (now : Z) (key : Bytes) (s : State) : State * result Z IncrementError :=
  let es := drop_if_expired now (entries s) key in
  let '(s, v) := next_version (with_entries s es) in
  let entry := default (new_entry (DString (lit "0")) v) (es !! key) in
  let es := <[key := entry]> es in
  match data entry with
  | DString value =>
      match as_number value with
      | None => (with_entries s es, Err NotAnInteger)
      | Some number =>
          match checked_succ_i64 number with
          | None => (with_entries s es, Err Overflow)
          | Some incremented =>
              (with_entries s (<[key := with_data entry (DString (show incremented)) v]> es),
               Ok incremented)
          end
      end
  | _ => (with_entries s es, Err IncrementWrongType)
  end.

(** ** Facts *)
Lemma as_number_show n : I64_MIN <= n <= I64_MAX -> as_number (show n) = Some n.
Proof.
  intros H. unfold as_number. rewrite from_utf8_ascii by apply show_ascii. cbn.
  unfold parse_i64. rewrite parse_show by done. by rewrite beq_refl.
Qed.

Lemma as_number_Some value n :
  as_number value = Some n <-> value = show n /\ I64_MIN <= n <= I64_MAX.
Proof.
  split; [|intros [-> H]; by apply as_number_show].
  unfold as_number. destruct (from_utf8 value) as [t|] eqn:Ht; cbn; [|done].
  assert (t = value) as -> by (apply text_id; unfold text; by rewrite Ht).
  destruct (parse_i64 value) as [m|] eqn:Hm; [|done].
  apply parse_int_range in Hm; [|done]. beq_cases; [|done]. intros [= <-]. done.
Qed.

Lemma set_good now key value delay s s' :
  Wf s -> changes s < U64_MAX -> set now key value delay s = Done s' -> Good s s'.
Proof.
  intros W Hc. unfold set.
  assert (forall at_, Good s (with_entries (fst (next_version s))
    (<[key := {| data := DString value; expires_at := at_; version := snd (next_version s) |}]> (entries s)))) as G.
  { intros at_. rewrite next_version_eq by done.
    apply (Good_touch now key); [done|done| | |].
    - cbn. by apply wrap_next.
    - intros k Hk; cbn. by rewrite lookup_insert_ne by done.
    - right; cbn. rewrite lookup_insert_eq. done. }
  destruct delay as [d|]; [unfold instant_add; case_match|]; cbn [mbind_may]; [|done|];
    intros [= <-]; apply G.
Qed.

Lemma get_good now key s : Wf s -> Good s (fst (get now key s)).
Proof. apply Good_drop_if_expired. Qed.

(** What a client is told of the string at [key]. *)
Definition string_seen (now : Z) (s : State) (key : Bytes) : result (option Bytes) WrongType_t :=
  match seen now (entries s) key with
  | None => Ok None
  | Some e => match data e with DString value => Ok (Some value) | _ => Err WrongType end
  end.

Lemma get_seen now key s : snd (get now key s) = string_seen now s key.
Proof. unfold get, string_seen; cbn. by rewrite drop_if_expired_seen. Qed.

(** What an increment makes of what a client sees at the key: the number it
    answers with, and the deadline the new value keeps. *)
Definition incremented (o : option Entry) : result (Z * option Z) IncrementError :=
  match o with
  | None => Ok (1, None)
  | Some e =>
      match data e with
      | DString value =>
          try? n <- ok_or (as_number value) NotAnInteger;
          try? m <- ok_or (checked_succ_i64 n) Overflow;
          Ok (m, expires_at e)
      | _ => Err IncrementWrongType
      end
  end.

Lemma increment_spec now key s s' r :
  Wf s -> changes s < U64_MAX -> increment now key s = (s', r) ->
  Quiet key s s'
  /\ match incremented (seen now (entries s) key) with
     | Ok (m, deadline) =>
         r = Ok m
         /\ entries s' !! key = Some {| data := DString (show m); expires_at := deadline;
                                        version := changes s + 1 |}
     | Err e => r = Err e /\ entries s' !! key = seen now (entries s) key
     end.
Proof.
  intros W Hc. unfold increment. cbn [next_version with_entries entries waiters watchers changes].
  rewrite wrap_next, drop_if_expired_seen by done.
  destruct (seen now (entries s) key) as [e|] eqn:Es;
    cbn [default id data new_entry incremented].
  - assert (Same : forall v, v = changes s + 1 -> Quiet key s (with_entries
      (fst (next_version s)) (<[key := e]> (drop_if_expired now (entries s) key))))
      by (intros; quiet now; by left).
    cbn in Same. rewrite wrap_next in Same by done. specialize (Same _ eq_refl).
    destruct (data e) as [value| | |] eqn:De;
      try (intros [= <- <-]; split; [exact Same|split; [done|apply lookup_insert_eq]]).
    destruct (as_number value) as [n|]; cbn;
      [|intros [= <- <-]; split; [exact Same|split; [done|apply lookup_insert_eq]]].
    destruct (checked_succ_i64 n) as [m|]; cbn; intros [= <- <-];
      [|split; [exact Same|split; [done|apply lookup_insert_eq]]].
    split; [quiet now; right; by repeat split|split; [done|apply lookup_insert_eq]].
  - change (as_number (lit "0")) with (as_number (show 0)).
    rewrite as_number_show by done. cbn. intros [= <- <-].
    split; [quiet now; right; by repeat split|split; [done|apply lookup_insert_eq]].
Qed.

Lemma increment_good now key s :
  Wf s -> changes s < U64_MAX -> Good s (fst (increment now key s)).
Proof.
  intros W Hc. destruct (increment now key s) as [s' r] eqn:E.
  by destruct (increment_spec now key s s' r W Hc E) as [[G _ _ _] _].
Qed.

#[export] Hint Resolve get_good increment_good : server.

(** ** What the operations promise *)

(** C31. [SET] then [GET]: whatever the key held, and however often it expired
    or was of another type, the value just stored is what a client reads until
    its deadline and nothing from the deadline on; no other key is touched.  The
    one thing that can go wrong is a deadline beyond what an [Instant] holds, and
    then the call panics. *)
Theorem set_get now key value expires_in s :
  match set now key value expires_in s with
  | Panic => exists delay, expires_in = Some delay /\ INSTANT_MAX < now + delay
  | Done s' =>
      elsewhere key s s'
      /\ (forall delay, expires_in = Some delay -> now + delay <= INSTANT_MAX)
      /\ forall now',
           snd (get now' key s')
           = Ok (match expires_in with
                 | Some delay => if now + delay <=? now' then None else Some value
                 | None => Some value
                 end)
  end.
Proof.
  unfold set, instant_add.
  destruct expires_in as [d|]; [destruct (Z.leb_spec (now + d) INSTANT_MAX)|];
    cbn [mbind_may next_version].
  - split_and!; [intros k Hk; by apply lookup_insert_ne|by intros ? [= <-]|].
    intros now'. rewrite get_seen. unfold string_seen, seen; cbn. rewrite lookup_insert_eq.
    unfold has_expired; cbn [expires_at]. by destruct (now + d <=? now').
  - by exists d.
  - split_and!; [intros k Hk; by apply lookup_insert_ne|done|].
    intros now'. rewrite get_seen. unfold string_seen, seen; cbn. by rewrite lookup_insert_eq.
Qed.

(** [k] increments one after the other, at the times given. *)
Fixpoint increments (times : list Z) (key : Bytes) (s : State)
  : State * list (result Z IncrementError) :=
  match times with
  | [] => (s, [])
  | now :: times =>
      let '(s, r) := increment now key s in
      let '(s, rs) := increments times key s in
      (s, r :: rs)
  end.

Lemma increments_from times key s n o :
  Wf s -> changes s + len times <= U64_MAX ->
  entries s !! key = Some o -> data o = DString (show n) -> expires_at o = None ->
  I64_MIN <= n -> n + len times <= I64_MAX ->
  let '(s', rs) := increments times key s in
  rs = map (fun i => Ok (n + 1 + Z.of_nat i)) (seq 0 (length times))
  /\ forall now, snd (get now key s') = Ok (Some (show (n + len times))).
Proof.
  revert s n o; induction times as [|now times IH]; intros s n o W Hc Hk Hd He Hn Hm;
    cbn [increments].
  - split; [done|]. intros now. rewrite get_seen, len_nil, Z.add_0_r.
    unfold string_seen, seen. rewrite Hk. unfold has_expired. by rewrite He, Hd.
  - rewrite len_cons in *. pose proof (len_nonneg times).
    destruct (increment now key s) as [s1 r] eqn:E.
    destruct (increment_spec now key s s1 r W ltac:(lia) E) as [[G _ _ _] H1].
    assert (changes s1 = changes s + 1) as Hc1.
    { revert E. unfold increment. cbn. rewrite wrap_next by (done || lia).
      repeat case_match; by intros [= <- <-]. }
    unfold seen in H1. rewrite Hk in H1. unfold has_expired in H1. rewrite He in H1.
    cbn in H1. rewrite Hd, as_number_show in H1 by lia. cbn in H1.
    unfold checked_succ_i64 in H1. destruct (Z.ltb_spec n I64_MAX); [|lia].
    cbn in H1. destruct H1 as [-> Hk1].
    pose proof (IH s1 (n + 1) _ (good_wf _ _ G) ltac:(lia) Hk1 eq_refl He ltac:(lia) ltac:(lia)) as H2.
    destruct (increments times key s1) as [s' rs]. destruct H2 as [-> H2]. split.
    + cbn. f_equal; [f_equal; lia|]. rewrite <- seq_shift, map_map.
      apply map_ext. intros i. f_equal. lia.
    + intros now'. rewrite H2. do 3 f_equal. lia.
Qed.

(** [INCR] counts: on a key holding the spelling of [n], or holding nothing
    ([n = 0]), increments answer [n + 1], [n + 2] and so on, as long as the
    numbers fit 64 bits, and leave their sum to be read. *)
Theorem increments_count times key s n :
  Wf s -> changes s + len times <= U64_MAX ->
  match entries s !! key with
  | None => n = 0
  | Some e => data e = DString (show n) /\ expires_at e = None
  end ->
  I64_MIN <= n -> n + len times <= I64_MAX -> times <> [] ->
  let '(s', rs) := increments times key s in
  rs = map (fun i => Ok (n + 1 + Z.of_nat i)) (seq 0 (length times))
  /\ forall now, snd (get now key s') = Ok (Some (show (n + len times))).
Proof.
  intros W Hc Hk Hn Hm Hne. destruct (entries s !! key) as [o|] eqn:Ho.
  { destruct Hk. by eapply increments_from. }
  destruct times as [|now times]; [done|]. subst n. rewrite len_cons in *.
  pose proof (len_nonneg times). cbn [increments].
  destruct (increment now key s) as [s1 r] eqn:E.
  destruct (increment_spec now key s s1 r W ltac:(lia) E) as [[G _ _ _] H1].
  assert (changes s1 = changes s + 1) as Hc1.
  { revert E. unfold increment. cbn. rewrite wrap_next by (done || lia).
    repeat case_match; by intros [= <- <-]. }
  unfold seen in H1. rewrite Ho in H1. cbn in H1. destruct H1 as [-> Hk1].
  pose proof (increments_from times key s1 1 _ (good_wf _ _ G) ltac:(lia) Hk1 eq_refl eq_refl
    ltac:(unfold I64_MIN; lia) ltac:(lia)) as H2.
  destruct (increments times key s1) as [s' rs]. destruct H2 as [-> H2]. split.
  - cbn. f_equal. rewrite <- seq_shift, map_map. apply map_ext. intros i. f_equal. lia.
  - intros now'. rewrite H2. do 3 f_equal. lia.
Qed.

(** Three increments of a key holding 41. *)
Definition counted : State :=
  {| entries := {[ lit "n" := {| data := DString (show 41); expires_at := None; version := 1 |} ]};
     waiters := ∅; watchers := ∅; changes := 1 |}.
Lemma Wf_counted : Wf counted.
Proof.
  split; cbn; [|intros k e; intros [<- <-]%lookup_singleton_Some; done|unfold U64_MAX; lia].
  intros k e [<- <-]%lookup_singleton_Some. repeat split; cbn; lia.
Qed.

Lemma increments_count_witness :
  let '(s', rs) := increments [5; 6; 7] (lit "n") counted in
  rs = [Ok 42; Ok 43; Ok 44] /\ forall now, snd (get now (lit "n") s') = Ok (Some (lit "44")).
Proof.
  apply (increments_count [5; 6; 7] (lit "n") counted 41);
    [apply Wf_counted|vm_compute; done|by split|vm_compute; done|vm_compute; done|done].
Defined.

(** A value that is not the spelling of a number, one that is the largest
    number, and one of another type are refused, and what a client sees stays
    as it was. *)
Lemma increment_refuses now key s s' err :
  Wf s -> changes s < U64_MAX -> increment now key s = (s', Err err) ->
  forall now', now <= now' -> seen now' (entries s') key = seen now' (entries s) key.
Proof.
  intros W Hc E now' Hle. destruct (increment_spec now key s s' _ W Hc E) as [_ H].
  destruct (incremented _) as [[m d]|err']; destruct H as [[=] H].
  unfold seen in *. rewrite H. destruct (entries s !! key) as [e|] eqn:Ek; [|done].
  destruct (has_expired now e) eqn:Ex; [|done].
  destruct (has_expired now' e) eqn:Ex'; [done|].
  unfold has_expired in *. destruct (expires_at e); [|done]. lia.
Qed.

(** C32. [INCR] on every branch: what it goes by is what [GET] would have shown, nothing
    counting as 0; a text that is not the plain spelling of a 64-bit number is
    refused, the largest of those numbers is refused, and so is another type; any other
    number goes up by exactly one, to be read from then on and until the deadline the
    key had.  A refusal leaves everything a client sees as it was, and no other key is
    touched either way. *)
Theorem increment_exact now key s s' r :
  Wf s -> changes s < U64_MAX -> increment now key s = (s', r) ->
  r = match snd (get now key s) with
      | Err WrongType => Err IncrementWrongType
      | Ok value =>
          match as_number (default (lit "0") value) with
          | None => Err NotAnInteger
          | Some n => if n <? I64_MAX then Ok (n + 1) else Err Overflow
          end
      end
  /\ elsewhere key s s'
  /\ match r with
     | Ok m => forall now', now <= now' ->
         snd (get now' key s')
         = Ok (match seen now (entries s) key with
               | Some e => if has_expired now' e then None else Some (show m)
               | None => Some (show m)
               end)
     | Err _ => forall now', now <= now' -> seen now' (entries s') key = seen now' (entries s) key
     end.
Proof.
  intros W Hc E. pose proof (increment_refuses now key s s') as Hrefused.
  destruct (increment_spec now key s s' r W Hc E) as [[_ El _ _] H].
  rewrite get_seen. unfold string_seen. cbn [snd].
  destruct (seen now (entries s) key) as [e|] eqn:Es; cbn [incremented] in H.
  - destruct (data e) as [value| | |]; try (destruct H as [-> _]; split_and!; [done|done|by eapply Hrefused]).
    cbn [default from_option id]. destruct (as_number value) as [n|]; cbn [ok_or rbind] in H;
      [|destruct H as [-> _]; split_and!; [done|done|by eapply Hrefused]].
    unfold checked_succ_i64 in H. destruct (n <? I64_MAX); cbn [ok_or rbind] in H; destruct H as [-> Hk];
      (split_and!; [done|done|]); [|by eapply Hrefused].
    intros now' _. rewrite get_seen. unfold string_seen, seen. rewrite Hk.
    unfold has_expired at 1. cbn [expires_at snd]. fold (has_expired now' e). by destruct (has_expired now' e).
  - change (as_number (default (lit "0") None)) with (as_number (show 0)).
    rewrite as_number_show by done. destruct H as [-> Hk]. split_and!; [done|done|].
    intros now' _. rewrite get_seen. unfold string_seen, seen. by rewrite Hk.
Qed.

Lemma increment_exact_witness :
  (increment 5 (lit "n") counted).2 = Ok 42
  /\ snd (get 9 (lit "n") (increment 5 (lit "n") counted).1) = Ok (Some (lit "42")).
Proof.
  destruct (increment 5 (lit "n") counted) as [s' r] eqn:E.
  destruct (increment_exact 5 (lit "n") counted s' r Wf_counted eq_refl E) as (Hr & _ & H).
  vm_compute in Hr. subst r. split; [done|]. refine (eq_trans (H 9 _) _); [lia|by vm_compute].
Defined.
