(* ===== verification/StoreLists.v ===== *)
(** * Lists: src/src/store/lists.rs

    [RPUSH], [LPUSH], [LPOP], [BLPOP], [LRANGE] and [LLEN] on the store.  The
    queue of clients blocked on a key hands its elements out through one-shot
    channels; [open] tells whether a client still listens on its end when an
    element is sent, [closed] whether it is seen to have gone when the queue is
    swept.  Neither is for the store to know, so they are arguments. *)
From S2P Require Import Prelude Text Store.
Open Scope Z_scope.

(** The end of a list a command works from. *)
Inductive Side : Type := Left | Right.

(** The outcome of a blocking pop. *)
Inductive Blocked : Type := Ready (element : Bytes) | Waiting (receiver : waiter).

(** [pop_first]. *)
Definition pop_first (es : Entries) (key : Bytes) (v : Z) : Entries * option Bytes :=
  match es !! key with
  | None => (es, None)
  | Some e =>
      match data e with
      | DList [] => (es, None)
      | DList (element :: rest) =>
          let es := <[key := with_data e (DList rest) v]> es in
          (if bool_decide (rest = []) then delete key es else es, Some element)
      | _ => (es, None)
      end
  end.

(** [push_first]. *)
Definition push_first (es : Entries) (key element : Bytes) (v : Z) : Entries :=
  let e := default (new_entry (DList []) v) (es !! key) in
  match data e with
  | DList l => <[key := with_data e (DList (element :: l)) v]> es
  | _ => <[key := e]> es
  end.

(** The loop of [State::wake_waiters]: the queue left over, and who was handed
    what. *)
Fixpoint serve_queue (open : waiter -> bool) (queue : list waiter) (es : Entries)
  (key : Bytes) (v : Z) : Entries * list waiter * list (waiter * Bytes) :=
  match queue with
  | [] => (es, [], [])
  | w :: queue' =>
      match pop_first es key v with
      | (es, None) => (es, w :: queue', [])
      | (es, Some element) =>
          if open w then
            let '(es, q, given) := serve_queue open queue' es key v in
            (es, q, (w, element) :: given)
          else serve_queue open queue' (push_first es key element v) key v
      end
  end.

(** [State::wake_waiters]. *)
Definition wake_waiters (open : waiter -> bool) (key : Bytes) (v : Z) (s : State)
  : State * list (waiter * Bytes) :=
  match waiters s !! key with
  | None => (s, [])
  | Some queue =>
      let '(es, q, given) := serve_queue open queue (entries s) key v in
      ({| entries := es;
          waiters := if bool_decide (q = []) then delete key (waiters s)
                     else <[key := q]> (waiters s);
          watchers := watchers s; changes := changes s |}, given)
  end.

(** What pushing makes of a list. *)
Definition extend (side : Side) (elements l : list Bytes) : list Bytes :=
  match side with
  | Right => l ++ elements
  | Left => fold_left (fun l element => element :: l) elements l
  end.

(** [Store::push]. *)
Definition push (open : waiter -> bool) (now : Z) (key : Bytes) (elements : list Bytes)
  (side : Side) (s : State) : State * list (waiter * Bytes) * result Z WrongType_t :=
  let es := drop_if_expired now (entries s) key in
  let '(s, v) := next_version (with_entries s es) in
  let e := default (new_entry (DList []) v) (es !! key) in
  match data e with
  | DList l =>
      let l := extend side elements l in
      let length := len l in
      let s := with_entries s (<[key := with_data e (DList l) v]> es) in
      let '(s, given) := wake_waiters open key v s in
      (s, given, Ok length)
  | _ => (with_entries s (<[key := e]> es), [], Err WrongType)
  end.

(** [Store::lpop]. *)
Definition lpop (now : Z) (key : Bytes) (count : Z) (s : State)
  : State * result (list Bytes) WrongType_t :=
  let es := drop_if_expired now (entries s) key in
  let '(s, v) := next_version (with_entries s es) in
  match es !! key with
  | None => (s, Ok [])
  | Some e =>
      match data e with
      | DList l =>
          let n := Z.to_nat (Z.min count (len l)) in
          let removed := take n l in
          let rest := drop n l in
          let es := <[key := if bool_decide (removed = [])
                             then {| data := DList rest; expires_at := expires_at e;
                                     version := version e |}
                             else with_data e (DList rest) v]> es in
          (with_entries s (if bool_decide (rest = []) then delete key es else es), Ok removed)
      | _ => (s, Err WrongType)
      end
  end.

(** [Store::blpop]: [me] is the channel made for the caller should it have to
    wait. *)
Definition blpop (closed : waiter -> bool) (me : waiter) (now : Z) (key : Bytes) (s : State)
  : may (State * result Blocked WrongType_t) :=
  let es := drop_if_expired now (entries s) key in
  let s := with_entries s es in
  match es !! key with
  | Some {| data := DList _ |} =>
      let '(s, v) := next_version s in
      match pop_first (entries s) key v with
      | (es, Some element) => Done (with_entries s es, Ok (Ready element))
      | (_, None) => Panic
      end
  | Some _ => Done (s, Err WrongType)
  | None =>
      let queue := List.filter (fun w => negb (closed w)) (default [] (waiters s !! key)) ++ [me] in
      Done ({| entries := entries s; waiters := <[key := queue]> (waiters s);
               watchers := watchers s; changes := changes s |}, Ok (Waiting me))
  end.

(** [list_at]. *)
Definition list_at (now : Z) (es : Entries) (key : Bytes)
  : Entries * result (option (list Bytes)) WrongType_t :=
  let es := drop_if_expired now es key in
  (es, match es !! key with
       | None => Ok None
       | Some e => match data e with DList l => Ok (Some l) | _ => Err WrongType end
       end).

(** [list.range(start..=stop)]. *)
Definition range_inclusive {A} (start stop : Z) (l : list A) : list A :=
  drop (Z.to_nat start) (take (Z.to_nat (stop + 1)) l).

(** The window [LRANGE] and [ZRANGE] ask for, clamped to what is there. *)
Definition window {A} (start stop : Z) (l : list A) : list A :=
  let start := resolve_index start (len l) in
  let stop := resolve_index stop (len l) in
  if (start >? stop) || (start >=? len l) then []
  else range_inclusive start (Z.min stop (len l - 1)) l.

(** [Store::lrange]. *)
Definition lrange (now : Z) (key : Bytes) (start stop : Z) (s : State)
  : State * result (list Bytes) WrongType_t :=
  let '(es, r) := list_at now (entries s) key in
  (with_entries s es,
   try? found <- r;
   match found with
   | None => Ok []
   | Some l => Ok (window start stop l)
   end).

(** [Store::llen]. *)
Definition llen (now : Z) (key : Bytes) (s : State) : State * result Z WrongType_t :=
  let '(es, r) := list_at now (entries s) key in
  (with_entries s es,
   try? found <- r; Ok (match found with None => 0 | Some l => len l end)).

(** ** The contract of a list with clients blocked on it

    In the abstract, a key is a list of elements and a queue of clients, and
    serving them is this: *)
Fixpoint serve (open : waiter -> bool) (l : list Bytes) (queue : list waiter)
  : list Bytes * list waiter * list (waiter * Bytes) :=
  match l, queue with
  | x :: l', w :: queue' =>
      if open w then
        let '(rest, q, given) := serve open l' queue' in (rest, q, (w, x) :: given)
      else serve open l queue'
  | _, _ => (l, queue, [])
  end.

(** What a list is in the table: nothing at all when it is empty. *)
Definition put (key : Bytes) (v : Z) (l : list Bytes) (es : Entries) : Entries :=
  match l with
  | [] => delete key es
  | _ => <[key := {| data := DList l; expires_at := None; version := v |}]> es
  end.

Lemma put_lookup key v l es :
  put key v l es !! key
  = match l with
    | [] => None
    | _ => Some {| data := DList l; expires_at := None; version := v |}
    end.
Proof. destruct l; cbn; [apply lookup_delete_eq|apply lookup_insert_eq]. Qed.

Lemma put_ne key v l es k : k <> key -> put key v l es !! k = es !! k.
Proof. intros. destruct l; cbn; [by apply lookup_delete_ne|by apply lookup_insert_ne]. Qed.

Lemma pop_first_put key v l es :
  pop_first (put key v l es) key v
  = match l with [] => (put key v [] es, None) | x :: l' => (put key v l' es, Some x) end.
Proof.
  unfold pop_first. rewrite put_lookup. destruct l as [|x l]; [done|]. cbn [data].
  f_equal. unfold with_data; cbn. destruct l as [|y l]; cbn.
  - apply map_eq. intros k. destruct (decide (k = key)) as [->|];
      [by rewrite !lookup_delete_eq|by rewrite !lookup_delete_ne, !lookup_insert_ne].
  - apply insert_insert_eq.
Qed.

Lemma push_first_put key v x l es : push_first (put key v l es) key x v = put key v (x :: l) es.
Proof.
  unfold push_first. rewrite put_lookup. destruct l as [|y l]; cbn;
    [apply insert_delete_eq|apply insert_insert_eq].
Qed.

(** The loop over the table does what [serve] says. *)
Lemma serve_queue_put open queue key v l es :
  serve_queue open queue (put key v l es) key v
  = let '(rest, q, given) := serve open l queue in (put key v rest es, q, given).
Proof.
  revert l; induction queue as [|w queue IH]; intros l; [by destruct l|].
  cbn [serve_queue]. rewrite pop_first_put. destruct l as [|x l]; [done|]. cbn [serve].
  destruct (open w).
  - rewrite IH. by destruct (serve open l queue) as [[rest q] given].
  - rewrite push_first_put. apply IH.
Qed.

(** Serving hands the elements from the front, in order, to the clients still
    listening, in the order they came; it stops only when one of the two has
    run out. *)
Lemma serve_spec open l queue rest q given :
  serve open l queue = (rest, q, given) ->
  l = map snd given ++ rest
  /\ (exists gone, queue = gone ++ q /\ List.filter open gone = map fst given)
  /\ (rest = [] \/ q = []).
Proof.
  revert l rest q given; induction queue as [|w queue IH]; intros l rest q given; cbn.
  - destruct l; intros [= <- <- <-]; (split_and!; [done|by exists []|tauto]).
  - destruct l as [|x l]; [intros [= <- <- <-]; split_and!; [done|by exists []|tauto]|].
    cbn. destruct (open w) eqn:Ow.
    + destruct (serve open l queue) as [[rest1 q1] given1] eqn:E. intros [= <- <- <-].
      destruct (IH _ _ _ _ E) as (-> & (gone & -> & Hg) & H).
      split_and!; [done| |done]. exists (w :: gone). cbn. rewrite Ow, Hg. done.
    + intros E. destruct (IH _ _ _ _ E) as (-> & (gone & -> & Hg) & H).
      split_and!; [done| |done]. exists (w :: gone). cbn. by rewrite Ow.
Qed.

Lemma serve_nil open l : serve open l [] = (l, [], []).
Proof. by destruct l. Qed.

Lemma extend_length side elements l : len (extend side elements l) = len l + len elements.
Proof.
  destruct side; cbn; [|apply len_app].
  revert l; induction elements as [|x elements IH]; intros l; cbn; [rewrite len_nil; lia|].
  rewrite IH, !len_cons. lia.
Qed.

(** A single [LPUSH] reverses the order of its arguments. *)
Lemma extend_left elements l : extend Left elements l = rev elements ++ l.
Proof.
  cbn. revert l; induction elements as [|x elements IH]; intros l; cbn; [done|].
  rewrite IH, <- app_assoc. done.
Qed.

(** ** Each operation in terms of what a client sees *)

(** The list a client sees at a key. *)
Definition list_seen (now : Z) (s : State) (key : Bytes) : result (list Bytes) WrongType_t :=
  match seen now (entries s) key with
  | None => Ok []
  | Some e => match data e with DList l => Ok l | _ => Err WrongType end
  end.
Definition queue_at (s : State) (key : Bytes) : list waiter := default [] (waiters s !! key).

Lemma seen_list now s key e l :
  Wf s -> seen now (entries s) key = Some e -> data e = DList l ->
  e = {| data := DList l; expires_at := None; version := version e |} /\ l <> []
  /\ waiters s !! key = None.
Proof.
  intros [We Ww _] Hs Hd. apply seen_Some in Hs as [Hk _].
  destruct (We _ _ Hk) as (Hok & _ & Hx). rewrite Hd in Hok, Hx. cbn in *. split_and!.
  - destruct e as [d x v]; cbn in *. subst d. destruct x; [|done].
    by discriminate Hx.
  - done.
  - apply (Ww key e); [done|by rewrite Hd].
Qed.

Lemma put_drop now key v l es :
  put key v l (drop_if_expired now es key) = put key v l es.
Proof.
  apply map_eq. intros k. destruct (decide (k = key)) as [->|];
    [by rewrite !put_lookup|by rewrite !put_ne, drop_if_expired_ne].
Qed.

Lemma wake_waiters_put open key v l es s :
  entries s = put key v l es ->
  wake_waiters open key v s
  = let '(rest, q, given) := serve open l (queue_at s key) in
    ({| entries := put key v rest es;
        waiters := match waiters s !! key with
                   | None => waiters s
                   | Some _ => if bool_decide (q = []) then delete key (waiters s)
                               else <[key := q]> (waiters s)
                   end;
        watchers := watchers s; changes := changes s |}, given).
Proof.
  intros Hs. unfold wake_waiters, queue_at. destruct (waiters s !! key) as [queue|] eqn:Hq; cbn.
  - rewrite Hs, serve_queue_put. by destruct (serve open l queue) as [[rest q] given].
  - destruct l, s; cbn in *; by subst.
Qed.

Lemma extend_not_nil side elements l : elements <> [] -> extend side elements l <> [].
Proof.
  intros Hne E. pose proof (extend_length side elements l) as Hx. rewrite E, len_nil in Hx.
  pose proof (len_nonneg l). destruct elements; [done|]. rewrite len_cons in Hx.
  pose proof (len_nonneg elements). lia.
Qed.

(** The queues once those served have left the one of this key. *)
Definition queues_after (s : State) (key : Bytes) (q : list waiter) : gmap Bytes (list waiter) :=
  match waiters s !! key with
  | None => waiters s
  | Some _ => if bool_decide (q = []) then delete key (waiters s) else <[key := q]> (waiters s)
  end.

Lemma queues_after_lookup open l s key rest q given :
  serve open l (queue_at s key) = (rest, q, given) ->
  default [] (queues_after s key q !! key) = q /\ (q = [] -> queues_after s key q !! key = None)
  /\ forall k, k <> key -> queues_after s key q !! k = waiters s !! k.
Proof.
  intros (_ & (gone & Hq & _) & _)%serve_spec. unfold queues_after, queue_at in *.
  destruct (waiters s !! key) as [queue|] eqn:Ew.
  - case_bool_decide as Hq'.
    + subst q. rewrite lookup_delete_eq. split_and!; [done..|]. intros. by apply lookup_delete_ne.
    + rewrite lookup_insert_eq. split_and!; [done..|]. intros. by apply lookup_insert_ne.
  - rewrite Ew. destruct gone; [|done]. cbn in Hq. by subst q.
Qed.

(** What a push does, on every branch. *)
Lemma push_spec open now key elements side s s' given r :
  Wf s -> changes s < U64_MAX -> elements <> [] ->
  push open now key elements side s = (s', given, r) ->
  Good s s' /\ elsewhere key s s' /\ watchers s' = watchers s
  /\ (forall k, k <> key -> waiters s' !! k = waiters s !! k)
  /\ match list_seen now s key with
     | Err WrongType =>
         r = Err WrongType /\ given = [] /\ entries s' !! key = seen now (entries s) key
         /\ waiters s' = waiters s
     | Ok l =>
         r = Ok (len l + len elements)
         /\ exists rest, serve open (extend side elements l) (queue_at s key)
                         = (rest, queue_at s' key, given)
         /\ entries s' !! key
            = match rest with
              | [] => None
              | _ => Some {| data := DList rest; expires_at := None; version := changes s + 1 |}
              end
     end.
Proof.
  intros W Hc Hne. unfold push, list_seen.
  cbn [next_version with_entries entries waiters watchers changes].
  rewrite wrap_next, drop_if_expired_seen by done.
  pose proof (worked_on_untimed now s key (DList []) (changes s + 1)) as He.
  pose proof (worked_on_found now s key (DList []) (changes s + 1)) as Hfound.
  pose proof (worked_on_kept now s key (DList []) (changes s + 1) W Hc) as Hkept.
  set (e := default _ (seen now (entries s) key)) in *.
  destruct (data e) as [d|l|d|d] eqn:De.
  1,3,4: intros [= <- <- <-]; specialize (Hfound ltac:(done)); rewrite Hfound, De;
    destruct (Hkept Hfound) as [G El Qw Qw'];
    (split_and!; [done|done|done|by intros|done|done|cbn; apply lookup_insert_eq|done]).
  assert (list_seen now s key = Ok l) as Hl.
  { unfold list_seen. subst e. destruct (seen now (entries s) key); cbn in De;
      [by rewrite De|by injection De as <-]. }
  fold (list_seen now s key). rewrite Hl, extend_length, He by (rewrite ?De; done).
  rewrite (wake_waiters_put open key (changes s + 1) (extend side elements l) (entries s)).
  2: { cbn [entries]. rewrite <- (put_drop now). unfold put.
       pose proof (extend_not_nil side elements l Hne) as Hx. by destruct (extend side elements l). }
  cbn [waiters watchers changes with_entries]. unfold queue_at at 1. cbn [waiters].
  fold (queue_at s key). destruct (serve open (extend side elements l) _) as [[rest q] given'] eqn:Es.
  change (match waiters s !! key with Some _ => if bool_decide (q = []) then delete key (waiters s)
    else <[key := q]> (waiters s) | None => waiters s end) with (queues_after s key q).
  intros [= <- <- <-]. destruct (queues_after_lookup open _ s key _ _ _ Es) as (Hw1 & Hw2 & Hw3).
  destruct (serve_spec _ _ _ _ _ _ Es) as (_ & _ & Hs3).
  split_and!; [|intros k Hk; by apply put_ne|done|done|done|].
  - apply (Good_touch now key); [done|done|done| |]; cbn [entries waiters watchers].
    + intros k Hk. rewrite put_ne by done. by split; [|apply Hw3].
    + right. rewrite put_lookup. destruct rest as [|y rest]; [done|].
      split; [by apply fresh_new|]. intros _. apply Hw2. by destruct Hs3.
  - exists rest. unfold queue_at; cbn. rewrite Hw1, put_lookup. done.
Qed.

(** What a pop of up to [count] elements does, on every branch. *)
Lemma lpop_spec now key count s s' r :
  Wf s -> changes s < U64_MAX -> 0 <= count -> lpop now key count s = (s', r) ->
  Quiet key s s'
  /\ match list_seen now s key with
     | Err WrongType => r = Err WrongType /\ entries s' !! key = seen now (entries s) key
     | Ok l =>
         let n := Z.to_nat count in
         r = Ok (take n l)
         /\ entries s' !! key
            = match drop n l with
              | [] => None
              | _ => if bool_decide (n = 0%nat) then seen now (entries s) key
                     else Some {| data := DList (drop n l); expires_at := None;
                                  version := changes s + 1 |}
              end
     end.
Proof.
  intros W Hc Hcount. unfold lpop, list_seen.
  cbn [next_version with_entries entries waiters watchers changes].
  rewrite wrap_next, drop_if_expired_seen by done.
  destruct (seen now (entries s) key) as [e|] eqn:Es.
  2: { intros [= <- <-]. rewrite take_nil, drop_nil; cbn [entries].
       rewrite drop_if_expired_seen. split; [quiet now; left; by rewrite drop_if_expired_seen|done]. }
  destruct (data e) as [d|l|d|d] eqn:De;
    try (intros [= <- <-]; cbn [entries]; rewrite drop_if_expired_seen;
         split; [quiet now; left; by rewrite drop_if_expired_seen|done]).
  destruct (seen_list _ _ _ _ _ W Es De) as (He & Hl & Hw).
  set (m := Z.to_nat (Z.min count (len l))).
  assert (take m l = take (Z.to_nat count) l /\ drop m l = drop (Z.to_nat count) l) as [Ht Hd].
  { subst m. unfold len. destruct (Z.min_spec count (Z.of_nat (length l))) as [[? ->]|[? ->]]; [done|].
    rewrite Nat2Z.id, take_ge, drop_ge by lia. split; symmetry; [apply take_ge|apply drop_ge]; lia. }
  rewrite Ht, Hd. set (n := Z.to_nat count). intros [= <- <-]. cbn zeta.
  assert (bool_decide (take n l = []) = bool_decide (n = 0%nat)) as ->.
  { apply bool_decide_ext. destruct l as [|x l]; [done|]. by destruct n. }
  set (es := if bool_decide (drop n l = []) then _ else _).
  assert (Hkey : es !! key = match drop n l with
     | [] => None
     | _ => if bool_decide (n = 0%nat) then Some e
            else Some {| data := DList (drop n l); expires_at := None; version := changes s + 1 |}
     end).
  { subst es. case_bool_decide as Hx; [rewrite Hx; apply lookup_delete_eq|].
    rewrite lookup_insert_eq. destruct (drop n l) as [|x rest] eqn:Er; [done|].
    case_bool_decide as Hn; [|by rewrite He].
    rewrite Hn, drop_0 in Er. rewrite <- Er. f_equal. destruct e; cbn in *; congruence. }
  assert (Hne : forall k, k <> key -> es !! k = entries s !! k).
  { intros k Hk. subst es. case_bool_decide; rewrite ?lookup_delete_ne by done;
      by apply drop_then_insert. }
  clearbody es. split; [|split; [done|exact Hkey]].
  apply (quiet_written now); [done|done|done|done|done|exact Hne|].
  cbn [entries with_entries]. rewrite Hkey, Es. destruct (drop n l); [by right|].
  case_bool_decide; [by left|right]. split; [by apply fresh_new|done].
Qed.

(** What a blocking pop does, on every branch: it never panics. *)
Lemma blpop_spec closed me now key s :
  Wf s -> changes s < U64_MAX ->
  exists s' r, blpop closed me now key s = Done (s', r)
  /\ Good s s' /\ elsewhere key s s' /\ watchers s' = watchers s
  /\ match list_seen now s key with
     | Err WrongType => r = Err WrongType /\ s' = with_entries s (drop_if_expired now (entries s) key)
     | Ok (x :: l) =>
         r = Ok (Ready x) /\ waiters s' = waiters s
         /\ entries s' !! key
            = match l with
              | [] => None
              | _ => Some {| data := DList l; expires_at := None; version := changes s + 1 |}
              end
     | Ok [] =>
         r = Ok (Waiting me) /\ entries s' !! key = None
         /\ queue_at s' key = List.filter (fun w => negb (closed w)) (queue_at s key) ++ [me]
         /\ (forall k, k <> key -> waiters s' !! k = waiters s !! k)
     end.
Proof.
  intros W Hc. unfold blpop, list_seen. rewrite drop_if_expired_seen.
  destruct (seen now (entries s) key) as [e|] eqn:Es.
  2: { eexists _, _. split; [done|].
       pose proof (Good_drop_if_expired now key s W) as G.
       cbn [entries waiters watchers with_entries]. rewrite drop_if_expired_seen, Es.
       split_and!; [| |done|done|done| |].
       - destruct G as [[We Ww Wc] Ev]. split; [split|split]; cbn [entries waiters changes].
         + exact We.
         + intros k e Hk Hl. destruct (decide (k = key)) as [->|Hne].
           * cbn in Hk. rewrite drop_if_expired_seen, Es in Hk. done.
           * rewrite lookup_insert_ne by done. by apply (Ww k e).
         + exact Wc.
         + done.
         + intros k. apply (ev_entries _ _ Ev k).
       - intros k Hk; cbn. by apply drop_if_expired_ne.
       - unfold queue_at at 1; cbn. by rewrite lookup_insert_eq.
       - intros k Hk. by apply lookup_insert_ne. }
  destruct e as [d x v]. cbn [data].
  destruct d as [d|l|d|d]; try (eexists _, _; split; [done|];
    pose proof (quiet_dropped now key s W) as [G E _ _]; by split_and!).
  destruct (seen_list _ _ _ _ _ W Es eq_refl) as ([= ->] & Hl & Hw).
  cbn [next_version with_entries entries waiters watchers changes]. rewrite wrap_next by done.
  unfold pop_first. rewrite drop_if_expired_seen, Es. cbn [data].
  destruct l as [|y l]; [done|]. eexists _, _. split; [done|].
  set (es := if bool_decide (l = []) then _ else _).
  assert (Hkey : es !! key = match l with
     | [] => None
     | _ => Some {| data := DList l; expires_at := None; version := changes s + 1 |}
     end).
  { subst es. case_bool_decide as Hx; [subst l; apply lookup_delete_eq|].
    rewrite lookup_insert_eq. by destruct l. }
  assert (Hne : forall k, k <> key -> es !! k = entries s !! k).
  { intros k Hk. subst es. case_bool_decide; rewrite ?lookup_delete_ne by done;
      by apply drop_then_insert. }
  clearbody es.
  assert (Quiet key s (with_entries {| entries := drop_if_expired now (entries s) key;
      waiters := waiters s; watchers := watchers s; changes := changes s + 1 |} es)) as [G E _ _].
  { apply (quiet_written now); [done|done|done|done|done|exact Hne|].
    cbn [entries with_entries]. rewrite Hkey, Es. destruct l; [by right|].
    right. split; [by apply fresh_new|done]. }
  by split_and!.
Qed.

Lemma list_at_seen now key s :
  list_at now (entries s) key
  = (drop_if_expired now (entries s) key,
     match list_seen now s key with
     | Ok [] => match seen now (entries s) key with None => Ok None | Some _ => Ok (Some []) end
     | Ok l => Ok (Some l)
     | Err e => Err e
     end).
Proof.
  unfold list_at, list_seen. rewrite drop_if_expired_seen. f_equal.
  destruct (seen now (entries s) key) as [e|]; [|done]. destruct (data e) as [|l| |]; try done.
  by destruct l.
Qed.

Lemma window_nil {A} start stop : window start stop (@nil A) = [].
Proof.
  unfold window. rewrite len_nil. destruct (_ >? _); [done|].
  assert (0 <= resolve_index start 0) by (unfold resolve_index; case_match; lia).
  destruct (Z.geb_spec (resolve_index start 0) 0); [done|lia].
Qed.

Lemma lrange_seen now key start stop s :
  lrange now key start stop s
  = (with_entries s (drop_if_expired now (entries s) key),
     match list_seen now s key with Ok l => Ok (window start stop l) | Err e => Err e end).
Proof.
  unfold lrange. rewrite list_at_seen. f_equal.
  destruct (list_seen now s key) as [[|x l]|]; try done.
  destruct (seen now (entries s) key); cbn; by rewrite ?window_nil.
Qed.

Lemma llen_seen now key s :
  llen now key s
  = (with_entries s (drop_if_expired now (entries s) key),
     match list_seen now s key with Ok l => Ok (len l) | Err e => Err e end).
Proof.
  unfold llen. rewrite list_at_seen. f_equal.
  destruct (list_seen now s key) as [[|x l]|]; try done.
  by destruct (seen now (entries s) key).
Qed.

Lemma push_good open now key elements side s :
  Wf s -> changes s < U64_MAX -> elements <> [] ->
  Good s (push open now key elements side s).1.1.
Proof.
  intros W Hc Hne. destruct (push open now key elements side s) as [[s' given] r] eqn:E.
  by destruct (push_spec _ _ _ _ _ _ _ _ _ W Hc Hne E) as [G _].
Qed.

Lemma lpop_good now key count s :
  Wf s -> changes s < U64_MAX -> 0 <= count -> Good s (lpop now key count s).1.
Proof.
  intros W Hc Hcount. destruct (lpop now key count s) as [s' r] eqn:E.
  by destruct (lpop_spec _ _ _ _ _ _ W Hc Hcount E) as [[G _ _ _] _].
Qed.

Lemma lrange_good now key start stop s : Wf s -> Good s (lrange now key start stop s).1.
Proof. intros W. rewrite lrange_seen. by apply Good_drop_if_expired. Qed.

Lemma llen_good now key s : Wf s -> Good s (llen now key s).1.
Proof. intros W. rewrite llen_seen. by apply Good_drop_if_expired. Qed.

#[export] Hint Resolve push_good lpop_good lrange_good llen_good : server.

(** The window, element by element. *)
Lemma window_lookup {A} start stop (l : list A) (i : nat) :
  window start stop l !! i
  = let first := resolve_index start (len l) in
    let last := resolve_index stop (len l) in
    if first + Z.of_nat i <=? last then l !! (Z.to_nat first + i)%nat else None.
Proof.
  unfold window. cbn zeta.
  assert (0 <= resolve_index start (len l)) as H1 by (unfold resolve_index; case_match; lia).
  assert (0 <= resolve_index stop (len l)) as H2 by (unfold resolve_index; case_match; lia).
  set (a := resolve_index start (len l)) in *. set (b := resolve_index stop (len l)) in *.
  clearbody a b. unfold len in *.
  destruct (Z.gtb_spec a b); [cbn [orb]; rewrite lookup_nil; by decide_leb|].
  destruct (Z.geb_spec a (Z.of_nat (length l))).
  { cbn [orb]. rewrite lookup_nil. case_match; [|done]. symmetry. apply lookup_ge_None_2. lia. }
  cbn [orb]. unfold range_inclusive. rewrite lookup_drop.
  destruct (Z.leb_spec (a + Z.of_nat i) b).
  - destruct (decide (Z.to_nat a + i < length l)%nat).
    + apply lookup_take_lt. lia.
    + rewrite lookup_take_ge by lia. symmetry. apply lookup_ge_None_2. lia.
  - apply lookup_take_ge. lia.
Qed.

(** ** What the operations promise *)

(** C3. A push refines the abstract list with a queue: on a key holding the list
    [l] (nothing being the empty list) it answers with the length of [l] with
    the new elements, before anyone is served; it then hands elements out from
    the front, in order, each once, to the blocked clients still listening, in
    the order they came, until the elements or the clients run out; what is left
    over is the list from then on, in full, and a key left with no elements is
    gone.  On a key of another type nothing happens.  No other key is touched. *)
Theorem push_serves open now key elements side s s' given r :
  Wf s -> changes s < U64_MAX -> elements <> [] ->
  push open now key elements side s = (s', given, r) ->
  elsewhere key s s'
  /\ match list_seen now s key with
     | Err WrongType => r = Err WrongType /\ given = [] /\ forall now', now <= now' ->
                        seen now' (entries s') key = seen now' (entries s) key
     | Ok l =>
         r = Ok (len l + len elements)
         /\ exists rest, extend side elements l = map snd given ++ rest
         /\ (forall now', list_seen now' s' key = Ok rest)
         /\ (rest = [] <-> entries s' !! key = None)
         /\ (rest = [] \/ queue_at s' key = [])
         /\ exists gone, queue_at s key = gone ++ queue_at s' key
                         /\ List.filter open gone = map fst given
     end.
Proof.
  intros W Hc Hne E. destruct (push_spec _ _ _ _ _ _ _ _ _ W Hc Hne E) as (_ & El & _ & _ & H).
  split; [done|]. destruct (list_seen now s key) as [l|[]].
  - destruct H as (-> & rest & Hs & Hk). split; [done|]. exists rest.
    destruct (serve_spec _ _ _ _ _ _ Hs) as (H1 & H2 & H3). split_and!; [done| | |done|done].
    + intros now'. unfold list_seen, seen. rewrite Hk. by destruct rest.
    + rewrite Hk. by destruct rest.
  - destruct H as (-> & -> & Hk & _). split_and!; [done..|]. intros now' Hle.
    unfold seen in *. rewrite Hk. destruct (entries s !! key) as [e|]; [|done].
    destruct (has_expired now e) eqn:Ex; [|done]. unfold has_expired in *.
    destruct (expires_at e); [|done]. assert ((z <=? now') = true) as -> by lia. done.
Qed.

(** Two elements pushed where three clients wait, of whom the first has gone. *)
Definition crowded : State :=
  {| entries := ∅; waiters := {[ lit "q" := [1; 2; 3]%nat ]}; watchers := ∅; changes := 0 |}.
Lemma Wf_crowded : Wf crowded.
Proof. split; cbn; [by intros k e; rewrite lookup_empty..|unfold U64_MAX; lia]. Qed.

Lemma push_serves_witness :
  let open w := negb (Nat.eqb w 1) in
  let '(s', given, r) := push open 0 (lit "q") [lit "a"; lit "b"] Right crowded in
  given = [(2%nat, lit "a"); (3%nat, lit "b")] /\ r = Ok 2 /\ elsewhere (lit "q") crowded s'.
Proof.
  cbv zeta. destruct (push (fun w => negb (Nat.eqb w 1)) 0 (lit "q") [lit "a"; lit "b"] Right crowded)
    as [[s' given] r] eqn:E.
  pose proof (push_serves _ _ _ [lit "a"; lit "b"] _ _ _ _ _ Wf_crowded eq_refl
    ltac:(by intros [=]) E) as [H _].
  split_and!; [| |exact H]; vm_compute in E; injection E as _ <- <-; reflexivity.
Defined.

(** C20. A client that blocks on a key does so behind everyone already there
    and is handed the element that is its turn by the next push: the first
    pushed if no one before it still listens, the one after if one does, and so
    on.  It is blocked only if there is nothing to take, and a key with an
    element gives it at once; [BLPOP] never panics. *)
Theorem blpop_waits_its_turn closed open me now now' key elements side s :
  Wf s -> changes s + 1 < U64_MAX -> elements <> [] -> open me = true ->
  list_seen now s key <> Err WrongType ->
  exists s1 r1, blpop closed me now key s = Done (s1, Ok r1)
  /\ match r1 with
     | Ready x => exists l, list_seen now s key = Ok (x :: l) /\ list_seen now s1 key = Ok l
     | Waiting w =>
         w = me /\ list_seen now s key = Ok []
         /\ let ahead := List.filter open (List.filter (fun w => negb (closed w)) (queue_at s key)) in
            let '(s2, given, r2) := push open now' key elements side s1 in
            r2 = Ok (len elements)
            /\ forall x, extend side elements [] !! length ahead = Some x -> (me, x) ∈ given
     end.
Proof.
  intros W Hc Hne Ho Hl.
  destruct (blpop_spec closed me now key s W ltac:(lia)) as (s1 & r & E & G & _ & _ & H).
  destruct (list_seen now s key) as [[|x l]|[]] eqn:Es; [| |done].
  - destruct H as (-> & Hk & Hq & _). exists s1, (Waiting me). split_and!; [done..|].
    set (ahead := List.filter (fun w => negb (closed w)) (queue_at s key)) in *. cbn zeta.
    destruct (push open now' key elements side s1) as [[s2 given] r2] eqn:E2.
    assert (changes s1 < U64_MAX) as Hc1.
    { revert E. unfold blpop. rewrite drop_if_expired_seen. unfold list_seen in Es.
      destruct (seen now (entries s) key) as [e|] eqn:Es'; [|intros [= <-]; cbn; lia].
      destruct e as [[] ? ?]; cbn in Es; try done. injection Es as ->.
      by destruct (seen_list now s key _ [] W Es' eq_refl) as (_ & ? & _). }
    destruct (push_spec _ _ _ _ _ _ _ _ _ (good_wf _ _ G) Hc1 Hne E2) as (_ & _ & _ & _ & H2).
    assert (list_seen now' s1 key = Ok []) as Hs1 by (unfold list_seen, seen; by rewrite Hk).
    rewrite Hs1, Hq in H2. destruct H2 as (-> & rest & Hs & _). split; [by rewrite len_nil|].
    intros x Hx. destruct (serve_spec _ _ _ _ _ _ Hs) as (H3 & (gone & H4 & H5) & H6).
    assert (Hall : queue_at s2 key = [] \/ exists q, ahead = gone ++ q).
    { destruct (queue_at s2 key) as [|w q] eqn:Eq; [by left|right].
      destruct (exists_last (l := w :: q)) as (q' & w' & E'); [done|]. rewrite E', app_assoc in H4.
      apply app_inj_tail in H4 as [-> _]. by exists q'. }
    destruct Hall as [Hnil|[q Hq2]].
    + rewrite Hnil, app_nil_r in H4. subst gone. rewrite List.filter_app in H5. cbn in H5.
      rewrite Ho in H5.
      apply list_elem_of_lookup. exists (length (List.filter open ahead)).
      assert (map fst given !! length (List.filter open ahead) = Some me) as Hf
        by (rewrite <- H5, lookup_app_r, Nat.sub_diag by done; done).
      apply list_lookup_fmap_Some in Hf as ([w y] & Hf & Hg). cbn in Hf. subst w.
      rewrite Hg. f_equal. f_equal. rewrite H3, lookup_app_l in Hx
        by (rewrite length_map; by eapply lookup_lt_Some).
      assert (map snd given !! length (List.filter open ahead) = Some y) as Hy
        by (apply list_lookup_fmap_Some; by eexists (me, y)).
      congruence.
    + exfalso. destruct H6 as [->|H6].
      * rewrite app_nil_r in H3. rewrite H3 in Hx. apply lookup_lt_Some in Hx.
        rewrite length_map in Hx.
        assert (length (List.filter open ahead)
                = length (List.filter open gone) + length (List.filter open q))%nat as Hlen
          by (by rewrite Hq2, List.filter_app, length_app).
        rewrite H5, length_map in Hlen. lia.
      * rewrite H6, app_nil_r, Hq2 in H4. apply (f_equal length) in H4.
        rewrite !length_app in H4. cbn in H4. lia.
  - destruct H as (-> & _ & Hk). exists s1, (Ready x). split; [done|]. exists l. split; [done|].
    unfold list_seen, seen. rewrite Hk. by destruct l.
Qed.

Lemma blpop_waits_witness :
  exists s1 r1, blpop (fun w => Nat.eqb w 1) 4 0 (lit "q") crowded = Done (s1, Ok r1)
  /\ match r1 with
     | Ready x => exists l, list_seen 0 crowded (lit "q") = Ok (x :: l)
                            /\ list_seen 0 s1 (lit "q") = Ok l
     | Waiting w =>
         w = 4%nat /\ list_seen 0 crowded (lit "q") = Ok []
         /\ let ahead := List.filter (fun w => negb (Nat.eqb w 1))
                (List.filter (fun w => negb (Nat.eqb w 1)) (queue_at crowded (lit "q"))) in
            let '(s2, given, r2) :=
              push (fun w => negb (Nat.eqb w 1)) 9 (lit "q") [lit "a"; lit "b"; lit "c"] Right s1 in
            r2 = Ok 3
            /\ forall x, extend Right [lit "a"; lit "b"; lit "c"] [] !! length ahead = Some x ->
                 (4%nat, x) ∈ given
     end.
Proof.
  apply (blpop_waits_its_turn (fun w => Nat.eqb w 1) (fun w => negb (Nat.eqb w 1)) 4 0 9
    (lit "q") [lit "a"; lit "b"; lit "c"] Right crowded);
    [apply Wf_crowded|reflexivity|by intros [=]|reflexivity|by intros [=]].
Defined.

(** What a question about [key] leaves of a store: everything, but for an entry under
    [key] whose deadline had passed. *)
Definition only_read (now : Z) (key : Bytes) (s s' : State) : Prop :=
  s' = s \/ exists e deadline, entries s !! key = Some e /\ expires_at e = Some deadline
             /\ deadline <= now /\ s' = with_entries s (delete key (entries s)).

Lemma drop_only_reads now key s : only_read now key s (with_entries s (drop_if_expired now (entries s) key)).
Proof.
  unfold drop_if_expired. destruct (entries s !! key) as [e|] eqn:Ee; [|left; by destruct s].
  destruct (has_expired now e) eqn:Ex; [|left; by destruct s]. right. unfold has_expired in Ex.
  destruct (expires_at e) as [deadline|] eqn:Ed; [|done]. exists e, deadline. split_and!; [done..|lia|done].
Qed.

(** C30. [LRANGE] answers with the elements from [start] to [stop], both
    included, an index below zero counted from the end and drawn in to the
    first element, and it changes nothing, nor does [LLEN], whatever the key holds:
    the store after it is the store before it, but for an entry under that very key
    whose deadline had passed and which is let go.  [LPOP key count] takes exactly what
    [LRANGE key 0 count-1] showed and leaves the rest to be read, [LLEN] telling
    how much that is. *)
Theorem lrange_lpop now key start stop count s l :
  Wf s -> changes s < U64_MAX -> 0 < count <= I64_MAX -> list_seen now s key = Ok l ->
  (exists w, snd (lrange now key start stop s) = Ok w
   /\ forall i : nat, w !! i
        = let first := resolve_index start (len l) in
          if first + Z.of_nat i <=? resolve_index stop (len l)
          then l !! (Z.to_nat first + i)%nat else None)
  /\ (forall now k start stop s, only_read now k s (lrange now k start stop s).1
                             /\ only_read now k s (llen now k s).1)
  /\ exists s' taken rest, lpop now key count s = (s', Ok taken)
     /\ snd (lrange now key 0 (count - 1) s) = Ok taken
     /\ l = taken ++ rest
     /\ (forall now', now <= now' -> list_seen now' s' key = Ok rest)
     /\ snd (llen now key s') = Ok (len l - len taken)
     /\ elsewhere key s s'.
Proof.
  intros W Hc Hcount Hl. split_and!.
  { rewrite lrange_seen, Hl. eexists; split; [done|]. intros i. apply window_lookup. }
  { intros now1 k start1 stop1 s1. rewrite lrange_seen, llen_seen. split; apply drop_only_reads. }
  destruct (lpop now key count s) as [s' r] eqn:E.
  destruct (lpop_spec now key count s s' r W Hc ltac:(lia) E) as [[_ El _ _] H]. rewrite Hl in H.
  cbn zeta in H. set (n := Z.to_nat count) in *. destruct H as [-> Hk].
  assert (Hr : forall now', now <= now' -> list_seen now' s' key = Ok (drop n l)).
  { intros now' Hle. unfold list_seen, seen. rewrite Hk. rewrite bool_decide_false by lia.
    by destruct (drop n l). }
  exists s', (take n l), (drop n l). split_and!; [done| |by rewrite take_drop|done| |done].
  - rewrite lrange_seen, Hl. f_equal. cbn [snd]. f_equal. apply list_eq. intros i.
    rewrite window_lookup. cbn [resolve_index]. unfold resolve_index. decide_leb.
    destruct (Z.leb_spec (0 + Z.of_nat i) (count - 1)); cbn.
    + symmetry. apply lookup_take_lt. lia.
    + symmetry. apply lookup_take_ge. lia.
  - rewrite llen_seen, Hr by lia. cbn [snd]. f_equal.
    rewrite <- (take_drop n l) at 2. rewrite len_app. lia.
Qed.

Definition three : State :=
  {| entries := {[ lit "l" := {| data := DList [lit "a"; lit "b"; lit "c"];
                                 expires_at := None; version := 1 |} ]};
     waiters := ∅; watchers := ∅; changes := 1 |}.
Lemma Wf_three : Wf three.
Proof.
  split; cbn; [| |unfold U64_MAX; lia].
  - intros k e [<- <-]%lookup_singleton_Some. by split_and!; [..|intros [? [=]]].
  - intros k e _ _. apply lookup_empty.
Qed.

Lemma lrange_lpop_witness :
  exists s' taken rest, lpop 7 (lit "l") 2 three = (s', Ok taken)
    /\ snd (lrange 7 (lit "l") 0 1 three) = Ok taken
    /\ [lit "a"; lit "b"; lit "c"] = taken ++ rest.
Proof.
  destruct (lrange_lpop 7 (lit "l") (-2) (-1) 2 three [lit "a"; lit "b"; lit "c"])
    as (_ & _ & s' & taken & rest & H1 & H2 & H3 & _);
    [apply Wf_three|reflexivity|split; vm_compute; congruence|reflexivity|].
  exists s', taken, rest. by split_and!.
Defined.
