(* ===== verification/StoreStreams.v ===== *)
(** * Streams: src/src/store/streams.rs

    [XADD], [XRANGE] and [XREAD] on the store.  A stream grows at its end under
    ids that climb, which is why a range of it is found by binary search.

    A client waiting on streams is known by the number of its [Notify]; [held]
    tells whether the client still has its own handle on it, beside the ones the
    table of watchers holds ([Arc::strong_count]). *)
From S2P Require Import Prelude Text Store.
Open Scope Z_scope.

(** The id an [XADD] asked for. *)
Inductive RequestedId : Type :=
| Explicit (id : EntryId)
| AutoSequence (milliseconds : Z)
| Auto.

(** [RequestedId::from_str]. *)
Definition parse_requested_id (id : Bytes) : result RequestedId unit :=
  if id =b? lit "*" then Ok Auto
  else
    try? p <- ok_or (split_once "-"%byte id) tt;
    try? ms <- map_err (fun _ => tt) (parse_u64 p.1);
    if p.2 =b? lit "*" then Ok (AutoSequence ms)
    else
      try? sq <- map_err (fun _ => tt) (parse_u64 p.2);
      Ok (Explicit {| milliseconds := ms; sequence := sq |}).

(** [Display for EntryId]. *)
Definition show_id (i : EntryId) : Bytes :=
  show (milliseconds i) ++ ["-"%byte] ++ show (sequence i).

Abbreviation ReadStream := (Bytes * list StreamEntry)%type.

(** The outcome of a blocking read. *)
Inductive StreamRead : Type := StreamsReady (streams : list ReadStream) | StreamsWaiting (w : watcher).

(** Why an [XADD] was refused. *)
Inductive XaddError : Type := XaddWrongType | NotAboveZero | NotAboveTop.

(** [resolve]: [clock] is the system clock, in milliseconds. *)
Definition resolve (clock : Z) (requested : RequestedId) (top : option EntryId)
  : result EntryId XaddError :=
  let sequenced ms :=
    try? sq <- match top with
               | Some top =>
                   if milliseconds top =? ms then
                     if sequence top <? U64_MAX then Ok (sequence top + 1) else Err NotAboveTop
                   else Ok (if ms =? 0 then 1 else 0)
               | None => Ok (if ms =? 0 then 1 else 0)
               end;
    Ok {| milliseconds := ms; sequence := sq |} in
  match requested with
  | Explicit id => Ok id
  | AutoSequence ms => sequenced ms
  | Auto =>
      sequenced (match top with
                 | Some top => Z.max clock (milliseconds top)
                 | None => clock
                 end)
  end.

(** [State::wake_watchers]: the watchers to notify. *)
Definition wake_watchers (key : Bytes) (s : State) : State * list watcher :=
  ({| entries := entries s; waiters := waiters s; watchers := delete key (watchers s);
      changes := changes s |},
   default [] (watchers s !! key)).

(** [Store::xadd]. *)
Definition xadd (clock now : Z) (key : Bytes) (requested : RequestedId)
  (fields : list (Bytes * Bytes)) (s : State)
  : State * list watcher * result EntryId XaddError :=
  let not_above_zero := match requested with Explicit id => id_le id ZERO | _ => false end in
  if not_above_zero then (s, [], Err NotAboveZero)
  else
    let es := drop_if_expired now (entries s) key in
    let '(s, v) := next_version (with_entries s es) in
    let e := default (new_entry (DStream []) v) (es !! key) in
    let es := <[key := e]> es in
    match data e with
    | DStream stream =>
        let top := entry_id <$> last stream in
        match resolve clock requested top with
        | Err err => (with_entries s es, [], Err err)
        | Ok id =>
            if match top with Some top => id_le id top | None => false end
            then (with_entries s es, [], Err NotAboveTop)
            else
              let stream := stream ++ [{| entry_id := id; fields := fields |}] in
              let s := with_entries s (<[key := with_data e (DStream stream) v]> es) in
              let '(s, woken) := wake_watchers key s in
              (s, woken, Ok id)
        end
    | _ => (with_entries s es, [], Err XaddWrongType)
    end.

(** [stream_at]. *)
Definition stream_at (now : Z) (es : Entries) (key : Bytes)
  : Entries * result (option (list StreamEntry)) WrongType_t :=
  let es := drop_if_expired now es key in
  (es, match es !! key with
       | None => Ok None
       | Some e => match data e with DStream l => Ok (Some l) | _ => Err WrongType end
       end).

(** [&stream[first..last]], which panics when the two have crossed. *)
Definition slice {A} (first last : nat) (l : list A) : may (list A) :=
  if (first <=? last)%nat then Done (drop first (take last l)) else Panic.

(** [Store::xrange]. *)
Definition xrange (now : Z) (key : Bytes) (start stop : EntryId) (s : State)
  : State * may (result (list StreamEntry) WrongType_t) :=
  let '(es, r) := stream_at now (entries s) key in
  (with_entries s es,
   match r with
   | Err e => Done (Err e)
   | Ok None => Done (Ok [])
   | Ok (Some stream) =>
       let first := partition_point (fun e => id_lt (entry_id e) start) stream in
       let last := partition_point (fun e => id_le (entry_id e) stop) stream in
       mbind_may (slice first last stream) (fun l => Done (Ok l))
   end).

(** [Store::resolve_reads]. *)
Fixpoint resolve_reads_in (now : Z) (reads : list (Bytes * option EntryId)) (es : Entries)
  : Entries * result (list (Bytes * EntryId)) WrongType_t :=
  match reads with
  | [] => (es, Ok [])
  | (key, after) :: reads =>
      let '(es, r) :=
        match after with
        | Some after => (es, Ok after)
        | None =>
            let '(es, r) := stream_at now es key in
            (es, try? found <- r;
                 Ok (match found with
                     | Some stream =>
                         match last stream with Some e => entry_id e | None => ZERO end
                     | None => ZERO
                     end))
        end in
      match r with
      | Err e => (es, Err e)
      | Ok after =>
          let '(es, rest) := resolve_reads_in now reads es in
          (es, try? resolved <- rest; Ok ((key, after) :: resolved))
      end
  end.
Definition resolve_reads (now : Z) (reads : list (Bytes * option EntryId)) (s : State)
  : State * result (list (Bytes * EntryId)) WrongType_t :=
  let '(es, r) := resolve_reads_in now reads (entries s) in (with_entries s es, r).

(** [read_streams]. *)
Fixpoint read_streams (now : Z) (reads : list (Bytes * EntryId)) (es : Entries)
  : Entries * result (list ReadStream) WrongType_t :=
  match reads with
  | [] => (es, Ok [])
  | (key, after) :: reads =>
      let '(es, r) := stream_at now es key in
      match r with
      | Err e => (es, Err e)
      | Ok None => read_streams now reads es
      | Ok (Some stream) =>
          let first := partition_point (fun e => id_le (entry_id e) after) stream in
          let '(es, rest) := read_streams now reads es in
          (es, try? streams <- rest;
               Ok (if (first <? length stream)%nat then (key, drop first stream) :: streams
                   else streams))
      end
  end.

(** [Store::xread]. *)
Definition xread (now : Z) (reads : list (Bytes * EntryId)) (s : State)
  : State * result (list ReadStream) WrongType_t :=
  let '(es, r) := read_streams now reads (entries s) in (with_entries s es, r).

(** How often a watcher is listed. *)
Definition listed (w : watcher) (l : list watcher) : nat := count_occ Nat.eq_dec l w.
Definition listed_anywhere (w : watcher) (ws : gmap Bytes (list watcher)) : nat :=
  map_fold (fun _ l n => (listed w l + n)%nat) 0%nat ws.

(** [watchers.retain(|waker| Arc::strong_count(waker) > 1)], which lets go of
    the ones it drops as it goes along: [others] are the keys' lists besides
    this one. *)
Fixpoint retain_held (held : watcher -> bool) (others : gmap Bytes (list watcher))
  (kept l : list watcher) : list watcher :=
  match l with
  | [] => kept
  | w :: l' =>
      let count := ((if held w then 1 else 0) + listed_anywhere w others
                    + listed w kept + listed w l)%nat in
      retain_held held others (if (1 <? count)%nat then kept ++ [w] else kept) l'
  end.

(** The loop of [Store::xread_or_watch] that registers a fresh watcher. *)
Fixpoint watch (held : watcher -> bool) (me : watcher) (reads : list (Bytes * EntryId))
  (ws : gmap Bytes (list watcher)) : gmap Bytes (list watcher) :=
  match reads with
  | [] => ws
  | (key, _) :: reads =>
      let l := retain_held (fun w => held w || Nat.eqb w me) (delete key ws) []
                 (default [] (ws !! key)) in
      watch held me reads (<[key := l ++ [me]]> ws)
  end.

(** [Store::xread_or_watch]. *)
Definition xread_or_watch (held : watcher -> bool) (me : watcher) (now : Z)
  (reads : list (Bytes * EntryId)) (s : State) : State * result StreamRead WrongType_t :=
  let '(es, r) := read_streams now reads (entries s) in
  match r with
  | Err e => (with_entries s es, Err e)
  | Ok [] =>
      ({| entries := es; waiters := waiters s; watchers := watch held me reads (watchers s);
          changes := changes s |}, Ok (StreamsWaiting me))
  | Ok streams => (with_entries s es, Ok (StreamsReady streams))
  end.

(** ** Ids *)
Lemma id_lt_spec i j :
  id_lt i j = true <->
  milliseconds i < milliseconds j \/ milliseconds i = milliseconds j /\ sequence i < sequence j.
Proof. unfold id_lt. lia. Qed.

Lemma id_le_spec i j :
  id_le i j = true <->
  milliseconds i < milliseconds j \/ milliseconds i = milliseconds j /\ sequence i <= sequence j.
Proof. unfold id_le, id_lt. lia. Qed.

Lemma id_lt_trans i j k : id_lt i j = true -> id_lt j k = true -> id_lt i k = true.
Proof. rewrite !id_lt_spec. lia. Qed.

Lemma id_le_lt_trans i j k : id_le i j = true -> id_lt j k = true -> id_lt i k = true.
Proof. rewrite id_le_spec, !id_lt_spec. lia. Qed.

Abbreviation before := (fun a b : StreamEntry => id_lt (entry_id a) (entry_id b) = true).

Lemma lt_down i a b :
  before a b -> id_lt (entry_id b) i = true -> id_lt (entry_id a) i = true.
Proof. apply id_lt_trans. Qed.

Lemma le_down i a b :
  before a b -> id_le (entry_id b) i = true -> id_le (entry_id a) i = true.
Proof. cbn. rewrite !id_le_spec, id_lt_spec. lia. Qed.

(** ** Where the binary searches land *)
Section Sorted.
Context (stream : list StreamEntry).
Hypothesis Hs : StronglySorted before stream.

Lemma read_after i :
  drop (partition_point (fun e => id_le (entry_id e) i) stream) stream
  = List.filter (fun e => id_lt i (entry_id e)) stream.
Proof.
  rewrite (partition_drop before) by (exact Hs || exact (le_down i)).
  apply List.filter_ext. intros e. unfold id_le. by rewrite negb_involutive.
Qed.

(** Reading from one id to another gives the entries between them; should an
    entry lie strictly between two bounds given the wrong way round, the slice
    is asked for backwards. *)
Lemma range_slice start stop :
  let first := partition_point (fun e => id_lt (entry_id e) start) stream in
  let last := partition_point (fun e => id_le (entry_id e) stop) stream in
  if existsb (fun e => id_lt stop (entry_id e) && id_lt (entry_id e) start) stream
  then (last < first)%nat
  else (first <= last)%nat
       /\ drop first (take last stream)
          = List.filter (fun e => id_le start (entry_id e) && id_le (entry_id e) stop) stream.
Proof.
  cbn zeta.
  rewrite (partition_take before) by (exact Hs || exact (le_down stop)).
  rewrite (partition_point_sorted before (fun e => id_lt (entry_id e) start))
    by (exact Hs || exact (lt_down start)).
  rewrite (partition_point_sorted before (fun e => id_le (entry_id e) stop))
    by (exact Hs || exact (le_down stop)).
  destruct (existsb _ stream) eqn:E.
  - apply existsb_exists in E as (e & He & [H1 H2]%andb_true_iff).
    apply filter_length_lt.
    + intros a _ Ha. apply (id_le_lt_trans _ stop); [done|by eapply id_lt_trans].
    + exists e. split; [by apply list_elem_of_In|]. split; [|done].
      unfold id_le. by rewrite H1.
  - assert (Hin : forall e, e ∈ stream -> id_lt (entry_id e) start = true ->
                     id_le (entry_id e) stop = true).
    { intros e He H. unfold id_le. destruct (id_lt stop (entry_id e)) eqn:H'; [|done].
      exfalso. rewrite <- not_true_iff_false, existsb_exists in E. apply E.
      exists e. rewrite H, H'. split; [by apply list_elem_of_In|done]. }
    split; [by apply filter_length_le|].
    pose proof (StronglySorted_filter _ (fun e => id_le (entry_id e) stop) _ Hs) as Hs'.
    pose proof (partition_drop before _ (lt_down start) _ Hs') as H.
    rewrite (partition_point_sorted before _ (lt_down start) _ Hs'), !filter_andb in H.
    rewrite (filter_ext_elem (fun e => id_lt (entry_id e) start && id_le (entry_id e) stop)
      (fun e => id_lt (entry_id e) start)) in H.
    + rewrite H. by apply List.filter_ext.
    + intros e He. specialize (Hin e He). destruct (id_lt (entry_id e) start); [|done].
      by rewrite Hin.
Qed.
End Sorted.

(** The stream a client sees at a key. *)
Definition stream_seen (now : Z) (s : State) (key : Bytes)
  : result (list StreamEntry) WrongType_t :=
  match seen now (entries s) key with
  | None => Ok []
  | Some e => match data e with DStream l => Ok l | _ => Err WrongType end
  end.

Lemma stream_at_seen now key s :
  stream_at now (entries s) key
  = (drop_if_expired now (entries s) key,
     match seen now (entries s) key with
     | None => Ok None
     | Some e => match data e with DStream l => Ok (Some l) | _ => Err WrongType end
     end).
Proof. unfold stream_at. by rewrite drop_if_expired_seen. Qed.

Lemma stream_seen_sorted now s key l :
  Wf s -> stream_seen now s key = Ok l ->
  StronglySorted before l /\ Forall (fun e => id_ok (entry_id e) /\ id_lt ZERO (entry_id e) = true) l.
Proof.
  intros [We _ _]. unfold stream_seen. destruct (seen now (entries s) key) as [e|] eqn:Es;
    [|intros [= <-]; by repeat constructor].
  apply seen_Some in Es as [Hk _]. destruct (We _ _ Hk) as (Hok & _).
  destruct (data e); try done. intros [= <-]. cbn in Hok. tauto.
Qed.

(** ** Each operation in terms of what a client sees *)

(** The state an [XADD] is decided in: the last id of the stream. *)
Definition top_of (l : list StreamEntry) : option EntryId := entry_id <$> last l.

(** What an [XADD] is to answer, given the stream. *)
Definition chosen (clock : Z) (requested : RequestedId) (l : list StreamEntry)
  : result EntryId XaddError :=
  if match requested with Explicit id => id_le id ZERO | _ => false end then Err NotAboveZero
  else
    try? id <- resolve clock requested (top_of l);
    if match top_of l with Some top => id_le id top | None => false end
    then Err NotAboveTop else Ok id.

Lemma chosen_ok clock requested l id :
  0 <= clock <= U64_MAX ->
  match requested with
  | Explicit id => id_ok id
  | AutoSequence ms => 0 <= ms <= U64_MAX
  | Auto => True
  end ->
  StronglySorted before l -> Forall (fun e => id_ok (entry_id e) /\ id_lt ZERO (entry_id e) = true) l ->
  chosen clock requested l = Ok id ->
  id_ok id /\ id_lt ZERO id = true /\ Forall (fun e => id_lt (entry_id e) id = true) l.
Proof.
  intros Hclock Hreq Hs Hall. unfold chosen.
  destruct (match requested with Explicit id => id_le id ZERO | _ => false end) eqn:Hz; [done|].
  intros (i & Hres & Htop)%rbind_Ok.
  assert (Hlast : forall t, top_of l = Some t ->
     id_ok t /\ id_lt ZERO t = true /\ Forall (fun e => id_le (entry_id e) t = true) l).
  { intros t Ht. unfold top_of in Ht. apply fmap_Some in Ht as (e & He & ->).
    apply last_Some in He as [l' ->]. apply Forall_app in Hall as [_ Hl].
    apply Forall_cons in Hl as [[? ?] _]. split_and!; [done..|].
    apply Forall_app. split; [|constructor; [rewrite id_le_spec; lia|constructor]].
    apply Forall_forall. intros a Ha.
    assert (before a e) as Hb.
    { clear -Hs Ha. induction l' as [|b l' IH]; [by apply not_elem_of_nil in Ha|].
      inversion Hs as [|? ? Hs' Hb]; subst. apply elem_of_cons in Ha as [->|Ha]; [|auto].
      rewrite Forall_forall in Hb. apply Hb. set_solver. }
    revert Hb. cbn. rewrite id_lt_spec, id_le_spec. lia. }
  assert (i = id) as -> by (revert Htop; repeat case_match; congruence).
  assert (Hok : id_ok id /\ id_lt ZERO id = true).
  { revert Hres. unfold resolve. destruct requested as [i|ms|].
    - intros [= ->]. split; [done|]. revert Hz. unfold id_le. by destruct (id_lt ZERO id).
    - intros (sq & Hsq & [= <-])%rbind_Ok. unfold id_ok; cbn. rewrite id_lt_spec; cbn.
      unfold U64_MAX in *.
      destruct (top_of l) as [t|]; [destruct (Hlast t eq_refl) as (Hto & _ & _)|];
        [unfold id_ok, U64_MAX in Hto|]; revert Hsq; repeat case_match; intros [= <-]; lia.
    - intros (sq & Hsq & [= <-])%rbind_Ok. unfold id_ok; cbn. rewrite id_lt_spec; cbn.
      unfold U64_MAX in *.
      destruct (top_of l) as [t|]; [destruct (Hlast t eq_refl) as (Hto & _ & _)|];
        [unfold id_ok, U64_MAX in Hto|]; revert Hsq; repeat case_match; intros [= <-]; lia. }
  split_and!; [tauto..|].
  destruct (top_of l) as [t|] eqn:Ht.
  - destruct (Hlast t eq_refl) as (_ & _ & Hle). eapply Forall_impl; [exact Hle|]. cbn.
    intros e He. apply (id_le_lt_trans _ t); [done|]. revert Htop. unfold id_le.
    by destruct (id_lt t id).
  - unfold top_of in Ht. apply fmap_None in Ht. apply last_None in Ht. by subst l.
Qed.

(** What an [XADD] may be asked, given the clock. *)
Definition request_ok (clock : Z) (requested : RequestedId) : Prop :=
  0 <= clock <= U64_MAX
  /\ match requested with
     | Explicit id => id_ok id
     | AutoSequence ms => 0 <= ms <= U64_MAX
     | Auto => True
     end.

Definition watchers_at (s : State) (key : Bytes) : list watcher := default [] (watchers s !! key).

Lemma sorted_snoc l x :
  StronglySorted before l -> Forall (fun e => before e x) l -> StronglySorted before (l ++ [x]).
Proof.
  induction 1 as [|a l Hs IH Ha]; intros Hx; cbn; [by repeat constructor|].
  apply Forall_cons in Hx as [Hax Hx]. constructor; [by apply IH|].
  apply Forall_app. split; [done|by constructor].
Qed.

Definition refused_outright (requested : RequestedId) : bool :=
  match requested with Explicit id => id_le id ZERO | _ => false end.

(** On a stream, the one there is to be if there is none, an [XADD] goes by the id
    that is chosen. *)
Lemma xadd_stream clock now key requested fs s l :
  Wf s -> changes s < U64_MAX -> refused_outright requested = false ->
  stream_seen now s key = Ok l ->
  let e := default (new_entry (DStream []) (changes s + 1)) (seen now (entries s) key) in
  let es := <[key := e]> (drop_if_expired now (entries s) key) in
  xadd clock now key requested fs s
  = match chosen clock requested l with
    | Err err => ({| entries := es; waiters := waiters s; watchers := watchers s;
                     changes := changes s + 1 |}, [], Err err)
    | Ok id =>
        ({| entries := <[key := {| data := DStream (l ++ [{| entry_id := id; fields := fs |}]);
                                   expires_at := None; version := changes s + 1 |}]> es;
            waiters := waiters s; watchers := delete key (watchers s);
            changes := changes s + 1 |}, watchers_at s key, Ok id)
    end.
Proof.
  intros W Hc Hz Hl e es. unfold xadd, chosen. fold (refused_outright requested). rewrite Hz.
  cbn [next_version with_entries entries waiters watchers changes].
  rewrite wrap_next, drop_if_expired_seen by done. fold e. fold es.
  assert (data e = DStream l) as De.
  { revert Hl. unfold stream_seen. subst e. destruct (seen now (entries s) key) as [e|]; cbn.
    - destruct (data e); try done. by intros [= <-].
    - by intros [= <-]. }
  rewrite De. fold (top_of l). destruct (resolve clock requested (top_of l)) as [id|err]; [|done].
  cbn [rbind]. destruct (match top_of l with Some top => id_le id top | None => false end); [done|].
  cbn [wake_watchers with_entries entries waiters watchers changes]. unfold watchers_at.
  rewrite (worked_on_untimed now s key (DStream []) (changes s + 1)) by (fold e; rewrite ?De; done).
  done.
Qed.

(** On anything else it changes nothing a client sees. *)
Lemma xadd_elsewhere clock now key requested fs s :
  Wf s -> changes s < U64_MAX -> refused_outright requested = false ->
  stream_seen now s key = Err WrongType ->
  exists e, seen now (entries s) key = Some e
  /\ xadd clock now key requested fs s
     = ({| entries := <[key := e]> (drop_if_expired now (entries s) key); waiters := waiters s;
           watchers := watchers s; changes := changes s + 1 |}, [], Err XaddWrongType).
Proof.
  intros W Hc Hz Hl. unfold stream_seen in Hl. destruct (seen now (entries s) key) as [e|] eqn:Es; [|done].
  exists e. split; [done|]. unfold xadd. fold (refused_outright requested). rewrite Hz.
  cbn [next_version with_entries entries waiters watchers changes].
  rewrite wrap_next, drop_if_expired_seen, Es by done. cbn [default from_option id].
  by destruct (data e).
Qed.

(** An id is refused for what a stream ends in only by a stream that is there. *)
Lemma chosen_Err clock now requested s key l err :
  refused_outright requested = false -> stream_seen now s key = Ok l ->
  chosen clock requested l = Err err -> is_Some (seen now (entries s) key).
Proof.
  intros Hz Hl He. unfold stream_seen in Hl. destruct (seen now (entries s) key); [done|].
  injection Hl as <-. revert He. unfold chosen. fold (refused_outright requested). rewrite Hz.
  unfold resolve. by destruct requested.
Qed.

(** What an [XADD] does, on every branch. *)
Lemma xadd_spec clock now key requested fs s s' woken r :
  Wf s -> changes s < U64_MAX -> request_ok clock requested ->
  xadd clock now key requested fs s = (s', woken, r) ->
  Good s s' /\ elsewhere key s s' /\ waiters s' = waiters s
  /\ match stream_seen now s key with
     | Err WrongType =>
         r = Err (if match requested with Explicit id => id_le id ZERO | _ => false end
                  then NotAboveZero else XaddWrongType)
     | Ok l => r = chosen clock requested l
     end
  /\ match r with
     | Err _ =>
         woken = [] /\ watchers s' = watchers s
         /\ (entries s' !! key = seen now (entries s) key \/ s' = s)
     | Ok id =>
         exists l, stream_seen now s key = Ok l /\ woken = watchers_at s key
         /\ watchers s' = delete key (watchers s)
         /\ entries s' !! key
            = Some {| data := DStream (l ++ [{| entry_id := id; fields := fs |}]);
                      expires_at := None; version := changes s + 1 |}
     end.
Proof.
  intros W Hc [Hclock Hreq]. fold (refused_outright requested).
  destruct (refused_outright requested) eqn:Hz.
  { unfold xadd. fold (refused_outright requested). rewrite Hz. intros [= <- <- <-].
    split_and!; [by apply Good_refl|done|done| |done|done|by right].
    unfold chosen. fold (refused_outright requested). rewrite Hz.
    by destruct (stream_seen now s key) as [l|[]]. }
  pose proof (worked_on_kept now s key (DStream []) (changes s + 1) W Hc) as Hkept.
  destruct (stream_seen now s key) as [l|[]] eqn:Hl.
  2: { destruct (xadd_elsewhere clock _ _ _ fs _ W Hc Hz Hl) as (e & He & ->).
       rewrite He in Hkept. destruct (Hkept eq_refl) as [G El Qw Qw']. intros [= <- <- <-].
       split_and!; [done..|left]. cbn. by rewrite lookup_insert_eq. }
  rewrite (xadd_stream _ _ _ _ _ _ l) by done.
  destruct (chosen clock requested l) as [id|err] eqn:Hch; intros [= <- <- <-].
  2: { destruct (chosen_Err _ _ _ _ _ _ _ Hz Hl Hch) as [e He]. rewrite He in *.
       destruct (Hkept eq_refl) as [G El Qw Qw'].
       split_and!; [done..|left]. cbn. by rewrite lookup_insert_eq. }
  destruct (stream_seen_sorted now s key l W Hl) as [Hs Hall].
  destruct (chosen_ok clock requested l id Hclock Hreq Hs Hall Hch) as (Hid & Hpos & Hbelow).
  split_and!; [|intros k Hk; by apply drop_then_insert2|done|done|].
  - apply (Good_touch now key); [done|done|done| |].
    + intros k Hk. split; [by apply drop_then_insert2|done].
    + right. cbn [entries]. rewrite lookup_insert_eq. split; [|done]. apply fresh_new.
      cbn. split_and!; [by destruct l|by apply sorted_snoc|].
      apply Forall_app. split; [done|by constructor].
  - exists l. split_and!; [done..|]. cbn. apply lookup_insert_eq.
Qed.

(** What a read of several streams is to answer. *)
Definition read_one (now : Z) (s : State) (read : Bytes * EntryId) : result ReadStream WrongType_t :=
  try? l <- stream_seen now s read.1;
  Ok (read.1, List.filter (fun e => id_lt read.2 (entry_id e)) l).
Definition reads_seen (now : Z) (s : State) (reads : list (Bytes * EntryId))
  : result (list ReadStream) WrongType_t :=
  try? all <- collect_results (read_one now s) reads;
  Ok (List.filter (fun ks => negb (bool_decide (ks.2 = []))) all).

Lemma stream_seen_drop now s key k :
  stream_seen now (with_entries s (drop_if_expired now (entries s) key)) k = stream_seen now s k.
Proof. unfold stream_seen; cbn. by rewrite seen_drop. Qed.

Lemma reads_seen_drop now s key reads :
  reads_seen now (with_entries s (drop_if_expired now (entries s) key)) reads = reads_seen now s reads.
Proof.
  unfold reads_seen. f_equal. apply collect_results_ext. intros [k i].
  unfold read_one; cbn. by rewrite stream_seen_drop.
Qed.

Lemma read_streams_seen now reads s :
  Wf s ->
  let '(es, r) := read_streams now reads (entries s) in
  r = reads_seen now s reads
  /\ (forall k, seen now es k = seen now (entries s) k)
  /\ (forall k, es !! k = entries s !! k \/ es !! k = None).
Proof.
  revert s; induction reads as [|[key after] reads IH]; intros s W; cbn [read_streams].
  { split_and!; [done|done|by left]. }
  rewrite stream_at_seen. cbn.
  set (s1 := with_entries s (drop_if_expired now (entries s) key)).
  assert (W1 : Wf s1) by (by apply Good_drop_if_expired).
  specialize (IH s1 W1). unfold s1 in IH at 2. rewrite reads_seen_drop in IH.
  assert (Hseen : forall k, seen now (entries s1) k = seen now (entries s) k)
    by (intros; apply seen_drop).
  assert (Hlook : forall k, entries s1 !! k = entries s !! k \/ entries s1 !! k = None)
    by (intros; apply drop_if_expired_lookup).
  assert (Hs : forall l, stream_seen now s key = Ok l -> StronglySorted before l)
    by (intros l Hl; by apply (stream_seen_sorted now s key)).
  unfold reads_seen at 1. cbn. unfold read_one at 1; cbn.
  unfold stream_seen in Hs |- *.
  destruct (seen now (entries s) key) as [e|] eqn:Es.
  2: { subst s1; cbn in *. destruct (read_streams now reads _) as [es r].
       destruct IH as (-> & H1 & H2). split_and!.
       - unfold reads_seen. destruct (collect_results _ reads); cbn; by rewrite ?bool_decide_true.
       - intros k. by rewrite H1.
       - intros k. destruct (H2 k) as [-> |]; [apply Hlook|by right]. }
  destruct (data e) as [d|d|l|d] eqn:De; try (split_and!; [done|exact Hseen|exact Hlook]).
  subst s1; cbn in *. destruct (read_streams now reads _) as [es r].
  destruct IH as (-> & H1 & H2). split_and!.
  - unfold reads_seen. destruct (collect_results _ reads); cbn; [|done].
    rewrite <- (read_after l (Hs l eq_refl) after).
    set (n := partition_point _ l). f_equal.
    change (match length l with 0%nat => false | S m => (n <=? m)%nat end) with (n <? length l)%nat.
    destruct (Nat.ltb_spec n (length l)) as [Hn|Hn].
    + rewrite bool_decide_false; [done|]. intros E. apply (f_equal length) in E.
      rewrite length_drop in E. cbn in E. lia.
    + rewrite bool_decide_true; [done|]. by apply drop_ge.
  - intros k. by rewrite H1.
  - intros k. destruct (H2 k) as [-> |]; [apply Hlook|by right].
Qed.

Lemma xread_good now reads s : Wf s -> Good s (xread now reads s).1.
Proof.
  intros W. unfold xread. pose proof (read_streams_seen now reads s W) as H.
  destruct (read_streams now reads (entries s)) as [es r]. destruct H as (_ & _ & H).
  by apply Good_drop.
Qed.

Lemma xrange_good now key start stop s : Wf s -> Good s (xrange now key start stop s).1.
Proof. intros W. unfold xrange. rewrite stream_at_seen. by apply Good_drop_if_expired. Qed.

Lemma resolve_reads_in_lookup now reads es k :
  (resolve_reads_in now reads es).1 !! k = es !! k \/ (resolve_reads_in now reads es).1 !! k = None.
Proof.
  revert es; induction reads as [|[key [after|]] reads IH]; intros es; cbn; [by left| |].
  - specialize (IH es). destruct (resolve_reads_in now reads es) as [es' r]. exact IH.
  - assert (Hd : forall es', es' = drop_if_expired now es key ->
      es' !! k = es !! k \/ es' !! k = None) by (intros ? ->; apply drop_if_expired_lookup).
    destruct (match _ with None => Ok None | Some _ => _ end); cbn; [|by apply Hd].
    specialize (IH (drop_if_expired now es key)).
    destruct (resolve_reads_in now reads _) as [es' r]. cbn in *.
    destruct IH as [-> |]; [by apply Hd|by right].
Qed.

Lemma resolve_reads_good now reads s : Wf s -> Good s (resolve_reads now reads s).1.
Proof.
  intros W. unfold resolve_reads. pose proof (resolve_reads_in_lookup now reads (entries s)) as H.
  destruct (resolve_reads_in now reads (entries s)) as [es r]. by apply Good_drop.
Qed.

Lemma xread_or_watch_good held me now reads s :
  Wf s -> Good s (xread_or_watch held me now reads s).1.
Proof.
  intros W. unfold xread_or_watch. pose proof (read_streams_seen now reads s W) as H.
  destruct (read_streams now reads (entries s)) as [es r]. destruct H as (_ & _ & H).
  pose proof (Good_drop s es W H) as G.
  destruct r as [[|x l]|e]; [|exact G|exact G].
  destruct G as [[We Ww Wc] [Ec Ee]]. by split; split.
Qed.

Lemma xadd_good clock now key requested fs s :
  Wf s -> changes s < U64_MAX -> request_ok clock requested ->
  Good s (xadd clock now key requested fs s).1.1.
Proof.
  intros W Hc Hr. destruct (xadd clock now key requested fs s) as [[s' woken] r] eqn:E.
  by destruct (xadd_spec _ _ _ _ _ _ _ _ _ W Hc Hr E) as [G _].
Qed.

#[export] Hint Resolve xread_good xrange_good resolve_reads_good xread_or_watch_good xadd_good
  : server.

(** ** Watchers *)
Lemma retain_held_kept held others kept l w : w ∈ kept -> w ∈ retain_held held others kept l.
Proof.
  revert kept; induction l as [|v l IH]; intros kept Hk; cbn [retain_held]; [done|].
  apply IH. case_match; [|done]. apply elem_of_app. by left.
Qed.

Lemma retain_held_elem held others kept l w :
  held w = true -> w ∈ l -> w ∈ retain_held held others kept l.
Proof.
  intros Hw. revert kept; induction l as [|v l IH]; intros kept Hl;
    [by apply not_elem_of_nil in Hl|].
  cbn [retain_held]. apply elem_of_cons in Hl as [<-|Hl]; [|by apply IH].
  assert (listed w (w :: l) = S (listed w l)) as E by (unfold listed; cbn; by destruct (Nat.eq_dec w w)).
  rewrite Hw, E. match goal with |- context [Nat.ltb 1 ?n] => destruct (Nat.ltb_spec 1 n) end; [|lia].
  apply retain_held_kept, elem_of_app. right. apply list_elem_of_here.
Qed.

Lemma watch_keeps held me reads ws w key :
  held w = true -> w ∈ default [] (ws !! key) -> w ∈ default [] (watch held me reads ws !! key).
Proof.
  intros Hw. revert ws; induction reads as [|[k i] reads IH]; intros ws Hin; cbn; [done|].
  apply IH. destruct (decide (k = key)) as [->|]; [|by rewrite lookup_insert_ne].
  rewrite lookup_insert_eq; cbn. apply elem_of_app. left.
  apply retain_held_elem; [by rewrite Hw|done].
Qed.

Lemma watch_own_keeps held me reads ws key :
  me ∈ default [] (ws !! key) -> me ∈ default [] (watch held me reads ws !! key).
Proof.
  revert ws; induction reads as [|[k i] reads IH]; intros ws Hin; cbn; [done|].
  apply IH. destruct (decide (k = key)) as [->|]; [|by rewrite lookup_insert_ne].
  rewrite lookup_insert_eq; cbn. set_solver.
Qed.

Lemma watch_registers held me reads ws key after :
  (key, after) ∈ reads -> me ∈ default [] (watch held me reads ws !! key).
Proof.
  revert ws; induction reads as [|[k i] reads IH]; intros ws Hin; [by apply not_elem_of_nil in Hin|].
  cbn. apply elem_of_cons in Hin as [[= <- <-]|Hin]; [|by apply IH].
  apply watch_own_keeps. rewrite lookup_insert_eq; cbn. set_solver.
Qed.

(** ** What the operations promise *)

(** The ids a request leaves open: the one given, or those of the millisecond
    given, or of the later of the clock's and the last entry's. *)
Definition asked (clock : Z) (requested : RequestedId) (l : list StreamEntry) (id : EntryId) : Prop :=
  match requested with
  | Explicit i => id = i
  | AutoSequence ms => milliseconds id = ms
  | Auto => milliseconds id = match top_of l with
                              | Some top => Z.max clock (milliseconds top)
                              | None => clock
                              end
  end.

(** The ids a stream can take next. *)
Definition takes (l : list StreamEntry) (id : EntryId) : Prop :=
  id_ok id /\ id_lt ZERO id = true /\ Forall (fun e => id_lt (entry_id e) id = true) l.

Lemma resolve_asked clock requested l id :
  resolve clock requested (top_of l) = Ok id -> asked clock requested l id.
Proof. destruct requested; cbn; [congruence|intros (? & ? & [= <-])%rbind_Ok; done..]. Qed.

Lemma takes_top l id t : takes l id -> top_of l = Some t -> id_lt t id = true.
Proof.
  intros (_ & _ & Hf) Ht. unfold top_of in Ht. apply fmap_Some in Ht as (e & He & ->).
  apply last_Some in He as [l' ->]. apply Forall_app in Hf as [_ Hf].
  by apply Forall_cons in Hf as [Hf _].
Qed.

Lemma chosen_least clock requested l id :
  chosen clock requested l = Ok id ->
  forall id', asked clock requested l id' -> takes l id' -> id_le id id' = true.
Proof.
  unfold chosen. destruct (match requested with Explicit _ => _ | _ => _ end) eqn:Hz; [done|].
  intros (i & Hres & Htop)%rbind_Ok id' Ha Ht.
  assert (i = id) as -> by (revert Htop; repeat case_match; congruence).
  pose proof (fun t => takes_top l id' t Ht) as Hlast. destruct Ht as (Hok & Hpos & _).
  unfold id_ok in Hok. rewrite id_lt_spec in Hpos; cbn in Hpos. rewrite id_le_spec.
  unfold resolve, asked in *. destruct requested as [i|ms|]; [injection Hres as ->; subst; lia| |];
    apply rbind_Ok in Hres as (sq & Hsq & [= <-]); cbn [milliseconds sequence];
    (destruct (top_of l) as [t|]; [specialize (Hlast t eq_refl); rewrite id_lt_spec in Hlast|]);
    revert Hsq; repeat case_match; intros [= <-]; lia.
Qed.

Lemma chosen_refused clock requested l e :
  chosen clock requested l = Err e ->
  match e with
  | XaddWrongType => False
  | NotAboveZero => exists id, requested = Explicit id /\ id_le id ZERO = true
  | NotAboveTop => forall id', asked clock requested l id' -> ~ takes l id'
  end.
Proof.
  unfold chosen. destruct (match requested with Explicit _ => _ | _ => _ end) eqn:Hz.
  { intros [= <-]. destruct requested; [by eexists|done..]. }
  unfold resolve, asked. intros H.
  assert (e = NotAboveTop) as ->.
  { revert H. unfold rbind. repeat case_match; congruence. }
  intros id' Ha Ht. pose proof (fun t => takes_top l id' t Ht) as Hlast. destruct Ht as (Hok & _).
  unfold id_ok, U64_MAX in *.
  destruct requested as [i|ms|]; cbn in H;
    (destruct (top_of l) as [t|]; [specialize (Hlast t eq_refl)|cbn in H; done]).
  - subst i. unfold id_le in H. by rewrite Hlast in H.
  - rewrite id_lt_spec in Hlast. revert H. unfold id_le, id_lt, U64_MAX.
    cbn; repeat (case_match; cbn [rbind milliseconds sequence]); try done; lia.
  - rewrite id_lt_spec in Hlast. revert H. unfold id_le, id_lt, U64_MAX.
    cbn; repeat (case_match; cbn [rbind milliseconds sequence]); try done; lia.
Qed.

(** C24. [XADD] keeps a stream a log: an entry it takes goes to the end, under
    the least id that was asked for and beats both [0-0] and every id already
    there, and everyone watching the key is woken, once; a refusal means that no
    such id is left (or that the key holds another type, or that [0-0] itself
    was asked for), and leaves what clients see as it was. *)
Theorem xadd_appends clock now key requested fs s s' woken r :
  Wf s -> changes s < U64_MAX -> request_ok clock requested ->
  xadd clock now key requested fs s = (s', woken, r) ->
  elsewhere key s s'
  /\ match r with
     | Ok id =>
         exists l, stream_seen now s key = Ok l
         /\ (forall now', stream_seen now' s' key = Ok (l ++ [{| entry_id := id; fields := fs |}]))
         /\ takes l id /\ asked clock requested l id
         /\ (forall id', asked clock requested l id' -> takes l id' -> id_le id id' = true)
         /\ woken = watchers_at s key /\ watchers_at s' key = []
     | Err e =>
         woken = [] /\ (forall now', now <= now' ->
                          seen now' (entries s') key = seen now' (entries s) key)
         /\ match e with
            | XaddWrongType => stream_seen now s key = Err WrongType
            | NotAboveZero => exists id, requested = Explicit id /\ id_le id ZERO = true
            | NotAboveTop => exists l, stream_seen now s key = Ok l
                             /\ forall id', asked clock requested l id' -> ~ takes l id'
            end
     end.
Proof.
  intros W Hc Hr E. destruct (xadd_spec _ _ _ _ _ _ _ _ _ W Hc Hr E) as (_ & El & _ & Hres & H).
  split; [done|]. destruct r as [id|e].
  - destruct H as (l & Hl & -> & Hw & Hk). exists l. rewrite Hl in Hres. symmetry in Hres.
    destruct (stream_seen_sorted now s key l W Hl) as [Hs Hall].
    destruct (chosen_ok _ _ _ _ (proj1 Hr) (proj2 Hr) Hs Hall Hres) as (? & ? & ?).
    split_and!; [done| |done| |by eapply chosen_least|done|].
    + intros now'. unfold stream_seen, seen. by rewrite Hk.
    + revert Hres. unfold chosen. case_match; [done|]. intros (i & Hi & Htop)%rbind_Ok.
      apply resolve_asked in Hi. revert Htop. repeat case_match; congruence.
    + unfold watchers_at. by rewrite Hw, lookup_delete_eq.
  - destruct H as (-> & Hw & Hk). split_and!; [done| |].
    + intros now' Hle. destruct Hk as [Hk| ->]; [|done]. rewrite <- (seen_later now now' (entries s) key) by done.
      unfold seen. by rewrite Hk, drop_if_expired_seen.
    + destruct (stream_seen now s key) as [l|[]] eqn:Hl.
      * symmetry in Hres. pose proof (chosen_refused _ _ _ _ Hres). destruct e; [done..|by exists l].
      * injection Hres as ->. destruct requested as [i| |]; [|done..].
        destruct (id_le i ZERO) eqn:Ez; [by exists i|done].
Qed.

(** Two entries of one millisecond, and one asked for by its millisecond. *)
Definition logged : State :=
  {| entries := {[ lit "s" := {| data := DStream
       [{| entry_id := {| milliseconds := 5; sequence := 3 |}; fields := [] |};
        {| entry_id := {| milliseconds := 7; sequence := 0 |}; fields := [] |}];
       expires_at := None; version := 1 |} ]};
     waiters := ∅; watchers := {[ lit "s" := [4; 6]%nat ]}; changes := 1 |}.
Lemma Wf_logged : Wf logged.
Proof.
  split; cbn; [| |unfold U64_MAX; lia].
  - intros k e [<- <-]%lookup_singleton_Some. split_and!; [|done|done|by intros [? [=]]].
    cbn. split_and!; [done| |].
    + repeat constructor.
    + repeat constructor; vm_compute; congruence.
  - intros k e _ _. apply lookup_empty.
Qed.

Lemma xadd_appends_witness :
  let '(s', woken, r) := xadd 9 0 (lit "s") (AutoSequence 7) [] logged in
  r = Ok {| milliseconds := 7; sequence := 1 |} /\ woken = [4; 6]%nat /\ elsewhere (lit "s") logged s'.
Proof.
  destruct (xadd 9 0 (lit "s") (AutoSequence 7) [] logged) as [[s' woken] r] eqn:E.
  assert (request_ok 9 (AutoSequence 7)) as Hr by (unfold request_ok, U64_MAX; lia).
  pose proof (xadd_appends 9 0 (lit "s") (AutoSequence 7) [] logged s' woken r Wf_logged eq_refl
    Hr E) as [H _].
  split_and!; [| |exact H]; vm_compute in E; injection E as _ <- <-; reflexivity.
Defined.

Lemma xrange_answer now key start stop s l :
  Wf s -> stream_seen now s key = Ok l ->
  snd (xrange now key start stop s)
  = if existsb (fun e => id_lt stop (entry_id e) && id_lt (entry_id e) start) l
    then Panic
    else Done (Ok (List.filter (fun e => id_le start (entry_id e) && id_le (entry_id e) stop) l)).
Proof.
  intros W Hl. destruct (stream_seen_sorted now s key l W Hl) as [Hs _].
  unfold xrange. rewrite stream_at_seen. unfold stream_seen in Hl. cbn [snd].
  destruct (seen now (entries s) key) as [e|]; [|by injection Hl as <-].
  destruct (data e); try done. injection Hl as ->.
  pose proof (range_slice l Hs start stop) as H. cbn zeta in H. unfold slice.
  destruct (existsb _ l).
  - destruct (Nat.leb_spec (partition_point (fun e => id_lt (entry_id e) start) l)
      (partition_point (fun e => id_le (entry_id e) stop) l)); [lia|done].
  - destruct H as [H ->]. by apply Nat.leb_le in H as ->.
Qed.

(** C25. [XRANGE] answers with the entries whose ids lie between the bounds,
    both included, in order; the two binary searches find no more and no less.
    That is so of bounds given the right way round.  Given the wrong way round
    they answer with nothing, unless an entry lies strictly between them: then
    the slice is asked for backwards, and the call panics. *)
Theorem xrange_filters now key start stop s l :
  Wf s -> stream_seen now s key = Ok l ->
  snd (xrange now key start stop s)
  = if existsb (fun e => id_lt stop (entry_id e) && id_lt (entry_id e) start) l
    then Panic
    else Done (Ok (List.filter (fun e => id_le start (entry_id e) && id_le (entry_id e) stop) l)).
Proof. apply xrange_answer. Qed.

(** A range that is there, and one asked for backwards across an entry. *)
Lemma xrange_filters_witness :
  snd (xrange 0 (lit "s") ZERO MAX logged)
  = Done (Ok [{| entry_id := {| milliseconds := 5; sequence := 3 |}; fields := [] |};
              {| entry_id := {| milliseconds := 7; sequence := 0 |}; fields := [] |}])
  /\ snd (xrange 0 (lit "s") {| milliseconds := 6; sequence := 0 |}
            {| milliseconds := 5; sequence := 0 |} logged) = Panic.
Proof.
  split; exact (xrange_filters 0 (lit "s") _ _ logged _ Wf_logged eq_refl).
Defined.

(** C26. A blocking [XREAD] cannot miss an entry: one that comes back empty has
    found nothing past the ids it was given, and from then on, however many
    others come to wait, the next [XADD] to any of its keys wakes it, and
    reading again finds the new entry. *)
Theorem xread_woken held me now now' clock reads others key after requested fs s s1 s2 s3 woken id :
  Wf s -> changes s < U64_MAX -> request_ok clock requested -> held me = true ->
  xread_or_watch held me now reads s = (s1, Ok (StreamsWaiting me)) ->
  s2 = fold_left (fun s '(other, rs) => (xread_or_watch held other now rs s).1) others s1 ->
  (key, after) ∈ reads -> id_lt after id = true ->
  xadd clock now' key requested fs s2 = (s3, woken, Ok id) ->
  Forall (fun '(k, i) => exists l, stream_seen now s k = Ok l
            /\ Forall (fun e => id_le (entry_id e) i = true) l) reads
  /\ me ∈ woken
  /\ exists streams l, snd (xread now' [(key, after)] s3) = Ok streams /\ (key, l) ∈ streams
     /\ {| entry_id := id; fields := fs |} ∈ l.
Proof.
  intros W Hc Hr Hheld Hw Hs2 Hin Hafter Hadd.
  pose proof (read_streams_seen now reads s W) as Hread.
  pose proof (xread_or_watch_good held me now reads s W) as G. rewrite Hw in G. cbn in G.
  unfold xread_or_watch in Hw. destruct (read_streams now reads (entries s)) as [es r].
  destruct Hread as (-> & _ & _).
  destruct (reads_seen now s reads) as [[|x l]|] eqn:Er; [|done|done]. injection Hw as <-.
  set (s1 := {| entries := es |}) in *.
  assert (Hreg : me ∈ watchers_at s1 key) by (by eapply watch_registers).
  assert (H2 : Wf s2 /\ changes s2 = changes s /\ me ∈ watchers_at s2 key).
  { assert (changes s1 = changes s) as Hc1 by done.
    pose proof (good_wf _ _ G) as W1. clearbody s1. clear G Hadd Er.
    revert s1 W1 Hc1 Hreg Hs2. induction others as [|[other rs] others IH]; intros s1 W1 Hc1 Hreg Hs2;
      [by subst s2|].
    cbn in Hs2. apply (IH _ (good_wf _ _ (xread_or_watch_good held other now rs s1 W1))) in Hs2;
      [done| |]; unfold xread_or_watch;
      destruct (read_streams now rs (entries s1)) as [es1 [[|y l1]|]]; try done.
    by apply watch_keeps. }
  destruct H2 as (W2 & Hc2 & Hreg2).
  assert (changes s2 < U64_MAX) as Hc2' by lia.
  destruct (xadd_spec _ _ _ _ _ _ _ _ _ W2 Hc2' Hr Hadd) as (G3 & _ & _ & _ & (l & Hl & -> & _ & Hk)).
  split_and!; [|done|].
  - unfold reads_seen in Er. apply rbind_Ok in Er as (all & Hall & [= Hnil]).
    apply collect_results_Ok in Hall. clear -Hall Hnil.
    induction Hall as [|[k i] ks reads all Ha _ IH]; [constructor|].
    unfold read_one in Ha; cbn in Ha. apply rbind_Ok in Ha as (l & Hl & [= <-]).
    cbn in Hnil. case_bool_decide as Hf; [|done]. constructor; [|by apply IH].
    exists l. split; [done|]. apply Forall_forall. intros e He. unfold id_le.
    destruct (id_lt i (entry_id e)) eqn:E; [|done]. exfalso.
    assert (In e (List.filter (fun e => id_lt i (entry_id e)) l)) as H
      by (apply List.filter_In; split; [by apply list_elem_of_In|done]).
    by rewrite Hf in H.
  - pose proof (read_streams_seen now' [(key, after)] s3 (good_wf _ _ G3)) as H.
    unfold xread. destruct (read_streams now' [(key, after)] (entries s3)) as [es3 r3].
    destruct H as (-> & _ & _). unfold reads_seen, read_one; cbn.
    assert (stream_seen now' s3 key = Ok (l ++ [{| entry_id := id; fields := fs |}])) as ->
      by (unfold stream_seen, seen; by rewrite Hk).
    cbn. rewrite List.filter_app; cbn. rewrite Hafter.
    rewrite bool_decide_false by (by intros [_ ?]%app_nil). cbn.
    eexists _, _. split_and!; [done|by left|]. apply elem_of_app. right. apply list_elem_of_here.
Qed.

Lemma xread_woken_witness :
  let reads := [(lit "s", {| milliseconds := 7; sequence := 0 |}); (lit "t", ZERO)] in
  let s1 := (xread_or_watch (fun _ => true) 8 0 reads logged).1 in
  let '(s3, woken, r) := xadd 9 1 (lit "t") Auto [] s1 in
  r = Ok {| milliseconds := 9; sequence := 0 |} /\ 8%nat ∈ woken.
Proof.
  set (reads := [(lit "s", {| milliseconds := 7; sequence := 0 |}); (lit "t", ZERO)]).
  cbv zeta. set (s1 := (xread_or_watch (fun _ => true) 8 0 reads logged).1).
  destruct (xadd 9 1 (lit "t") Auto [] s1) as [[s3 woken] r] eqn:E.
  assert (r = Ok {| milliseconds := 9; sequence := 0 |}) as ->
    by (vm_compute in E; by injection E).
  split; [done|].
  refine (proj1 (proj2 (xread_woken (fun _ => true) 8 0 1 9 reads [] (lit "t") ZERO Auto []
    logged s1 s1 s3 woken _ Wf_logged eq_refl _ eq_refl _ eq_refl _ _ E))).
  - unfold request_ok, U64_MAX; lia.
  - reflexivity.
  - right. left.
  - reflexivity.
Defined.

(** A watcher on two keys whose client has gone is held by the map twice over: the
    next client to wait on one of them does not clear it away.  On one key only, it
    does. *)
Lemma abandoned_watcher_lingers :
  let reads := [(lit "a", ZERO); (lit "b", ZERO)] in
  let s1 := (xread_or_watch (fun _ => true) 1%nat 0 reads empty_state).1 in
  let s2 := (xread_or_watch (fun _ => false) 2%nat 5 [(lit "a", ZERO)] s1).1 in
  watchers_at s2 (lit "a") = [1; 2]%nat
  /\ watchers_at (xread_or_watch (fun _ => false) 2%nat 5 [(lit "a", ZERO)]
       (xread_or_watch (fun _ => true) 1%nat 0 [(lit "a", ZERO)] empty_state).1).1 (lit "a") = [2]%nat.
Proof. vm_compute. split; reflexivity. Qed.
