(* ===== verification/StoreSortedSets.v ===== *)
(** * Sorted sets: src/src/store/sorted_sets.rs

    The set itself ([SortedSet], a list of members in order) and [ZADD],
    [ZRANK], [ZREM], [ZSCORE], [ZCARD], [ZRANGE] and the listing the geographic
    commands search through, on the store. *)
From S2P Require Import Prelude Text F64 Store StoreLists.
Open Scope Z_scope.

(** ** The set *)

(** [SortedSet::at]. *)
Fixpoint at_ (nm : Bytes) (set : list Member) : option nat :=
  match set with
  | [] => None
  | m :: set => if name m =b? nm then Some 0%nat else S <$> at_ nm set
  end.

(** [SortedSet::take]. *)
Definition take_ (nm : Bytes) (set : list Member) : list Member * bool :=
  match at_ nm set with
  | Some i => (delete i set, true)
  | None => (set, false)
  end.

(** [Vec::insert], within its bounds. *)
Definition insert_at {A} (i : nat) (x : A) (l : list A) : list A := take i l ++ x :: drop i l.

(** [SortedSet::add]. *)
Definition add (sc : f64) (nm : Bytes) (set : list Member) : list Member * bool :=
  let '(set, known) := take_ nm set in
  let member := {| score := sc; name := nm |} in
  let i := partition_point (fun other => precedes other member) set in
  (insert_at i member set, negb known).

(** [SortedSet::score]. *)
Definition score_of (nm : Bytes) (set : list Member) : option f64 :=
  score <$> List.find (fun m => name m =b? nm) set.

(** ** The operations *)

(** The loops of [Store::zadd] and [Store::zrem]. *)
Fixpoint add_all (members : list (f64 * Bytes)) (set : list Member) (added : Z)
  : list Member * Z :=
  match members with
  | [] => (set, added)
  | (sc, nm) :: members =>
      let '(set, new) := add sc nm set in
      add_all members set (if new then added + 1 else added)
  end.
Fixpoint take_all (names : list Bytes) (set : list Member) (removed : Z) : list Member * Z :=
  match names with
  | [] => (set, removed)
  | nm :: names =>
      let '(set, was) := take_ nm set in
      take_all names set (if was then removed + 1 else removed)
  end.

(** [Store::zadd]. *)
Definition zadd (now : Z) (key : Bytes) (members : list (f64 * Bytes)) (s : State)
  : State * result Z WrongType_t :=
  let es := drop_if_expired now (entries s) key in
  let '(s, v) := next_version (with_entries s es) in
  let e := default (new_entry (DSortedSet []) v) (es !! key) in
  match data e with
  | DSortedSet set =>
      let '(set, added) := add_all members set 0 in
      (with_entries s (<[key := with_data e (DSortedSet set) v]> es), Ok added)
  | _ => (with_entries s (<[key := e]> es), Err WrongType)
  end.

(** What the questions below are asked of. *)
Definition set_at (now : Z) (es : Entries) (key : Bytes)
  : Entries * result (option (list Member)) WrongType_t :=
  let es := drop_if_expired now es key in
  (es, match es !! key with
       | None => Ok None
       | Some e => match data e with DSortedSet set => Ok (Some set) | _ => Err WrongType end
       end).

(** A question put to the set at [key], and what it is answered when there is
    none. *)
Definition ask {A} (none : A) (question : list Member -> A) (now : Z) (key : Bytes) (s : State)
  : State * result A WrongType_t :=
  let '(es, r) := set_at now (entries s) key in
  (with_entries s es,
   try? found <- r; Ok (match found with None => none | Some set => question set end)).

(** [Store::zrank]. *)
Definition zrank (now : Z) (key member : Bytes) (s : State) : State * result (option nat) WrongType_t :=
  ask None (at_ member) now key s.

(** [Store::zrem]. *)
Definition zrem (now : Z) (key : Bytes) (members : list Bytes) (s : State)
  : State * result Z WrongType_t :=
  let es := drop_if_expired now (entries s) key in
  let '(s, v) := next_version (with_entries s es) in
  match es !! key with
  | None => (s, Ok 0)
  | Some e =>
      match data e with
      | DSortedSet set =>
          let '(set, removed) := take_all members set 0 in
          let es := <[key := if 0 <? removed then with_data e (DSortedSet set) v
                             else with_data e (DSortedSet set) (version e)]> es in
          (with_entries s (if bool_decide (set = []) then delete key es else es), Ok removed)
      | _ => (s, Err WrongType)
      end
  end.

(** [Store::zmembers]. *)
Definition zmembers (now : Z) (key : Bytes) (s : State)
  : State * result (list (Bytes * f64)) WrongType_t :=
  ask [] (map (fun m => (name m, score m))) now key s.

(** [Store::zscore]. *)
Definition zscore (now : Z) (key member : Bytes) (s : State)
  : State * result (option f64) WrongType_t :=
  ask None (score_of member) now key s.

(** [Store::zcard]. *)
Definition zcard (now : Z) (key : Bytes) (s : State) : State * result Z WrongType_t :=
  ask 0 len now key s.

(** [Store::zrange]. *)
Definition zrange (now : Z) (key : Bytes) (start stop : Z) (s : State)
  : State * result (list Bytes) WrongType_t :=
  ask [] (fun set => map name (window start stop set)) now key s.

(** ** The order of members *)
Abbreviation comes_before := (fun a b : Member => precedes a b = true).
Definition numbered (m : Member) : Prop := is_nan (score m) = false.

Lemma precedes_spec a b :
  numbered a -> numbered b ->
  precedes a b = true <->
  compare_keys (order_key (score a)) (order_key (score b)) = Lt
  \/ order_key (score a) = order_key (score b) /\ bytes_lt (name a) (name b) = true.
Proof.
  intros Ha Hb. unfold precedes. rewrite compare_key by done.
  destruct (compare_keys _ _) eqn:E; [|naive_solver|].
  - apply compare_keys_eq in E. rewrite E. naive_solver.
  - split; [done|]. intros [?|[E' _]]; [done|]. rewrite E', compare_keys_refl in E. done.
Qed.

Lemma precedes_trans a b c :
  numbered a -> numbered b -> numbered c ->
  precedes a b = true -> precedes b c = true -> precedes a c = true.
Proof.
  intros Ha Hb Hc. rewrite !precedes_spec by done. intros [H1|[E1 H1]] [H2|[E2 H2]].
  - left. by eapply compare_keys_trans.
  - left. by rewrite <- E2.
  - left. by rewrite E1.
  - right. split; [congruence|]. by eapply bytes_lt_trans.
Qed.

Lemma precedes_total a b :
  numbered a -> numbered b -> name a <> name b -> precedes a b = false -> precedes b a = true.
Proof.
  intros Ha Hb Hn. rewrite <- not_true_iff_false, !precedes_spec by done. intros H.
  rewrite compare_keys_antisym. destruct (compare_keys _ _) eqn:E; cbn; [|tauto|by left].
  apply compare_keys_eq in E. right. split; [done|].
  destruct (bytes_lt (name b) (name a)) eqn:E1; [done|].
  destruct (bytes_lt (name a) (name b)) eqn:E2; [tauto|]. by destruct Hn; apply bytes_lt_total.
Qed.

Lemma precedes_irrefl a : numbered a -> precedes a a = false.
Proof.
  intros Ha. apply not_true_iff_false. rewrite precedes_spec by done.
  rewrite compare_keys_refl, bytes_lt_irrefl. naive_solver.
Qed.

(** A set in order: what [data_ok] asks of one, short of not being empty. *)
Record Ordered (set : list Member) : Prop := {
  ordered_sorted : StronglySorted comes_before set;
  ordered_names : NoDup (map name set);
  ordered_numbered : Forall numbered set;
}.

(** ** The contract of a sorted set: a finite map from names to scores *)
Definition scores (set : list Member) : gmap Bytes f64 :=
  list_to_map (map (fun m => (name m, score m)) set).

Lemma scores_lookup set nm sc :
  NoDup (map name set) -> scores set !! nm = Some sc <-> {| score := sc; name := nm |} ∈ set.
Proof.
  intros Hn. unfold scores. rewrite <- elem_of_list_to_map.
  - rewrite list_elem_of_In, in_map_iff, list_elem_of_In. split.
    + by intros ([s n] & [= <- <-] & H).
    + intros H. by exists {| score := sc; name := nm |}.
  - by rewrite map_map.
Qed.

Lemma scores_None set nm : scores set !! nm = None <-> nm ∉ map name set.
Proof.
  unfold scores. rewrite <- not_elem_of_list_to_map. by rewrite map_map.
Qed.

Lemma score_of_scores nm set : score_of nm set = scores set !! nm.
Proof.
  unfold score_of, scores. induction set as [|m set IH]; cbn; [done|]. beq_cases.
  - subst nm. by rewrite lookup_insert_eq.
  - by rewrite lookup_insert_ne.
Qed.

Lemma names_filter p set : NoDup (map name set) -> NoDup (map name (List.filter p set)).
Proof.
  induction set as [|m set IH]; cbn; [done|]. intros [Hm Hn]%NoDup_cons.
  destruct (p m); cbn; [|by apply IH]. apply NoDup_cons. split; [|by apply IH].
  intros H. apply Hm. rewrite list_elem_of_In, in_map_iff in H |- *.
  destruct H as (x & ? & ?%List.filter_In). exists x. tauto.
Qed.

Lemma Ordered_filter p set : Ordered set -> Ordered (List.filter p set).
Proof.
  intros [Hs Hn Hf]. split; [by apply StronglySorted_filter|by apply names_filter|].
  apply Forall_forall. intros m Hm. apply list_elem_of_In, List.filter_In in Hm as [Hm _].
  rewrite Forall_forall in Hf. apply Hf. by apply list_elem_of_In.
Qed.

Lemma at_None nm set : at_ nm set = None <-> nm ∉ map name set.
Proof.
  induction set as [|m set IH]; cbn; [split; [intros _; apply not_elem_of_nil|done]|].
  rewrite not_elem_of_cons, <- IH. beq_cases; [split; [done|naive_solver]|].
  destruct (at_ nm set); cbn; naive_solver.
Qed.

Lemma filter_other nm set :
  nm ∉ map name set -> List.filter (fun m => negb (name m =b? nm)) set = set.
Proof.
  induction set as [|m set IH]; cbn; [done|]. intros [Hm Hn]%not_elem_of_cons.
  assert ((name m =b? nm) = false) as -> by (apply beq_false; congruence).
  cbn. f_equal. by apply IH.
Qed.

(** Lifting a member out by name leaves the others, in order. *)
Lemma take_filter nm set :
  NoDup (map name set) ->
  take_ nm set = (List.filter (fun m => negb (name m =b? nm)) set,
                  bool_decide (nm ∈ map name set)).
Proof.
  intros Hn. unfold take_. destruct (at_ nm set) as [i|] eqn:E.
  - f_equal.
    + revert i E; induction set as [|m set IH]; intros i; cbn; [done|].
      apply NoDup_cons in Hn as [Hm Hn]. beq_cases.
      * intros [= <-]. cbn. symmetry. apply filter_other. by rewrite <- Hbeq.
      * destruct (at_ nm set) as [j|]; [|done]. intros [= <-]. cbn. f_equal. by apply IH.
    + symmetry. apply bool_decide_eq_true. destruct (decide (nm ∈ map name set)); [done|].
      by apply at_None in n; rewrite n in E.
  - apply at_None in E. rewrite bool_decide_eq_false_2 by done. by rewrite filter_other.
Qed.

Lemma scores_take nm set :
  NoDup (map name set) ->
  scores (List.filter (fun m => negb (name m =b? nm)) set) = delete nm (scores set).
Proof.
  intros Hn. apply map_eq. intros k. apply option_eq. intros sc.
  rewrite scores_lookup by (by apply names_filter).
  rewrite lookup_delete_Some, scores_lookup by done.
  rewrite !list_elem_of_In, List.filter_In. cbn. rewrite negb_true_iff, beq_false.
  naive_solver.
Qed.

Lemma StronglySorted_join {A} (R : relation A) l k :
  StronglySorted R l -> StronglySorted R k -> (forall a b, a ∈ l -> b ∈ k -> R a b) ->
  StronglySorted R (l ++ k).
Proof.
  induction 1 as [|a l Hs IH Ha]; intros Hk Hlk; cbn; [done|].
  constructor; [apply IH; [done|]; intros; apply Hlk; [by right|done]|].
  apply Forall_app. split; [done|]. apply Forall_forall. intros b Hb. by apply Hlk; [left|].
Qed.

(** The order, kept to members with a score. *)
Definition ordered_pair (a b : Member) : Prop :=
  precedes a b = true /\ numbered a /\ numbered b.

Lemma Ordered_pairs set : Ordered set -> StronglySorted ordered_pair set.
Proof.
  intros [Hs _ Hf]. induction Hs as [|a l Hs IH Ha]; [constructor|].
  apply Forall_cons in Hf as [Hfa Hf]. constructor; [by apply IH|].
  rewrite Forall_forall in Ha, Hf. apply Forall_forall. intros b Hb. by repeat split; auto.
Qed.

Lemma ordered_down x a b :
  numbered x -> ordered_pair a b -> precedes b x = true -> precedes a x = true.
Proof. intros Hx (Hab & Ha & Hb) H. by apply (precedes_trans a b x). Qed.

(** Where a member is put: after those that come before it, before the rest. *)
Lemma insert_at_split x set :
  Ordered set -> numbered x ->
  insert_at (partition_point (fun other => precedes other x) set) x set
  = List.filter (fun m => precedes m x) set ++ x :: List.filter (fun m => negb (precedes m x)) set.
Proof.
  intros Ho Hx. pose proof (Ordered_pairs set Ho) as Hs. unfold insert_at.
  rewrite (partition_take ordered_pair), (partition_drop ordered_pair); try done;
    intros a b; by apply ordered_down.
Qed.

Lemma Ordered_insert x set :
  Ordered set -> numbered x -> name x ∉ map name set ->
  Ordered (List.filter (fun m => precedes m x) set
           ++ x :: List.filter (fun m => negb (precedes m x)) set).
Proof.
  intros Ho Hx Hnew. pose proof Ho as [Hs Hn Hf].
  assert (Hin : forall p m, m ∈ List.filter p set -> m ∈ set /\ p m = true).
  { intros p m. rewrite !list_elem_of_In. apply List.filter_In. }
  rewrite Forall_forall in Hf.
  assert (Hafter : forall m, m ∈ List.filter (fun m => negb (precedes m x)) set ->
            precedes x m = true).
  { intros m [Hm Hp]%Hin. apply precedes_total; [by apply Hf|done| |by apply negb_true_iff].
    intros E. apply Hnew. rewrite <- E. apply list_elem_of_In, in_map, list_elem_of_In. done. }
  split.
  - apply StronglySorted_join; [by apply StronglySorted_filter| |].
    + constructor; [by apply StronglySorted_filter|]. apply Forall_forall. exact Hafter.
    + intros a b [Ha Hp]%Hin [->|Hb]%elem_of_cons; [done|].
      pose proof (Hafter b Hb) as H. apply Hin in Hb as [Hb _].
      apply (precedes_trans a x b); auto.
  - rewrite map_app, map_cons. apply NoDup_Permutation_proper with (map name (x :: set)).
    + rewrite <- map_cons, <- map_app. apply Permutation_map.
      rewrite <- Permutation_middle. apply Permutation_cons; [done|].
      rewrite (sorted_split ordered_pair (fun m => precedes m x)) with (l := set) at 3.
      * done.
      * intros a b; by apply ordered_down.
      * by apply Ordered_pairs.
    + cbn. by apply NoDup_cons.
  - apply Forall_app. split; [|constructor; [done|]]; apply Forall_forall;
      intros m [Hm _]%Hin; by apply Hf.
Qed.

Lemma insert_elem x y set :
  y ∈ List.filter (fun m => precedes m x) set ++ x :: List.filter (fun m => negb (precedes m x)) set
  <-> y = x \/ y ∈ set.
Proof.
  rewrite elem_of_app, elem_of_cons, !list_elem_of_In, !List.filter_In.
  destruct (precedes y x); cbn; naive_solver.
Qed.

(** Adding a member does what inserting into the map does. *)
Lemma add_spec sc nm set :
  Ordered set -> is_nan sc = false ->
  let '(set', new) := add sc nm set in
  Ordered set' /\ set' <> [] /\ scores set' = <[nm := sc]> (scores set)
  /\ new = bool_decide (scores set !! nm = None).
Proof.
  intros Ho Hsc. unfold add. rewrite take_filter by apply Ho.
  set (others := List.filter (fun m => negb (name m =b? nm)) set).
  set (x := {| score := sc; name := nm |}).
  assert (Hoo : Ordered others) by by apply Ordered_filter.
  assert (Hnew : name x ∉ map name others).
  { subst others. cbn. rewrite list_elem_of_In, in_map_iff.
    intros (m & E & [_ H]%List.filter_In). rewrite E, beq_refl in H. done. }
  rewrite insert_at_split by done.
  pose proof (Ordered_insert x others Hoo Hsc Hnew) as Hi. split_and!; [done| | |].
  - by intros [_ [=]]%app_nil.
  - apply map_eq. intros k. apply option_eq. intros sc'.
    rewrite scores_lookup by apply Hi. rewrite insert_elem, lookup_insert_Some.
    rewrite <- scores_lookup by apply Hoo. subst others.
    rewrite scores_take, lookup_delete_Some by apply Ho. subst x. naive_solver.
  - rewrite <- bool_decide_not. apply bool_decide_ext. by rewrite scores_None.
Qed.

(** Taking a member out does what deleting from the map does. *)
Lemma take_spec nm set :
  Ordered set ->
  let '(set', was) := take_ nm set in
  Ordered set' /\ scores set' = delete nm (scores set)
  /\ was = bool_decide (is_Some (scores set !! nm)).
Proof.
  intros Ho. rewrite take_filter by apply Ho. split_and!.
  - by apply Ordered_filter.
  - apply scores_take, Ho.
  - apply bool_decide_ext. rewrite <- not_eq_None_Some, scores_None.
    destruct (decide (nm ∈ map name set)); tauto.
Qed.

Definition insert_all (members : list (f64 * Bytes)) (m : gmap Bytes f64) : gmap Bytes f64 :=
  fold_left (fun m '(sc, nm) => <[nm := sc]> m) members m.
Definition delete_all (names : list Bytes) (m : gmap Bytes f64) : gmap Bytes f64 :=
  fold_left (fun m nm => delete nm m) names m.

Lemma add_all_spec members set added :
  Ordered set -> Forall (fun m => is_nan m.1 = false) members ->
  let '(set', n) := add_all members set added in
  Ordered set' /\ (members <> [] \/ set <> [] -> set' <> [])
  /\ scores set' = insert_all members (scores set)
  /\ n = added + Z.of_nat (size (scores set')) - Z.of_nat (size (scores set)).
Proof.
  revert set added; induction members as [|[sc nm] members IH]; intros set added Ho Hf; cbn.
  { split_and!; [done|naive_solver|done|lia]. }
  apply Forall_cons in Hf as [Hsc Hf]. pose proof (add_spec sc nm set Ho Hsc) as H.
  destruct (add sc nm set) as [set1 new]. destruct H as (Ho1 & Hne & Hs1 & Hnew).
  specialize (IH set1 (if new then added + 1 else added) Ho1 Hf).
  destruct (add_all members set1 _) as [set' n]. destruct IH as (Ho' & Hne' & Hs' & Hn').
  split_and!; [done|auto|by rewrite Hs', Hs1|]. rewrite Hn', Hs1, map_size_insert, Hnew.
  destruct (scores set !! nm); [rewrite bool_decide_false by done|
    rewrite bool_decide_true by done]; cbn [id]; lia.
Qed.

Lemma take_all_spec names set removed :
  Ordered set ->
  let '(set', n) := take_all names set removed in
  Ordered set' /\ scores set' = delete_all names (scores set)
  /\ n = removed + Z.of_nat (size (scores set)) - Z.of_nat (size (scores set'))
  /\ (n = removed -> set' = set) /\ removed <= n.
Proof.
  revert set removed; induction names as [|nm names IH]; intros set removed Ho; cbn.
  { split_and!; [done|done|lia|done|lia]. }
  pose proof (take_spec nm set Ho) as H.
  pose proof (take_filter nm set (ordered_names _ Ho)) as Hf.
  destruct (take_ nm set) as [set1 was]. destruct H as (Ho1 & Hs1 & Hwas).
  specialize (IH set1 (if was then removed + 1 else removed) Ho1).
  destruct (take_all names set1 _) as [set' n]. destruct IH as (Ho' & Hs' & Hn' & Heq & Hle).
  rewrite <- Hs1. split_and!; [done|done| | |destruct was; lia].
  - rewrite Hn', Hs1, map_size_delete, Hwas. destruct (scores set !! nm) eqn:E.
    + rewrite bool_decide_true by done.
      assert (size (scores set) <> 0%nat) by (intros Hz; apply map_size_empty_inv in Hz;
        rewrite Hz, lookup_empty in E; done). lia.
    + rewrite bool_decide_false by (by intros [? [=]]). cbn [id]; lia.
  - intros ->. destruct was; [lia|]. rewrite Heq by done. injection Hf as -> Hf.
    apply filter_other. symmetry in Hf. by apply bool_decide_eq_false in Hf.
Qed.

(** ** Each operation in terms of what a client sees *)

(** The set a client sees at a key. *)
Definition set_seen (now : Z) (s : State) (key : Bytes) : result (list Member) WrongType_t :=
  match seen now (entries s) key with
  | None => Ok []
  | Some e => match data e with DSortedSet set => Ok set | _ => Err WrongType end
  end.

Lemma set_seen_ordered now s key set :
  Wf s -> set_seen now s key = Ok set -> Ordered set.
Proof.
  intros [We _ _]. unfold set_seen. destruct (seen now (entries s) key) as [e|] eqn:Es;
    [|intros [= <-]; repeat constructor].
  apply seen_Some in Es as [Hk _]. destruct (We _ _ Hk) as (Hok & _).
  destruct (data e); try done. intros [= <-]. cbn in Hok. split; tauto.
Qed.

Lemma seen_set now s key e set :
  Wf s -> seen now (entries s) key = Some e -> data e = DSortedSet set ->
  e = {| data := DSortedSet set; expires_at := None; version := version e |} /\ set <> [].
Proof.
  intros [We _ _] Hs Hd. apply seen_Some in Hs as [Hk _].
  destruct (We _ _ Hk) as (Hok & _ & Hx). rewrite Hd in Hok, Hx. cbn in *. split; [|tauto].
  destruct e as [d x v]; cbn in *. subst d. destruct x; [|done]. by discriminate Hx.
Qed.

Lemma ask_seen {A} none (question : list Member -> A) now key s :
  question [] = none ->
  ask none question now key s
  = (with_entries s (drop_if_expired now (entries s) key),
     match set_seen now s key with Ok set => Ok (question set) | Err e => Err e end).
Proof.
  intros Hq. unfold ask, set_at, set_seen. rewrite drop_if_expired_seen. f_equal.
  destruct (seen now (entries s) key) as [e|]; cbn; [|by rewrite Hq]. by destruct (data e).
Qed.

Lemma ask_good {A} none (question : list Member -> A) now key s :
  Wf s -> Good s (ask none question now key s).1.
Proof. intros W. by apply Good_drop_if_expired. Qed.

Lemma zadd_spec now key members s s' r :
  Wf s -> changes s < U64_MAX -> members <> [] -> Forall (fun m => is_nan m.1 = false) members ->
  zadd now key members s = (s', r) ->
  Quiet key s s'
  /\ match set_seen now s key with
     | Err WrongType => r = Err WrongType /\ entries s' !! key = seen now (entries s) key
     | Ok set =>
         let '(set', n) := add_all members set 0 in
         r = Ok n
         /\ entries s' !! key = Some {| data := DSortedSet set'; expires_at := None;
                                        version := changes s + 1 |}
     end.
Proof.
  intros W Hc Hne Hf. unfold zadd, set_seen.
  cbn [next_version with_entries entries waiters watchers changes].
  rewrite wrap_next, drop_if_expired_seen by done.
  pose proof (worked_on_untimed now s key (DSortedSet []) (changes s + 1)) as He.
  pose proof (worked_on_found now s key (DSortedSet []) (changes s + 1)) as Hfound.
  pose proof (worked_on_kept now s key (DSortedSet []) (changes s + 1) W Hc) as Hkept.
  set (e := default _ (seen now (entries s) key)) in *.
  destruct (data e) as [d|d|d|set] eqn:De.
  1-3: intros [= <- <-]; specialize (Hfound ltac:(done)); rewrite Hfound, De;
    split; [by apply Hkept|split; [done|cbn; apply lookup_insert_eq]].
  assert (set_seen now s key = Ok set) as Hl.
  { unfold set_seen. subst e. destruct (seen now (entries s) key); cbn in De;
      [by rewrite De|by injection De as <-]. }
  fold (set_seen now s key). rewrite Hl.
  pose proof (add_all_spec members set 0 (set_seen_ordered now s key set W Hl) Hf) as H.
  destruct (add_all members set 0) as [set' n]. destruct H as ([Hs Hn Hnum] & Hne' & _).
  intros [= <- <-]. rewrite He by (rewrite ?De; done). split; [|split; [done|cbn; apply lookup_insert_eq]].
  quiet now. right. split; [|done]. apply fresh_new. cbn. split_and!; auto.
Qed.

Lemma zrem_spec now key names s s' r :
  Wf s -> changes s < U64_MAX -> zrem now key names s = (s', r) ->
  Quiet key s s'
  /\ match set_seen now s key with
     | Err WrongType => r = Err WrongType /\ entries s' !! key = seen now (entries s) key
     | Ok set =>
         let '(set', n) := take_all names set 0 in
         r = Ok n /\ (n = 0 -> entries s' !! key = seen now (entries s) key)
         /\ (set' = [] -> entries s' !! key = None)
         /\ (0 < n -> set' <> [] ->
             entries s' !! key = Some {| data := DSortedSet set'; expires_at := None;
                                         version := changes s + 1 |})
     end.
Proof.
  intros W Hc. unfold zrem, set_seen.
  cbn [next_version with_entries entries waiters watchers changes].
  rewrite wrap_next, drop_if_expired_seen by done.
  destruct (seen now (entries s) key) as [e|] eqn:Es.
  2: { intros [= <- <-]. assert (take_all names [] 0 = ([], 0)) as ->
         by (clear; induction names as [|nm names IH]; [done|exact IH]).
       cbn [entries]. rewrite drop_if_expired_seen.
       split; [quiet now; left; by rewrite drop_if_expired_seen|done]. }
  destruct (data e) as [d|d|d|set] eqn:De;
    try (intros [= <- <-]; cbn [entries]; rewrite drop_if_expired_seen;
         split; [quiet now; left; by rewrite drop_if_expired_seen|done]).
  destruct (seen_set _ _ _ _ _ W Es De) as (He & Hset).
  assert (Ho : Ordered set)
    by (apply (set_seen_ordered now s key); [done|unfold set_seen; by rewrite Es, De]).
  pose proof (take_all_spec names set 0 Ho) as H.
  destruct (take_all names set 0) as [set' n]. destruct H as ([Hs Hn Hnum] & _ & _ & Hsame & Hle).
  set (es := if bool_decide (set' = []) then _ else _). intros [= <- <-].
  assert (Hkey : es !! key = match set' with
     | [] => None
     | _ => if 0 <? n then Some {| data := DSortedSet set'; expires_at := None;
                                   version := changes s + 1 |} else Some e
     end).
  { subst es. case_bool_decide as Hx; [rewrite Hx; apply lookup_delete_eq|].
    rewrite lookup_insert_eq. destruct set' as [|m rest] eqn:Er; [done|].
    destruct (Z.ltb_spec 0 n); [by rewrite He|]. rewrite <- Er in *.
    rewrite (Hsame ltac:(lia)). unfold with_data. rewrite <- De. by destruct e. }
  assert (Hne : forall k, k <> key -> es !! k = entries s !! k).
  { intros k Hk. subst es. case_bool_decide; rewrite ?lookup_delete_ne by done;
      by apply drop_then_insert. }
  clearbody es. cbn [entries with_entries]. rewrite Hkey. split.
  - apply (quiet_written now); [done|done|done|done|done|exact Hne|].
    cbn [entries with_entries]. rewrite Hkey, Es. destruct set' as [|m set']; [by right|].
    destruct (0 <? n); [right|by left]. split; [|done]. apply fresh_new. by split_and!.
  - split_and!; [done| |by intros ->|].
    + intros ->. rewrite (Hsame eq_refl). by destruct set.
    + intros Hpos Hx. destruct set'; [done|]. by apply Z.ltb_lt in Hpos as ->.
Qed.

Lemma zadd_good now key members s :
  Wf s -> changes s < U64_MAX -> members <> [] -> Forall (fun m => is_nan m.1 = false) members ->
  Good s (zadd now key members s).1.
Proof.
  intros W Hc Hne Hf. destruct (zadd now key members s) as [s' r] eqn:E.
  by destruct (zadd_spec _ _ _ _ _ _ W Hc Hne Hf E) as [[G _ _ _] _].
Qed.

Lemma zrem_good now key names s :
  Wf s -> changes s < U64_MAX -> Good s (zrem now key names s).1.
Proof.
  intros W Hc. destruct (zrem now key names s) as [s' r] eqn:E.
  by destruct (zrem_spec _ _ _ _ _ _ W Hc E) as [[G _ _ _] _].
Qed.

#[export] Hint Resolve ask_good zadd_good zrem_good : server.

Lemma scores_size set : Ordered set -> Z.of_nat (size (scores set)) = len set.
Proof.
  intros [_ Hn _]. unfold len, scores.
  rewrite map_size_list_to_map by (by rewrite map_map). by rewrite length_map.
Qed.

Lemma at_split nm set i :
  at_ nm set = Some i -> exists m, set !! i = Some m /\ name m = nm.
Proof.
  revert i; induction set as [|m set IH]; intros i; cbn; [done|]. beq_cases.
  - intros [= <-]. by exists m.
  - destruct (at_ nm set) as [j|]; [|done]. intros [= <-]. cbn. by apply IH.
Qed.

Lemma filter_all_true {A} (p : A -> bool) l :
  (forall a, a ∈ l -> p a = true) -> List.filter p l = l.
Proof.
  induction l as [|a l IH]; intros H; cbn; [done|]. rewrite H by left.
  f_equal. apply IH. intros; apply H; by right.
Qed.

Lemma filter_all_false {A} (p : A -> bool) l :
  (forall a, a ∈ l -> p a = false) -> List.filter p l = [].
Proof.
  induction l as [|a l IH]; intros H; cbn; [done|]. rewrite H by left.
  apply IH. intros; apply H; by right.
Qed.

(** A member stands behind exactly those that come before it. *)
Lemma index_counts set i m :
  Ordered set -> set !! i = Some m ->
  i = length (List.filter (fun other => precedes other m) set).
Proof.
  intros Ho Hi. pose proof (Ordered_pairs set Ho) as Hs.
  apply list_elem_of_split_length in Hi as (l1 & l2 & -> & ->).
  apply StronglySorted_app in Hs as (H12 & _ & H2).
  inversion H2 as [|? ? _ Hm]; subst. rewrite Forall_forall in Hm.
  assert (numbered m) as Hnum.
  { destruct Ho as [_ _ Hf]. apply Forall_app in Hf as [_ Hf]. by apply Forall_cons in Hf as [? _]. }
  rewrite List.filter_app. cbn. rewrite precedes_irrefl by done.
  rewrite filter_all_true, filter_all_false, app_nil_r; [done| |].
  - intros b Hb. destruct (Hm b Hb) as (H & _ & Hb'). apply not_true_iff_false. intros H'.
    pose proof (precedes_trans m b m Hnum Hb' Hnum H H') as Hx. by rewrite precedes_irrefl in Hx.
  - intros a Ha. eapply H12; [done|left].
Qed.

(** A key that holds this set, and has no time to go by. *)
Definition keeps (s : State) (key : Bytes) (set : list Member) : Prop :=
  exists v, entries s !! key = Some {| data := DSortedSet set; expires_at := None; version := v |}.

Lemma set_seen_kept now s key set : keeps s key set -> set_seen now s key = Ok set.
Proof. intros [v Hk]. unfold set_seen, seen. by rewrite Hk. Qed.

Lemma zscore_kept now key nm s set :
  keeps s key set -> zscore now key nm s = (s, Ok (score_of nm set)).
Proof.
  intros Hk. unfold zscore. rewrite ask_seen, (set_seen_kept _ _ _ _ Hk) by done. f_equal.
  destruct Hk as [v Hk]. destruct s as [es ws vs c]. unfold with_entries. f_equal.
  unfold drop_if_expired. cbn in *. by rewrite Hk.
Qed.

(** What [ZADD] leaves is a set with the map's scores. *)
Lemma zadd_kept now key members s s' r set :
  Wf s -> changes s < U64_MAX -> members <> [] -> Forall (fun m => is_nan m.1 = false) members ->
  set_seen now s key = Ok set -> zadd now key members s = (s', r) ->
  elsewhere key s s'
  /\ r = Ok (Z.of_nat (size (insert_all members (scores set))) - Z.of_nat (size (scores set)))
  /\ exists set', keeps s' key set' /\ Ordered set' /\ scores set' = insert_all members (scores set).
Proof.
  intros W Hc Hne Hf Hl E. destruct (zadd_spec _ _ _ _ _ _ W Hc Hne Hf E) as [[_ El _ _] H].
  rewrite Hl in H. pose proof (add_all_spec members set 0 (set_seen_ordered now s key set W Hl) Hf) as Ha.
  destruct (add_all members set 0) as [set' n]. destruct Ha as (Ho & _ & Hs & ->).
  destruct H as [-> Hk]. split_and!; [done|rewrite Hs; do 2 f_equal; lia|].
  exists set'. split_and!; [by eexists|done|done].
Qed.

(** ** What the operations promise *)

(** C27. A sorted set is a finite map from names to scores: [ZADD] writes its
    scores to the map, the last one given to a name winning, and answers with
    the number of names that are new; [ZSCORE] then reads the map and [ZCARD]
    tells its size; no other key is touched. *)
Theorem zadd_refines now key members s s' r set :
  Wf s -> changes s < U64_MAX -> members <> [] -> Forall (fun m => is_nan m.1 = false) members ->
  set_seen now s key = Ok set -> zadd now key members s = (s', r) ->
  elsewhere key s s'
  /\ r = Ok (Z.of_nat (size (insert_all members (scores set))) - Z.of_nat (size (scores set)))
  /\ forall now',
       (forall nm, snd (zscore now' key nm s') = Ok (insert_all members (scores set) !! nm))
       /\ snd (zcard now' key s') = Ok (Z.of_nat (size (insert_all members (scores set)))).
Proof.
  intros W Hc Hne Hf Hl E.
  destruct (zadd_kept _ _ _ _ _ _ _ W Hc Hne Hf Hl E) as (El & Hr & set' & Hk & Ho & Hs).
  split_and!; [done|done|]. intros now'. rewrite <- Hs.
  split; [intros nm; rewrite (zscore_kept _ _ _ _ _ Hk); cbn; by rewrite score_of_scores|].
  unfold zcard. rewrite ask_seen, (set_seen_kept _ _ _ _ Hk) by done. cbn [snd].
  by rewrite scores_size.
Qed.

(** C28. [ZREM] takes its names out of the map, and answers with the number of
    them that were there; a set left with nothing is a key that is gone, and one
    nothing was taken from is exactly the entry it was, its version included, so
    that no client watching it is told. *)
Theorem zrem_refines now key names s s' r set :
  Wf s -> changes s < U64_MAX -> set_seen now s key = Ok set ->
  zrem now key names s = (s', r) ->
  elsewhere key s s'
  /\ r = Ok (Z.of_nat (size (scores set)) - Z.of_nat (size (delete_all names (scores set))))
  /\ (delete_all names (scores set) = ∅ -> entries s' !! key = None)
  /\ (r = Ok 0 -> entries s' !! key = seen now (entries s) key)
  /\ forall now', now <= now' ->
       (forall nm, snd (zscore now' key nm s') = Ok (delete_all names (scores set) !! nm))
       /\ snd (zcard now' key s') = Ok (Z.of_nat (size (delete_all names (scores set)))).
Proof.
  intros W Hc Hl E. destruct (zrem_spec _ _ _ _ _ _ W Hc E) as [[_ El _ _] H].
  rewrite Hl in H. pose proof (set_seen_ordered now s key set W Hl) as Hold.
  pose proof (take_all_spec names set 0 Hold) as Ha.
  destruct (take_all names set 0) as [set' n]. destruct Ha as (Ho & Hs & Hn & Hsame & Hpos).
  destruct H as (-> & Hk0 & Hknil & Hk).
  assert (Hempty : scores set' = ∅ -> set' = []).
  { intros He. pose proof (scores_size set' Ho) as Hz. rewrite He, map_size_empty in Hz.
    destruct set'; [done|]. rewrite len_cons in Hz. pose proof (len_nonneg set'). lia. }
  assert (Hset : forall now', now <= now' -> set_seen now' s' key = Ok set').
  { intros now' Hle. unfold set_seen, seen. destruct (decide (n = 0)) as [Hz|Hz].
    - rewrite Hk0 by done. rewrite Hsame by done. unfold set_seen in Hl.
      destruct (seen now (entries s) key) as [e|] eqn:Es; [|by injection Hl as <-].
      destruct (data e) eqn:De; try done. destruct (seen_set _ _ _ _ _ W Es De) as [He _].
      rewrite He. cbn. by injection Hl as ->.
    - destruct (decide (set' = [])) as [Hx|Hx]; [rewrite Hknil, Hx by done; done|].
      by rewrite Hk by (done || lia). }
  rewrite <- Hs. split_and!; [done|do 2 f_equal; lia|auto|intros [= ->]; auto|].
  intros now' Hle. split; [intros nm; unfold zscore|unfold zcard];
    rewrite ask_seen by done; rewrite Hset by done; cbn [snd].
  - by rewrite score_of_scores.
  - by rewrite scores_size.
Qed.

(** C29. Members are ranked by score, and by name where scores are equal:
    [ZRANK] answers with how many members come before the one asked about (or
    with nothing for one that is not there), and [ZRANGE] from that place to
    that place answers with the member itself. *)
Theorem zrank_counts now key nm s set :
  Wf s -> set_seen now s key = Ok set -> len set <= I64_MAX ->
  match scores set !! nm with
  | None => snd (zrank now key nm s) = Ok None
  | Some sc =>
      let rank := length (List.filter (fun m => precedes m {| score := sc; name := nm |}) set) in
      snd (zrank now key nm s) = Ok (Some rank)
      /\ snd (zrange now key (Z.of_nat rank) (Z.of_nat rank) s) = Ok [nm]
  end.
Proof.
  intros W Hl Hlen. pose proof (set_seen_ordered now s key set W Hl) as Ho.
  unfold zrank, zrange. rewrite !ask_seen by (done || by rewrite window_nil). rewrite Hl. cbn [snd].
  destruct (scores set !! nm) as [sc|] eqn:E.
  2: { apply scores_None, at_None in E. by rewrite E. }
  assert (at_ nm set <> None) as Hat
    by (rewrite at_None; intros ?%scores_None; congruence).
  destruct (at_ nm set) as [i|] eqn:Ei; [|done]. clear Hat.
  destruct (at_split _ _ _ Ei) as (m & Hm & <-).
  assert (m = {| score := sc; name := name m |}) as Hmeq.
  { assert (scores set !! name m = Some (score m)) as Hsc.
    { apply scores_lookup; [apply Ho|]. destruct m; cbn. by eapply list_elem_of_lookup_2. }
    rewrite E in Hsc. injection Hsc as ->. by destruct m. }
  cbv zeta. rewrite <- Hmeq. rewrite <- (index_counts set i m Ho Hm). split; [done|].
  rewrite ask_seen by (by rewrite window_nil). rewrite Hl. cbn [snd]. f_equal.
  assert (window (Z.of_nat i) (Z.of_nat i) set = [m]) as ->; [|done].
  apply list_eq. intros j. rewrite window_lookup. unfold resolve_index. decide_leb.
  apply lookup_lt_Some in Hm as Hlt. cbn zeta. destruct j as [|j]; cbn.
  - decide_leb. by rewrite Nat2Z.id, Nat.add_0_r.
  - destruct (Z.leb_spec (Z.of_nat i + Z.of_nat (S j)) (Z.of_nat i)); [lia|done].
Qed.

(** Two members with one score, ordered by name. *)
Definition ranked : State :=
  {| entries := {[ lit "z" := {| data := DSortedSet
       [{| score := read_f64 "1"; name := lit "a" |}; {| score := read_f64 "1"; name := lit "b" |}];
       expires_at := None; version := 1 |} ]};
     waiters := ∅; watchers := ∅; changes := 1 |}.
Lemma Wf_ranked : Wf ranked.
Proof.
  split; cbn; [| |unfold U64_MAX; lia].
  - intros k e [<- <-]%lookup_singleton_Some. split_and!; [|done|done|by intros [? [=]]].
    cbn. split_and!; [done|repeat constructor| |repeat constructor].
    apply NoDup_cons. split; [|apply NoDup_singleton]. intros H%list_elem_of_singleton.
    revert H. vm_compute. by intros [=].
  - intros k e _ _. apply lookup_empty.
Qed.

Lemma zadd_refines_witness :
  let '(s', r) := zadd 0 (lit "z") [(read_f64 "0.5", lit "c"); (read_f64 "2", lit "a")] ranked in
  r = Ok 1 /\ elsewhere (lit "z") ranked s'.
Proof.
  destruct (zadd 0 (lit "z") [(read_f64 "0.5", lit "c"); (read_f64 "2", lit "a")] ranked)
    as [s' r] eqn:E.
  assert (members : Forall (fun m : f64 * Bytes => is_nan m.1 = false)
    [(read_f64 "0.5", lit "c"); (read_f64 "2", lit "a")]) by (repeat constructor).
  pose proof (zadd_refines 0 (lit "z")
    [(read_f64 "0.5", lit "c"); (read_f64 "2", lit "a")] ranked s' r _ Wf_ranked eq_refl ltac:(by intros [=])
    members eq_refl E) as (H & Hr & _).
  split; [|exact H]. rewrite Hr. vm_compute. reflexivity.
Defined.

Lemma zrem_refines_witness :
  let '(s', r) := zrem 0 (lit "z") [lit "b"; lit "x"] ranked in
  r = Ok 1 /\ elsewhere (lit "z") ranked s'.
Proof.
  destruct (zrem 0 (lit "z") [lit "b"; lit "x"] ranked) as [s' r] eqn:E.
  pose proof (zrem_refines 0 (lit "z") _ ranked s' r _ Wf_ranked eq_refl eq_refl E) as (H & Hr & _).
  split; [|exact H]. rewrite Hr. vm_compute. reflexivity.
Defined.

Lemma zrank_counts_witness :
  snd (zrank 0 (lit "z") (lit "b") ranked) = Ok (Some 1%nat)
  /\ snd (zrange 0 (lit "z") 1 1 ranked) = Ok [lit "b"].
Proof.
  exact (zrank_counts 0 (lit "z") (lit "b") ranked _ Wf_ranked eq_refl ltac:(vm_compute; congruence)).
Defined.
