(* ===== verification/StoreSteps.v ===== *)
(** * The store as a whole: every way its state can change

    The operations of the four families and the shared ones are the steps of one
    relation, [step]; each takes the lock, so any interleaving of connections is
    a sequence of them.  What the callers see to (a push has an element, a score
    is a number, a timestamp fits 64 bits) is part of each step, and so is that
    the 64-bit counter of changes has not run out.

    Every reachable state is well formed, and on that rests what [WATCH]
    promises. *)
From S2P Require Import Prelude Text F64 Store StoreStrings StoreLists StoreStreams StoreSortedSets.
Open Scope Z_scope.

Inductive step : State -> State -> Prop :=
| step_kind now key s : step s (kind now key s).1
| step_keys now wanted s : step s (keys now wanted s).1
| step_versions now ks s : step s (versions now ks s).1
| step_unchanged now ws s : step s (unchanged now ws s).1
| step_set now key value expires_in s s' :
    changes s < U64_MAX -> set now key value expires_in s = Done s' -> step s s'
| step_get now key s : step s (get now key s).1
| step_increment now key s : changes s < U64_MAX -> step s (increment now key s).1
| step_push open now key elements side s :
    changes s < U64_MAX -> elements <> [] -> step s (push open now key elements side s).1.1
| step_lpop now key count s :
    changes s < U64_MAX -> 0 <= count -> step s (lpop now key count s).1
| step_blpop closed me now key s s' r :
    changes s < U64_MAX -> blpop closed me now key s = Done (s', r) -> step s s'
| step_lrange now key start stop s : step s (lrange now key start stop s).1
| step_llen now key s : step s (llen now key s).1
| step_xadd clock now key requested fs s :
    changes s < U64_MAX -> request_ok clock requested ->
    step s (xadd clock now key requested fs s).1.1
| step_xrange now key start stop s : step s (xrange now key start stop s).1
| step_resolve_reads now reads s : step s (resolve_reads now reads s).1
| step_xread now reads s : step s (xread now reads s).1
| step_xread_or_watch held me now reads s : step s (xread_or_watch held me now reads s).1
| step_zadd now key members s :
    changes s < U64_MAX -> members <> [] -> Forall (fun m => is_nan m.1 = false) members ->
    step s (zadd now key members s).1
| step_zrank now key member s : step s (zrank now key member s).1
| step_zrem now key names s : changes s < U64_MAX -> step s (zrem now key names s).1
| step_zmembers now key s : step s (zmembers now key s).1
| step_zscore now key member s : step s (zscore now key member s).1
| step_zcard now key s : step s (zcard now key s).1
| step_zrange now key start stop s : step s (zrange now key start stop s).1.

Lemma blpop_good closed me now key s s' r :
  Wf s -> changes s < U64_MAX -> blpop closed me now key s = Done (s', r) -> Good s s'.
Proof.
  intros W Hc E. destruct (blpop_spec closed me now key s W Hc) as (s1 & r1 & E1 & G & _).
  rewrite E1 in E. by injection E as <- <-.
Qed.

Lemma step_good s s' : step s s' -> Wf s -> Good s s'.
Proof.
  intros H W. destruct H; eauto using set_good, blpop_good with server;
    solve [by apply ask_good | auto with server].
Qed.

Lemma steps_good s s' : rtc step s s' -> Wf s -> Good s s'.
Proof.
  induction 1 as [s|s1 s2 s3 Hs _ IH]; intros W; [by apply Good_refl|].
  eapply Good_trans; [by apply step_good|exact IH].
Qed.

(** What a version tells: an entry wearing a version seen before is the entry
    that was seen. *)
Lemma same_version s s' key e e' :
  Wf s -> Good s s' -> entries s !! key = Some e -> entries s' !! key = Some e' ->
  version e' = version e -> e' = e.
Proof.
  intros W [_ [_ Ev]] He He' Hv. specialize (Ev key). rewrite He, He' in Ev.
  destruct Ev as [Ev|Ev]; [congruence|].
  destruct (wf_entries _ W key e He) as (_ & ? & _). lia.
Qed.

(** C1. Whatever the clients do, in whatever order, every state the store goes
    through is well formed: no list, stream or sorted set is kept empty, streams
    climb, members stand in order under names of their own, versions are those
    handed out so far, only strings expire, and nobody is left waiting on a key
    whose list has an element to give. *)
Theorem store_invariant s : rtc step empty_state s -> Wf s.
Proof. intros H. by eapply good_wf, steps_good, Wf_empty. Qed.

Lemma store_invariant_witness :
  Wf (push (fun _ => true) 3 (lit "l") [lit "a"] Left (kind 0 (lit "l") empty_state).1).1.1.
Proof.
  apply store_invariant. eapply rtc_l; [apply (step_kind 0 (lit "l"))|].
  apply rtc_once, step_push; [reflexivity|by intros [=]].
Defined.

(** C2. [WATCH] is sound: if the versions a client was given when it began to
    watch are the versions found at [EXEC], then each watched key holds for a
    client exactly what it held then -- the same data, deadline and version, or
    nothing in both -- however many operations ran in between. *)
Theorem watch_sound now now' ks s s1 :
  Wf s -> rtc step (versions now ks s).1 s1 ->
  (unchanged now' (combine ks (versions now ks s).2) s1).2 = true ->
  forall k, k ∈ ks -> seen now' (entries s1) k = seen now (entries s) k.
Proof.
  intros W Hsteps Hun k Hk.
  assert (G : Good s s1).
  { eapply Good_trans; [apply versions_good, W|]. by apply steps_good. }
  assert (Hv : (versions now ks s).2 = map (fun k => version <$> seen now (entries s) k) ks).
  { unfold versions. rewrite <- (versions_in_seen now ks (entries s)).
    by destruct (versions_in now ks (entries s)). }
  assert (Hu : (unchanged_in now' (combine ks (versions now ks s).2) (entries s1)).2 = true).
  { revert Hun. unfold unchanged. by destruct (unchanged_in _ _ _). }
  apply unchanged_in_true in Hu. rewrite Hv in Hu. clear -W G Hk Hu.
  rewrite Forall_forall in Hu.
  specialize (Hu (k, version <$> seen now (entries s) k)). cbn in Hu.
  assert (Hver : version <$> seen now' (entries s1) k = version <$> seen now (entries s) k).
  { apply Hu. clear -Hk. induction ks as [|k' ks IH]; [by apply not_elem_of_nil in Hk|].
    cbn. apply elem_of_cons in Hk as [->|Hk]; [left|right; by apply IH]. }
  destruct (seen now (entries s) k) as [e|] eqn:E.
  - apply fmap_Some in Hver as (e' & E' & Hv). rewrite E'. f_equal.
    apply seen_Some in E as [E _]. apply seen_Some in E' as [E' _].
    by eapply same_version.
  - by apply fmap_None in Hver.
Qed.

Lemma watch_sound_witness :
  let s1 := (get 5 (lit "l") (versions 0 [lit "l"; lit "x"] three).1).1 in
  seen 9 (entries s1) (lit "l") = seen 0 (entries three) (lit "l").
Proof.
  cbv zeta. apply (watch_sound 0 9 [lit "l"; lit "x"] three).
  - apply Wf_three.
  - apply rtc_once, step_get.
  - vm_compute. reflexivity.
  - left.
Defined.

(** What the watch cannot see, as the source says of itself: a key that was
    missing, made and unmade again reads as untouched. *)
Example watch_blind_to_made_and_unmade :
  let s1 := (versions 0 [lit "l"] empty_state).1 in
  let s2 := (push (fun _ => true) 1 (lit "l") [lit "a"] Right s1).1.1 in
  let s3 := (lpop 2 (lit "l") 1 s2).1 in
  (unchanged 3 [(lit "l", None)] s3).2 = true /\ changes s3 = 2.
Proof. vm_compute. split; reflexivity. Qed.
