(* ===== verification/Command.v ===== *)
(** * Commands as clients send them: src/src/commands/mod.rs

    Reading a command out of a value, the replies every module of commands
    shares, what a command that changed the store leaves for the replicas and
    the record, and the outcome of running one: a reply, a client left waiting,
    or a panic.  [Dispatch] has the dispatcher itself. *)
From S2P Require Import Prelude Text Resp Store.
Open Scope Z_scope.

Section Commands.
Context `{UnicodeTables}.

(** One command as the client sent it. *)
Record Command := { uppercased : Bytes; name : Bytes; args : list Bytes }.

(** [into_parts]. *)
Definition into_parts (command : Value) : option (list Bytes) :=
  match command with
  | Array parts =>
      collect_options (fun part => match part with BulkString bytes => Some bytes | _ => None end)
        parts
  | _ => None
  end.

Definition unknown_command (nm : Bytes) : Value :=
  Error (lit "ERR unknown command '" ++ from_utf8_lossy nm ++ lit "'").
Definition wrong_arity (command : string) : Value :=
  Error (lit "ERR wrong number of arguments for '" ++ lit command ++ lit "' command").
Definition not_an_integer : Value := Error (lit "ERR value is not an integer or out of range").
Definition unrecorded : Value := Error (lit "MISCONF Errors writing to the AOF file").
Definition wrong_type : Value :=
  Error (lit "WRONGTYPE Operation against a key holding the wrong kind of value").
Definition syntax_error : Value := Error (lit "ERR syntax error").
Definition not_a_float : Value := Error (lit "ERR value is not a valid float").
Definition OK : Value := SimpleString (lit "OK").

(** [Command::parse]. *)
Definition parse_command (command : Value) : result Command Value :=
  match into_parts command with
  | None => Err (Error (lit "ERR expected an array of bulk strings"))
  | Some [] => Err (Error (lit "ERR empty command"))
  | Some (nm :: rest) =>
      match text nm with
      | None => Err (unknown_command nm)
      | Some t => Ok {| uppercased := to_uppercase t; name := nm; args := rest |}
      end
  end.

(** [Command::as_sent]. *)
Definition as_sent (c : Command) : Value :=
  Array (BulkString (name c) :: map BulkString (args c)).

(** One of the words given. *)
Definition one_of (words : list string) (command : Bytes) : bool :=
  existsb (fun w => command =b? lit w) words.

(** [written_down]. *)
Definition written_down (c : Command) (reply : Value) : option Value :=
  if one_of ["SET"; "INCR"; "RPUSH"; "LPUSH"; "LPOP"; "XADD"; "ZADD"; "ZREM"; "GEOADD"]%string
       (uppercased c)
  then Some (as_sent c)
  else if uppercased c =b? lit "BLPOP" then
    match args c, reply with
    | key :: _, Array _ => Some (Array [BulkString (lit "LPOP"); BulkString key])
    | _, _ => None
    end
  else None.

(** The commands something may be written down of. *)
Definition WRITES : list string :=
  ["SET"; "INCR"; "RPUSH"; "LPUSH"; "LPOP"; "XADD"; "ZADD"; "ZREM"; "GEOADD"; "BLPOP"]%string.

(** ** What running a command comes to

    A client that has to wait is left with what its connection holds on to
    while it does. *)
Inductive Pending : Type :=
| AwaitElement (key : Bytes) (me : waiter) (timeout : option Z)
| AwaitEntries (reads : list (Bytes * EntryId)) (waker : watcher) (deadline : option Z)
| AwaitReplicas (target wanted : Z) (deadline : option Z).

Inductive Outcome : Type :=
| Replied (reply : Value)
| Blocks (on : Pending)
| Panics.

(** ** Facts *)
Lemma written_down_writes `{UnicodeTables} c reply written :
  written_down c reply = Some written -> one_of WRITES (uppercased c) = true.
Proof.
  unfold written_down, one_of, WRITES. cbn [existsb].
  destruct (_ =b? lit "SET"), (_ =b? lit "INCR"), (_ =b? lit "RPUSH"), (_ =b? lit "LPUSH"),
    (_ =b? lit "LPOP"), (_ =b? lit "XADD"), (_ =b? lit "ZADD"), (_ =b? lit "ZREM"),
    (_ =b? lit "GEOADD"); try done. by destruct (_ =b? lit "BLPOP").
Qed.

Lemma into_parts_bulk l : into_parts (Array (map BulkString l)) = Some l.
Proof. cbn. induction l as [|x l IH]; cbn; [done|]. by rewrite IH. Qed.

Lemma into_parts_Some v l : into_parts v = Some l -> v = Array (map BulkString l).
Proof.
  destruct v as [| | | |vs| | | |]; try done. cbn.
  revert l; induction vs as [|v vs IH]; intros l; cbn; [by intros [= <-]|].
  destruct v; try done. destruct (collect_options _ vs) as [l'|]; [|done].
  intros [= <-]. specialize (IH l' eq_refl). cbn. congruence.
Qed.

(** What is passed on is read back as the command it was. *)
Lemma parse_as_sent c v : parse_command v = Ok c -> as_sent c = v /\ parse_command (as_sent c) = Ok c.
Proof.
  intros Hp. assert (as_sent c = v) as E; [|by rewrite E]. revert Hp. unfold parse_command.
  destruct (into_parts v) as [[|nm rest]|] eqn:E; [done| |done].
  destruct (text nm); [|done]. intros [= <-]. apply into_parts_Some in E as ->. done.
Qed.

End Commands.
