(* ===== verification/StoreCommands.v ===== *)
(** * The commands that work on the store: src/src/commands/strings.rs, keys.rs,
    lists.rs, streams.rs and sorted_sets.rs

    Each module's [run] claims the commands it knows and answers [None] for the
    rest.  A command is given one reading of each clock and is taken as one
    moment; [BLPOP] and a blocking [XREAD] that find nothing leave their client
    waiting ([Blocks]), and [resume_element] and [resume_entries] are what
    they go on with.  What running a command does beside
    changing the store (elements handed to clients, watchers woken) is listed as
    events. *)
From S2P Require Import Prelude Text Resp Glob F64 Command.
From S2P Require Import Store StoreStrings StoreLists StoreStreams StoreSortedSets.
Open Scope Z_scope.

(** What a command finds out from outside the store. *)
Record Env := {
  now : Z;                      (* Instant::now(), in nanoseconds *)
  clock : Z;                    (* SystemTime::now(), in milliseconds *)
  open : waiter -> bool;        (* sending to this client succeeds *)
  closed : waiter -> bool;      (* this client is seen to have gone *)
  held : watcher -> bool;       (* this waker is held by its client *)
  new_waiter : waiter;
  new_watcher : watcher;
}.

Inductive Event : Type :=
| Handed (to : waiter) (element : Bytes)
| Woken (w : watcher).

Section StoreCommands.
Context `{UnicodeTables} (env : Env).

(** What a command of one of these modules comes to. *)
Definition Ran : Type := State * list Event * Outcome.
Definition replies {A} (r : State * A) (reply : A -> Value) : option Ran :=
  Some (r.1, [], Replied (reply r.2)).
Definition says (s : State) (reply : Value) : option Ran := Some (s, [], Replied reply).
Definition refuses (s : State) (command : string) : option Ran := says s (wrong_arity command).

(** A result whose only error is the wrong type. *)
Definition typed {A} (reply : A -> Value) (r : result A WrongType_t) : Value :=
  match r with Ok a => reply a | Err WrongType => wrong_type end.

Definition or_null (o : option Bytes) : Value :=
  match o with Some x => BulkString x | None => Null end.
Definition bulks (l : list Bytes) : Value := Array (map BulkString l).
Definition count (n : Z) : Value := Integer (as_i64 n).

(** ** strings.rs *)

(** [parse_expiry]. *)
Definition parse_expiry (options : list Bytes) : result (option Z) Value :=
  match options with
  | [] => Ok None
  | [unit; amount] =>
      try? amount <- ok_or (match text amount with Some a => ok (parse_u64 a) | None => None end)
                           not_an_integer;
      match to_uppercase <$> text unit with
      | Some u =>
          if u =b? lit "EX" then Ok (Some (amount * 1000000000))
          else if u =b? lit "PX" then Ok (Some (amount * 1000000))
          else Err syntax_error
      | None => Err syntax_error
      end
  | _ => Err syntax_error
  end.

(** [set] of commands/strings.rs. *)
Definition run_set (key value : Bytes) (options : list Bytes) (s : State) : option Ran :=
  match parse_expiry options with
  | Err e => says s e
  | Ok expires_in =>
      match StoreStrings.set (now env) key value expires_in s with
      | Done s => says s OK
      | Panic => Some (s, [], Panics)
      end
  end.

Definition overflow : Value := Error (lit "ERR increment or decrement would overflow").

(** [strings::run]. *)
Definition strings_run (command : Bytes) (args : list Bytes) (s : State) : option Ran :=
  if command =b? lit "PING" then says s (SimpleString (lit "PONG"))
  else if command =b? lit "ECHO" then
    match args with [message] => says s (BulkString message) | _ => refuses s "echo" end
  else if command =b? lit "SET" then
    match args with key :: value :: options => run_set key value options s
                  | _ => refuses s "set" end
  else if command =b? lit "GET" then
    match args with [key] => replies (get (now env) key s) (typed or_null)
                  | _ => refuses s "get" end
  else if command =b? lit "INCR" then
    match args with
    | [key] =>
        replies (increment (now env) key s) (fun r =>
          match r with
          | Ok n => Integer n
          | Err NotAnInteger => not_an_integer
          | Err Overflow => overflow
          | Err IncrementWrongType => wrong_type
          end)
    | _ => refuses s "incr"
    end
  else None.

(** ** keys.rs *)

Definition type_name (k : Kind) : string :=
  match k with
  | KNone => "none" | KString => "string" | KList => "list" | KStream => "stream"
  | KSortedSet => "zset"
  end.

(** [keys::run]. *)
Definition keys_run (command : Bytes) (args : list Bytes) (s : State) : option Ran :=
  if command =b? lit "TYPE" then
    match args with
    | [key] => replies (kind (now env) key s) (fun k => SimpleString (lit (type_name k)))
    | _ => refuses s "type"
    end
  else if command =b? lit "KEYS" then
    match args with
    | [pattern] => replies (keys (now env) (matches (parse_pattern pattern)) s) bulks
    | _ => refuses s "keys"
    end
  else None.

(** ** lists.rs *)

Definition run_push (key : Bytes) (elements : list Bytes) (side : Side) (s : State) : option Ran :=
  let '(s, given, r) := push (open env) (now env) key elements side s in
  Some (s, map (fun we => Handed we.1 we.2) given, Replied (typed count r)).

Definition number_i64 (argument : Bytes) : option Z :=
  match text argument with Some t => ok (parse_i64 t) | None => None end.

(** [lpop] of commands/lists.rs. *)
Definition run_lpop (key : Bytes) (number : option Bytes) (s : State) : option Ran :=
  match number with
  | None => replies (lpop (now env) key 1 s) (typed (fun l => or_null (head l)))
  | Some number =>
      match number_i64 number with
      | None => says s not_an_integer
      | Some n =>
          if n <? 0 then says s (Error (lit "ERR value is out of range, must be positive"))
          else replies (lpop (now env) key n s) (typed bulks)
      end
  end.

Definition bad_timeout : Value := Error (lit "ERR timeout is not a float or out of range").

(** [Duration::try_from_secs_f64], in nanoseconds. *)
Definition duration_of_secs (x : f64) : option Z :=
  match x with
  | S754_zero _ => Some 0
  | S754_finite false m e =>
      let '(n, d) := fraction m e in
      if n <? 18446744073709551616 * d then Some (round_half_even (n * 1000000000) d) else None
  | _ => None
  end.

(** [parse_timeout]: [None] asks to wait for as long as it takes. *)
Definition parse_timeout (timeout : Bytes) : result (option Z) Value :=
  try? seconds <- ok_or (match text timeout with Some t => parse_f64 t | None => None end)
                        bad_timeout;
  if f_lt seconds (f_of_Z 0) then Err (Error (lit "ERR timeout is negative"))
  else if f_eq seconds (f_of_Z 0) then Ok None
  else ok_or (Some <$> duration_of_secs seconds) bad_timeout.

(** What [blpop] of commands/lists.rs makes of the element it got, or of none. *)
Definition resume_element (key : Bytes) (element : option Bytes) : Value :=
  match element with Some x => Array [BulkString key; BulkString x] | None => NullArray end.

(** [blpop] of commands/lists.rs, up to where it waits. *)
Definition run_blpop (key timeout : Bytes) (s : State) : option Ran :=
  match parse_timeout timeout with
  | Err e => says s e
  | Ok timeout =>
      match blpop (closed env) (new_waiter env) (now env) key s with
      | Panic => Some (s, [], Panics)
      | Done (s, Err WrongType) => says s wrong_type
      | Done (s, Ok (Ready x)) => says s (resume_element key (Some x))
      | Done (s, Ok (Waiting me)) => Some (s, [], Blocks (AwaitElement key me timeout))
      end
  end.

(** [lrange] of commands/lists.rs, and [range] of commands/sorted_sets.rs. *)
Definition run_range (read : Z -> Z -> State -> State * result (list Bytes) WrongType_t)
  (start stop : Bytes) (s : State) : option Ran :=
  match number_i64 start, number_i64 stop with
  | Some start, Some stop => replies (read start stop s) (typed bulks)
  | _, _ => says s not_an_integer
  end.

(** [lists::run]. *)
Definition lists_run (command : Bytes) (args : list Bytes) (s : State) : option Ran :=
  if command =b? lit "RPUSH" then
    match args with
    | key :: elements =>
        match elements with [] => refuses s "rpush" | _ => run_push key elements Right s end
    | _ => refuses s "rpush"
    end
  else if command =b? lit "LPUSH" then
    match args with
    | key :: elements =>
        match elements with [] => refuses s "lpush" | _ => run_push key elements Left s end
    | _ => refuses s "lpush"
    end
  else if command =b? lit "LPOP" then
    match args with
    | [key] => run_lpop key None s
    | [key; number] => run_lpop key (Some number) s
    | _ => refuses s "lpop"
    end
  else if command =b? lit "BLPOP" then
    match args with [key; timeout] => run_blpop key timeout s | _ => refuses s "blpop" end
  else if command =b? lit "LLEN" then
    match args with [key] => replies (llen (now env) key s) (typed count)
                  | _ => refuses s "llen" end
  else if command =b? lit "LRANGE" then
    match args with
    | [key; start; stop] => run_range (lrange (now env) key) start stop s
    | _ => refuses s "lrange"
    end
  else None.

(** ** streams.rs *)

Definition invalid_id : Value :=
  Error (lit "ERR Invalid stream ID specified as stream command argument").

(** [encode_entry]. *)
Definition encode_entry (e : StreamEntry) : Value :=
  Array [BulkString (show_id (entry_id e));
         Array (flat_map (fun fv => [BulkString fv.1; BulkString fv.2]) (fields e))].

(** [encode_streams]. *)
Definition encode_streams (streams : list ReadStream) : Value :=
  match streams with
  | [] => NullArray
  | _ => Array (map (fun ks => Array [BulkString ks.1; Array (map encode_entry ks.2)]) streams)
  end.

(** [xadd] of commands/streams.rs. *)
Definition run_xadd (key id : Bytes) (fs : list Bytes) (s : State) : option Ran :=
  match (match text id with Some t => ok (parse_requested_id t) | None => None end) with
  | None => says s invalid_id
  | Some requested =>
      let '(s, woken, r) := xadd (clock env) (now env) key requested (pairs_of fs) s in
      Some (s, map Woken woken, Replied
        (match r with
         | Ok id => BulkString (show_id id)
         | Err XaddWrongType => wrong_type
         | Err NotAboveZero =>
             Error (lit "ERR The ID specified in XADD must be greater than 0-0")
         | Err NotAboveTop =>
             Error (lit "ERR The ID specified in XADD is equal or smaller than the target stream top item")
         end))
  end.

(** [parse_id]. *)
Definition parse_id (id : Bytes) (missing_sequence : Z) : option EntryId :=
  match split_once "-"%byte id with
  | Some (ms, sq) =>
      match ok (parse_u64 sq), ok (parse_u64 ms) with
      | Some sq, Some ms => Some {| milliseconds := ms; sequence := sq |}
      | _, _ => None
      end
  | None =>
      match ok (parse_u64 id) with
      | Some ms => Some {| milliseconds := ms; sequence := missing_sequence |}
      | None => None
      end
  end.

(** [parse_bound]. *)
Definition parse_bound (bound : Bytes) (missing_sequence : Z) : option EntryId :=
  match text bound with
  | None => None
  | Some id =>
      if id =b? lit "-" then Some ZERO
      else if id =b? lit "+" then Some MAX
      else parse_id id missing_sequence
  end.

(** [xrange] of commands/streams.rs. *)
Definition run_xrange (key start stop : Bytes) (s : State) : option Ran :=
  match parse_bound start 0, parse_bound stop U64_MAX with
  | Some start, Some stop =>
      match xrange (now env) key start stop s with
      | (s, Done r) => says s (typed (fun l => Array (map encode_entry l)) r)
      | (s, Panic) => Some (s, [], Panics)
      end
  | _, _ => says s invalid_id
  end.

(** How long an [XREAD] is willing to wait. *)
Inductive Wait : Type := NotAtAll | Until (deadline : Z) | Forever.

(** The keys and ids of [parse_xread]: [None] stands for [$]. *)
Definition pending_read (ki : Bytes * Bytes) : result (Bytes * option EntryId) Value :=
  match text ki.2 with
  | None => Err invalid_id
  | Some id =>
      if id =b? lit "$" then Ok (ki.1, None)
      else try? after <- ok_or (parse_id id 0) invalid_id; Ok (ki.1, Some after)
  end.

(** [parse_xread]. *)
Definition parse_xread (args : list Bytes) : result (Wait * list (Bytes * option EntryId)) Value :=
  try? wr <- (match args with
              | block :: ms :: rest =>
                  if eq_ignore_ascii_case block (lit "BLOCK") then
                    match (match text ms with Some t => ok (parse_u64 t) | None => None end) with
                    | None => Err (Error (lit "ERR timeout is not an integer or out of range"))
                    | Some 0 => Ok (Forever, rest)
                    | Some ms => Ok (Until (now env + ms * 1000000), rest)
                    end
                  else Ok (NotAtAll, args)
              | _ => Ok (NotAtAll, args)
              end);
  try? arguments <- (match wr.2 with
                     | [] => Err (wrong_arity "xread")
                     | streams :: arguments =>
                         if eq_ignore_ascii_case streams (lit "STREAMS") then Ok arguments
                         else Err syntax_error
                     end);
  if (match arguments with [] => true | _ => false end) || negb (Nat.even (length arguments)) then
    Err (Error (lit "ERR Unbalanced XREAD list of streams: for each stream key an ID or '$' must be specified."))
  else
    let half := (length arguments / 2)%nat in
    try? pending <- collect_results pending_read
                      (combine (take half arguments) (drop half arguments));
    Ok (wr.1, pending).

(** One round of the loop of [wait_for_entries]. *)
Definition wait_for_entries (reads : list (Bytes * EntryId)) (deadline : option Z) (s : State) : Ran :=
  match xread_or_watch (held env) (new_watcher env) (now env) reads s with
  | (s, Err WrongType) => (s, [], Replied wrong_type)
  | (s, Ok (StreamsReady streams)) => (s, [], Replied (encode_streams streams))
  | (s, Ok (StreamsWaiting waker)) =>
      match deadline with
      | Some d =>
          if d <? now env then (s, [], Replied NullArray)
          else (s, [], Blocks (AwaitEntries reads waker deadline))
      | None => (s, [], Blocks (AwaitEntries reads waker deadline))
      end
  end.

(** [xread] of commands/streams.rs, up to where it waits. *)
Definition run_xread (args : list Bytes) (s : State) : option Ran :=
  match parse_xread args with
  | Err e => says s e
  | Ok (wait, pending) =>
      match resolve_reads (now env) pending s with
      | (s, Err WrongType) => says s wrong_type
      | (s, Ok reads) =>
          match wait with
          | NotAtAll => replies (xread (now env) reads s) (typed encode_streams)
          | Forever => Some (wait_for_entries reads None s)
          | Until deadline => Some (wait_for_entries reads (Some deadline) s)
          end
      end
  end.

(** [streams::run]. *)
Definition streams_run (command : Bytes) (args : list Bytes) (s : State) : option Ran :=
  if command =b? lit "XADD" then
    match args with
    | key :: id :: fs =>
        if negb (Nat.eqb (length fs) 0) && Nat.even (length fs) then run_xadd key id fs s
        else refuses s "xadd"
    | _ => refuses s "xadd"
    end
  else if command =b? lit "XRANGE" then
    match args with [key; start; stop] => run_xrange key start stop s | _ => refuses s "xrange" end
  else if command =b? lit "XREAD" then run_xread args s
  else None.

(** What a client that was left waiting goes on with: a woken [XREAD] reads
    again, and a wait that has gone on long enough answers with nothing. *)
Definition resume_entries (reads : list (Bytes * EntryId)) (deadline : option Z) (s : State) : Ran :=
  wait_for_entries reads deadline s.

(** ** sorted_sets.rs *)

(** [score] of commands/sorted_sets.rs. *)
Definition parse_score (score : Bytes) : result f64 Value :=
  match (match text score with Some t => parse_f64 t | None => None end) with
  | Some x => if is_nan x then Err not_a_float else Ok x
  | None => Err not_a_float
  end.

(** [members]. *)
Definition parse_members (scored : list Bytes) : result (list (f64 * Bytes)) Value :=
  if negb (Nat.even (length scored)) then Err syntax_error
  else collect_results (fun pair => try? x <- parse_score pair.1; Ok (x, pair.2)) (pairs_of scored).

(** [add] of commands/sorted_sets.rs. *)
Definition run_zadd (key : Bytes) (scored : list Bytes) (s : State) : option Ran :=
  match parse_members scored with
  | Err e => says s e
  | Ok members => replies (zadd (now env) key members s) (typed count)
  end.

(** [sorted_sets::run]. *)
Definition sorted_sets_run (command : Bytes) (args : list Bytes) (s : State) : option Ran :=
  if command =b? lit "ZADD" then
    match args with
    | key :: scored => match scored with [] => refuses s "zadd" | _ => run_zadd key scored s end
    | _ => refuses s "zadd"
    end
  else if command =b? lit "ZRANK" then
    match args with
    | [key; member] =>
        replies (zrank (now env) key member s) (typed (fun r =>
          match r with Some rank => Integer (as_i64 (Z.of_nat rank)) | None => Null end))
    | _ => refuses s "zrank"
    end
  else if command =b? lit "ZREM" then
    match args with
    | key :: members =>
        match members with
        | [] => refuses s "zrem"
        | _ => replies (zrem (now env) key members s) (typed count)
        end
    | _ => refuses s "zrem"
    end
  else if command =b? lit "ZSCORE" then
    match args with
    | [key; member] =>
        replies (zscore (now env) key member s) (typed (fun r => or_null (show_f64 <$> r)))
    | _ => refuses s "zscore"
    end
  else if command =b? lit "ZCARD" then
    match args with [key] => replies (zcard (now env) key s) (typed count)
                  | _ => refuses s "zcard" end
  else if command =b? lit "ZRANGE" then
    match args with
    | [key; start; stop] => run_range (zrange (now env) key) start stop s
    | _ => refuses s "zrange"
    end
  else None.

End StoreCommands.
