(* ===== verification/Geo.v ===== *)
(** * Places on the earth: src/src/commands/geo.rs

    A place is kept in a sorted set under a score woven from the two squares it
    falls in.  The arithmetic is that of 64-bit floats and of unsigned integers
    that wrap as a release build's do; the sine, the cosine and the arc sine are
    the platform's, and are parameters ([Trig]).  How near a place what is kept of it is,
    is in [Places]. *)
From S2P Require Import Prelude Text Resp F64 Store StoreSortedSets Command StoreCommands.
Open Scope Z_scope.

Class Trig := { sin : f64 -> f64; cos : f64 -> f64; asin : f64 -> f64 }.

Definition PER_LOCATION : nat := 3.
Definition BITS : Z := 26.

(** A range of coordinates, both ends included. *)
Record Range := { range_start : f64; range_end : f64 }.
Definition LONGITUDES : Range := {| range_start := read_f64 "-180"; range_end := read_f64 "180" |}.
Definition LATITUDES : Range :=
  {| range_start := read_f64 "-85.05112878"; range_end := read_f64 "85.05112878" |}.
Definition contains (r : Range) (x : f64) : bool := f_le (range_start r) x && f_le x (range_end r).

Definition EARTH_RADIUS : f64 := read_f64 "6372797.560856".
Definition METRES : f64 := read_f64 "1".

(** Where a location is. *)
Record Point := { longitude : f64; latitude : f64 }.

(** ** The weave of two numbers into one *)

Definition SPREADS : list (Z * Z) :=
  [(16, 0x0000FFFF0000FFFF); (8, 0x00FF00FF00FF00FF); (4, 0x0F0F0F0F0F0F0F0F);
   (2, 0x3333333333333333); (1, 0x5555555555555555)].
Definition GATHERS : list (Z * Z) :=
  [(1, 0x3333333333333333); (2, 0x0F0F0F0F0F0F0F0F); (4, 0x00FF00FF00FF00FF);
   (8, 0x0000FFFF0000FFFF); (16, 0x00000000FFFFFFFF)].

(** [spread]. *)
Definition spread (value : Z) : Z :=
  fold_left (fun sp '(shift, keep) => Z.land (Z.lor sp (wrap_u64 (Z.shiftl sp shift))) keep)
    SPREADS value.

(** [gather]. *)
Definition gather (woven : Z) : Z :=
  wrap_u32 (fold_left (fun g '(shift, keep) => Z.land (Z.lor g (Z.shiftr g shift)) keep)
    GATHERS (Z.land woven 0x5555555555555555)).

(** [spread(north) | (spread(east) << 1)]. *)
Definition weave (north east : Z) : Z :=
  Z.lor (spread north) (wrap_u64 (Z.shiftl (spread east) 1)).

(** ** Squares and places *)

(** [squares_along]. *)
Definition squares_along (coordinate : f64) (r : Range) : Z :=
  let along := f_div (f_sub coordinate (range_start r)) (f_sub (range_end r) (range_start r)) in
  as_u32 (f_mul along (f_of_Z (2 ^ BITS))).

(** [score] of commands/geo.rs. *)
Definition place_score (p : Point) : f64 :=
  f_of_Z (weave (squares_along (latitude p) LATITUDES) (squares_along (longitude p) LONGITUDES)).

(** [f64::midpoint]. *)
Definition f_abs (x : f64) : f64 := SFabs x.
Definition HALF_MAX : f64 := S754_finite false (2 ^ 53 - 1) 970.
Definition TWICE_MIN_POSITIVE : f64 := S754_finite false (2 ^ 52) (-1073).
Definition midpoint (a b : f64) : f64 :=
  let two := f_of_Z 2 in
  if f_le (f_abs a) HALF_MAX && f_le (f_abs b) HALF_MAX then f_div (f_add a b) two
  else if f_lt (f_abs a) TWICE_MIN_POSITIVE then f_add a (f_div b two)
  else if f_lt (f_abs b) TWICE_MIN_POSITIVE then f_add (f_div a two) b
  else f_add (f_div a two) (f_div b two).

(** [middle_of]: [square + 1] wraps, as it does in a release build. *)
Definition middle_of (square : Z) (r : Range) : f64 :=
  let span := f_sub (range_end r) (range_start r) in
  let squares := f_of_Z (2 ^ BITS) in
  let low := f_add (range_start r) (f_mul span (f_div (f_of_Z square) squares)) in
  let high := f_add (range_start r) (f_mul span (f_div (f_of_Z (wrap_u32 (square + 1))) squares)) in
  midpoint low high.

(** [decode]. *)
Definition decode (score : f64) : Point :=
  let woven := as_u64 score in
  {| longitude := middle_of (gather (Z.shiftr woven 1)) LONGITUDES;
     latitude := middle_of (gather woven) LATITUDES |}.

Section GeoCommands.
Context `{UnicodeTables} `{Trig} (env : Env).

(** [f64::to_radians] and [powi(2)]. *)
Definition to_radians (x : f64) : f64 :=
  f_mul x (f_div (read_f64 "3.14159265358979323846264338327950288") (f_of_Z 180)).
Definition squared (x : f64) : f64 := f_mul x x.

(** [apart]. *)
Definition apart (from to : Point) : f64 :=
  let two := f_of_Z 2 in
  let east := f_div (f_sub (to_radians (longitude to)) (to_radians (longitude from))) two in
  let north := f_div (f_sub (to_radians (latitude to)) (to_radians (latitude from))) two in
  let haversine :=
    f_add (squared (sin north))
      (f_mul (f_mul (cos (to_radians (latitude from))) (cos (to_radians (latitude to))))
         (squared (sin east))) in
  f_mul (f_mul two EARTH_RADIUS) (asin (f_sqrt haversine)).

(** [coordinate]. *)
Definition parse_coordinate (coordinate : Bytes) : option f64 :=
  match (match text coordinate with Some t => parse_f64 t | None => None end) with
  | Some x => if is_nan x then None else Some x
  | None => None
  end.

(** [out_of_range]. *)
Definition out_of_range (lon lat : f64) : Value :=
  Error (lit "ERR invalid longitude,latitude pair " ++ show_fixed 6 lon ++ lit "," ++ show_fixed 6 lat).

(** [point]. *)
Definition point (lon lat : Bytes) : result Point Value :=
  match parse_coordinate lon, parse_coordinate lat with
  | Some lon, Some lat =>
      if contains LONGITUDES lon && contains LATITUDES lat
      then Ok {| longitude := lon; latitude := lat |}
      else Err (out_of_range lon lat)
  | _, _ => Err not_a_float
  end.

(** [written] of commands/geo.rs. *)
Definition written_coordinate (x : f64) : Bytes :=
  trim_end_matches "."%byte (trim_end_matches "0"%byte (show_fixed 17 x)).

(** [position]. *)
Definition position (score : f64) : Value :=
  let p := decode score in
  Array [BulkString (written_coordinate (longitude p)); BulkString (written_coordinate (latitude p))].

Definition unsupported_unit : Value :=
  Error (lit "ERR unsupported unit provided. please use M, KM, FT, MI").

(** [measure]. *)
Definition measure (unit : Bytes) : result f64 Value :=
  match to_lowercase <$> text unit with
  | Some u =>
      if u =b? lit "m" then Ok METRES
      else if u =b? lit "km" then Ok (read_f64 "1000")
      else if u =b? lit "mi" then Ok (read_f64 "1609.34")
      else if u =b? lit "ft" then Ok (read_f64 "0.3048")
      else Err unsupported_unit
  | None => Err unsupported_unit
  end.

(** [add] of commands/geo.rs. *)
Definition geoadd (key : Bytes) (located : list Bytes) (s : State) : option Ran :=
  if negb (Nat.eqb (Nat.modulo (length located) PER_LOCATION) 0) then says s syntax_error
  else
    match collect_results (fun '(lon, lat, place) =>
            try? p <- point lon lat; Ok (place_score p, place)) (triples_of located) with
    | Err e => says s e
    | Ok members => replies (zadd (now env) key members s) (typed count)
    end.

(** [positions]: the answers are gathered until one finds the key to be of
    another type. *)
Fixpoint positions (key : Bytes) (places : list Bytes) (found : list Value) (s : State)
  : option Ran :=
  match places with
  | [] => says s (Array found)
  | place :: places =>
      match zscore (now env) key place s with
      | (s, Err WrongType) => says s wrong_type
      | (s, Ok (Some score)) => positions key places (found ++ [position score]) s
      | (s, Ok None) => positions key places (found ++ [NullArray]) s
      end
  end.

(** [distance]. *)
Definition geodist (key from to : Bytes) (unit : option Bytes) (s : State) : option Ran :=
  match (match unit with Some u => measure u | None => Ok METRES end) with
  | Err e => says s e
  | Ok unit =>
      let '(s, from) := zscore (now env) key from s in
      let '(s, to) := zscore (now env) key to s in
      match from, to with
      | Ok (Some from), Ok (Some to) =>
          says s (BulkString (show_fixed 4 (f_div (apart (decode from) (decode to)) unit)))
      | Err WrongType, _ | _, Err WrongType => says s wrong_type
      | _, _ => says s Null
      end
  end.

(** What a search is looking for. *)
Record Search := { centre : Point; radius : f64 }.

(** The loop of [search_for]. *)
Fixpoint search_terms (fuel : nat) (terms : list Bytes) (c : option Point) (r : option f64)
  : result (option Point * option f64) Value :=
  match fuel, terms with
  | _, [] => Ok (c, r)
  | O, _ => Ok (c, r)
  | S fuel, term :: terms =>
      match to_uppercase <$> text term with
      | Some t =>
          if t =b? lit "FROMLONLAT" then
            match terms with
            | lon :: lat :: terms => try? p <- point lon lat; search_terms fuel terms (Some p) r
            | _ => Err syntax_error
            end
          else if t =b? lit "BYRADIUS" then
            match terms with
            | distance :: unit :: terms =>
                try? d <- ok_or (parse_coordinate distance) not_a_float;
                try? u <- measure unit;
                search_terms fuel terms c (Some (f_mul d u))
            | _ => Err syntax_error
            end
          else Err syntax_error
      | None => Err syntax_error
      end
  end.

(** [search_for]: each round uses up a word at least. *)
Definition search_for (terms : list Bytes) : result Search Value :=
  try? cr <- search_terms (length terms) terms None None;
  match cr with
  | (Some c, Some r) => Ok {| centre := c; radius := r |}
  | _ => Err syntax_error
  end.

(** [search]. *)
Definition geosearch (key : Bytes) (terms : list Bytes) (s : State) : option Ran :=
  match search_for terms with
  | Err e => says s e
  | Ok search =>
      replies (zmembers (now env) key s) (typed (fun places =>
        bulks (map fst
          (List.filter (fun ps => f_le (apart (centre search) (decode ps.2)) (radius search)) places))))
  end.

(** [geo::run]. *)
Definition geo_run (command : Bytes) (args : list Bytes) (s : State) : option Ran :=
  if command =b? lit "GEOADD" then
    match args with
    | key :: located =>
        if (PER_LOCATION <=? length located)%nat then geoadd key located s else refuses s "geoadd"
    | _ => refuses s "geoadd"
    end
  else if command =b? lit "GEOPOS" then
    match args with
    | key :: places =>
        match places with [] => refuses s "geopos" | _ => positions key places [] s end
    | _ => refuses s "geopos"
    end
  else if command =b? lit "GEODIST" then
    match args with
    | [key; from; to] => geodist key from to None s
    | [key; from; to; unit] => geodist key from to (Some unit) s
    | _ => refuses s "geodist"
    end
  else if command =b? lit "GEOSEARCH" then
    match args with
    | key :: terms => match terms with [] => refuses s "geosearch" | _ => geosearch key terms s end
    | _ => refuses s "geosearch"
    end
  else None.

End GeoCommands.

(** ** The weave is undone exactly

    Spreading and gathering both distribute over [Z.lor], so that what they do
    to a number is what they do to its bits one by one; and there are only 32
    bits to look at. *)
Definition distributes (f : Z -> Z) : Prop := forall a b, f (Z.lor a b) = Z.lor (f a) (f b).

Lemma wrap_u64_land z : wrap_u64 z = Z.land z (Z.ones 64).
Proof. rewrite Z.land_ones by lia. done. Qed.

Lemma wrap_u32_land z : wrap_u32 z = Z.land z (Z.ones 32).
Proof. rewrite Z.land_ones by lia. done. Qed.

Lemma distributes_id : distributes (fun x => x).
Proof. by intros a b. Qed.

Lemma distributes_land f m : distributes f -> distributes (fun x => Z.land (f x) m).
Proof. intros H a b. by rewrite H, Z.land_lor_distr_l. Qed.

Lemma distributes_lor f g : distributes f -> distributes g -> distributes (fun x => Z.lor (f x) (g x)).
Proof.
  intros Hf Hg a b. rewrite Hf, Hg. rewrite <- !Z.lor_assoc. f_equal.
  rewrite !Z.lor_assoc. f_equal. apply Z.lor_comm.
Qed.

Lemma distributes_shiftl f k : distributes f -> distributes (fun x => Z.shiftl (f x) k).
Proof. intros H a b. by rewrite H, Z.shiftl_lor. Qed.

Lemma distributes_shiftr f k : distributes f -> distributes (fun x => Z.shiftr (f x) k).
Proof. intros H a b. by rewrite H, Z.shiftr_lor. Qed.

Lemma distributes_wrap f : distributes f -> distributes (fun x => wrap_u64 (f x)).
Proof. intros H a b. rewrite !wrap_u64_land. by apply (distributes_land f). Qed.

Lemma distributes_wrap32 f : distributes f -> distributes (fun x => wrap_u32 (f x)).
Proof. intros H a b. rewrite !wrap_u32_land. by apply (distributes_land f). Qed.

Lemma distributes_spread f : distributes f -> distributes (fun x => spread (f x)).
Proof.
  intros H. unfold spread. revert f H. induction SPREADS as [|[k m] l IH]; intros f H; cbn [fold_left]; [done|].
  apply (IH (fun x => Z.land (Z.lor (f x) (wrap_u64 (Z.shiftl (f x) k))) m)).
  by apply distributes_land, distributes_lor, distributes_wrap, distributes_shiftl.
Qed.

Lemma distributes_gather f : distributes f -> distributes (fun x => gather (f x)).
Proof.
  intros H0. unfold gather.
  apply (distributes_wrap32 (fun x => fold_left _ GATHERS (Z.land (f x) 0x5555555555555555))).
  pose proof (distributes_land f 0x5555555555555555 H0) as H. cbv beta in H. revert H.
  change (fun x => fold_left ?g GATHERS (Z.land (f x) 0x5555555555555555))
    with (fun x => fold_left g GATHERS ((fun x => Z.land (f x) 0x5555555555555555) x)).
  generalize (fun x => Z.land (f x) 0x5555555555555555). clear f H0. intros f H. revert f H.
  induction GATHERS as [|[k m] l IH]; intros f H; cbn [fold_left]; [done|].
  apply (IH (fun x => Z.land (Z.lor (f x) (Z.shiftr (f x) k)) m)).
  by apply distributes_land, distributes_lor, distributes_shiftr.
Qed.

(** The bits of a number below [2^n], one at a time. *)
Definition bit_of (v : Z) (i : nat) : Z := if Z.testbit v (Z.of_nat i) then 2 ^ Z.of_nat i else 0.
Definition bits_of (n : nat) (v : Z) : Z := fold_right (fun i acc => Z.lor (bit_of v i) acc) 0 (seq 0 n).

Lemma bits_of_testbit v start n j :
  0 <= j ->
  Z.testbit (fold_right (fun i acc => Z.lor (bit_of v i) acc) 0 (seq start n)) j
  = (Z.of_nat start <=? j) && (j <? Z.of_nat (start + n)) && Z.testbit v j.
Proof.
  intros Hj. revert start; induction n as [|n IH]; intros start; cbn [seq fold_right].
  - rewrite Z.bits_0. destruct (Z.leb_spec (Z.of_nat start) j), (Z.ltb_spec j (Z.of_nat (start + 0)));
      cbn; done || lia.
  - rewrite Z.lor_spec, IH. unfold bit_of.
    destruct (Z.eq_dec (Z.of_nat start) j) as [<-|Hne].
    + destruct (Z.testbit v (Z.of_nat start)) eqn:E; cbn.
      * rewrite Z.pow2_bits_true by lia. decide_leb. done.
      * rewrite Z.bits_0. by rewrite !andb_false_r.
    + assert (Z.testbit (if Z.testbit v (Z.of_nat start) then 2 ^ Z.of_nat start else 0) j = false) as ->
        by (case_match; [apply Z.pow2_bits_false; lia|apply Z.bits_0]).
      cbn [orb]. f_equal. f_equal; apply eq_true_iff_eq; rewrite ?Z.leb_le, ?Z.ltb_lt; lia.
Qed.

Lemma bits_of_id n v : 0 <= v < 2 ^ Z.of_nat n -> bits_of n v = v.
Proof.
  intros Hv. apply Z.bits_inj'. intros j Hj. unfold bits_of. rewrite bits_of_testbit by done.
  destruct (Z.ltb_spec j (Z.of_nat (0 + n))) as [|Hn]; cbn [andb].
  - by decide_leb.
  - rewrite andb_false_r. cbn. symmetry. destruct (Z.eq_dec v 0) as [->|]; [apply Z.bits_0|].
    apply Z.bits_above_log2; [lia|]. apply Z.log2_lt_pow2; [lia|].
    apply Z.lt_le_trans with (2 ^ Z.of_nat n); [lia|]. apply Z.pow_le_mono_r; lia.
Qed.

(** Two functions that distribute and agree on single bits agree. *)
Lemma distributes_ext (f g : Z -> Z) n v :
  distributes f -> distributes g -> f 0 = g 0 ->
  (forall i, (i < n)%nat -> f (2 ^ Z.of_nat i) = g (2 ^ Z.of_nat i)) ->
  0 <= v < 2 ^ Z.of_nat n -> f v = g v.
Proof.
  intros Hf Hg H0 Hb Hv. rewrite <- (bits_of_id n v Hv). unfold bits_of.
  assert (forall i, i ∈ seq 0 n -> f (2 ^ Z.of_nat i) = g (2 ^ Z.of_nat i)) as Hb'
    by (intros i [_ Hi]%elem_of_seq; apply Hb; lia).
  clear Hb Hv. revert Hb'. generalize (seq 0 n). intros l Hl.
  induction l as [|i l IH]; cbn; [done|]. rewrite Hf, Hg, IH by set_solver.
  f_equal. unfold bit_of. case_match; [apply Hl; set_solver|done].
Qed.

Lemma forall_below (p : nat -> bool) n :
  forallb p (seq 0 n) = true -> forall i, (i < n)%nat -> p i = true.
Proof. intros H i Hi. rewrite forallb_forall in H. apply H, in_seq. lia. Qed.

Lemma gather_spread v : 0 <= v < 2 ^ 32 -> gather (spread v) = v.
Proof.
  intros Hv. apply (distributes_ext (fun v => gather (spread v)) (fun v => v) 32); [|done|done| |done].
  - apply distributes_gather, distributes_spread, distributes_id.
  - intros i Hi. apply Z.eqb_eq.
    apply (forall_below (fun i => gather (spread (2 ^ Z.of_nat i)) =? 2 ^ Z.of_nat i) 32);
      [vm_compute; reflexivity|done].
Qed.

Lemma gather_spread_odd v : 0 <= v < 2 ^ 32 -> gather (wrap_u64 (Z.shiftl (spread v) 1)) = 0.
Proof.
  intros Hv.
  apply (distributes_ext (fun v => gather (wrap_u64 (Z.shiftl (spread v) 1))) (fun _ => 0) 32);
    [|done|done| |done].
  - apply distributes_gather, distributes_wrap, distributes_shiftl, distributes_spread, distributes_id.
  - intros i Hi. apply Z.eqb_eq.
    apply (forall_below (fun i => gather (wrap_u64 (Z.shiftl (spread (2 ^ Z.of_nat i)) 1)) =? 0) 32);
      [vm_compute; reflexivity|done].
Qed.

Lemma gather_shifted v : 0 <= v < 2 ^ 32 -> gather (Z.shiftr (spread v) 1) = 0.
Proof.
  intros Hv. apply (distributes_ext (fun v => gather (Z.shiftr (spread v) 1)) (fun _ => 0) 32);
    [|done|done| |done].
  - apply distributes_gather, distributes_shiftr, distributes_spread, distributes_id.
  - intros i Hi. apply Z.eqb_eq.
    apply (forall_below (fun i => gather (Z.shiftr (spread (2 ^ Z.of_nat i)) 1) =? 0) 32);
      [vm_compute; reflexivity|done].
Qed.

Lemma gather_shifted_odd v :
  0 <= v < 2 ^ 32 -> gather (Z.shiftr (wrap_u64 (Z.shiftl (spread v) 1)) 1) = v.
Proof.
  intros Hv.
  apply (distributes_ext (fun v => gather (Z.shiftr (wrap_u64 (Z.shiftl (spread v) 1)) 1)) (fun v => v) 32);
    [|done|done| |done].
  - apply distributes_gather, distributes_shiftr, distributes_wrap, distributes_shiftl,
      distributes_spread, distributes_id.
  - intros i Hi. apply Z.eqb_eq.
    apply (forall_below (fun i => gather (Z.shiftr (wrap_u64 (Z.shiftl (spread (2 ^ Z.of_nat i)) 1)) 1)
                                  =? 2 ^ Z.of_nat i) 32); [vm_compute; reflexivity|done].
Qed.

Lemma gather_lor a b : gather (Z.lor a b) = Z.lor (gather a) (gather b).
Proof. apply (distributes_gather _ distributes_id). Qed.

(** The two squares of a place come back out of its score's weave as they went
    in, whatever two 32-bit numbers they are. *)
Lemma weave_undone north east :
  0 <= north < 2 ^ 32 -> 0 <= east < 2 ^ 32 ->
  gather (weave north east) = north /\ gather (Z.shiftr (weave north east) 1) = east
  /\ 0 <= weave north east <= U64_MAX.
Proof.
  intros Hn He. unfold weave. rewrite Z.shiftr_lor, !gather_lor.
  rewrite gather_spread, gather_spread_odd, gather_shifted, gather_shifted_odd by done.
  rewrite Z.lor_0_r. split_and!; [done|done| |].
  - apply Z.lor_nonneg. split; [|rewrite wrap_u64_land; apply Z.land_nonneg; right; done].
    unfold spread. cbn [SPREADS fold_left]. apply Z.land_nonneg. by right.
  - assert (Hb : forall a, Z.land a (Z.ones 64) = a -> 0 <= a < 2 ^ 64).
    { intros a <-. rewrite Z.land_ones by lia. apply Z.mod_pos_bound. lia. }
    assert (Z.lor (spread north) (wrap_u64 (Z.shiftl (spread east) 1)) < 2 ^ 64);
      [|unfold U64_MAX; lia].
    apply Hb. rewrite Z.land_lor_distr_l. f_equal.
    + unfold spread. cbn [SPREADS fold_left]. rewrite <- Z.land_assoc. f_equal.
    + rewrite wrap_u64_land, <- Z.land_assoc. f_equal.
Qed.

Lemma below_land k z : 0 <= k -> (0 <= z < 2 ^ k <-> Z.land z (Z.ones k) = z).
Proof.
  intros Hk. rewrite Z.land_ones by done. split; [apply Z.mod_small|].
  intros <-. apply Z.mod_pos_bound. lia.
Qed.

(** What distributes stays below a bound its bits stay below. *)
Lemma distributes_below f n k v :
  distributes f -> f 0 = 0 -> 0 <= k ->
  forallb (fun i => Z.land (f (2 ^ Z.of_nat i)) (Z.ones k) =? f (2 ^ Z.of_nat i)) (seq 0 n) = true ->
  0 <= v < 2 ^ Z.of_nat n -> 0 <= f v < 2 ^ k.
Proof.
  intros Hf H0 Hk Hb Hv. apply below_land; [done|].
  apply (distributes_ext (fun v => Z.land (f v) (Z.ones k)) f n); [|done| | |done].
  - by apply distributes_land.
  - by rewrite H0, Z.land_0_l.
  - intros i Hi. apply Z.eqb_eq. by apply (forall_below _ n Hb).
Qed.

(** The squares a place falls in are on the grid, of which the far edge of the
    longitudes is one square too many: its score takes a bit more than a double
    has. *)
Definition on_grid (p : Point) : Prop :=
  squares_along (latitude p) LATITUDES <= 2 ^ BITS
  /\ squares_along (longitude p) LONGITUDES < 2 ^ BITS.

Lemma as_u32_range x : 0 <= as_u32 x <= U32_MAX.
Proof. unfold as_u32, saturate, U32_MAX. destruct x as [|[]| |]; lia. Qed.

Lemma score_exact p :
  on_grid p ->
  as_u64 (place_score p)
  = weave (squares_along (latitude p) LATITUDES) (squares_along (longitude p) LONGITUDES).
Proof.
  unfold on_grid, place_score, squares_along. pose proof as_u32_range as H.
  set (north := as_u32 _). set (east := as_u32 _). intros [Hn He]. unfold BITS in *.
  assert (0 <= north /\ 0 <= east) as [Hn0 He0] by (split; apply H).
  clearbody north east. apply as_u64_exact. unfold weave.
  assert (0 <= spread north < 2 ^ 53) as Hn'.
  { apply (distributes_below spread 27); [apply (distributes_spread _ distributes_id)|done|done|by vm_compute|lia]. }
  assert (0 <= wrap_u64 (Z.shiftl (spread east) 1) < 2 ^ 53) as He'.
  { apply (distributes_below (fun v => wrap_u64 (Z.shiftl (spread v) 1)) 26);
      [|done|done|by vm_compute|lia].
    apply distributes_wrap, distributes_shiftl, distributes_spread, distributes_id. }
  apply below_land in Hn', He'; [|done..]. apply below_land; [done|].
  by rewrite Z.land_lor_distr_l, Hn', He'.
Qed.

Lemma decode_place p :
  on_grid p ->
  decode (place_score p)
  = {| longitude := middle_of (squares_along (longitude p) LONGITUDES) LONGITUDES;
       latitude := middle_of (squares_along (latitude p) LATITUDES) LATITUDES |}.
Proof.
  intros Hp. unfold decode. rewrite score_exact by done.
  assert (forall c r, 0 <= squares_along c r < 2 ^ 32) as Hs.
  { intros c r. pose proof (as_u32_range (f_mul
      (f_div (f_sub c (range_start r)) (f_sub (range_end r) (range_start r))) (f_of_Z (2 ^ BITS)))) as H.
    unfold squares_along, U32_MAX in *. lia. }
  destruct (weave_undone (squares_along (latitude p) LATITUDES)
    (squares_along (longitude p) LONGITUDES)) as (-> & -> & _); done.
Qed.

(** ** Places kept and found again *)
Section Kept.
Context `{UnicodeTables} `{Trig}.

Lemma located_ok (located : list (Bytes * Bytes * Bytes)) members :
  collect_results (fun '(lon, lat, place) =>
    try? p <- point lon lat; Ok (place_score p, place)) located = Ok members ->
  Forall (fun m : f64 * Bytes => is_nan m.1 = false) members.
Proof.
  revert members; induction located as [|[[lon lat] place] l IH]; intros members; cbn; [by intros [= <-]|].
  intros (m & (p & _ & [= <-])%rbind_Ok & (ms & Hms & [= <-])%rbind_Ok)%rbind_Ok.
  constructor; [|by apply IH]. apply f_of_Z_number.
Qed.

Lemma point_error lon lat e : point lon lat = Err e -> exists text, e = Error text.
Proof. unfold point. repeat case_match; try done; intros [= <-]; by eexists. Qed.

Lemma located_points (located : list (Bytes * Bytes * Bytes)) (members : list (f64 * Bytes)) :
  collect_results (fun '(lon, lat, place) =>
    try? p <- point lon lat; Ok (place_score p, place)) located = Ok members ->
  exists points, Forall2 (fun t p => point t.1.1 t.1.2 = Ok p) located points
                 /\ members = zip (map place_score points) (map snd located).
Proof.
  intros Hm%collect_results_Ok. induction Hm as [|[[lon lat] place] m l ms Hm _ (points & Hp & ->)].
  - by exists [].
  - apply rbind_Ok in Hm as (p & Hp' & [= <-]). exists (p :: points). by split; [constructor|].
Qed.

(** What [GEOPOS] says of a place, going by the scores of a key. *)
Definition answer_from (kept : gmap Bytes f64) (place : Bytes) : Value :=
  match kept !! place with Some score => position score | None => NullArray end.

Lemma positions_answer env key places found s set :
  keeps s key set ->
  positions env key places found s
  = says s (Array (found ++ map (answer_from (scores set)) places)).
Proof.
  intros Hk. revert found; induction places as [|place places IH]; intros found; cbn [positions map].
  - by rewrite app_nil_r.
  - rewrite (zscore_kept _ _ _ _ _ Hk), score_of_scores. unfold answer_from at 1.
    destruct (scores set !! place); rewrite IH, <- app_assoc; done.
Qed.

End Kept.

(** Plain stand-ins to try things with. *)
Definition plain_tables : UnicodeTables :=
  {| unicode_upper := map ascii_upper; unicode_lower := map ascii_lower |}.
Definition plain_trig : Trig := {| sin := fun x => x; cos := fun x => x; asin := fun x => x |}.

Definition moments_past (t : Z) : Env :=
  {| now := t; clock := t; open := fun _ => true; closed := fun _ => false; held := fun _ => true;
     new_waiter := 0; new_watcher := 0 |}.

(** The source's own tests: places scored the way Redis scores them, and a place
    read back out of its score. *)
Definition scored (lon lat : string) : f64 :=
  place_score {| longitude := read_f64 lon; latitude := read_f64 lat |}.
Example scored_tests :
  map show_f64 [scored "2.2944692" "48.8584625"; scored "-0.1277583" "51.5073509";
                scored "180" "85.05112878"]
  = [lit "3663832614298053"; lit "2163557714754256"; lit "13510798882111488"].
Proof. vm_compute. reflexivity. Qed.
Example decoded_test :
  let p := decode (read_f64 "3663832614298053") in
  (written_coordinate (longitude p), written_coordinate (latitude p))
  = (lit "2.29447156190872192", lit "48.85846255040141273").
Proof. vm_compute. reflexivity. Qed.
