(* ===== verification/Places.v ===== *)
(** * What a place is kept as is where it was

    The squares of src/src/commands/geo.rs judged by the real numbers: a coordinate
    falls in a square ([squares_along]) whose middle ([middle_of]) is no further from it
    than half a square, and what the arithmetic of doubles loses on the way
    ([middle_close]).  So what [GEOADD] was given [GEOPOS] gives back, to within half a
    square, in decimals ([geoadd_geopos]). *)
From Stdlib Require Import Reals Lra.
From S2P Require Import Prelude Text Resp F64 Rounding Decimals Store StoreSortedSets Command StoreCommands Geo.
Open Scope R_scope.

(** A part in [2^50]. *)
Abbreviation eps := (/ 1125899906842624).

Lemma near_close r y b : near r y -> Rabs y <= b -> Rabs (real r - y) <= (b + 1) * eps.
Proof.
  intros [_ Hn] Hy. assert (pow2 (-1074) <= / 36028797018963968) as Ht.
  { replace (/ 36028797018963968) with (pow2 (- (55))) by (by rewrite pow2_neg by lia). apply pow2_le. lia. }
  lra.
Qed.

Lemma big_enough b : b <= 1024 * 1024 * 1024 -> b <= pow2 900.
Proof.
  intros Hb. apply Rle_trans with (pow2 30); [rewrite pow2_IZR by lia|apply pow2_le; lia].
  change (2 ^ 30)%Z with 1073741824%Z. lra.
Qed.

(** Each operation, on numbers that are not large. *)
Section Close.
Context (a b : f64) (Ha : finite a = true) (Hb : finite b = true) (x y : R).

Lemma sub_close bound : Rabs (real a - real b) <= bound -> bound <= 1000000 ->
  finite (f_sub a b) = true /\ Rabs (real (f_sub a b) - (real a - real b)) <= (bound + 1) * eps.
Proof.
  intros Hs Hm. assert (near (f_sub a b) (real a - real b)) as Hn by (apply f_sub_near; try done; apply big_enough; lra).
  split; [apply Hn|by apply near_close].
Qed.
Lemma add_close bound : Rabs (real a + real b) <= bound -> bound <= 1000000 ->
  finite (f_add a b) = true /\ Rabs (real (f_add a b) - (real a + real b)) <= (bound + 1) * eps.
Proof.
  intros Hs Hm. assert (near (f_add a b) (real a + real b)) as Hn by (apply f_add_near; try done; apply big_enough; lra).
  split; [apply Hn|by apply near_close].
Qed.
Lemma mul_close bound : Rabs (real a * real b) <= bound -> bound <= 100000000 ->
  finite (f_mul a b) = true /\ Rabs (real (f_mul a b) - real a * real b) <= (bound + 1) * eps.
Proof.
  intros Hs Hm. assert (near (f_mul a b) (real a * real b)) as Hn by (apply f_mul_near; try done; apply big_enough; lra).
  split; [apply Hn|by apply near_close].
Qed.
Lemma div_close bound : real b <> 0 -> Rabs (real a / real b) <= bound -> bound <= 1000000 ->
  finite (f_div a b) = true /\ Rabs (real (f_div a b) - real a / real b) <= (bound + 1) * eps.
Proof.
  intros H0 Hs Hm. assert (near (f_div a b) (real a / real b)) as Hn by (apply f_div_near; try done; apply big_enough; lra).
  split; [apply Hn|by apply near_close].
Qed.
End Close.

Lemma scaled s top x e : 0 <= s <= top -> - e <= x <= e -> - (top * e) <= s * x <= top * e.
Proof. intros Hs Hx. split; nra. Qed.

(** ** One of the two axes: from [-half] to [half] *)
Section Axis.
Context (r : Range) (half : R).
Context (Hstart : finite (range_start r) = true) (Estart : real (range_start r) = - half).
Context (Hspan : finite (f_sub (range_end r) (range_start r)) = true)
  (Espan : real (f_sub (range_end r) (range_start r)) = 2 * half).
Context (Hhalf : 85 <= half <= 180).

Abbreviation SQUARES := 67108864.

Lemma real_SQUARES : finite (f_of_Z (2 ^ BITS)) = true /\ real (f_of_Z (2 ^ BITS)) = SQUARES.
Proof. apply real_of_Z. split; by vm_compute. Qed.

(** How far along a coordinate is, in squares. *)
Lemma along_close c :
  finite c = true -> - half <= real c <= half ->
  let u := (real c + half) / (2 * half) in
  0 <= u <= 1 /\ IZR (squares_along c r) <= u * SQUARES + SQUARES * (8 * eps)
  /\ u * SQUARES < IZR (squares_along c r) + 1 + SQUARES * (8 * eps) /\ (0 <= squares_along c r)%Z.
Proof.
  intros Hc Ec u. unfold squares_along.
  destruct (sub_close c (range_start r) Hc Hstart 360) as [Ha Ea]; [rewrite Estart; apply Rabs_le; lra|lra|].
  set (a := f_sub c (range_start r)) in *. rewrite Estart in Ea. apply within in Ea.
  assert (Hdiv : forall z, z / (2 * half) * (2 * half) = z) by (intros; field; lra).
  assert (0 <= u <= 1) as Hu.
  { pose proof (Hdiv (real c + half)) as E. fold u in E. split; nra. }
  assert (Hua : Rabs (real a / (2 * half) - u) <= 3 * eps).
  { pose proof (Hdiv (real a - (real c + half))) as E. unfold u.
    replace (real a / (2 * half) - (real c + half) / (2 * half)) with ((real a - (real c + half)) / (2 * half))
      by (field; lra). apply Rabs_le. split; nra. }
  apply within in Hua.
  destruct (div_close a (f_sub (range_end r) (range_start r)) Ha Hspan 2) as [Hb Eb];
    [rewrite Espan; lra|rewrite Espan; apply Rabs_le; lra|lra|].
  set (b := f_div a _) in *. rewrite Espan in Eb. apply within in Eb.
  destruct real_SQUARES as [Hs Es].
  destruct (mul_close b (f_of_Z (2 ^ BITS)) Hb Hs 68000000) as [Ht Et]; [rewrite Es; apply Rabs_le; lra|lra|].
  set (t := f_mul b _) in *. rewrite Es in Et. apply within in Et.
  destruct (as_u32_near t Ht) as (Hk & Hhi & Hlo); [lra|]. fold t.
  split_and!; [lra|lra| |lra|done]. destruct Hlo as [|E]; [lra|]. rewrite E. lra.
Qed.

(** Where a square begins. *)
Definition edge (k : Z) : f64 :=
  f_add (range_start r) (f_mul (f_sub (range_end r) (range_start r)) (f_div (f_of_Z k) (f_of_Z (2 ^ BITS)))).

Lemma edge_close k :
  (0 <= k <= 67108865)%Z ->
  finite (edge k) = true /\ Rabs (real (edge k) - (2 * half * (IZR k / SQUARES) - half)) <= 1700 * eps.
Proof.
  intros Hk. destruct real_SQUARES as [Hs Es]. destruct (real_of_Z k) as [Hf Ek]; [change (2 ^ 53)%Z with 9007199254740992%Z; lia|].
  assert (0 <= IZR k <= 67108865) as Hk' by (split; apply IZR_le; lia).
  destruct (div_close (f_of_Z k) (f_of_Z (2 ^ BITS)) Hf Hs 2) as [Hq Eq];
    [rewrite Es; lra|rewrite Ek, Es; apply Rabs_le; lra|lra|].
  unfold edge. set (q := f_div _ _) in *. rewrite Ek, Es in Eq. apply within in Eq.
  set (span := f_sub _ _) in *.
  destruct (mul_close span q Hspan Hq 361) as [Hm Em]; [rewrite Espan; apply Rabs_le; nra|lra|].
  set (m := f_mul _ _) in *. rewrite Espan in Em. apply within in Em.
  assert (Hm' : Rabs (real m - 2 * half * (IZR k / SQUARES)) <= 1500 * eps).
  { apply Rabs_le. pose proof (scaled (2 * half) 360 (real q - IZR k / SQUARES) (3 * eps) ltac:(lra) ltac:(lra)).
    rewrite Rmult_minus_distr_l in *. lra. }
  apply within in Hm'.
  assert (0 <= 2 * half * (IZR k / SQUARES) <= 2 * half * (1 + / SQUARES)) as Hin by (split; nra).
  destruct (add_close (range_start r) m Hstart Hm 185) as [Hl El]; [rewrite Estart; apply Rabs_le; lra|lra|].
  split; [done|]. rewrite Estart in El. apply within in El. apply Rabs_le. lra.
Qed.

Lemma not_vast x : finite x = true -> Rabs (real x) <= 1024 -> f_le (f_abs x) HALF_MAX = true.
Proof.
  destruct x as [s| | |s m e]; try done. intros _ Hx. rewrite real_signed in Hx.
  assert (e <= 10)%Z as He by (apply (exponent_bound m); by rewrite (pow2_IZR 10) by lia).
  unfold f_le, partial_cmp, f_abs, HALF_MAX. cbn [SFabs SFcompare].
  assert (Z.compare e 970 = Lt) as -> by (apply Z.compare_lt_iff; lia). done.
Qed.

Lemma midpoint_close a b :
  finite a = true -> finite b = true -> Rabs (real a) <= 200 -> Rabs (real b) <= 200 ->
  finite (midpoint a b) = true /\ Rabs (real (midpoint a b) - (real a + real b) / 2) <= 500 * eps.
Proof.
  intros Ha Hb Ea Eb. unfold midpoint. rewrite !not_vast by (done || lra). cbn [andb].
  apply within in Ea, Eb.
  destruct (add_close a b Ha Hb 400) as [Hs Es]; [apply Rabs_le; lra|lra|]. apply within in Es.
  destruct (real_of_Z 2) as [H2 E2]; [by split|].
  destruct (div_close (f_add a b) (f_of_Z 2) Hs H2 201) as [Hd Ed]; [lra|rewrite E2; apply Rabs_le; lra|lra|].
  rewrite E2 in Ed. apply within in Ed. split; [done|]. apply Rabs_le. lra.
Qed.

(** The middle of the square a coordinate is in is half a square from it at most. *)
Lemma middle_close c :
  finite c = true -> - half <= real c <= half ->
  finite (middle_of (squares_along c r) r) = true
  /\ Rabs (real (middle_of (squares_along c r) r) - real c) <= half / SQUARES + / 68719476736.
Proof.
  intros Hc Ec. destruct (along_close c Hc Ec) as (Hu & Hlo & Hhi & Hk0). cbn zeta in *.
  set (u := (real c + half) / (2 * half)) in *. set (k := squares_along c r) in *.
  assert (real c = 2 * half * u - half) as Ereal by (unfold u; field; lra).
  assert (k <= 67108864)%Z as Hk.
  { apply Z.lt_succ_r, lt_IZR. rewrite succ_IZR. lra. }
  destruct (edge_close k ltac:(lia)) as [Hl El]. destruct (edge_close (k + 1) ltac:(lia)) as [Hh Eh].
  rewrite plus_IZR in Eh.
  assert (Hk' : 0 <= IZR k <= SQUARES) by (split; apply IZR_le; lia).
  unfold middle_of. fold (edge k). assert (wrap_u32 (k + 1) = (k + 1)%Z) as -> by (apply Z.mod_small; lia).
  fold (edge (k + 1)). apply within in El, Eh.
  assert (0 <= 2 * half * (IZR k / SQUARES) <= 2 * half * (1 + / SQUARES)) as Hbound by (split; nra).
  assert (0 <= 2 * half * ((IZR k + 1) / SQUARES) <= 2 * half * (1 + / SQUARES)) as Hbound' by (split; nra).
  destruct (midpoint_close (edge k) (edge (k + 1)) Hl Hh) as [Hm Em]; [apply Rabs_le; lra..|].
  split; [done|]. apply within in Em. rewrite Ereal.
  assert (- (2 * half * (/ 134217728 + 8 * eps)) <= 2 * half * ((IZR k + / 2) / SQUARES - u)
          <= 2 * half * (/ 134217728 + 8 * eps)) as Hmain by (split; nra).
  apply Rabs_le. lra.
Qed.
End Axis.

(** ** The map *)
Lemma contains_real r m e c :
  range_start r = S754_finite true m e -> range_end r = S754_finite false m e -> (2 ^ 52 <= Z.pos m)%Z ->
  tidy c -> contains r c = true ->
  finite c = true /\ - real (range_end r) <= real c <= real (range_end r).
Proof.
  intros Es Ee Hm Hc. unfold contains. rewrite Es, Ee. rewrite real_finite. cbn [signed].
  unfold f_le, partial_cmp. destruct c as [s|s| |s m' e']; cbn [SFcompare]; try done.
  - intros _. split; [done|]. change (real (S754_zero s)) with 0.
    assert (0 <= IZR (Z.pos m) * pow2 e) by (apply Rmult_le_pos; [by apply IZR_le|apply Rlt_le, pow2_pos]). lra.
  - destruct s; try done.
  - intros Hle. assert (Z.compare e' e = Lt \/ e' = e /\ (m' <= m)%positive) as Hless.
    { destruct s; rewrite ?andb_true_r in Hle; cbn [andb] in Hle.
      - rewrite Z.compare_antisym. destruct (Z.compare_spec e e') as [->|Hl|Hl]; [|done|by left].
        right. split; [done|]. change (Pos.compare_cont Eq m m') with (Pos.compare m m') in Hle.
        destruct (Pos.compare_spec m m'); try done; lia.
      - destruct (Z.compare_spec e' e) as [->|Hl|Hl]; [|by left|done].
        right. split; [done|]. change (Pos.compare_cont Eq m' m) with (Pos.compare m' m) in Hle.
        destruct (Pos.compare_spec m' m); try done; lia. }
    split; [done|]. cbn [tidy] in Hc.
    assert (IZR (Z.pos m') * pow2 e' <= IZR (Z.pos m) * pow2 e) as Hreal.
    { destruct Hless as [Hlt|[-> Hl]].
      - apply Rle_trans with (pow2 53 * pow2 e').
        + apply Rmult_le_compat_r; [apply Rlt_le, pow2_pos|]. rewrite pow2_IZR by lia. apply IZR_le. lia.
        + apply Rle_trans with (pow2 52 * pow2 e).
          * apply (proj1 (Z.compare_lt_iff _ _)) in Hlt. rewrite <- !pow2_add. apply pow2_le. lia.
          * apply Rmult_le_compat_r; [apply Rlt_le, pow2_pos|]. rewrite pow2_IZR by lia. by apply IZR_le.
      - apply Rmult_le_compat_r; [apply Rlt_le, pow2_pos|]. apply IZR_le. lia. }
    assert (0 <= IZR (Z.pos m') * pow2 e') by (apply Rmult_le_pos; [by apply IZR_le|apply Rlt_le, pow2_pos]).
    rewrite real_finite. destruct s; cbn [signed]; lra.
Qed.

Lemma real_LONGITUDES : real (range_end LONGITUDES) = 180 /\ real (range_start LONGITUDES) = - 180
  /\ real (f_sub (range_end LONGITUDES) (range_start LONGITUDES)) = 2 * 180.
Proof.
  assert (range_end LONGITUDES = S754_finite false 6333186975989760 (-45)) as -> by (vm_compute; reflexivity).
  assert (range_start LONGITUDES = S754_finite true 6333186975989760 (-45)) as -> by (vm_compute; reflexivity).
  match goal with |- context [f_sub ?a ?b] => replace (f_sub a b) with (S754_finite false 6333186975989760 (-44)) by (vm_compute; reflexivity) end.
  rewrite !real_finite. cbn [signed]. change (-45)%Z with (- (45))%Z. change (-44)%Z with (- (44))%Z.
  rewrite !pow2_neg by lia. change (2 ^ 45)%Z with 35184372088832%Z. change (2 ^ 44)%Z with 17592186044416%Z. lra.
Qed.

Lemma real_LATITUDES : real (range_end LATITUDES) = 5984941123141376 / 70368744177664
  /\ real (range_start LATITUDES) = - real (range_end LATITUDES)
  /\ real (f_sub (range_end LATITUDES) (range_start LATITUDES)) = 2 * real (range_end LATITUDES).
Proof.
  assert (range_end LATITUDES = S754_finite false 5984941123141376 (-46)) as -> by (vm_compute; reflexivity).
  assert (range_start LATITUDES = S754_finite true 5984941123141376 (-46)) as -> by (vm_compute; reflexivity).
  match goal with |- context [f_sub ?a ?b] => replace (f_sub a b) with (S754_finite false 5984941123141376 (-45)) by (vm_compute; reflexivity) end.
  rewrite !real_finite. cbn [signed]. change (-45)%Z with (- (45))%Z. change (-46)%Z with (- (46))%Z.
  rewrite !pow2_neg by lia. change (2 ^ 45)%Z with 35184372088832%Z. change (2 ^ 46)%Z with 70368744177664%Z. lra.
Qed.

(** A point of two doubles on the map: between the poles' parallels and once around. *)
Definition on_map (p : Point) : Prop :=
  (finite (longitude p) = true /\ - 180 <= real (longitude p) <= 180)
  /\ (finite (latitude p) = true
      /\ - real (read_f64 "85.05112878") <= real (latitude p) <= real (read_f64 "85.05112878")).

Lemma point_on_map `{UnicodeTables} lon lat p : point lon lat = Ok p -> on_map p.
Proof.
  unfold point.
  assert (Htidy : forall t x, parse_coordinate t = Some x -> tidy x).
  { intros t x. unfold parse_coordinate. destruct (text t) as [t'|]; [|done].
    destruct (parse_f64 t') as [y|] eqn:E; [|done]. destruct (is_nan y); [done|]. intros [= <-].
    by eapply parse_f64_tidy. }
  destruct (parse_coordinate lon) as [x|] eqn:Ex; [|done].
  destruct (parse_coordinate lat) as [y|] eqn:Ey; [|done].
  destruct (contains LONGITUDES x) eqn:Cx; [|done]. destruct (contains LATITUDES y) eqn:Cy; [|done].
  intros [= <-]. split; cbn [longitude latitude].
  - destruct (contains_real LONGITUDES 6333186975989760 (-45) x) as [Hf Hr];
      [vm_compute; reflexivity..|done|by eapply Htidy|done|].
    destruct real_LONGITUDES as [E _]. by rewrite E in Hr.
  - destruct (contains_real LATITUDES 5984941123141376 (-46) y) as [Hf Hr];
      [vm_compute; reflexivity..|done|by eapply Htidy|done|]. done.
Qed.

Lemma position_close p :
  on_map p -> real (longitude p) <= 180 - / 2 ^ 36 ->
  exists lon lat a b, position (place_score p) = bulks [lon; lat]
  /\ decimal_text lon = Some a /\ Rabs (a - real (longitude p)) <= 180 / 2 ^ 26 + 2 / 2 ^ 36
  /\ decimal_text lat = Some b
  /\ Rabs (b - real (latitude p)) <= real (read_f64 "85.05112878") / 2 ^ 26 + 2 / 2 ^ 36.
Proof.
  intros [[Fx Hx] [Fy Hy]] Hedge. change (read_f64 "85.05112878") with (range_end LATITUDES) in *.
  destruct real_LONGITUDES as (Elon & Elon' & Elon2), real_LATITUDES as (Elat & Elat' & Elat2).
  set (top := real (range_end LATITUDES)) in *.
  assert (Hpow : forall n, (0 <= n)%Z -> 2 ^ Z.to_nat n = IZR (2 ^ n)) by (intros n Hn; rewrite pow_IZR, Z2Nat.id by done; done).
  change (2 ^ 36) with (2 ^ Z.to_nat 36) in *. change (2 ^ 26) with (2 ^ Z.to_nat 26).
  rewrite !Hpow in * by lia. change (2 ^ 36)%Z with 68719476736%Z in *. change (2 ^ 26)%Z with 67108864%Z.
  assert (Fspan : forall r m e, f_sub (range_end r) (range_start r) = S754_finite false m e ->
            finite (f_sub (range_end r) (range_start r)) = true) by (by intros r m e ->).
  assert (Fx0 : finite (range_start LONGITUDES) = true) by (vm_compute; reflexivity).
  assert (Fy0 : finite (range_start LATITUDES) = true) by (vm_compute; reflexivity).
  assert (Fx1 : finite (f_sub (range_end LONGITUDES) (range_start LONGITUDES)) = true) by (vm_compute; reflexivity).
  assert (Fy1 : finite (f_sub (range_end LATITUDES) (range_start LATITUDES)) = true) by (vm_compute; reflexivity).
  assert (Hgrid : on_grid p).
  { destruct (along_close LONGITUDES 180 Fx0 Elon' Fx1 Elon2 ltac:(lra) _ Fx Hx) as (Hu & Hlo & _).
    destruct (along_close LATITUDES top Fy0 Elat' Fy1 Elat2 ltac:(lra) _ Fy Hy) as (Hv & Hlo' & _).
    cbn zeta in *. split; change (2 ^ BITS)%Z with 67108864%Z.
    - apply Z.lt_succ_r, lt_IZR. rewrite succ_IZR. lra.
    - apply lt_IZR. lra. }
  unfold position. rewrite decode_place by done. cbn [longitude latitude].
  destruct (middle_close LONGITUDES 180 Fx0 Elon' Fx1 Elon2 ltac:(lra) _ Fx Hx) as [Mx Ex].
  destruct (middle_close LATITUDES top Fy0 Elat' Fy1 Elat2 ltac:(lra) _ Fy Hy) as [My Ey].
  destruct (show_fixed_close 17 _ ltac:(done) Mx) as (a & Ra & Ea).
  destruct (show_fixed_close 17 _ ltac:(done) My) as (b & Rb & Eb).
  assert (/ IZR (10 ^ 17) <= / 68719476736) as Hunit.
  { apply Rinv_le_contravar; [lra|]. apply IZR_le. by vm_compute. }
  eexists _, _, a, b. split; [reflexivity|].
  split_and!; [exact Ra| |exact Rb|]; apply within in Ex, Ey, Ea, Eb; apply Rabs_le; lra.
Qed.

(** ** Places kept and found again *)
Section Kept.
Context `{UnicodeTables} `{Trig}.

(** C39. What [GEOADD] keeps [GEOPOS] finds again.  When [GEOADD] answers with a number,
    that is how many of its names are new to the key; every point it was given is on the
    map, two doubles between its edges; no other key is touched; and from then on [GEOPOS] answers for
    each name going by the score kept for it, which for the names it was given is that of
    the last point given, for other names what it was, and nothing for a name the key does
    not hold.  And the two decimals it so answers with, for a point short of the longitude
    of 180 degrees by [1/2^36] at least, are within half a square of that point on either
    axis, and [2/2^36] of a degree: half a square is [180/2^26] of longitude and
    [85.05112878/2^26] of latitude.  (At 180 degrees a point is in a square too many, whose
    score a double does not hold.) *)
Theorem geoadd_geopos env env' key located places s s' events n set :
  Wf s -> (changes s < U64_MAX)%Z -> set_seen (now env) s key = Ok set -> places <> [] ->
  geo_run env (lit "GEOADD") (key :: located) s = Some (s', events, Replied (Integer n)) ->
  exists points, Forall2 (fun t p => point t.1.1 t.1.2 = Ok p) (triples_of located) points
  /\ (forall p, p ∈ points -> on_map p)
  /\ (let kept := insert_all (zip (map place_score points) (map snd (triples_of located))) (scores set) in
      n = as_i64 (Z.of_nat (size kept) - Z.of_nat (size (scores set)))
      /\ elsewhere key s s'
      /\ geo_run env' (lit "GEOPOS") (key :: places) s'
         = Some (s', [], Replied (Array (map (answer_from kept) places))))
  /\ forall p, p ∈ points -> real (longitude p) <= 180 - / 2 ^ 36 ->
      exists lon lat a b, position (place_score p) = bulks [lon; lat]
      /\ decimal_text lon = Some a /\ Rabs (a - real (longitude p)) <= 180 / 2 ^ 26 + 2 / 2 ^ 36
      /\ decimal_text lat = Some b
      /\ Rabs (b - real (latitude p)) <= real (read_f64 "85.05112878") / 2 ^ 26 + 2 / 2 ^ 36.
Proof.
  intros W Hc Hset Hp. unfold geo_run at 1. rewrite beq_refl.
  destruct (Nat.leb_spec PER_LOCATION (length located)) as [Hl|]; [|done].
  unfold geoadd. destruct (Nat.eqb_spec (length located mod PER_LOCATION) 0) as [Hmod|]; [cbn [negb]|done].
  destruct (collect_results _ (triples_of located)) as [members|e] eqn:Em.
  2: { apply collect_results_Err in Em as ([[lon lat] place] & He).
       destruct (point lon lat) eqn:Ep; [done|]. cbn in He. injection He as ->.
       by destruct (point_error _ _ _ Ep) as [text ->]. }
  pose proof (located_ok _ _ Em) as Hnum. apply located_points in Em as (points & Hpoints & ->).
  assert (zip (map place_score points) (map snd (triples_of located)) <> []) as Hne.
  { unfold PER_LOCATION in Hl. destruct located as [|lon [|lat [|place located]]]; cbn in Hl; [lia..|].
    by inversion Hpoints. }
  destruct (zadd (now env) key _ s) as [s1 r] eqn:Ez.
  destruct (zadd_kept _ _ _ _ _ _ _ W Hc Hne Hnum Hset Ez) as (El & -> & set' & Hk & _ & Hs).
  unfold replies, typed, count. cbn [fst snd]. intros [= <- _ <-].
  exists points.
  assert (Hmap : forall p, p ∈ points -> on_map p).
  { intros p Hin. apply list_elem_of_lookup in Hin as [i Hi].
    destruct (Forall2_lookup_r _ _ _ _ _ Hpoints Hi) as (t & _ & Ht). by eapply point_on_map. }
  do 2 (split; [done|]). split.
  - cbn zeta. rewrite <- Hs. split_and!; [done|done|].
    unfold geo_run. cbn [beq]. destruct places; [done|]. by rewrite (positions_answer _ _ _ _ _ _ Hk).
  - intros p Hin. by apply position_close, Hmap.
Qed.

End Kept.

Lemma geoadd_geopos_witness :
  let geo_run := @geo_run plain_tables plain_trig in
  let located := map lit ["2.2944692"; "48.8584625"; "Paris"; "180"; "0"; "Date line"] in
  let '(s, _, reply) := default (empty_state, [], Panics)
                          (geo_run (moments_past 0) (lit "GEOADD") (lit "places" :: located) empty_state) in
  reply = Replied (Integer 2)
  /\ geo_run (moments_past 5) (lit "GEOPOS") (map lit ["places"; "Paris"; "Nowhere"]) s
     = Some (s, [], Replied (Array [bulks (map lit ["2.29447156190872192"; "48.85846255040141273"]);
                                    NullArray])).
Proof.
  intros geo_run located.
  destruct (geo_run (moments_past 0) (lit "GEOADD") (lit "places" :: located) empty_state)
    as [[[s events] reply]|] eqn:E; cbn [default from_option id].
  2: { revert E. vm_compute. done. }
  assert (reply = Replied (Integer 2)) as ->.
  { revert E. vm_compute. by intros [= _ _ <-]. }
  split; [done|].
  destruct (@geoadd_geopos plain_tables plain_trig (moments_past 0) (moments_past 5) (lit "places")
              located (map lit ["Paris"; "Nowhere"]) empty_state s events 2 [] Wf_empty eq_refl eq_refl
              ltac:(done) E) as (points & Hp & _ & (_ & _ & Hpos) & _).
  refine (eq_trans Hpos _). do 4 f_equal. clear Hpos E s.
  apply (collect_results_map (fun t : Bytes * Bytes * Bytes => point t.1.1 t.1.2)) in Hp.
  replace points with (match collect_results (fun t : Bytes * Bytes * Bytes => point t.1.1 t.1.2)
    (triples_of located) with Ok ps => ps | Err _ => [] end) by (by rewrite Hp).
  clear Hp. vm_compute. reflexivity.
Defined.

