(* ===== verification/Families.v ===== *)
(** * Families of commands: what the dispatcher asks of the modules

    strings.rs, lists.rs, streams.rs, sorted_sets.rs, geo.rs and keys.rs each offer
    the dispatcher one operation, [run] ([Family]), which claims the commands the
    module knows; and commands/mod.rs asks them one after the other until one has
    claimed the command ([or_else], [store_run]).

    What the dispatcher counts on is stated as promises a family makes: which words
    it claims ([Claims]); a law every command of the family upholds ([Upholds]); a
    law about two runs of the same command, in different stores at different times
    ([Agrees]).  Each is kept by [or_else], so that what every module promises holds
    of whatever the dispatcher finds among them.  The files that follow state the
    laws: that commands come to steps of the store and seldom panic ([StoreSafety]),
    that they reply in their own shape ([Replies]), and how they fare in stores that
    hold the same data ([Alike]). *)
From S2P Require Import Prelude Text Resp F64 Command Store StoreStrings StoreLists StoreStreams.
From S2P Require Import StoreSortedSets StoreCommands Geo.
Open Scope Z_scope.

Definition Family : Type := Env -> Bytes -> list Bytes -> State -> option Ran.

(** One family asked, and another if it does not know the command. *)
Definition or_else (this next : Family) : Family := fun env command args s =>
  match this env command args s with
  | Some r => Some r
  | None => next env command args s
  end.

(** ** Promises *)
Class Claims (run : Family) (words : list string) : Prop :=
  claims env command args s : run env command args s = None <-> one_of words command = false.

Definition Law : Type := Env -> Bytes -> list Bytes -> State -> option Ran -> Prop.
Class Upholds (law : Law) (run : Family) : Prop :=
  upholds env command args s : law env command args s (run env command args s).

Definition Accord : Type :=
  Bytes -> list Bytes -> State -> State -> option Ran -> option Ran -> Prop.
Class Agrees (accord : Accord) (run : Family) : Prop :=
  agrees env env' command args s t :
    accord command args s t (run env command args s) (run env' command args t).

(** ** Kept by asking one after the other *)
Lemma one_of_app words words' command :
  one_of (words ++ words') command = one_of words command || one_of words' command.
Proof. apply existsb_app. Qed.

Section OrElse.
Context (this next : Family).

Lemma or_else_cases env command args s :
  or_else this next env command args s = this env command args s
  \/ this env command args s = None
     /\ or_else this next env command args s = next env command args s.
Proof. unfold or_else. destruct (this env command args s); auto. Qed.

#[export] Instance or_else_claims words words' :
  Claims this words -> Claims next words' -> Claims (or_else this next) (words ++ words').
Proof.
  intros Ht Hn env command args s. rewrite one_of_app, orb_false_iff.
  rewrite <- (Ht env command args s), <- (Hn env command args s). unfold or_else.
  destruct (this env command args s); naive_solver.
Qed.

#[export] Instance or_else_upholds law :
  Upholds law this -> Upholds law next -> Upholds law (or_else this next).
Proof.
  intros Ht Hn env command args s.
  destruct (or_else_cases env command args s) as [->|[_ ->]]; [apply Ht|apply Hn].
Qed.

(** Two runs of one command find the same family. *)
Lemma claims_alike words {_ : Claims this words} env env' command args args' s t :
  this env command args s = None -> this env' command args' t = None.
Proof. rewrite !claims. done. Qed.

#[export] Instance or_else_agrees accord words :
  Claims this words -> Agrees accord this -> Agrees accord next -> Agrees accord (or_else this next).
Proof.
  intros Hc Ht Hn env env' command args s t. specialize (Ht env env' command args s t).
  specialize (Hn env env' command args s t). unfold or_else.
  pose proof (claims_alike words env env' command args args s t) as H1.
  pose proof (claims_alike words env' env command args args t s) as H2.
  destruct (this env command args s), (this env' command args t); naive_solver.
Qed.
End OrElse.

(** ** The modules that work on the store *)
Section Modules.
Context `{UnicodeTables} `{Trig}.

(** In the order the dispatcher asks them. *)
Definition store_run : Family :=
  or_else strings_run (or_else lists_run (or_else streams_run
    (or_else sorted_sets_run (or_else geo_run keys_run)))).

(** Word by word: what is claimed comes to something, and the rest to nothing. *)
Ltac word_by_word :=
  unfold one_of; cbn [existsb]; unfold refuses, says, replies;
  repeat (case_match; cbn [orb]; try done).

#[export] Instance strings_claims : Claims strings_run ["PING"; "ECHO"; "SET"; "GET"; "INCR"].
Proof. intros env command args s. unfold strings_run, run_set. word_by_word. Qed.

#[export] Instance lists_claims :
  Claims lists_run ["RPUSH"; "LPUSH"; "LPOP"; "BLPOP"; "LLEN"; "LRANGE"].
Proof.
  intros env command args s. unfold lists_run, run_push, run_lpop, run_blpop, run_range. word_by_word.
Qed.

#[export] Instance streams_claims : Claims streams_run ["XADD"; "XRANGE"; "XREAD"].
Proof.
  intros env command args s. unfold streams_run, run_xadd, run_xrange, run_xread. word_by_word.
Qed.

#[export] Instance sorted_sets_claims :
  Claims sorted_sets_run ["ZADD"; "ZRANK"; "ZREM"; "ZSCORE"; "ZCARD"; "ZRANGE"].
Proof. intros env command args s. unfold sorted_sets_run, run_zadd, run_range. word_by_word. Qed.

Lemma positions_answered env key places found s : positions env key places found s <> None.
Proof.
  revert found s; induction places as [|p places IH]; intros found s; cbn [positions]; [done|].
  destruct (zscore _ _ _ _) as [s' [[x|]|[]]]; [apply IH..|done].
Qed.

#[export] Instance geo_claims : Claims geo_run ["GEOADD"; "GEOPOS"; "GEODIST"; "GEOSEARCH"].
Proof.
  intros env command args s. unfold geo_run, geoadd, geodist, geosearch. word_by_word.
  split; [|done]. intros E. by apply positions_answered in E.
Qed.

#[export] Instance keys_claims : Claims keys_run ["TYPE"; "KEYS"].
Proof. intros env command args s. unfold keys_run. word_by_word. Qed.

#[export] Instance store_run_claims : Claims store_run _ := _.

End Modules.
