(* ===== verification/StoreSafety.v ===== *)
(** * The commands against the store: what every one of them keeps

    Two laws every family of commands upholds ([Families]), and with them whatever
    the dispatcher finds among them: a command comes to steps of the store
    ([stepping]), so that what is shown of steps in [StoreSteps] holds of commands;
    and a command panics in two cases only ([panicking]). *)
From S2P Require Import Prelude Text Resp F64 Command Store StoreStrings StoreLists StoreStreams.
From S2P Require Import StoreSortedSets StoreSteps StoreCommands Geo Families.
Open Scope Z_scope.

(** ** The numbers commands hand over *)

Lemma parse_requested_id_ok clock t requested :
  0 <= clock <= U64_MAX -> parse_requested_id t = Ok requested -> request_ok clock requested.
Proof.
  intros Hc. unfold parse_requested_id, request_ok, id_ok.
  case_match; [by intros [= <-]|].
  intros (p & _ & (ms & Hms & H')%rbind_Ok)%rbind_Ok.
  assert (0 <= ms <= U64_MAX).
  { destruct (parse_u64 p.1) eqn:E; [|done]. cbn in Hms. injection Hms as ->.
    by apply parse_int_range in E. }
  revert H'. case_match; [by intros [= <-]|].
  intros (sq & Hsq & [= <-])%rbind_Ok. split; [done|]. cbn.
  destruct (parse_u64 p.2) eqn:E; [|done]. cbn in Hsq. injection Hsq as ->.
  apply parse_int_range in E; [done|]. done.
Qed.

Lemma parse_members_ok scored members :
  parse_members scored = Ok members -> Forall (fun m => is_nan m.1 = false) members.
Proof.
  unfold parse_members. case_match; [done|]. generalize (pairs_of scored) as l.
  intros l; revert members; induction l as [|p l IH]; intros members; cbn; [by intros [= <-]|].
  intros (m & (x & Hx & [= <-])%rbind_Ok & (ms & Hms & [= <-])%rbind_Ok)%rbind_Ok.
  constructor; [|by apply IH]. cbn. revert Hx. unfold parse_score.
  repeat case_match; try done. by intros [= <-].
Qed.

(** ** Commands are steps *)
Section Safety.
Context `{UnicodeTables} `{Trig}.

(** A run that leaves the store some steps on. *)
Definition stepped (s : State) (r : option Ran) : Prop :=
  match r with Some (s', _, _) => rtc step s s' | None => True end.

Lemma stepped_says s reply : stepped s (says s reply).
Proof. apply rtc_refl. Qed.

Lemma stepped_replies {A} s (r : State * A) reply : step s r.1 -> stepped s (replies r reply).
Proof. intros Hs. by apply rtc_once. Qed.

Hint Resolve stepped_says : core.
Hint Constructors step : core.

(** The law: a command of the family is some steps of the store. *)
Definition stepping : Law := fun env _ _ s r =>
  0 <= clock env <= U64_MAX -> changes s < U64_MAX -> stepped s r.

Ltac commands := repeat (case_match; try exact I; try exact (rtc_refl _ _)).
Ltac commands_then := commands; try (apply stepped_replies; solve [auto]).

#[export] Instance strings_stepping : Upholds stepping strings_run.
Proof.
  intros env command args s _ Hc. unfold strings_run, refuses. commands_then.
  unfold run_set. commands. apply rtc_once. by eapply step_set.
Qed.

#[export] Instance keys_stepping : Upholds stepping keys_run.
Proof. intros env command args s _ Hc. unfold keys_run, refuses. commands_then. Qed.

Lemma range_stepped read start stop s :
  (forall start stop, step s (read start stop s).1) -> stepped s (run_range read start stop s).
Proof. intros Hr. unfold run_range. commands_then. Qed.

Lemma push_stepped env key elements side s :
  changes s < U64_MAX -> elements <> [] -> stepped s (run_push env key elements side s).
Proof.
  intros Hc He. unfold run_push. pose proof (step_push (open env) (now env) key elements side s Hc He) as Hs.
  destruct (push (open env) (now env) key elements side s) as [[s' given] r]. by apply rtc_once.
Qed.

Lemma lpop_stepped env key number s : changes s < U64_MAX -> stepped s (run_lpop env key number s).
Proof. intros Hc. unfold run_lpop. commands_then; apply stepped_replies, step_lpop; lia. Qed.

#[export] Instance lists_stepping : Upholds stepping lists_run.
Proof.
  intros env command args s _ Hc. unfold lists_run, refuses.
  commands_then; try (by apply push_stepped); try (by apply lpop_stepped);
    try (apply range_stepped; auto).
  unfold run_blpop. commands; apply rtc_once; by eapply step_blpop.
Qed.

Lemma xadd_stepped env key id fs s :
  0 <= clock env <= U64_MAX -> changes s < U64_MAX -> stepped s (run_xadd env key id fs s).
Proof.
  intros Hclock Hc. unfold run_xadd.
  destruct (match text id with Some t => _ | None => None end) as [requested|] eqn:E;
    [|exact (rtc_refl _ _)].
  destruct (text id) as [t|]; [|done]. apply ok_Some in E.
  assert (Hr := parse_requested_id_ok _ _ _ Hclock E).
  pose proof (step_xadd (clock env) (now env) key requested (pairs_of fs) s Hc Hr) as Hs.
  destruct (xadd _ _ _ _ _ _) as [[s' woken] r]. by apply rtc_once.
Qed.

Lemma wait_stepped env reads deadline s : rtc step s (wait_for_entries env reads deadline s).1.1.
Proof.
  unfold wait_for_entries.
  pose proof (step_xread_or_watch (held env) (new_watcher env) (now env) reads s) as Hs.
  destruct (xread_or_watch _ _ _ _ _) as [s' r]. cbn [fst] in Hs. commands; by apply rtc_once.
Qed.

Lemma xread_stepped env args s : stepped s (run_xread env args s).
Proof.
  unfold run_xread. destruct (parse_xread env args) as [[w pending]|]; [|exact (rtc_refl _ _)].
  pose proof (step_resolve_reads (now env) pending s) as Hs.
  destruct (resolve_reads _ _ _) as [s1 [reads|[]]]; cbn [fst] in Hs; [|by apply rtc_once].
  assert (Hw : forall d, stepped s (Some (wait_for_entries env reads d s1))).
  { intros d. unfold stepped. pose proof (wait_stepped env reads d s1) as Hw.
    destruct (wait_for_entries _ _ _ _) as [[s2 evs] out]. by eapply rtc_l. }
  destruct w; [|apply Hw..]. eapply rtc_l; [exact Hs|]. apply rtc_once, step_xread.
Qed.

Lemma xrange_stepped env key start stop s : stepped s (run_xrange env key start stop s).
Proof.
  unfold run_xrange. destruct (parse_bound start 0), (parse_bound stop U64_MAX); try exact (rtc_refl _ _).
  pose proof (step_xrange (now env) key e e0 s) as Hs.
  destruct (xrange _ _ _ _ _) as [s' [r|]]; by apply rtc_once.
Qed.

#[export] Instance streams_stepping : Upholds stepping streams_run.
Proof.
  intros env command args s Hclock Hc. unfold streams_run, refuses.
  commands; by (apply xadd_stepped || apply xrange_stepped || apply xread_stepped).
Qed.

#[export] Instance sorted_sets_stepping : Upholds stepping sorted_sets_run.
Proof.
  intros env command args s _ Hc. unfold sorted_sets_run, refuses.
  commands_then; try (apply range_stepped; auto).
  unfold run_zadd. destruct (parse_members _) as [members|] eqn:E; [|exact (rtc_refl _ _)].
  apply stepped_replies, step_zadd; [done| |by eapply parse_members_ok].
  intros ->. revert E. unfold parse_members. destruct (Nat.even _) eqn:Ev; [|done]. cbn [negb].
  intros E%collect_results_nil. destruct args as [|? [|? [|]]]; simplify_eq; done.
Qed.

Lemma zscore_stepped env key member s s' r :
  zscore (now env) key member s = (s', r) -> step s s'.
Proof. intros E. pose proof (step_zscore (now env) key member s) as Hs. by rewrite E in Hs. Qed.

Lemma positions_stepped env key places found s : stepped s (positions env key places found s).
Proof.
  assert (Htrans : forall s s' r, step s s' -> stepped s' r -> stepped s r).
  { intros s0 s1 [[[s2 ?] ?]|] Hs; [|done]. intros Hr. by eapply rtc_l. }
  revert found s; induction places as [|place places IH]; intros found s; [exact (rtc_refl _ _)|].
  cbn [positions]. destruct (zscore _ _ _ _) as [s' [[x|]|[]]] eqn:E; apply zscore_stepped in E;
    eapply Htrans; try exact E; try apply IH. exact (rtc_refl _ _).
Qed.

Lemma geodist_stepped env key from to unit s : stepped s (geodist env key from to unit s).
Proof.
  unfold geodist. destruct (match unit with Some u => measure u | None => Ok METRES end);
    [|exact (rtc_refl _ _)].
  destruct (zscore (now env) key from s) as [s1 r1] eqn:E1.
  destruct (zscore (now env) key to s1) as [s2 r2] eqn:E2.
  apply zscore_stepped in E1, E2. assert (rtc step s s2) by (by eapply rtc_l, rtc_once).
  by destruct r1 as [[]|[]], r2 as [[]|[]].
Qed.

#[export] Instance geo_stepping : Upholds stepping geo_run.
Proof.
  intros env command args s _ Hc. unfold geo_run, refuses.
  commands; try apply positions_stepped.
  - unfold geoadd. commands. apply stepped_replies, step_zadd; [done| |by eapply located_ok].
    intros ->. match goal with E : collect_results _ _ = Ok [] |- _ =>
      apply collect_results_nil in E end.
    match goal with E : (PER_LOCATION <=? length ?l)%nat = true |- _ =>
      destruct l as [|? [|? [|]]]; done end.
  - by apply geodist_stepped.
  - by apply geodist_stepped.
  - unfold geosearch. commands. apply stepped_replies. auto.
Qed.

#[export] Instance store_run_stepping : Upholds stepping store_run.
Proof. unfold store_run. apply _. Qed.

Lemma store_run_steps env command args s s' events out :
  0 <= clock env <= U64_MAX -> changes s < U64_MAX ->
  store_run env command args s = Some (s', events, out) -> rtc step s s'.
Proof.
  intros Hclock Hc Hr. pose proof (upholds env command args s Hclock Hc) as Hs. by rewrite Hr in Hs.
Qed.

(** ** Panics *)

(** A [SET] with a deadline past what an [Instant] holds; an [XRANGE] asked for
    backwards across an entry. *)
Definition deadline_overflows (env : Env) (command : Bytes) (args : list Bytes) : Prop :=
  command = lit "SET" /\ exists key value options delay,
  args = key :: value :: options /\ parse_expiry options = Ok (Some delay)
  /\ INSTANT_MAX < now env + delay.
Definition bounds_crossed (env : Env) (command : Bytes) (args : list Bytes) (s : State) : Prop :=
  command = lit "XRANGE" /\ exists key start stop i j l e,
  args = [key; start; stop] /\ parse_bound start 0 = Some i /\ parse_bound stop U64_MAX = Some j
  /\ stream_seen (now env) s key = Ok l /\ e ∈ l
  /\ id_lt j (entry_id e) = true /\ id_lt (entry_id e) i = true.

Definition unpanicked (r : option Ran) : Prop :=
  match r with Some (_, _, Panics) => False | _ => True end.

(** The law: a command panics in those two cases only. *)
Definition panicking : Law := fun env command args s r =>
  Wf s -> changes s < U64_MAX ->
  unpanicked r \/ deadline_overflows env command args \/ bounds_crossed env command args s.

Ltac quiet := unfold says, refuses, replies; try exact I; repeat (case_match; try exact I).

#[export] Instance strings_panicking : Upholds panicking strings_run.
Proof.
  intros env command args s _ _. unfold strings_run. destruct (command =b? lit "PING"); [left; quiet|].
  destruct (command =b? lit "ECHO"); [left; quiet|].
  destruct (command =b? lit "SET") eqn:Es; [|left; quiet]. apply beq_true in Es as ->.
  destruct args as [|key [|value options]]; try by left.
  unfold run_set. destruct (parse_expiry options) as [[delay|]|] eqn:E; try by left.
  unfold StoreStrings.set, instant_add. destruct (Z.leb_spec (now env + delay) INSTANT_MAX).
  - by left.
  - right; left. split; [done|]. by exists key, value, options, delay.
Qed.

#[export] Instance lists_panicking : Upholds panicking lists_run.
Proof.
  intros env command args s W Hc. left. unfold lists_run, run_push, run_lpop, run_range. quiet.
  unfold run_blpop, says. destruct (parse_timeout _); [|exact I].
  match goal with |- context [blpop ?closed ?me ?now ?key s] =>
    destruct (blpop_spec closed me now key s W Hc) as (s' & r & -> & _) end.
  by destruct r as [[]|[]].
Qed.

Lemma wait_panics env reads deadline s : unpanicked (Some (wait_for_entries env reads deadline s)).
Proof. unfold wait_for_entries. quiet. Qed.

#[export] Instance streams_panicking : Upholds panicking streams_run.
Proof.
  intros env command args s W _. unfold streams_run.
  destruct (command =b? lit "XADD"); [left; unfold run_xadd; quiet|].
  destruct (command =b? lit "XRANGE") eqn:Ex.
  2: { left. destruct (command =b? lit "XREAD"); [|exact I]. unfold run_xread, says, replies.
       repeat (case_match; try exact I); apply wait_panics. }
  apply beq_true in Ex as ->. destruct args as [|key [|start [|stop [|]]]]; try by left.
  unfold run_xrange. destruct (parse_bound start 0) as [i|] eqn:Ei, (parse_bound stop U64_MAX) as [j|] eqn:Ej;
    try by left.
  destruct (stream_seen (now env) s key) as [l|[]] eqn:El.
  - pose proof (xrange_answer (now env) key i j s l W El) as Ha.
    destruct (xrange (now env) key i j s) as [s' r]. cbn [snd] in Ha. subst r.
    destruct (existsb _ l) eqn:Ee; [|by left]. right; right. split; [done|].
    apply existsb_exists in Ee as (e & He%list_elem_of_In & [? ?]%andb_true_iff).
    by exists key, start, stop, i, j, l, e.
  - left. revert El. unfold stream_seen, xrange. rewrite stream_at_seen. cbn [fst snd].
    destruct (seen _ _ _) as [e|]; [|done]. by destruct (data e).
Qed.

#[export] Instance sorted_sets_panicking : Upholds panicking sorted_sets_run.
Proof. intros env command args s _ _. left. unfold sorted_sets_run, run_zadd, run_range. quiet. Qed.

#[export] Instance geo_panicking : Upholds panicking geo_run.
Proof.
  intros env command args s _ _. left. unfold geo_run, geoadd, geodist, geosearch. quiet.
  match goal with |- unpanicked (positions _ _ _ ?found s) => generalize found as f end.
  generalize s as s0. match goal with |- forall s0 f, unpanicked (positions _ _ ?places f s0) =>
    clear; induction places as [|p ps IH]; intros s0 f; [exact I|] end.
  cbn [positions]. destruct (zscore _ _ _ _) as [s' [[x|]|[]]]; try apply IH. exact I.
Qed.

#[export] Instance keys_panicking : Upholds panicking keys_run.
Proof. intros env command args s _ _. left. unfold keys_run. quiet. Qed.

#[export] Instance store_run_panicking : Upholds panicking store_run.
Proof. unfold store_run. apply _. Qed.

End Safety.
