(* ===== verification/Users.v ===== *)
(** * Who is let in: src/src/users.rs and src/src/commands/acl.rs

    The passwords of the one user, kept as hashes, and the commands that ask who
    a client is.  The hash is SHA-256 of the sha2 crate: a parameter
    ([PasswordHash]), of which the properties that need it assume that it tells
    the passwords at hand apart. *)
From S2P Require Import Prelude Text Resp Command.
Open Scope Z_scope.

(** [hashed]: the digest in lower-case hex. *)
Class PasswordHash := hashed : Bytes -> Bytes.

Section Users.
Context `{PasswordHash}.

(** ** users.rs *)

Abbreviation Users := (list Bytes).

(** [Users::add_password]. *)
Definition add_password (password : Bytes) (users : Users) : Users :=
  let h := hashed password in
  if bool_decide (h ∈ users) then users else users ++ [h].

(** [Users::hashed_passwords]. *)
Definition hashed_passwords (users : Users) : list Bytes := users.

(** [Users::wants_no_password]. *)
Definition wants_no_password (users : Users) : bool :=
  match users with [] => true | _ => false end.

(** [Users::accepts]. *)
Definition accepts (password : Bytes) (users : Users) : bool :=
  match users with [] => true | _ => bool_decide (hashed password ∈ users) end.

(** ** acl.rs *)

Definition DEFAULT_USER : Bytes := lit "default".
Definition NO_PASSWORD : Bytes := lit "nopass".
Definition ALLOWED_WHILE_OUT : list string := ["AUTH"; "HELLO"; "QUIT"; "RESET"]%string.

(** Whether a connection has been let in. *)
Record Identity := { authenticated : bool }.

(** [Identity::new] and [Identity::trusted]. *)
Definition new_identity (users : Users) : Identity := {| authenticated := wants_no_password users |}.
Definition trusted : Identity := {| authenticated := true |}.

Definition allowed_while_out (command : Bytes) : bool := one_of ALLOWED_WHILE_OUT command.
Definition needs_authenticating : Value := Error (lit "NOAUTH Authentication required.").

Definition wrong_password : Value :=
  Error (lit "WRONGPASS invalid username-password pair or user is disabled.").

(** [authenticate]. *)
Definition authenticate (user password : Bytes) (users : Users) (who : Identity)
  : Identity * Value :=
  if negb (user =b? DEFAULT_USER) || negb (accepts password users) then (who, wrong_password)
  else ({| authenticated := true |}, OK).

(** [alone]. *)
Definition alone (password : Bytes) (users : Users) (who : Identity) : Identity * Value :=
  if wants_no_password users then
    (who, Error (lit
      "ERR Client sent AUTH, but no password is set. Did you mean AUTH <username> <password>?"))
  else authenticate DEFAULT_USER password users who.

(** [user_named]. *)
Definition user_named (user : Bytes) (users : Users) : Value :=
  if negb (user =b? DEFAULT_USER) then NullArray
  else
    Array [BulkString (lit "flags");
           Array (if wants_no_password users then [BulkString NO_PASSWORD] else []);
           BulkString (lit "passwords");
           Array (map BulkString (hashed_passwords users))].

(** [bad_rule]. *)
Definition bad_rule (rule : Bytes) : Value :=
  Error (lit "ERR Error in ACL SETUSER modifier '" ++ from_utf8_lossy rule ++ lit "': Syntax error").

(** [unknown_action] of commands/acl.rs. *)
Definition unknown_acl_action (action : Bytes) : Value :=
  Error (lit "ERR Unknown ACL subcommand or wrong number of arguments for '"
         ++ from_utf8_lossy action ++ lit "'").

(** The loop of [set_user] over its rules. *)
Definition password_rule (rule : Bytes) : result Bytes Value :=
  match rule with
  | c :: password =>
      if bool_decide (c = ">"%byte) && negb (password =b? []) then Ok password else Err (bad_rule rule)
  | [] => Err (bad_rule rule)
  end.

(** [set_user]. *)
Definition set_user (user : Bytes) (rules : list Bytes) (users : Users) : Users * Value :=
  if negb (user =b? DEFAULT_USER) then
    (users, Error (lit "ERR this server has only the '" ++ DEFAULT_USER ++ lit "' user"))
  else
    match collect_results password_rule rules with
    | Err e => (users, e)
    | Ok passwords => (fold_left (fun users p => add_password p users) passwords users, OK)
    end.

(** [acl::run]. *)
Definition acl_run (command : Bytes) (args : list Bytes) (users : Users) (who : Identity)
  : option (Users * Identity * Value) :=
  if command =b? lit "ACL" then
    match args with
    | [] => Some (users, who, wrong_arity "acl")
    | action :: rest =>
        if eq_ignore_ascii_case action (lit "WHOAMI") then
          Some (users, who,
                match rest with [] => BulkString DEFAULT_USER | _ => unknown_acl_action action end)
        else if eq_ignore_ascii_case action (lit "GETUSER") then
          Some (users, who,
                match rest with [user] => user_named user users | _ => unknown_acl_action action end)
        else if eq_ignore_ascii_case action (lit "SETUSER") then
          match rest with
          | user :: ((_ :: _) as rules) =>
              let '(users, reply) := set_user user rules users in
              Some (users, who, reply)
          | _ => Some (users, who, unknown_acl_action action)
          end
        else Some (users, who, unknown_acl_action action)
    end
  else if command =b? lit "AUTH" then
    match args with
    | [password] =>
        let '(who, reply) := alone password users who in Some (users, who, reply)
    | [user; password] =>
        let '(who, reply) := authenticate user password users who in
        Some (users, who, reply)
    | _ => Some (users, who, wrong_arity "auth")
    end
  else None.

(** ** Facts *)
Lemma add_password_elem h p users :
  h ∈ add_password p users <-> h = hashed p \/ h ∈ users.
Proof.
  unfold add_password. case_bool_decide; [naive_solver|]. rewrite elem_of_app, list_elem_of_singleton.
  tauto.
Qed.

Lemma add_password_NoDup p users : NoDup users -> NoDup (add_password p users).
Proof.
  intros Hu. unfold add_password. case_bool_decide as Hin; [done|].
  apply NoDup_app. split_and!; [done| |apply NoDup_singleton].
  intros h Hh ->%list_elem_of_singleton. done.
Qed.

Lemma add_passwords_elem h ps users :
  h ∈ fold_left (fun users p => add_password p users) ps users
  <-> h ∈ users \/ exists p, p ∈ ps /\ h = hashed p.
Proof.
  revert users; induction ps as [|p ps IH]; intros users; cbn.
  - split; [by left|]. intros [?|(? & Hp & _)]; [done|by apply not_elem_of_nil in Hp].
  - rewrite IH, add_password_elem. setoid_rewrite elem_of_cons. naive_solver.
Qed.

Lemma password_rules rules ps :
  collect_results password_rule rules = Ok ps <-> rules = map (cons ">"%byte) ps /\ ([] ∉ ps).
Proof.
  revert ps; induction rules as [|rule rules IH]; intros ps; cbn.
  - split; [intros [= <-]; split; [done|apply not_elem_of_nil]|]. by intros [->%symmetry%map_eq_nil _].
  - split.
    + intros (p & Hp & (ps' & Hps & [= <-])%rbind_Ok)%rbind_Ok. apply IH in Hps as [-> Hn].
      unfold password_rule in Hp. destruct rule as [|c rule]; [done|].
      destruct (bool_decide (c = ">"%byte)) eqn:Ec; [|done]. apply bool_decide_eq_true in Ec as ->.
      beq_cases; [done|]. injection Hp as <-. cbn. split; [done|]. by apply not_elem_of_cons.
    + intros [Hr Hn]. destruct ps as [|p ps]; [done|]. cbn in Hr. injection Hr as -> ->.
      apply not_elem_of_cons in Hn as [Hp Hn]. unfold password_rule at 1.
      rewrite bool_decide_true by done.
      assert ((p =b? []) = false) as -> by (by apply beq_false). cbn.
      destruct (IH ps) as [_ IH']. rewrite IH' by done. done.
Qed.

(** ** What the commands promise *)

(** [ACL SETUSER] is all or nothing: rules that each give a password that is
    not empty are all taken on, so that from then on exactly those passwords and
    the ones known before are accepted (as far as the hash tells them apart from
    the one offered); with any other rule among them nothing is changed and the
    reply is an error.  A user once given a password is never again open to
    anyone. *)
Theorem set_user_all_or_nothing rules users :
  match set_user DEFAULT_USER rules users with
  | (users', reply) =>
      (exists ps, rules = map (cons ">"%byte) ps /\ ([] ∉ ps) /\ reply = OK
         /\ (forall h, h ∈ users' <-> h ∈ users \/ exists p, p ∈ ps /\ h = hashed p)
         /\ (ps <> [] -> wants_no_password users' = false
             /\ forall offered, accepts offered users' = true <->
                  hashed offered ∈ users \/ exists p, p ∈ ps /\ hashed offered = hashed p))
      \/ ((forall ps, rules = map (cons ">"%byte) ps -> [] ∈ ps)
          /\ users' = users /\ is_error reply = true)
  end.
Proof.
  unfold set_user. rewrite beq_refl. cbn [negb].
  destruct (collect_results password_rule rules) as [ps|e] eqn:E.
  - left. apply password_rules in E as [-> Hn]. exists ps. split_and!; [done|done|done| |].
    + intros h. apply add_passwords_elem.
    + intros Hne. set (users' := fold_left _ ps users).
      assert (Hin : forall h, h ∈ users' <-> h ∈ users \/ exists p, p ∈ ps /\ h = hashed p)
        by (intros h; apply add_passwords_elem).
      destruct ps as [|p ps]; [done|].
      assert (hashed p ∈ users') as Hp by (apply Hin; right; exists p; split; [left|done]).
      unfold accepts, wants_no_password. destruct users' as [|u users']; [by apply not_elem_of_nil in Hp|].
      split; [done|]. intros offered. by rewrite bool_decide_eq_true, Hin.
  - right. split_and!; [|done|].
    + intros ps Hr. destruct (decide ([] ∈ ps)); [done|].
      assert (collect_results password_rule rules = Ok ps) by (by apply password_rules). congruence.
    + clear -E. revert e E. induction rules as [|rule rules IH]; intros e; cbn; [done|].
      unfold password_rule at 1. destruct rule as [|c rule]; [by intros [= <-]|].
      destruct (_ && _); cbn; [|by intros [= <-]].
      destruct (collect_results password_rule rules) as [|e'] eqn:E'; cbn; [done|].
      intros [= <-]. by apply IH.
Qed.

(** A client gets in only by naming the default user and a password it may
    be let in with: [AUTH] answers OK, and lets the connection in, exactly when
    a hash kept is the hash of the password offered (any password will do for a
    named user that has none); whatever it answers, nobody is ever put out, and
    the passwords are as they were. *)
Theorem auth_lets_in args users who users' who' reply :
  acl_run (lit "AUTH") args users who = Some (users', who', reply) ->
  users' = users
  /\ ((reply = OK /\ authenticated who' = true
       /\ exists user password, (args = [user; password] \/ args = [password] /\ users <> [])
          /\ (args = [user; password] -> user = DEFAULT_USER)
          /\ (users = [] \/ hashed password ∈ users))
      \/ (is_error reply = true /\ who' = who)).
Proof.
  assert (Ha : forall user password, authenticate user password users who = (who', reply) ->
    (reply = OK /\ authenticated who' = true /\ user = DEFAULT_USER
     /\ (users = [] \/ hashed password ∈ users))
    \/ (is_error reply = true /\ who' = who)).
  { intros user password. unfold authenticate. beq_cases; cbn.
    - destruct (accepts password users) eqn:Eacc; cbn; intros [= <- <-]; [left|by right].
      split_and!; [done..|]. unfold accepts in Eacc.
      destruct users; [by left|right]. by apply bool_decide_eq_true in Eacc.
    - intros [= <- <-]. by right. }
  change (acl_run (lit "AUTH") args users who) with
    (match args with
     | [password] =>
         let '(who, reply) := alone password users who in Some (users, who, reply)
     | [user; password] =>
         let '(who, reply) := authenticate user password users who in
         Some (users, who, reply)
     | _ => Some (users, who, wrong_arity "auth")
     end).
  destruct args as [|x [|y [|z rest]]]; try (intros [= <- <- <-]; split; [done|by right]).
  - unfold alone. destruct (wants_no_password users) eqn:Ew.
    + intros [= <- <- <-]. split; [done|by right].
    + destruct (authenticate DEFAULT_USER x users who) as [i r] eqn:E.
      intros [= <- <- <-]. split; [done|].
      destruct (Ha _ _ E) as [(-> & ? & _ & ?)|?]; [left|by right].
      split_and!; [done..|]. exists DEFAULT_USER, x. split_and!; [right|done|done].
      split; [done|]. by destruct users.
  - destruct (authenticate x y users who) as [i r] eqn:E.
    intros [= <- <- <-]. split; [done|].
    destruct (Ha _ _ E) as [(-> & ? & -> & ?)|?]; [left|by right].
    split_and!; [done..|]. exists DEFAULT_USER, y. split_and!; [by left|done|done].
Qed.

End Users.

(** A server given one password, and a client that knows it; the hash is taken
    to be the password itself. *)
Definition plain_hash : PasswordHash := fun p => p.
Lemma auth_lets_in_witness :
  @acl_run plain_hash (lit "AUTH") [lit "secret"] [lit "secret"] {| authenticated := false |}
    = Some ([lit "secret"], {| authenticated := true |}, OK)
  /\ authenticated {| authenticated := true |} = true.
Proof.
  assert (@acl_run plain_hash (lit "AUTH") [lit "secret"] [lit "secret"] {| authenticated := false |}
    = Some ([lit "secret"], {| authenticated := true |}, OK)) as E by (vm_compute; reflexivity).
  split; [exact E|].
  destruct (@auth_lets_in plain_hash [lit "secret"] [lit "secret"] {| authenticated := false |}
    [lit "secret"] {| authenticated := true |} OK E) as (_ & [(_ & Hi & _)|[H1 _]]); [exact Hi|].
  discriminate H1.
Defined.
