(* ===== verification/Channels.v ===== *)
(** * Publishing and subscribing: src/src/channels.rs and
    src/src/commands/pubsub.rs

    The tally of who listens on what across the server, the channels one client
    listens on, and the commands that keep the two in step.  A client's end of
    its channels is known by a number; [alive] tells whether a message handed to
    it still finds its connection there, which is not for the tally to know. *)
From S2P Require Import Prelude Text Resp Command.
Open Scope Z_scope.

(** ** channels.rs *)

Abbreviation listener := nat.
Abbreviation Channels := (gmap Bytes (list listener)).

(** [Channels::joined]. *)
Definition joined (channel : Bytes) (l : listener) (tally : Channels) : Channels :=
  <[channel := default [] (tally !! channel) ++ [l]]> tally.

(** [Channels::left]. *)
Definition parted (channel : Bytes) (l : listener) (tally : Channels) : Channels :=
  match tally !! channel with
  | None => tally
  | Some on_channel =>
      let rest := List.filter (fun other => negb (Nat.eqb other l)) on_channel in
      if bool_decide (rest = []) then delete channel tally else <[channel := rest]> tally
  end.

(** [Channels::send]: the listeners reached, in order. *)
Definition send (alive : listener -> bool) (channel : Bytes) (tally : Channels)
  : Channels * list listener :=
  match tally !! channel with
  | None => (tally, [])
  | Some on_channel =>
      let reached := List.filter alive on_channel in
      (if bool_decide (reached = []) then delete channel tally else <[channel := reached]> tally,
       reached)
  end.

(** ** pubsub.rs *)

Section Pubsub.
Context `{UnicodeTables}.

Definition ALLOWED_WHILE_LISTENING : list string :=
  ["SUBSCRIBE"; "UNSUBSCRIBE"; "PSUBSCRIBE"; "PUNSUBSCRIBE"; "PING"; "QUIT"; "RESET"]%string.

(** The channels one client is listening on; the tally itself is the server's,
    and is handed to the operations that keep it up to date. *)
Record Subscriptions := { on : list Bytes; me : listener }.

(** [Subscriptions::of]. *)
Definition subscriptions_of (l : listener) : Subscriptions := {| on := []; me := l |}.

(** [Subscriptions::listening]. *)
Definition listening (subs : Subscriptions) : bool := match on subs with [] => false | _ => true end.

(** [Subscriptions::add] and [Subscriptions::remove]. *)
Definition subscribe (channel : Bytes) (st : Subscriptions * Channels)
  : Subscriptions * Channels * Z :=
  let '(subs, tally) := st in
  if bool_decide (channel ∈ on subs) then (subs, tally, len (on subs))
  else
    let subs' := {| on := on subs ++ [channel]; me := me subs |} in
    (subs', joined channel (me subs) tally, len (on subs')).

(** [Vec::remove] of the place of the first element equal to this one. *)
Fixpoint remove_first (channel : Bytes) (l : list Bytes) : list Bytes :=
  match l with
  | [] => []
  | c :: l => if c =b? channel then l else c :: remove_first channel l
  end.

Definition unsubscribe (channel : Bytes) (st : Subscriptions * Channels)
  : Subscriptions * Channels * Z :=
  let '(subs, tally) := st in
  if bool_decide (channel ∈ on subs) then
    let subs' := {| on := remove_first channel (on subs); me := me subs |} in
    (subs', parted channel (me subs) tally, len (on subs'))
  else (subs, tally, len (on subs)).

(** [Drop for Subscriptions]. *)
Definition drop_subscriptions (subs : Subscriptions) (tally : Channels) : Channels :=
  fold_left (fun tally channel => parted channel (me subs) tally) (on subs) tally.

(** [confirm_naming] and [confirm]. *)
Definition confirm_naming (what : string) (channel : Value) (n : Z) : Value :=
  Array [BulkString (lit what); channel; Integer (as_i64 n)].
Definition confirm (what : string) (channel : Bytes) (n : Z) : Value :=
  confirm_naming what (BulkString channel) n.

(** One confirmation for each channel, in the order they were named. *)
Fixpoint confirm_each (what : string)
  (act : Bytes -> Subscriptions * Channels -> Subscriptions * Channels * Z)
  (channels : list Bytes) (st : Subscriptions * Channels)
  : Subscriptions * Channels * list Value :=
  match channels with
  | [] => (st, [])
  | channel :: channels =>
      let '(st, n) := act channel st in
      let '(st, replies) := confirm_each what act channels st in
      (st, confirm what channel n :: replies)
  end.

(** [given_up]. *)
Definition given_up (st : Subscriptions * Channels) : Subscriptions * Channels * Value :=
  match on st.1 with
  | [] => (st, confirm_naming "unsubscribe" Null 0)
  | channels =>
      let '(st, replies) := confirm_each "unsubscribe" unsubscribe channels st in
      (st, Sequence replies)
  end.

(** [delivery]. *)
Definition delivery (channel message : Bytes) : Bytes :=
  encode (Array [BulkString (lit "message"); BulkString channel; BulkString message]).

Definition allowed_while_listening (command : Bytes) : bool := one_of ALLOWED_WHILE_LISTENING command.

(** [out_of_context]. *)
Definition out_of_context (command : Bytes) : Value :=
  Error (lit "ERR Can't execute '" ++ to_lowercase command ++
    lit "': only (P|S)SUBSCRIBE / (P|S)UNSUBSCRIBE / PING / QUIT / RESET are allowed in this context").

(** [pubsub::run]: besides the reply, who was handed a message. *)
Definition pubsub_run (alive : listener -> bool) (command : Bytes) (args : list Bytes)
  (st : Subscriptions * Channels)
  : option (Subscriptions * Channels * list (listener * Bytes) * Value) :=
  let '(subs, tally) := st in
  if command =b? lit "PUBLISH" then
    match args with
    | [channel; message] =>
        let '(tally, reached) := send alive channel tally in
        Some (subs, tally, map (fun l => (l, delivery channel message)) reached,
              Integer (as_i64 (len reached)))
    | _ => Some (st, [], wrong_arity "publish")
    end
  else if command =b? lit "SUBSCRIBE" then
    match args with
    | [] => Some (st, [], wrong_arity "subscribe")
    | channels =>
        let '(st, replies) := confirm_each "subscribe" subscribe channels st in
        Some (st, [], Sequence replies)
    end
  else if command =b? lit "UNSUBSCRIBE" then
    match args with
    | [] => let '(st, reply) := given_up st in Some (st, [], reply)
    | channels =>
        let '(st, replies) := confirm_each "unsubscribe" unsubscribe channels st in
        Some (st, [], Sequence replies)
    end
  else if (command =b? lit "PING") && listening subs then
    Some (st, [], Array [BulkString (lit "pong"); BulkString []])
  else None.

(** ** The tally and its clients

    The invariant that ties them: a client is listed under a channel, once,
    exactly when it has it among its own, and no channel is kept with nobody on
    it. *)
Record Tallied (clients : gset listener) (subs_of : listener -> list Bytes) (tally : Channels) : Prop := {
  tally_nonempty : forall c l, tally !! c = Some l -> l <> [];
  tally_once : forall c l, tally !! c = Some l -> NoDup l;
  tally_on : forall l, l ∈ clients -> NoDup (subs_of l);
  tally_iff : forall c l, l ∈ clients -> (l ∈ default [] (tally !! c) <-> c ∈ subs_of l);
  tally_known : forall c l, l ∈ default [] (tally !! c) -> l ∈ clients;
}.

(** What changes when one client's own list does. *)
Definition now_on (l : listener) (channels : list Bytes) (subs_of : listener -> list Bytes)
  (k : listener) : list Bytes :=
  if Nat.eqb k l then channels else subs_of k.

Lemma joined_lookup c c' l tally :
  joined c l tally !! c'
  = if bool_decide (c' = c) then Some (default [] (tally !! c) ++ [l]) else tally !! c'.
Proof.
  unfold joined. case_bool_decide as E; [subst; apply lookup_insert_eq|by apply lookup_insert_ne].
Qed.

Lemma parted_lookup c c' l tally :
  (forall l', tally !! c = Some l' -> l' <> []) ->
  default [] (parted c l tally !! c')
  = if bool_decide (c' = c) then List.filter (fun o => negb (Nat.eqb o l)) (default [] (tally !! c))
    else default [] (tally !! c').
Proof.
  intros Hne. unfold parted. destruct (tally !! c) as [on_c|] eqn:Ec.
  - cbn [from_option id]. case_bool_decide as E; case_bool_decide as E'.
    + subst c'. rewrite lookup_delete_eq. by rewrite E.
    + by rewrite lookup_delete_ne.
    + subst c'. by rewrite lookup_insert_eq.
    + by rewrite lookup_insert_ne.
  - case_bool_decide as E; [subst; by rewrite Ec|done].
Qed.

Lemma parted_some c c' l tally l' :
  (forall c l, tally !! c = Some l -> l <> []) ->
  parted c l tally !! c' = Some l' ->
  l' <> [] /\ exists l0, tally !! c' = Some l0 /\ (l' = l0 \/ l' = List.filter (fun o => negb (Nat.eqb o l)) l0).
Proof.
  intros Hne. unfold parted. destruct (tally !! c) as [on_c|] eqn:Ec; [|intros H'; split; [by eapply Hne|eauto]].
  case_bool_decide as E.
  - intros [? H']%lookup_delete_Some. split; [by eapply Hne|eauto].
  - intros [[<- <-]|[? H']]%lookup_insert_Some; [split; [done|eauto]|split; [by eapply Hne|eauto]].
Qed.

Lemma remove_first_filter c l :
  NoDup l -> remove_first c l = List.filter (fun x => negb (x =b? c)) l.
Proof.
  induction l as [|x l IH]; cbn; [done|]. intros [Hx Hn]%NoDup_cons. beq_cases; cbn.
  - subst x. symmetry. clear -Hx. induction l as [|y l IH]; cbn; [done|].
    apply not_elem_of_cons in Hx as [Hy Hx].
    assert ((y =b? c) = false) as -> by (apply beq_false; congruence). cbn. f_equal. by apply IH.
  - f_equal. by apply IH.
Qed.

Lemma elem_filter {A} (p : A -> bool) l x : x ∈ List.filter p l <-> x ∈ l /\ p x = true.
Proof. rewrite !list_elem_of_In. apply List.filter_In. Qed.

Lemma NoDup_filter_bool {A} (p : A -> bool) l : NoDup l -> NoDup (List.filter p l).
Proof.
  induction 1 as [|x l Hx _ IH]; cbn; [constructor|]. destruct (p x); [|done].
  apply NoDup_cons. split; [|done]. rewrite elem_filter. tauto.
Qed.

Lemma subscribe_tallied clients subs_of tally subs c :
  Tallied clients subs_of tally -> me subs ∈ clients -> on subs = subs_of (me subs) ->
  let '(subs', tally', n) := subscribe c (subs, tally) in
  Tallied clients (now_on (me subs) (on subs') subs_of) tally' /\ me subs' = me subs
  /\ on subs' = (if bool_decide (c ∈ on subs) then on subs else on subs ++ [c])
  /\ n = len (on subs').
Proof.
  intros [Hne Honce Hon Hiff Hknown] Hme Hsubs. unfold subscribe.
  case_bool_decide as Hc; cbn; split_and!; try done.
  - assert (forall k, now_on (me subs) (on subs) subs_of k = subs_of k) as E
      by (intros k; unfold now_on; destruct (Nat.eqb_spec k (me subs)); [by subst|done]).
    split; [done|done| | |done]; intros; rewrite ?E; auto.
  - assert (Hnot : me subs ∉ default [] (tally !! c)) by (rewrite Hiff, <- Hsubs by done; done).
    split.
    + intros c' l. rewrite joined_lookup. case_bool_decide; [intros [= <-]; by intros [_ ?]%app_nil|apply Hne].
    + intros c' l. rewrite joined_lookup. case_bool_decide; [|apply Honce]. intros [= <-].
      apply NoDup_app. split_and!; [|intros x Hx ->%list_elem_of_singleton; done|apply NoDup_singleton].
      destruct (tally !! c) eqn:E; [by eapply Honce|constructor].
    + intros l Hl. unfold now_on. destruct (Nat.eqb_spec l (me subs)); [|auto].
      apply NoDup_app. split_and!; [rewrite Hsubs; auto|intros x Hx ->%list_elem_of_singleton; done|
        apply NoDup_singleton].
    + intros c' l Hl. rewrite joined_lookup. unfold now_on.
      destruct (Nat.eqb_spec l (me subs)) as [->|Hlm].
      * rewrite elem_of_app, list_elem_of_singleton, Hsubs, <- (Hiff c') by done.
        case_bool_decide as E; [subst c'; cbn|naive_solver].
        rewrite elem_of_app, list_elem_of_singleton. tauto.
      * rewrite <- Hiff by done. case_bool_decide as E; [subst c'; cbn|done].
        rewrite elem_of_app, list_elem_of_singleton. tauto.
    + intros c' l. rewrite joined_lookup. case_bool_decide as E; [subst c'; cbn|apply Hknown].
      rewrite elem_of_app, list_elem_of_singleton. intros [Hl| ->]; [by eapply Hknown|done].
Qed.

Lemma parted_tallied clients subs_of tally l c :
  Tallied clients subs_of tally -> l ∈ clients ->
  Tallied clients (now_on l (List.filter (fun x => negb (x =b? c)) (subs_of l)) subs_of)
    (parted c l tally).
Proof.
  intros [Hne Honce Hon Hiff Hknown] Hl. split.
  - intros c' l' H'. by apply (parted_some c c' l) in H' as [? _].
  - intros c' l' H'. apply (parted_some c c' l) in H' as [_ (l0 & H0 & [-> | ->])]; [eauto| |done].
    apply NoDup_filter_bool. eauto.
  - intros k Hk. unfold now_on. destruct (Nat.eqb_spec k l); [|auto].
    apply NoDup_filter_bool. auto.
  - intros c' k Hk. rewrite parted_lookup by apply Hne. unfold now_on.
    destruct (Nat.eqb_spec k l) as [->|Hkl].
    + rewrite elem_filter, negb_true_iff, beq_false, <- (Hiff c' l) by done.
      case_bool_decide as E; [subst c'|naive_solver].
      rewrite elem_filter, Nat.eqb_refl. cbn. naive_solver.
    + rewrite <- Hiff by done. case_bool_decide as E; [subst c'|done].
      rewrite elem_filter, negb_true_iff, Nat.eqb_neq. tauto.
  - intros c' k. rewrite parted_lookup by apply Hne. case_bool_decide as E; [subst c'|apply Hknown].
    rewrite elem_filter. intros [? _]. by eapply Hknown.
Qed.

Lemma Tallied_ext clients subs_of subs_of' tally :
  (forall l, subs_of l = subs_of' l) -> Tallied clients subs_of tally -> Tallied clients subs_of' tally.
Proof. intros E [? ? ? ? ?]. split; intros; rewrite <- ?E; eauto. Qed.

Lemma unsubscribe_tallied clients subs_of tally subs c :
  Tallied clients subs_of tally -> me subs ∈ clients -> on subs = subs_of (me subs) ->
  let '(subs', tally', n) := unsubscribe c (subs, tally) in
  Tallied clients (now_on (me subs) (on subs') subs_of) tally' /\ me subs' = me subs
  /\ on subs' = List.filter (fun x => negb (x =b? c)) (on subs) /\ n = len (on subs').
Proof.
  intros T Hme Hsubs. unfold unsubscribe. case_bool_decide as Hc; cbn.
  - pose proof (tally_on _ _ _ T (me subs) Hme) as Hn. rewrite <- Hsubs in Hn.
    rewrite remove_first_filter by done. split_and!; [|done..].
    rewrite Hsubs. by apply parted_tallied.
  - assert (List.filter (fun x => negb (x =b? c)) (on subs) = on subs) as E.
    { clear -Hc. induction (on subs) as [|x l IH]; cbn; [done|].
      apply not_elem_of_cons in Hc as [Hx Hc].
      assert ((x =b? c) = false) as -> by (apply beq_false; congruence). cbn. f_equal. by apply IH. }
    rewrite E. split_and!; [|done..]. apply (Tallied_ext _ subs_of); [|done].
    intros k. unfold now_on. destruct (Nat.eqb_spec k (me subs)); [by subst|done].
Qed.

Lemma now_on_twice l a b subs_of k : now_on l a (now_on l b subs_of) k = now_on l a subs_of k.
Proof. unfold now_on. by destruct (Nat.eqb k l). Qed.

Lemma now_on_self l a subs_of : now_on l a subs_of l = a.
Proof. unfold now_on. by rewrite Nat.eqb_refl. Qed.

(** Naming several channels keeps the tally in step at each of them. *)
Lemma confirm_each_tallied what act clients channels subs_of tally subs :
  (forall subs_of tally subs c,
     Tallied clients subs_of tally -> me subs ∈ clients -> on subs = subs_of (me subs) ->
     let '(subs', tally', n) := act c (subs, tally) in
     Tallied clients (now_on (me subs) (on subs') subs_of) tally' /\ me subs' = me subs) ->
  Tallied clients subs_of tally -> me subs ∈ clients -> on subs = subs_of (me subs) ->
  let '(subs', tally', replies) := confirm_each what act channels (subs, tally) in
  Tallied clients (now_on (me subs) (on subs') subs_of) tally' /\ me subs' = me subs
  /\ length replies = length channels.
Proof.
  intros Hact. revert subs_of tally subs.
  induction channels as [|c channels IH]; intros subs_of tally subs T Hme Hon; cbn [confirm_each].
  - split_and!; [|done..]. apply (Tallied_ext _ subs_of); [|done].
    intros k. unfold now_on. destruct (Nat.eqb_spec k (me subs)); [by subst|done].
  - pose proof (Hact subs_of tally subs c T Hme Hon) as H1.
    destruct (act c (subs, tally)) as [[subs1 tally1] n]. destruct H1 as [T1 Hme1].
    specialize (IH _ _ _ T1 ltac:(by rewrite Hme1)).
    rewrite Hme1, now_on_self in IH. specialize (IH eq_refl).
    destruct (confirm_each what act channels (subs1, tally1)) as [[subs2 tally2] replies].
    destruct IH as (T2 & Hme2 & Hlen). split_and!; [|congruence|cbn; lia].
    eapply Tallied_ext; [|exact T2]. intros k. apply now_on_twice.
Qed.

Lemma confirm_subscribes clients channels subs_of tally subs :
  Tallied clients subs_of tally -> me subs ∈ clients -> on subs = subs_of (me subs) ->
  let '(subs', tally', replies) := confirm_each "subscribe" subscribe channels (subs, tally) in
  forall c, c ∈ on subs' <-> c ∈ on subs \/ c ∈ channels.
Proof.
  revert subs_of tally subs. induction channels as [|c0 channels IH]; intros subs_of tally subs T Hme Hon;
    cbn [confirm_each].
  - intros c. rewrite elem_of_nil. tauto.
  - pose proof (subscribe_tallied clients subs_of tally subs c0 T Hme Hon) as H1.
    destruct (subscribe c0 (subs, tally)) as [[subs1 tally1] n]. destruct H1 as (T1 & Hme1 & Hon1 & _).
    specialize (IH _ _ _ T1 ltac:(by rewrite Hme1)). rewrite Hme1, now_on_self in IH. specialize (IH eq_refl).
    destruct (confirm_each "subscribe" subscribe channels (subs1, tally1)) as [[subs2 tally2] replies].
    intros c. rewrite IH, Hon1, elem_of_cons. case_bool_decide; [naive_solver|].
    rewrite elem_of_app, list_elem_of_singleton. naive_solver.
Qed.

Lemma confirm_unsubscribes clients channels subs_of tally subs :
  Tallied clients subs_of tally -> me subs ∈ clients -> on subs = subs_of (me subs) ->
  let '(subs', tally', replies) := confirm_each "unsubscribe" unsubscribe channels (subs, tally) in
  forall c, c ∈ on subs' <-> c ∈ on subs /\ c ∉ channels.
Proof.
  revert subs_of tally subs. induction channels as [|c0 channels IH]; intros subs_of tally subs T Hme Hon;
    cbn [confirm_each].
  - intros c. rewrite elem_of_nil. tauto.
  - pose proof (unsubscribe_tallied clients subs_of tally subs c0 T Hme Hon) as H1.
    destruct (unsubscribe c0 (subs, tally)) as [[subs1 tally1] n]. destruct H1 as (T1 & Hme1 & Hon1 & _).
    specialize (IH _ _ _ T1 ltac:(by rewrite Hme1)). rewrite Hme1, now_on_self in IH. specialize (IH eq_refl).
    destruct (confirm_each "unsubscribe" unsubscribe channels (subs1, tally1)) as [[subs2 tally2] replies].
    intros c. rewrite IH, Hon1, elem_filter, negb_true_iff, beq_false, elem_of_cons. tauto.
Qed.

Lemma subscribe_step clients subs_of tally subs c :
  Tallied clients subs_of tally -> me subs ∈ clients -> on subs = subs_of (me subs) ->
  let '(subs', tally', n) := subscribe c (subs, tally) in
  Tallied clients (now_on (me subs) (on subs') subs_of) tally' /\ me subs' = me subs.
Proof.
  intros T Hme Hon. pose proof (subscribe_tallied clients subs_of tally subs c T Hme Hon) as H1.
  destruct (subscribe c (subs, tally)) as [[subs' tally'] n]. tauto.
Qed.

Lemma unsubscribe_step clients subs_of tally subs c :
  Tallied clients subs_of tally -> me subs ∈ clients -> on subs = subs_of (me subs) ->
  let '(subs', tally', n) := unsubscribe c (subs, tally) in
  Tallied clients (now_on (me subs) (on subs') subs_of) tally' /\ me subs' = me subs.
Proof.
  intros T Hme Hon. pose proof (unsubscribe_tallied clients subs_of tally subs c T Hme Hon) as H1.
  destruct (unsubscribe c (subs, tally)) as [[subs' tally'] n]. tauto.
Qed.

(** When everyone is there, a message reaches the whole list. *)
Lemma send_all alive c clients subs_of tally :
  Tallied clients subs_of tally -> (forall l, l ∈ clients -> alive l = true) ->
  send alive c tally = (tally, default [] (tally !! c)).
Proof.
  intros T Halive. unfold send. destruct (tally !! c) as [on_c|] eqn:E; [|done].
  assert (List.filter alive on_c = on_c) as ->.
  { assert (forall l, l ∈ on_c -> alive l = true) as Hall.
    { intros l Hl. apply Halive. eapply (tally_known _ _ _ T c). by rewrite E. }
    clear -Hall. induction on_c as [|l on_c IH]; cbn; [done|]. rewrite Hall by left. f_equal.
    apply IH. intros; apply Hall; by right. }
  rewrite bool_decide_false by (by eapply tally_nonempty). by rewrite insert_id.
Qed.

(** ** What the commands promise *)

(** C38. [PUBLISH] reaches exactly the clients subscribed to the channel, each of
    them once and with the same bytes, which parse back to the message; the
    publisher is told how many they are, and nothing else changes. *)
Theorem publish_reaches alive clients subs_of tally subs channel message :
  Tallied clients subs_of tally -> (forall l, l ∈ clients -> alive l = true) ->
  exists reached,
    pubsub_run alive (lit "PUBLISH") [channel; message] (subs, tally)
    = Some (subs, tally, map (fun l => (l, delivery channel message)) reached,
            Integer (as_i64 (len reached)))
    /\ NoDup reached
    /\ (forall l, l ∈ reached <-> l ∈ clients /\ channel ∈ subs_of l)
    /\ (len channel <= MAX_BULK_LENGTH -> len message <= MAX_BULK_LENGTH ->
        parse (delivery channel message)
        = Ok (Some (Array [BulkString (lit "message"); BulkString channel; BulkString message],
                    len (delivery channel message)))).
Proof.
  intros T Halive. exists (default [] (tally !! channel)). split_and!.
  - change (pubsub_run alive (lit "PUBLISH") [channel; message] (subs, tally)) with
      (let '(tally, reached) := send alive channel tally in
       Some (subs, tally, map (fun l => (l, delivery channel message)) reached,
             Integer (as_i64 (len reached)))).
    by rewrite (send_all alive channel clients subs_of) by done.
  - destruct (tally !! channel) eqn:E; [by eapply tally_once|constructor].
  - intros l. split.
    + intros Hl. assert (l ∈ clients) by (by eapply tally_known). split; [done|].
      by apply (tally_iff _ _ _ T).
    + intros [Hl Hc]. by apply (tally_iff _ _ _ T).
  - intros Hc Hm. unfold delivery, parse.
    set (v := Array _). assert (wire MAX_DEPTH v) as Hw.
    { subst v. cbn. split_and!; try done; try (vm_compute; congruence). }
    pose proof (value_encode MAX_DEPTH v [] Hw) as Hv. rewrite app_nil_r in Hv. rewrite Hv. cbn [rbind].
    rewrite len_nil. do 3 f_equal.
Qed.

(** C37. Subscribing, unsubscribing and hanging up keep the server's tally in
    step with what each client listens on: a client is listed under a channel,
    once, exactly when it is on it, no channel is kept with nobody on it, and
    the other clients are as they were.  [SUBSCRIBE] puts a client on the
    channels it names, [UNSUBSCRIBE] takes it off them (off all when it names
    none), and one that hangs up is on nothing. *)
Theorem tally_in_step alive command clients subs_of tally subs args st' given reply :
  Tallied clients subs_of tally -> me subs ∈ clients -> on subs = subs_of (me subs) ->
  (forall l, l ∈ clients -> alive l = true) ->
  pubsub_run alive command args (subs, tally) = Some (st', given, reply) ->
  let '(subs', tally') := st' in
  Tallied clients (now_on (me subs) (on subs') subs_of) tally' /\ me subs' = me subs
  /\ (command = lit "SUBSCRIBE" -> forall c, c ∈ on subs' <-> c ∈ on subs \/ c ∈ args)
  /\ (command = lit "UNSUBSCRIBE" -> args <> [] -> forall c, c ∈ on subs' <-> c ∈ on subs /\ c ∉ args)
  /\ (command = lit "UNSUBSCRIBE" -> args = [] -> listening subs' = false)
  /\ (command <> lit "SUBSCRIBE" -> command <> lit "UNSUBSCRIBE" -> subs' = subs).
Proof.
  intros T Hme Hon Halive.
  assert (Tself : Tallied clients (now_on (me subs) (on subs) subs_of) tally).
  { apply (Tallied_ext _ subs_of); [|done].
    intros k. unfold now_on. destruct (Nat.eqb_spec k (me subs)); [by subst|done]. }
  unfold pubsub_run. beq_cases; [subst command..|].
  - destruct args as [|channel [|message [|]]]; try (intros [= <- <- <-]; by split_and!).
    rewrite (send_all alive channel clients subs_of) by done. intros [= <- <- <-]. by split_and!.
  - destruct args as [|c args]; [intros [= <- <- <-]; split_and!; try done|].
    { intros _ c. rewrite elem_of_nil. tauto. }
    pose proof (confirm_each_tallied "subscribe" subscribe clients (c :: args) subs_of tally subs
      (subscribe_step clients) T Hme Hon) as H1.
    pose proof (confirm_subscribes clients (c :: args) subs_of tally subs T Hme Hon) as H2.
    destruct (confirm_each "subscribe" subscribe (c :: args) (subs, tally)) as [[subs' tally'] rs].
    destruct H1 as (T1 & Hme1 & _). intros [= <- <- <-]. by split_and!.
  - destruct args as [|c args].
    + unfold given_up; cbn [fst]. destruct (on subs) as [|c0 cs] eqn:Eon.
      { intros [= <- <- <-]. rewrite Eon. split_and!; try done. by unfold listening; rewrite Eon. }
      rewrite <- Eon in Hon, Tself. rewrite <- Eon.
      pose proof (confirm_each_tallied "unsubscribe" unsubscribe clients (on subs) subs_of tally subs
        (unsubscribe_step clients) T Hme Hon) as H1.
      pose proof (confirm_unsubscribes clients (on subs) subs_of tally subs T Hme Hon) as H2.
      destruct (confirm_each "unsubscribe" unsubscribe (on subs) (subs, tally)) as [[subs' tally'] rs].
      destruct H1 as (T1 & Hme1 & _). intros [= <- <- <-]. split_and!; try done.
      intros _ _. unfold listening. destruct (on subs') as [|c1 cs'] eqn:E'; [done|].
      exfalso. destruct (H2 c1) as [H3 _]. by destruct (H3 ltac:(left)).
    + pose proof (confirm_each_tallied "unsubscribe" unsubscribe clients (c :: args) subs_of tally subs
        (unsubscribe_step clients) T Hme Hon) as H1.
      pose proof (confirm_unsubscribes clients (c :: args) subs_of tally subs T Hme Hon) as H2.
      destruct (confirm_each "unsubscribe" unsubscribe (c :: args) (subs, tally)) as [[subs' tally'] rs].
      destruct H1 as (T1 & Hme1 & _). intros [= <- <- <-]. by split_and!.
  - destruct (true && listening subs); [|done]. intros [= <- <- <-]. by split_and!.
  - done.
Qed.

(** Hanging up. *)
Lemma drop_tallied clients subs_of tally subs :
  Tallied clients subs_of tally -> me subs ∈ clients -> on subs = subs_of (me subs) ->
  Tallied clients (now_on (me subs) [] subs_of) (drop_subscriptions subs tally).
Proof.
  unfold drop_subscriptions. intros T Hme Hon.
  assert (Hgen : forall gone subs_of tally, Tallied clients subs_of tally ->
    Tallied clients (now_on (me subs) (List.filter (fun x => negb (bool_decide (x ∈ gone)))
                                          (subs_of (me subs))) subs_of)
      (fold_left (fun tally channel => parted channel (me subs) tally) gone tally)).
  { clear T Hon subs_of tally. induction gone as [|c gone IH]; intros subs_of tally T; cbn [fold_left].
    - apply (Tallied_ext _ subs_of); [|done]. intros k. unfold now_on.
      destruct (Nat.eqb_spec k (me subs)); [subst k|done]. clear.
      induction (subs_of (me subs)) as [|x l IH]; cbn; [done|]. rewrite bool_decide_false by apply not_elem_of_nil.
      cbn. by f_equal.
    - apply (parted_tallied _ _ _ (me subs) c) in T; [|done]. apply IH in T.
      rewrite now_on_self in T. eapply Tallied_ext; [|exact T]. intros k. rewrite now_on_twice.
      unfold now_on. destruct (Nat.eqb k (me subs)); [|done]. rewrite filter_andb.
      apply List.filter_ext. intros x. beq_cases.
      + subst. rewrite andb_false_r, bool_decide_true by left. done.
      + cbn. rewrite andb_true_r. f_equal. apply bool_decide_ext. rewrite elem_of_cons. naive_solver. }
  specialize (Hgen (on subs) subs_of tally T).
  assert (List.filter (fun x => negb (bool_decide (x ∈ on subs))) (subs_of (me subs)) = []) as E; [|by rewrite E in Hgen].
  rewrite <- Hon. destruct (List.filter _ (on subs)) as [|x l] eqn:E; [done|].
  assert (x ∈ List.filter (fun x => negb (bool_decide (x ∈ on subs))) (on subs)) as Hx
    by (rewrite E; left).
  apply elem_filter in Hx as [Hx1 Hx2]. by rewrite bool_decide_true in Hx2.
Qed.

End Pubsub.

(** Two clients, one channel between them and one of the second's own. *)
Definition tuned (l : listener) : list Bytes :=
  match l with 1%nat => [lit "a"] | 2%nat => [lit "a"; lit "b"] | _ => [] end.
Definition airwaves : Channels := {[ lit "a" := [1; 2]%nat; lit "b" := [2]%nat ]}.
Lemma airwaves_tallied : Tallied {[ 1; 2 ]}%nat tuned airwaves.
Proof.
  assert (Hl : forall c, airwaves !! c = if bool_decide (c = lit "a") then Some [1; 2]%nat
            else if bool_decide (c = lit "b") then Some [2]%nat else None).
  { intros c. unfold airwaves. destruct (decide (c = lit "a")) as [->|Ha].
    { rewrite bool_decide_true by done. apply lookup_insert_eq. }
    rewrite bool_decide_false, lookup_insert_ne by done.
    case_bool_decide as Hb; [subst; apply lookup_singleton_eq|by apply lookup_singleton_ne]. }
  split.
  - intros c l. rewrite Hl. repeat case_bool_decide; by intros [= <-].
  - intros c l. rewrite Hl. repeat case_bool_decide; intros [= <-];
      apply (bool_decide_unpack _); reflexivity.
  - intros l Hin. assert (l = 1 \/ l = 2)%nat as [-> | ->] by set_solver;
      apply (bool_decide_unpack _); vm_compute; reflexivity.
  - intros c l Hin. assert (l = 1 \/ l = 2)%nat as [-> | ->] by set_solver;
      rewrite Hl; cbn [tuned]; repeat case_bool_decide; subst; cbn; set_solver.
  - intros c l. rewrite Hl. repeat case_bool_decide; cbn; set_solver.
Qed.

Lemma publish_reaches_witness :
  exists reached,
    pubsub_run (fun _ => true) (lit "PUBLISH") [lit "a"; lit "hi"] (subscriptions_of 7, airwaves)
    = Some (subscriptions_of 7, airwaves, map (fun l => (l, delivery (lit "a") (lit "hi"))) reached,
            Integer (as_i64 (len reached)))
    /\ forall l, l ∈ reached <-> l ∈ ({[ 1; 2 ]}%nat : gset nat) /\ lit "a" ∈ tuned l.
Proof.
  destruct (publish_reaches (fun _ => true) {[ 1; 2 ]}%nat tuned airwaves (subscriptions_of 7)
    (lit "a") (lit "hi") airwaves_tallied (fun _ _ => eq_refl)) as (reached & H & _ & Hl & _).
  exists reached. split; [exact H|exact Hl].
Defined.

Lemma tally_in_step_witness :
  let subs := {| on := [lit "a"; lit "b"]; me := 2%nat |} in
  exists st' given reply,
    pubsub_run (fun _ => true) (lit "UNSUBSCRIBE") [lit "a"] (subs, airwaves) = Some (st', given, reply)
    /\ forall c, c ∈ on st'.1 <-> c ∈ on subs /\ c ∉ [lit "a"].
Proof.
  intros subs.
  destruct (pubsub_run (fun _ => true) (lit "UNSUBSCRIBE") [lit "a"] (subs, airwaves))
    as [[[st' given] reply]|] eqn:E; [|discriminate E].
  exists st', given, reply. split; [exact eq_refl|].
  pose proof (tally_in_step (fun _ => true) (lit "UNSUBSCRIBE") {[ 1; 2 ]}%nat tuned airwaves subs
    [lit "a"] st' given reply airwaves_tallied ltac:(set_solver) eq_refl (fun _ _ => eq_refl) E) as H.
  destruct st' as [subs' tally']. destruct H as (_ & _ & _ & H & _).
  apply H; [exact eq_refl|by intros [=]].
Defined.
