(* ===== verification/Config.v ===== *)
(** * How the server was asked to run: src/src/config.rs, and the commands that
    tell of it: src/src/commands/settings.rs and src/src/commands/info.rs

    Settings are read from flags in pairs of a name and a value, and told again
    by [CONFIG GET]; [INFO] tells of replication.  The working directory is the
    system's ([cwd]: nothing when it cannot be read). *)
From S2P Require Import Prelude Text Resp Command.
Open Scope Z_scope.

(** ** config.rs *)

Definition DEFAULT_PORT : Z := 6379.
Definition DEFAULT_DBFILENAME : Bytes := lit "dump.rdb".
Definition DEFAULT_APPENDDIRNAME : Bytes := lit "appendonlydir".
Definition DEFAULT_APPENDFILENAME : Bytes := lit "appendonly.aof".
Definition DEFAULT_APPENDFSYNC : Bytes := lit "everysec".

(** Where to find the master a replica follows. *)
Record Master := { host : Bytes; master_port : Z }.

(** How the server was asked to run. *)
Record Config := {
  port : Z;
  replicaof : option Master;
  dir : Bytes;
  dbfilename : Bytes;
  appendonly : bool;
  appenddirname : Bytes;
  appendfilename : Bytes;
  appendfsync : Bytes;
}.

(** [starting_dir]. *)
Definition starting_dir (cwd : option Bytes) : Bytes := default (lit ".") cwd.

(** [Config::default]. *)
Definition default_config (cwd : option Bytes) : Config :=
  {| port := DEFAULT_PORT; replicaof := None; dir := starting_dir cwd;
     dbfilename := DEFAULT_DBFILENAME; appendonly := false;
     appenddirname := DEFAULT_APPENDDIRNAME; appendfilename := DEFAULT_APPENDFILENAME;
     appendfsync := DEFAULT_APPENDFSYNC |}.

(** A message with what was found between quotes. *)
Definition found (message : string) (value : Bytes) : Bytes :=
  lit message ++ lit ", found '" ++ value ++ lit "'".

(** [value.parse::<u16>()?]. *)
Definition parse_port (value : Bytes) : result Z Bytes := map_err show_int_error (parse_u16 value).

(** [Master::parse]. *)
Definition parse_master (value : Bytes) : result Master Bytes :=
  match split_whitespace value with
  | [h; p] => try? p <- parse_port p; Ok {| host := h; master_port := p |}
  | _ => Err (found "expected a host and a port" value)
  end.

(** [yes_or_no] and [yes_or_no_given]. *)
Definition yes_or_no (setting : bool) : Bytes := if setting then lit "yes" else lit "no".
Definition yes_or_no_given (value : Bytes) : result bool Bytes :=
  let word := to_ascii_lowercase value in
  if word =b? lit "yes" then Ok true
  else if word =b? lit "no" then Ok false
  else Err (found "expected 'yes' or 'no'" value).

Definition APPENDFSYNCS : list string := ["always"; "everysec"; "no"]%string.

(** [appendfsync_given]. *)
Definition appendfsync_given (value : Bytes) : result Bytes Bytes :=
  if existsb (fun known => eq_ignore_ascii_case value (lit known)) APPENDFSYNCS then Ok value
  else Err (found "expected 'always', 'everysec' or 'no'" value).

Definition with_port c v := {| port := v; replicaof := replicaof c; dir := dir c; dbfilename := dbfilename c;
  appendonly := appendonly c; appenddirname := appenddirname c; appendfilename := appendfilename c;
  appendfsync := appendfsync c |}.
Definition with_replicaof c v := {| port := port c; replicaof := v; dir := dir c; dbfilename := dbfilename c;
  appendonly := appendonly c; appenddirname := appenddirname c; appendfilename := appendfilename c;
  appendfsync := appendfsync c |}.
Definition with_dir c v := {| port := port c; replicaof := replicaof c; dir := v; dbfilename := dbfilename c;
  appendonly := appendonly c; appenddirname := appenddirname c; appendfilename := appendfilename c;
  appendfsync := appendfsync c |}.
Definition with_dbfilename c v := {| port := port c; replicaof := replicaof c; dir := dir c; dbfilename := v;
  appendonly := appendonly c; appenddirname := appenddirname c; appendfilename := appendfilename c;
  appendfsync := appendfsync c |}.
Definition with_appendonly c v := {| port := port c; replicaof := replicaof c; dir := dir c; dbfilename := dbfilename c;
  appendonly := v; appenddirname := appenddirname c; appendfilename := appendfilename c;
  appendfsync := appendfsync c |}.
Definition with_appenddirname c v := {| port := port c; replicaof := replicaof c; dir := dir c; dbfilename := dbfilename c;
  appendonly := appendonly c; appenddirname := v; appendfilename := appendfilename c;
  appendfsync := appendfsync c |}.
Definition with_appendfilename c v := {| port := port c; replicaof := replicaof c; dir := dir c; dbfilename := dbfilename c;
  appendonly := appendonly c; appenddirname := appenddirname c; appendfilename := v;
  appendfsync := appendfsync c |}.
Definition with_appendfsync c v := {| port := port c; replicaof := replicaof c; dir := dir c; dbfilename := dbfilename c;
  appendonly := appendonly c; appenddirname := appenddirname c; appendfilename := appendfilename c;
  appendfsync := v |}.

(** One flag and its value. *)
Definition set_flag (flag nm value : Bytes) (c : Config) : result Config Bytes :=
  if nm =b? lit "port" then try? v <- parse_port value; Ok (with_port c v)
  else if nm =b? lit "replicaof" then try? v <- parse_master value; Ok (with_replicaof c (Some v))
  else if nm =b? lit "dir" then Ok (with_dir c value)
  else if nm =b? lit "dbfilename" then Ok (with_dbfilename c value)
  else if nm =b? lit "appendonly" then try? v <- yes_or_no_given value; Ok (with_appendonly c v)
  else if nm =b? lit "appenddirname" then Ok (with_appenddirname c value)
  else if nm =b? lit "appendfilename" then Ok (with_appendfilename c value)
  else if nm =b? lit "appendfsync" then try? v <- appendfsync_given value; Ok (with_appendfsync c v)
  else Err (lit "unknown flag '" ++ flag ++ lit "'").

(** The loop of [Config::parse]. *)
Fixpoint parse_flags (args : list Bytes) (c : Config) : result Config Bytes :=
  match args with
  | [] => Ok c
  | flag :: args =>
      match strip_prefix (lit "--") flag with
      | None => Err (found "expected a flag" flag)
      | Some nm =>
          match args with
          | [] => Err (lit "'" ++ flag ++ lit "' takes a value, and none was given")
          | value :: args => try? c <- set_flag flag nm value c; parse_flags args c
          end
      end
  end.

(** [Config::parse]. *)
Definition parse_config (cwd : option Bytes) (args : list Bytes) : result Config Bytes :=
  parse_flags args (default_config cwd).

(** [Config::setting]. *)
Definition setting (c : Config) (nm : Bytes) : option (string * Bytes) :=
  let nm := to_ascii_lowercase nm in
  if nm =b? lit "dir" then Some ("dir"%string, dir c)
  else if nm =b? lit "dbfilename" then Some ("dbfilename"%string, dbfilename c)
  else if nm =b? lit "appendonly" then Some ("appendonly"%string, yes_or_no (appendonly c))
  else if nm =b? lit "appenddirname" then Some ("appenddirname"%string, appenddirname c)
  else if nm =b? lit "appendfilename" then Some ("appendfilename"%string, appendfilename c)
  else if nm =b? lit "appendfsync" then Some ("appendfsync"%string, appendfsync c)
  else None.

(** ** settings.rs *)

(** [settings]. *)
Definition settings (names : list Bytes) (c : Config) : list Value :=
  flat_map (fun nm =>
    match (match text nm with Some t => setting c t | None => None end) with
    | Some (known, value) => [BulkString (lit known); BulkString value]
    | None => []
    end) names.

(** [unknown_action] of commands/settings.rs. *)
Definition unknown_config_action (action : Bytes) : Value :=
  Error (lit "ERR Unknown CONFIG subcommand or wrong number of arguments for '"
         ++ from_utf8_lossy action ++ lit "'").

(** [settings::run]. *)
Definition settings_run (command : Bytes) (args : list Bytes) (c : Config) : option Value :=
  if command =b? lit "CONFIG" then
    Some (match args with
          | [] => wrong_arity "config"
          | action :: names =>
              if eq_ignore_ascii_case action (lit "GET") then
                match names with [] => wrong_arity "config|get" | _ => Array (settings names c) end
              else unknown_config_action action
          end)
  else None.

(** ** info.rs *)

Definition SECTIONS : list Bytes := [lit "replication"].

(** [report]. *)
Definition report (sections : list Bytes) (c : Config) (id : Bytes) (offset : Z) : Value :=
  BulkString (flat_map (fun section =>
    if eq_ignore_ascii_case section (lit "replication") then
      lit "# Replication" ++ CRLF
      ++ lit "role:" ++ lit (match replicaof c with Some _ => "slave" | None => "master" end) ++ CRLF
      ++ lit "master_replid:" ++ id ++ CRLF
      ++ lit "master_repl_offset:" ++ show offset ++ CRLF
    else []) sections).

(** [info::run]. *)
Definition info_run (command : Bytes) (args : list Bytes) (c : Config) (id : Bytes) (offset : Z)
  : option Value :=
  if command =b? lit "INFO" then
    Some (match args with
          | [] => report SECTIONS c id offset
          | sections => report (omap text sections) c id offset
          end)
  else None.

(** ** What is promised *)

(** The value given last to a flag. *)
Fixpoint given_last (nm : Bytes) (args : list Bytes) : option Bytes :=
  match args with
  | flag :: value :: args =>
      match given_last nm args with
      | Some v => Some v
      | None => if flag =b? lit "--" ++ nm then Some value else None
      end
  | _ => None
  end.

(** What [CONFIG GET] is to answer with for a setting: the value given to it
    last, or else its default; whether the file is kept is told as yes or no. *)
Definition told (cwd : option Bytes) (args : list Bytes) (nm : string) : Bytes :=
  match given_last (lit nm) args with
  | Some v => if lit nm =b? lit "appendonly" then to_ascii_lowercase v else v
  | None => default [] (snd <$> setting (default_config cwd) (lit nm))
  end.

Definition SETTINGS : list string :=
  ["dir"; "dbfilename"; "appendonly"; "appenddirname"; "appendfilename"; "appendfsync"]%string.

Lemma parse_port_range v n : parse_port v = Ok n -> 0 <= n <= U16_MAX.
Proof.
  unfold parse_port, parse_u16. destruct (parse_int 0 U16_MAX v) as [m|] eqn:E; cbn; [|done].
  intros [= ->]. by apply (parse_int_range _ _ v).
Qed.

Lemma yes_or_no_back v b : yes_or_no_given v = Ok b -> yes_or_no b = to_ascii_lowercase v.
Proof. unfold yes_or_no_given. beq_cases; try done; intros [= <-]; done. Qed.

(** One flag sets what it names and nothing else. *)
Lemma set_flag_setting flag nm value c c' known :
  set_flag flag nm value c = Ok c' -> known ∈ SETTINGS ->
  setting c' (lit known)
  = if nm =b? lit known
    then Some (known, if lit known =b? lit "appendonly" then to_ascii_lowercase value else value)
    else setting c (lit known).
Proof.
  intros Hs Hk. unfold SETTINGS in Hk. revert Hs. unfold set_flag.
  repeat (apply elem_of_cons in Hk as [->|Hk]); try (by apply not_elem_of_nil in Hk);
    beq_cases; subst; try done; try (exfalso; congruence);
    try (intros (v & Hv & [= <-])%rbind_Ok); try (intros [= <-]); try reflexivity;
    try (by cbn; rewrite <- (yes_or_no_back _ _ Hv)).
  all: unfold appendfsync_given in Hv; case_match; [by injection Hv as ->|done].
Qed.

Lemma set_flag_port flag nm value c c' :
  set_flag flag nm value c = Ok c' -> 0 <= port c <= U16_MAX -> 0 <= port c' <= U16_MAX.
Proof.
  unfold set_flag. beq_cases; try (intros [= <-]); try done;
    intros (v & Hv & [= <-])%rbind_Ok; try done. intros _. by apply (parse_port_range value).
Qed.

Lemma parse_flags_settings args c c' known :
  parse_flags args c = Ok c' -> known ∈ SETTINGS -> 0 <= port c <= U16_MAX ->
  setting c' (lit known)
  = match given_last (lit known) args with
    | Some v => Some (known, if lit known =b? lit "appendonly" then to_ascii_lowercase v else v)
    | None => setting c (lit known)
    end /\ 0 <= port c' <= U16_MAX.
Proof.
  intros Hp Hk. revert c Hp. induction args as [args IH] using (induction_ltof1 _ (@length _)).
  unfold ltof in IH. intros c. destruct args as [|flag args]; cbn [parse_flags given_last].
  { by intros [= ->]. }
  destruct (strip_prefix (lit "--") flag) as [nm|] eqn:Ef; [|done].
  destruct args as [|value args]; [done|]. intros (c1 & H1 & H2)%rbind_Ok Hport.
  destruct (IH args ltac:(cbn; lia) c1 H2 (set_flag_port _ _ _ _ _ H1 Hport)) as [IH1 IH2].
  split; [|done]. rewrite IH1. apply strip_prefix_Some in Ef as ->.
  destruct (given_last (lit known) args); [done|].
  rewrite (set_flag_setting _ _ _ _ _ _ H1 Hk).
  destruct (nm =b? lit known) eqn:E; [apply beq_true in E as ->; by rewrite beq_refl|].
  apply beq_false in E. assert ((lit "--" ++ nm =b? lit "--" ++ lit known) = false) as ->; [|done].
  apply beq_false. intros H. by apply app_inv_head in H.
Qed.

(** [CONFIG GET] tells what the server was started with: a command line that
    reads leaves each setting at the value given to it last, or at its default
    when none was given, told under its own name however the name is spelled; a
    name that is not a setting's is told nothing of; and the port is one a
    socket can have. *)
Theorem config_told cwd args c names :
  parse_config cwd args = Ok c ->
  0 <= port c <= U16_MAX
  /\ settings_run (lit "CONFIG") (lit "get" :: names) c
     = Some (match names with
             | [] => wrong_arity "config|get"
             | _ => Array (settings names c)
             end)
  /\ (forall known nm, known ∈ SETTINGS -> to_ascii_lowercase nm = lit known -> text nm = Some nm ->
        settings [nm] c = [BulkString (lit known); BulkString (told cwd args known)])
  /\ (forall nm, (forall known, known ∈ SETTINGS -> to_ascii_lowercase nm <> lit known) ->
        settings [nm] c = []).
Proof.
  intros Hp. unfold parse_config in Hp.
  assert (Hd : 0 <= port (default_config cwd) <= U16_MAX) by (vm_compute; split; congruence).
  split_and!; [by apply (parse_flags_settings args _ c "dir"%string Hp ltac:(left) Hd)
              |by apply (parse_flags_settings args _ c "dir"%string Hp ltac:(left) Hd)|done| |].
  - intros known nm Hk Hnm Ht. unfold settings; cbn [flat_map]. rewrite Ht.
    assert (setting c nm = setting c (lit known)) as ->.
    { unfold setting. rewrite Hnm. unfold SETTINGS in Hk.
      repeat (apply elem_of_cons in Hk as [->|Hk]); try (by apply not_elem_of_nil in Hk); done. }
    destruct (parse_flags_settings args _ c known Hp Hk Hd) as [-> _]. unfold told.
    destruct (given_last (lit known) args); [done|].
    unfold SETTINGS in Hk.
    repeat (apply elem_of_cons in Hk as [->|Hk]); try (by apply not_elem_of_nil in Hk); done.
  - intros nm Hnm. unfold settings; cbn [flat_map]. destruct (text nm) as [t|] eqn:Et; [|done].
    apply text_id in Et as ->. unfold setting.
    assert (forall known, known ∈ SETTINGS -> (to_ascii_lowercase nm =b? lit known) = false) as Hf
      by (intros; apply beq_false; auto).
    unfold SETTINGS in Hf. rewrite !Hf by (repeat (first [left | right])). done.
Qed.

Lemma config_told_witness :
  let args := [lit "--dir"; lit "/a"; lit "--port"; lit "7000"; lit "--dir"; lit "/b"] in
  exists c, parse_config None args = Ok c
  /\ settings [lit "DIR"] c = [BulkString (lit "dir"); BulkString (lit "/b")].
Proof.
  intros args. eexists. split; [vm_compute; reflexivity|].
  set (c := {| port := _ |}). assert (parse_config None args = Ok c) as E by (vm_compute; reflexivity).
  destruct (config_told None args c [] E) as (_ & _ & H & _).
  apply (H "dir"%string (lit "DIR")); [left|reflexivity|reflexivity].
Defined.
