(* ===== verification/Replicas.v ===== *)
(** * A master and its replicas: src/src/replicas.rs, the replication half of
    src/src/server.rs, and src/src/commands/replication.rs

    The replicas following this master, each with the queue of what it is yet to
    be written and how far it has said it has got; the offset of the history
    handed out; and the commands a replica and a waiting client send.  Whether a
    replica's connection has ended is for the connection to know ([ended]). *)
From S2P Require Import Prelude Text Resp Command StoreCommands.
Open Scope Z_scope.

(** ** replicas.rs *)

(** A replica, told apart by a number: what waits on its queue, first in first
    out, and how much of the stream it has said it has taken in. *)
Record Replica := { replica_id : nat; queue : list Bytes; reached : Z }.

(** [Replicas::following], which forgets those whose connections have ended. *)
Definition following (ended : nat -> bool) (rs : list Replica) : list Replica :=
  List.filter (fun r => negb (ended (replica_id r))) rs.

(** [Replicas::add]. *)
Definition add_replica (ended : nat -> bool) (id : nat) (rs : list Replica) : list Replica :=
  following ended rs ++ [{| replica_id := id; queue := []; reached := 0 |}].

(** [Replicas::count]. *)
Definition count_replicas (ended : nat -> bool) (rs : list Replica) : list Replica * Z :=
  let rs := following ended rs in (rs, len rs).

(** [Replicas::caught_up_to]. *)
Definition caught_up_to (ended : nat -> bool) (offset : Z) (rs : list Replica) : list Replica * Z :=
  let rs := following ended rs in (rs, len (List.filter (fun r => offset <=? reached r) rs)).

Definition enqueue (bytes : Bytes) (r : Replica) : Replica :=
  {| replica_id := replica_id r; queue := queue r ++ [bytes]; reached := reached r |}.

(** [Replicas::send]. *)
Definition send_to_replicas (ended : nat -> bool) (command : Value) (rs : list Replica)
  : list Replica * Z :=
  let rs := following ended rs in
  match rs with
  | [] => ([], 0)
  | _ => let encoded := encode command in (map (enqueue encoded) rs, len encoded)
  end.

(** [Following::reached]. *)
Definition note_reached (id : nat) (offset : Z) (rs : list Replica) : list Replica :=
  map (fun r => if Nat.eqb (replica_id r) id
                then {| replica_id := replica_id r; queue := queue r; reached := offset |}
                else r) rs.

(** ** server.rs *)

Definition ID_LENGTH : nat := 40.
Definition HEX : Bytes := lit "0123456789abcdef".

(** One round of xorshift on 64 bits. *)
Definition xorshift (state : Z) : Z :=
  let state := Z.max state 1 in
  let state := Z.lxor state (wrap_u64 (Z.shiftl state 13)) in
  let state := Z.lxor state (Z.shiftr state 7) in
  Z.lxor state (wrap_u64 (Z.shiftl state 17)).
Fixpoint id_digits (n : nat) (state : Z) : Bytes :=
  match n with
  | O => []
  | S n =>
      let state := xorshift state in
      default x00 (HEX !! Z.to_nat (Z.land state 0xf)) :: id_digits n state
  end.

(** [new_id], from the time in nanoseconds since the epoch and the process. *)
Definition new_id (nanoseconds process : Z) : Bytes :=
  id_digits ID_LENGTH (Z.lxor (wrap_u64 nanoseconds) (wrap_u64 (Z.shiftl process 32))).

(** A server's place in the history of a dataset, and its replicas. *)
Record Replication := { id : Bytes; offset : Z; replicas : list Replica }.

(** [Replication::advance]. *)
Definition advance (bytes : Z) (r : Replication) : Replication :=
  {| id := id r; offset := wrap_u64 (offset r + bytes); replicas := replicas r |}.

Definition with_replicas (r : Replication) (rs : list Replica) : Replication :=
  {| id := id r; offset := offset r; replicas := rs |}.

(** Passing a command on, and counting it: what [dispatch] and [wait] do. *)
Definition pass_on (ended : nat -> bool) (command : Value) (r : Replication) : Replication :=
  let '(rs, sent) := send_to_replicas ended command (replicas r) in
  advance sent (with_replicas r rs).

(** ** replication.rs *)

Definition EMPTY_DATASET : Bytes := lit "REDIS0011" ++ [xff; x00; x00; x00; x00; x00; x00; x00; x00].

(** [as_command]. *)
Definition as_command (parts : list Bytes) : Value := Array (map BulkString parts).

Definition negative_timeout : Value := Error (lit "ERR timeout is negative").

(** One round of the loop of [wait]. *)
Definition wait_round (ended : nat -> bool) (target wanted : Z) (deadline : option Z)
  (r : Replication) : Replication * Outcome :=
  let '(rs, caught_up) := caught_up_to ended target (replicas r) in
  (with_replicas r rs,
   if wanted <=? as_i64 caught_up then Replied (Integer (as_i64 caught_up))
   else Blocks (AwaitReplicas target wanted deadline)).

(** [wait], up to where it waits. *)
Definition wait (ended : nat -> bool) (now wanted timeout : Z) (r : Replication)
  : Replication * Outcome :=
  let target := offset r in
  if target =? 0 then
    let '(rs, n) := count_replicas ended (replicas r) in
    (with_replicas r rs, Replied (Integer (as_i64 n)))
  else
    let r := pass_on ended (as_command [lit "REPLCONF"; lit "GETACK"; lit "*"]) r in
    let deadline := if timeout =? 0 then None else Some (now + timeout * 1000000) in
    wait_round ended target wanted deadline r.

(** What [wait] answers when its time is up. *)
Definition wait_over (ended : nat -> bool) (target : Z) (r : Replication) : Replication * Value :=
  let '(rs, caught_up) := caught_up_to ended target (replicas r) in
  (with_replicas r rs, Integer (as_i64 caught_up)).

(** [replication::run]. *)
Definition replication_run (ended : nat -> bool) (now : Z) (command : Bytes) (args : list Bytes)
  (r : Replication) : option (Replication * Outcome) :=
  if command =b? lit "REPLCONF" then
    Some (r, Replied (if Nat.even (length args) then OK else wrong_arity "replconf"))
  else if command =b? lit "PSYNC" then
    Some (r, Replied
      (match args with
       | [_; _] =>
           Sequence [SimpleString (lit "FULLRESYNC " ++ id r ++ lit " " ++ show (offset r));
                     File EMPTY_DATASET]
       | _ => wrong_arity "psync"
       end))
  else if command =b? lit "WAIT" then
    Some (match args with
          | [wanted; timeout] =>
              match number_i64 wanted, number_i64 timeout with
              | Some wanted, Some timeout =>
                  if timeout <? 0 then (r, Replied negative_timeout)
                  else wait ended now wanted timeout r
              | _, _ => (r, Replied not_an_integer)
              end
          | _ => (r, Replied (wrong_arity "wait"))
          end)
  else None.

(** ** What is promised *)

Definition queued_bytes (r : Replica) : Bytes := concat (queue r).

(** A replication id is forty digits, hexadecimal and lower-case. *)
Lemma xorshift_range s : 0 <= s < 2 ^ 64 -> 0 <= xorshift s < 2 ^ 64.
Proof.
  assert (Hx : forall a b, 0 <= a < 2 ^ 64 -> 0 <= b < 2 ^ 64 -> 0 <= Z.lxor a b < 2 ^ 64).
  { intros a b Ha Hb. split; [apply Z.lxor_nonneg; lia|].
    destruct (Z.eq_dec (Z.lxor a b) 0) as [->|Hne]; [lia|].
    assert (0 < Z.lxor a b) by (pose proof (proj2 (Z.lxor_nonneg a b) ltac:(lia)); lia).
    apply Z.log2_lt_pow2; [done|]. eapply Z.le_lt_trans; [apply Z.log2_lxor; lia|].
    assert (forall x, 0 <= x < 2 ^ 64 -> Z.log2 x < 64).
    { intros x Hx. destruct (Z.eq_dec x 0) as [->|]; [done|]. apply Z.log2_lt_pow2; lia. }
    apply Z.max_lub_lt; auto. }
  assert (Hw : forall a, 0 <= wrap_u64 a < 2 ^ 64) by (intros; apply Z.mod_pos_bound; lia).
  intros Hs. unfold xorshift. set (m := Z.max s 1). assert (0 <= m < 2 ^ 64) as Hm by lia.
  clearbody m. clear Hs. pose proof (Hx _ _ Hm (Hw (Z.shiftl m 13))) as H1.
  set (a := Z.lxor m _) in *. clearbody a.
  assert (0 <= Z.shiftr a 7 < 2 ^ 64) as H2.
  { rewrite Z.shiftr_div_pow2 by lia. split; [apply Z.div_pos; lia|].
    apply Z.div_lt_upper_bound; lia. }
  pose proof (Hx _ _ H1 H2) as H3. by apply Hx.
Qed.

Lemma id_digits_hex n s : length (id_digits n s) = n /\ forall c, c ∈ id_digits n s -> c ∈ HEX.
Proof.
  revert s; induction n as [|n IH]; intros s; cbn [id_digits length].
  - split; [done|]. intros c Hc. by apply not_elem_of_nil in Hc.
  - destruct (IH (xorshift s)) as [IH1 IH2]. split; [lia|]. intros c [->|Hc]%elem_of_cons; [|auto].
    assert (0 <= Z.land (xorshift s) 0xf < 16) as Hb.
    { change 0xf with (Z.ones 4). rewrite Z.land_ones by lia. apply Z.mod_pos_bound. lia. }
    destruct (lookup_lt_is_Some_2 HEX (Z.to_nat (Z.land (xorshift s) 0xf))) as [x Hx].
    { change (length HEX) with 16%nat. lia. }
    rewrite Hx. by eapply list_elem_of_lookup_2.
Qed.

Lemma send_to_replicas_spec ended command rs :
  send_to_replicas ended command rs
  = (map (enqueue (encode command)) (following ended rs),
     match following ended rs with [] => 0 | _ => len (encode command) end).
Proof. unfold send_to_replicas. by destruct (following ended rs). Qed.

(** Passing several commands on, one after the other. *)
Definition pass_all (ended : nat -> bool) (commands : list Value) (r : Replication) : Replication :=
  fold_left (fun r c => pass_on ended c r) commands r.

Lemma following_enqueue ended bytes rs :
  following ended (map (enqueue bytes) (following ended rs)) = map (enqueue bytes) (following ended rs).
Proof.
  unfold following. induction rs as [|r rs IH]; cbn; [done|].
  destruct (ended (replica_id r)) eqn:E; cbn; [done|]. rewrite E. cbn. by rewrite IH.
Qed.

Lemma wrap_u64_add a b : wrap_u64 (wrap_u64 a + b) = wrap_u64 (a + b).
Proof. unfold wrap_u64. by rewrite Zplus_mod_idemp_l. Qed.

(** The stream every replica is handed is one and the same, and the offset
    is its length: passing commands on appends to the queue of each replica
    still there exactly their encodings, in the order they were given, and moves
    the offset by as many bytes (modulo 2^64); with no replica there, the offset
    stays. *)
Lemma pass_all_stream ended commands r :
  commands <> [] ->
  let r' := pass_all ended commands r in
  id r' = id r
  /\ Forall2 (fun a b => replica_id b = replica_id a /\ reached b = reached a
                         /\ queued_bytes b = queued_bytes a ++ flat_map encode commands)
       (following ended (replicas r)) (replicas r')
  /\ (0 <= offset r <= U64_MAX ->
      offset r' = wrap_u64 (offset r + match following ended (replicas r) with
                                       | [] => 0
                                       | _ => len (flat_map encode commands)
                                       end)).
Proof.
  intros Hne. destruct commands as [|c commands]; [done|]. clear Hne.
  revert c r. induction commands as [|c' commands IH]; intros c r r'; subst r'.
  - cbn. unfold pass_on. rewrite send_to_replicas_spec. cbn. rewrite !app_nil_r. split_and!; [done| |].
    + clear. induction (following ended (replicas r)) as [|a rs IHr]; cbn; constructor; [|done].
      unfold queued_bytes; cbn. rewrite concat_app. cbn. by rewrite app_nil_r.
    + intros _. by destruct (following ended (replicas r)).
  - change (pass_all ended (c :: c' :: commands) r)
      with (pass_all ended (c' :: commands) (pass_on ended c r)).
    destruct (IH c' (pass_on ended c r)) as (H1 & H2 & H3). clear IH.
    set (r' := pass_all ended (c' :: commands) (pass_on ended c r)) in *. clearbody r'.
    revert H1 H2 H3. unfold pass_on. rewrite send_to_replicas_spec. cbn [advance with_replicas id offset replicas].
    rewrite following_enqueue. intros H1 H2 H3. split_and!; [done| |].
    + clear -H2. remember (c' :: commands) as cs. clear Heqcs. cbn [flat_map].
      revert H2. generalize (replicas r'). induction (following ended (replicas r)) as [|a rs IHr];
        intros l H2; cbn in H2; inversion H2 as [|x b xs l' Hb Hl]; subst; constructor; [|by apply IHr].
      destruct Hb as (Hb1 & Hb2 & Hb3). cbn in *. split_and!; [done..|].
      rewrite Hb3. unfold queued_bytes; cbn. rewrite concat_app. cbn. rewrite app_nil_r.
      by rewrite <- app_assoc.
    + intros Ho. rewrite H3.
      * rewrite wrap_u64_add. f_equal. cbn [flat_map]. destruct (following ended (replicas r)); cbn [map]; [lia|].
        rewrite !len_app. lia.
      * pose proof (Z.mod_pos_bound (offset r + match following ended (replicas r) with
          | [] => 0 | _ => len (encode c) end) 18446744073709551616 ltac:(lia)).
        unfold wrap_u64, U64_MAX. lia.
Qed.

(** [WAIT] answers with the number of replicas still there that have said
    they got as far as the master stood when the waiting began: at once when
    nothing has been handed out yet (then every replica has) or when that is as
    many as were wanted, and otherwise only on news or when its time is up.
    Having something to wait for, it asks every replica how far it has got, and
    counts the asking as part of the stream. *)
Theorem wait_counts ended now wanted timeout r r' out :
  len (replicas r) <= I64_MAX -> wait ended now wanted timeout r = (r', out) ->
  let n := len (List.filter (fun a => offset r <=? reached a) (following ended (replicas r))) in
  let ask := encode (as_command [lit "REPLCONF"; lit "GETACK"; lit "*"]) in
  if offset r =? 0 then
    out = Replied (Integer (len (following ended (replicas r)))) /\ offset r' = offset r
  else
    replicas r' = map (enqueue ask) (following ended (replicas r))
    /\ offset r' = wrap_u64 (offset r + match following ended (replicas r) with [] => 0 | _ => len ask end)
    /\ out = (if wanted <=? n then Replied (Integer n)
              else Blocks (AwaitReplicas (offset r) wanted
                     (if timeout =? 0 then None else Some (now + timeout * 1000000))))
    /\ forall r2, wait_over ended (offset r) r2
         = (with_replicas r2 (following ended (replicas r2)),
            Integer (as_i64 (len (List.filter (fun a => offset r <=? reached a)
                                    (following ended (replicas r2)))))).
Proof.
  intros Hlen. unfold wait. cbv zeta.
  assert (Hsub : forall p (l : list Replica), len (List.filter p l) <= len l).
  { intros p l. unfold len. induction l as [|a l IH]; cbn; [done|]. case_match; cbn; lia. }
  assert (Hi : forall z, 0 <= z <= I64_MAX -> as_i64 z = z)
    by (intros z Hz; unfold as_i64; by decide_leb).
  assert (Hf : len (following ended (replicas r)) <= I64_MAX)
    by (pose proof (Hsub (fun r => negb (ended (replica_id r))) (replicas r)); unfold following; lia).
  destruct (Z.eqb_spec (offset r) 0) as [Hz|Hz].
  { unfold count_replicas. intros [= <- <-]. rewrite Hi; [done|]. split; [apply len_nonneg|done]. }
  unfold pass_on. rewrite send_to_replicas_spec.
  unfold wait_round, caught_up_to. cbn [advance with_replicas replicas].
  rewrite following_enqueue.
  assert (Hn : len (List.filter (fun a => offset r <=? reached a)
      (map (enqueue (encode (as_command [lit "REPLCONF"; lit "GETACK"; lit "*"])))
         (following ended (replicas r))))
    = len (List.filter (fun a => offset r <=? reached a) (following ended (replicas r)))).
  { clear. generalize (encode (as_command [lit "REPLCONF"; lit "GETACK"; lit "*"])). intros ask.
    unfold len. f_equal. induction (following ended (replicas r)) as [|a l IH]; cbn; [done|].
    destruct (offset r <=? reached a); cbn; congruence. }
  rewrite Hn. set (n := len (List.filter _ (following ended (replicas r)))) in *.
  assert (0 <= n <= I64_MAX).
  { subst n. split; [apply len_nonneg|]. etransitivity; [apply Hsub|done]. }
  rewrite Hi by done. intros [= <- <-]. by split_and!.
Qed.

Lemma wait_counts_witness :
  let r := {| id := lit "x"; offset := 14;
              replicas := [{| replica_id := 1; queue := []; reached := 14 |};
                           {| replica_id := 2; queue := []; reached := 0 |}] |} in
  (wait (fun _ => false) 0 1 500 r).2 = Replied (Integer 1).
Proof.
  intros r. destruct (wait (fun _ => false) 0 1 500 r) as [r' out] eqn:E.
  destruct (wait_counts (fun _ => false) 0 1 500 r r' out ltac:(vm_compute; congruence) E)
    as (_ & _ & H & _). exact H.
Defined.
