(* ===== verification/Transactions.v ===== *)
(** * Transactions: src/src/commands/transactions.rs

    The commands a connection has queued and the keys it watches, and the
    commands that steer them.  The watched keys are a hash map in the source,
    and are gone through in whatever order it gives; here that of [gmap]. *)
From S2P Require Import Prelude Text Resp Store Command.
Open Scope Z_scope.

Section Transactions.
Context `{UnicodeTables}.

(** The transaction a connection is in the middle of. *)
Record Transaction := {
  queued : option (list Command);
  watched : gmap Bytes (option Z);
}.
Definition no_transaction : Transaction := {| queued := None; watched := ∅ |}.

(** What the dispatcher is to do with a transaction command. *)
Inductive Steered : Type := SteerReply (reply : Value) | Execute (commands : list Command).

(** [steers_a_transaction]. *)
Definition steers_a_transaction (command : Bytes) : bool :=
  one_of ["MULTI"; "EXEC"; "DISCARD"; "WATCH"]%string command.

Definition nested_multi : Value := Error (lit "ERR MULTI calls can not be nested").
Definition watch_inside_multi : Value := Error (lit "ERR WATCH inside MULTI is not allowed").
Definition exec_without_multi : Value := Error (lit "ERR EXEC without MULTI").
Definition discard_without_multi : Value := Error (lit "ERR DISCARD without MULTI").

(** [watched.entry(key).or_insert(version)] for each key in turn. *)
Fixpoint note_versions (kvs : list (Bytes * option Z)) (w : gmap Bytes (option Z))
  : gmap Bytes (option Z) :=
  match kvs with
  | [] => w
  | (k, v) :: kvs =>
      note_versions kvs (match w !! k with Some _ => w | None => <[k := v]> w end)
  end.

(** [steer]. *)
Definition steer (now : Z) (c : Command) (t : Transaction) (s : State)
  : option (Transaction * State * Steered) :=
  let arguments := args c in
  if uppercased c =b? lit "MULTI" then
    Some (match arguments with
          | [] =>
              match queued t with
              | Some _ => (t, s, SteerReply nested_multi)
              | None => ({| queued := Some []; watched := watched t |}, s, SteerReply OK)
              end
          | _ => (t, s, SteerReply (wrong_arity "multi"))
          end)
  else if uppercased c =b? lit "EXEC" then
    Some (match arguments with
          | [] =>
              match queued t with
              | Some commands =>
                  let '(s, same) := unchanged now (map_to_list (watched t)) s in
                  (no_transaction, s, if same then Execute commands else SteerReply NullArray)
              | None => (t, s, SteerReply exec_without_multi)
              end
          | _ => (t, s, SteerReply (wrong_arity "exec"))
          end)
  else if uppercased c =b? lit "WATCH" then
    Some (match arguments with
          | [] => (t, s, SteerReply (wrong_arity "watch"))
          | ks =>
              match queued t with
              | Some _ => (t, s, SteerReply watch_inside_multi)
              | None =>
                  let '(s, vs) := versions now ks s in
                  ({| queued := queued t; watched := note_versions (combine ks vs) (watched t) |}, s,
                   SteerReply OK)
              end
          end)
  else if uppercased c =b? lit "DISCARD" then
    Some (match arguments with
          | [] =>
              match queued t with
              | Some _ => (no_transaction, s, SteerReply OK)
              | None => (t, s, SteerReply discard_without_multi)
              end
          | _ => (t, s, SteerReply (wrong_arity "discard"))
          end)
  else None.

(** [transactions::run]. *)
Definition transactions_run (command : Bytes) (arguments : list Bytes) (t : Transaction)
  : option (Transaction * Value) :=
  if command =b? lit "UNWATCH" then
    Some (match arguments with
          | [] => ({| queued := queued t; watched := ∅ |}, OK)
          | _ => (t, wrong_arity "unwatch")
          end)
  else None.

(** ** Facts *)
Lemma steer_claims now c t s :
  is_Some (steer now c t s) <-> steers_a_transaction (uppercased c) = true.
Proof.
  unfold steer, steers_a_transaction, one_of. cbn [existsb].
  destruct (uppercased c =b? lit "MULTI"), (uppercased c =b? lit "EXEC"),
    (uppercased c =b? lit "WATCH"), (uppercased c =b? lit "DISCARD"); cbn;
    (split; [done|by intros ?]) || (split; [by intros [? [=]]|done]).
Qed.

(** Watching keeps the first reading of a key. *)
Lemma note_versions_lookup kvs w k :
  note_versions kvs w !! k
  = match w !! k with Some v => Some v | None => snd <$> List.find (fun kv => kv.1 =b? k) kvs end.
Proof.
  revert w; induction kvs as [|[k' v'] kvs IH]; intros w; cbn; [by destruct (w !! k)|].
  rewrite IH. destruct (w !! k') as [v0|] eqn:E.
  - destruct (w !! k) eqn:Ek; [done|]. beq_cases; [congruence|done].
  - beq_cases.
    + subst k'. by rewrite lookup_insert_eq, E.
    + by rewrite lookup_insert_ne.
Qed.

Lemma steer_good now c t s t' s' out :
  Wf s -> steer now c t s = Some (t', s', out) -> Good s s'.
Proof.
  intros W. unfold steer.
  pose proof (unchanged_good now (map_to_list (watched t)) s W) as Gu.
  pose proof (versions_good now (args c) s W) as Gv.
  destruct (unchanged now (map_to_list (watched t)) s) as [su same].
  destruct (versions now (args c) s) as [sv vs] eqn:Ev.
  repeat case_match; try (intros [= <- <- <-]; (exact Gu || by apply Good_refl)); try done.
  all: simplify_eq; try (intros [= <- <- <-]; exact Gv).
Qed.

(** ** What is promised *)

(** [WATCH], [MULTI] and [EXEC] against the store: a transaction opened after
    its keys were watched runs, and runs exactly the commands queued, if and only
    if each watched key still has the version it was first seen with; the watch
    and the queue end with [EXEC] either way, and steering never changes what
    clients see of the store. *)
Theorem exec_runs_iff_unchanged now c t s :
  uppercased c = lit "EXEC" -> args c = [] ->
  exists s' out, steer now c t s = Some (match queued t with Some _ => no_transaction | None => t end,
                                         s', out)
  /\ (forall now' k, now <= now' -> seen now' (entries s') k = seen now' (entries s) k)
  /\ match queued t with
     | None => out = SteerReply exec_without_multi
     | Some commands =>
         (out = Execute commands /\
          forall k v, watched t !! k = Some v -> version <$> seen now (entries s) k = v)
         \/ (out = SteerReply NullArray /\
             exists k v, watched t !! k = Some v /\ version <$> seen now (entries s) k <> v)
     end.
Proof.
  intros Hc Ha. unfold steer. rewrite Hc, Ha.
  change (lit "EXEC" =b? lit "MULTI") with false. change (lit "EXEC" =b? lit "EXEC") with true.
  destruct (queued t) as [commands|].
  2: { eexists _, _. by split. }
  unfold unchanged. pose proof (unchanged_in_true now (map_to_list (watched t)) (entries s)) as Ht.
  assert (Hseen : forall ws es now' k, now <= now' ->
            seen now' (unchanged_in now ws es).1 k = seen now' es k).
  { induction ws as [|[k' v'] ws IH]; intros es now' k Hle; cbn; [done|].
    assert (seen now' (drop_if_expired now es k') k = seen now' es k) as E.
    { destruct (decide (k' = k)) as [<-|]; [by apply seen_later|by apply seen_drop_ne]. }
    case_bool_decide; cbn; [|done]. by rewrite IH. }
  specialize (Hseen (map_to_list (watched t)) (entries s)).
  destruct (unchanged_in now (map_to_list (watched t)) (entries s)) as [es same].
  eexists _, _. split; [done|]. cbn [fst snd entries with_entries] in *. split; [done|].
  rewrite Forall_forall in Ht.
  destruct same; [left|right]; (split; [done|]).
  - intros k v Hk. destruct Ht as [Ht _]. specialize (Ht eq_refl (k, v)). cbn in Ht.
    apply Ht. by apply elem_of_map_to_list.
  - destruct (decide (map_Forall (fun k v => version <$> seen now (entries s) k = v) (watched t)))
      as [Hall|Hnot].
    + destruct Ht as [_ Ht]. exfalso. enough (false = true) by done. apply Ht.
      intros [k v] Hkv%elem_of_map_to_list. by apply Hall.
    + apply map_not_Forall in Hnot; [|apply _]. destruct Hnot as (k & v & ? & ?). by exists k, v.
Qed.

Lemma exec_runs_witness :
  let c := {| uppercased := lit "EXEC"; name := lit "exec"; args := [] |} in
  let t := {| queued := Some [c]; watched := {[ lit "k" := None ]} |} in
  exists s' out, steer 0 c t empty_state = Some (no_transaction, s', out).
Proof.
  intros c t. destruct (exec_runs_iff_unchanged 0 c t empty_state eq_refl eq_refl) as (s' & out & E & _).
  exists s', out. exact E.
Defined.

End Transactions.
