(* ===== verification/Aof.v ===== *)
(** * The append-only file: src/src/aof.rs

    The record of the writes, the manifest that says which file it is in, and
    what a server coming back up makes of both.  The file system is a table of
    files by path.  Every operation on it may fail, as [faults] has it; the
    contents of an error are the messages [context] puts on it, outermost first.

    What is shown: commands recorded one after the other are read back in that
    order, a last one cut short being left out ([recorded_reads_back]); and a
    server started again over its own data goes on in the file it was writing
    ([prepare_again]).  [torn_record_swallows] and [manifest_misread] show where
    that ends. *)
From S2P Require Import Prelude Text Resp Command Config.
Open Scope Z_scope.

(** ** The file system *)

Inductive Access : Type :=
| CreateDirs (path : Bytes)
| ReadFile (path : Bytes)
| WriteFile (path : Bytes)
| OpenAppend (path : Bytes).

Abbreviation Files := (gmap Bytes Bytes).

(** A fault, and how much of a file being written afresh was there by then:
    nothing when it was not even opened. *)
Record Fault := { fault_said : Bytes; fault_reached : option nat }.
Abbreviation Faults := (Access -> option Fault).
Abbreviation Failure := (list Bytes).

Definition NOT_FOUND : Bytes := lit "No such file or directory (os error 2)".

(** [Path::join] on Unix. *)
Definition slash : byte := "/".
Definition join (base part : Bytes) : Bytes :=
  match part with
  | c :: _ =>
      if bool_decide (c = slash) then part
      else match last base with
           | None => part
           | Some d => if bool_decide (d = slash) then base ++ part else base ++ [slash] ++ part
           end
  | [] =>
      match last base with
      | None => []
      | Some d => if bool_decide (d = slash) then base else base ++ [slash]
      end
  end.

(** [with_context]. *)
Definition context {A} (message : Bytes) (r : result A Failure) : result A Failure :=
  map_err (cons message) r.
Definition about (before path : Bytes) : Bytes := before ++ path.

(** [std::fs::read]: the outer [Err] is a fault of the system. *)
Inductive ReadError : Type := NotFound | ReadFault (said : Bytes).
Definition read_file (faults : Faults) (files : Files) (path : Bytes) : result Bytes ReadError :=
  match faults (ReadFile path) with
  | Some fault => Err (ReadFault (fault_said fault))
  | None => ok_or (files !! path) NotFound
  end.

(** [std::fs::read_to_string]. *)
Definition read_to_string (faults : Faults) (files : Files) (path : Bytes)
  : result Bytes ReadError :=
  try? bytes <- read_file faults files path;
  map_err (fun _ => ReadFault (lit "stream did not contain valid UTF-8")) (from_utf8 bytes).

Definition read_failure (e : ReadError) : Failure :=
  match e with NotFound => [NOT_FOUND] | ReadFault said => [said] end.

Definition attempt (faults : Faults) (what : Access) : result unit Failure :=
  match faults what with Some fault => Err [fault_said fault] | None => Ok tt end.

(** [std::fs::write]: a failure may leave the file cut short. *)
Definition write_file (faults : Faults) (path bytes : Bytes) (files : Files)
  : Files * result unit Failure :=
  (match faults (WriteFile path) with
   | None => <[path := bytes]> files
   | Some fault =>
       match fault_reached fault with Some n => <[path := take n bytes]> files | None => files end
   end, attempt faults (WriteFile path)).

(** ** The record *)

(** [directory]. *)
Definition directory (c : Config) : Bytes := join (dir c) (appenddirname c).

Definition FIRST : Z := 1.
Definition INCREMENTAL : Bytes := lit "i".
Definition ALWAYS : Bytes := lit "always".

(** [Aof]: its file is the one at this path. *)
Record Aof := { path : Bytes; durable : bool }.

(** The loop of [Aof::recorded].  A command takes up at least one byte, so
    there are no more rounds than bytes. *)
Fixpoint read_commands (fuel : nat) (at_ : Z) (rest : Bytes)
  : result (list Value) (Z * ParseError) :=
  match rest, fuel with
  | [], _ | _, O => Ok []
  | _, S fuel =>
      match parse rest with
      | Err e => Err (at_, e)
      | Ok None => Ok []
      | Ok (Some (command, taken)) =>
          try? commands <- read_commands fuel (at_ + taken) (drop (Z.to_nat taken) rest);
          Ok (command :: commands)
      end
  end.

(** [Aof::recorded]. *)
Definition recorded (faults : Faults) (files : Files) (a : Aof) : result (list Value) Failure :=
  try? bytes <- context (about (lit "reading ") (path a))
                  (map_err read_failure (read_file faults files (path a)));
  map_err (fun ae => [lit "reading " ++ path a ++ lit " at byte " ++ show ae.1;
                      show_parse_error ae.2])
    (read_commands (length bytes) 0 bytes).

(** How an append goes: all of it, or only so many bytes before the system
    reports a failure; and whether [sync_data], where it is asked for, works. *)
Inductive Append : Type :=
| Appended (sync_fault : option Bytes)
| CutShort (written : nat) (flushing : bool) (said : Bytes).

(** [Aof::record]. *)
Definition record (how : Append) (a : Aof) (command : Value) (files : Files)
  : Files * result unit Failure :=
  let recorded := encode command in
  let onto bytes := <[path a := default [] (files !! path a) ++ bytes]> files in
  match how with
  | CutShort written flushing said =>
      (onto (take written recorded),
       Err [about (if flushing then lit "writing out to " else lit "recording a command in ")
              (path a); said])
  | Appended sync_fault =>
      (onto recorded,
       match sync_fault with
       | Some said =>
           if durable a
           then Err [lit "pushing " ++ path a ++ lit " through to the disk"; said]
           else Ok tt
       | None => Ok tt
       end)
  end.

(** [incremental_name], [manifest] and [listing]. *)
Definition incremental_name (c : Config) (sequence : Z) : Bytes :=
  appendfilename c ++ lit "." ++ show sequence ++ lit ".incr.aof".
Definition manifest (c : Config) : Bytes :=
  join (directory c) (appendfilename c ++ lit ".manifest").
Definition listing (c : Config) : Bytes :=
  lit "file " ++ incremental_name c FIRST ++ lit " seq " ++ show FIRST ++ lit " type "
  ++ INCREMENTAL ++ [x0a].

(** The loop of [listed]: the fields in pairs, an odd word at the end left. *)
Fixpoint fields_of (words : list Bytes) (nm kind : option Bytes) : option Bytes * option Bytes :=
  match words with
  | field :: value :: words =>
      if field =b? lit "file" then fields_of words (Some value) kind
      else if field =b? lit "type" then fields_of words nm (Some value)
      else fields_of words nm kind
  | _ => (nm, kind)
  end.

(** [listed]. *)
Definition listed (line : Bytes) : option (Bytes * Bytes) :=
  match fields_of (split_whitespace line) None None with
  | (Some nm, Some kind) => Some (nm, kind)
  | _ => None
  end.

(** What [recorded_in] makes of the text of a manifest. *)
Definition last_incremental (text : Bytes) : option Bytes :=
  last (map fst (List.filter (fun nk => nk.2 =b? INCREMENTAL) (omap listed (lines text)))).

(** [recorded_in]. *)
Definition recorded_in (faults : Faults) (files : Files) (manifest : Bytes)
  : result (option Bytes) Failure :=
  match read_to_string faults files manifest with
  | Ok text => Ok (last_incremental text)
  | Err NotFound => Ok None
  | Err e => context (about (lit "reading ") manifest) (Err (read_failure e))
  end.

(** The file [prepare] is to open: the one the manifest names, or the first,
    in a manifest of its own. *)
Definition settle_name (faults : Faults) (c : Config) (files : Files)
  : Files * result Bytes Failure :=
  match recorded_in faults files (manifest c) with
  | Err e => (files, Err e)
  | Ok (Some nm) => (files, Ok nm)
  | Ok None =>
      let '(files, written) := write_file faults (manifest c) (listing c) files in
      (files, try? _ <- context (about (lit "writing ") (manifest c)) written;
              Ok (incremental_name c FIRST))
  end.

(** [prepare]. *)
Definition prepare (faults : Faults) (c : Config) (files : Files)
  : Files * result (option Aof) Failure :=
  if negb (appendonly c) then (files, Ok None)
  else
    let d := directory c in
    match context (about (lit "creating ") d) (attempt faults (CreateDirs d)) with
    | Err e => (files, Err e)
    | Ok _ =>
        match settle_name faults c files with
        | (files, Err e) => (files, Err e)
        | (files, Ok nm) =>
            let p := join d nm in
            match context (about (lit "opening ") p) (attempt faults (OpenAppend p)) with
            | Err e => (files, Err e)
            | Ok _ =>
                (<[p := default [] (files !! p)]> files,
                 Ok (Some {| path := p;
                             durable := eq_ignore_ascii_case (appendfsync c) ALWAYS |}))
            end
        end
    end.

(** ** Facts *)

(** Commands recorded one after the other, each pushed through or not. *)
Definition record_all (a : Aof) (commands : list (option Bytes * Value)) (files : Files) : Files :=
  fold_left (fun files sc => (record (Appended sc.1) a sc.2 files).1) commands files.

Lemma record_all_file a commands files :
  is_Some (files !! path a) ->
  record_all a commands files !! path a
  = Some (default [] (files !! path a) ++ flat_map encode (map snd commands)).
Proof.
  revert files; induction commands as [|[f c] commands IH]; intros files [bytes E];
    cbn [map flat_map].
  - cbn. rewrite E. cbn. by rewrite app_nil_r.
  - change (record_all a ((f, c) :: commands) files)
      with (record_all a commands (record (Appended f) a c files).1).
    rewrite IH by (cbn; rewrite lookup_insert_eq; eauto).
    cbn. rewrite lookup_insert_eq, E. cbn. by rewrite <- app_assoc.
Qed.

(** What one command after another is read back as. *)
Lemma read_commands_whole commands torn fuel at_ :
  Forall (wire MAX_DEPTH) commands ->
  (torn = [] \/ value MAX_DEPTH torn = Ok None) ->
  (length (flat_map encode commands ++ torn) <= fuel)%nat ->
  read_commands fuel at_ (flat_map encode commands ++ torn) = Ok commands.
Proof.
  intros Hw Ht. revert fuel at_; induction Hw as [|v commands Hv Hw IH]; intros fuel at_ Hf;
    cbn [flat_map app] in *.
  - destruct Ht as [->|Ht]; [by destruct fuel|].
    destruct torn as [|c torn], fuel as [|fuel]; try done. cbn [read_commands].
    unfold parse. by rewrite Ht.
  - rewrite <- app_assoc in *. pose proof (value_encode _ _ [] Hv) as He.
    apply value_takes in He as (used & He & Hu). rewrite !app_nil_r in He. subst used.
    destruct (encode v) as [|c w] eqn:E; [cbn in Hu; lia|].
    destruct fuel as [|fuel]; [cbn in Hf; lia|]. cbn [app read_commands].
    change (c :: w ++ ?x) with ((c :: w) ++ x). rewrite <- E in *.
    unfold parse. rewrite value_encode by done. cbn [rbind].
    replace (len (encode v ++ flat_map encode commands ++ torn)
             - len (flat_map encode commands ++ torn)) with (len (encode v))
      by (rewrite (len_app (encode v)); lia).
    replace (Z.to_nat (len (encode v))) with (length (encode v)) by (unfold len; lia).
    rewrite drop_app_length, IH; [done|]. rewrite length_app in Hf. lia.
Qed.

(** *** Printable ASCII, which no line or word ends inside *)
Definition plain (s : Bytes) : bool := forallb (fun c => (0x21 <=? u8 c) && (u8 c <=? 0x7E)) s.

Lemma plain_cons c s : plain (c :: s) = true <-> 0x21 <= u8 c <= 0x7E /\ plain s = true.
Proof. cbn. rewrite !andb_true_iff, !Z.leb_le. tauto. Qed.

Lemma plain_app s t : plain (s ++ t) = plain s && plain t.
Proof. apply forallb_app. Qed.

Lemma plain_ascii s : plain s = true -> is_ascii s = true.
Proof.
  unfold plain, is_ascii. rewrite !forallb_forall. intros Hp c Hc.
  specialize (Hp c Hc). rewrite andb_true_iff, !Z.leb_le in Hp. rewrite Z.ltb_lt. lia.
Qed.

Lemma whitespace_width_plain c s : 0x21 <= u8 c <= 0x7E -> whitespace_width (c :: s) = 0%nat.
Proof.
  intros Hc. unfold whitespace_width, in_range.
  replace ((9 <=? u8 c) && (u8 c <=? 13) || (u8 c =? 32)) with false
    by (symmetry; rewrite orb_false_iff, andb_false_iff, !Z.leb_gt, Z.eqb_neq; lia).
  destruct s as [|d s]; [done|].
  replace ((u8 c =? 194) && ((u8 d =? 133) || (u8 d =? 160))) with false
    by (symmetry; rewrite andb_false_iff, Z.eqb_neq; lia).
  destruct s as [|e s]; [done|]. pose proof (u8_range d). pose proof (u8_range e).
  set (code := _ + u8 e). assert (code < 14785152) by (unfold code; lia).
  repeat match goal with |- context [code =? ?n] => replace (code =? n) with false
    by (symmetry; rewrite Z.eqb_neq; lia) end.
  decide_leb. by rewrite andb_false_r || done.
Qed.

Lemma split_words_plain w fuel word rest :
  plain w = true -> split_words (length w + fuel) word (w ++ rest)
                    = split_words fuel (rev w ++ word) rest.
Proof.
  revert word; induction w as [|c w IH]; intros word; [done|].
  rewrite plain_cons. intros [Hc Hw]. cbn [length app plus split_words].
  rewrite whitespace_width_plain by done. rewrite IH by done.
  cbn [rev]. by rewrite <- app_assoc.
Qed.

Lemma split_words_space word fuel rest :
  split_words (S fuel) word (x20 :: rest)
  = (match word with [] => [] | _ => [rev word] end) ++ split_words fuel [] rest.
Proof. done. Qed.

(** Plain words parted by single spaces. *)
Fixpoint spaced (words : list Bytes) : Bytes :=
  match words with [] => [] | [w] => w | w :: words => w ++ x20 :: spaced words end.

Lemma close_word (w : Bytes) :
  w <> [] -> match rev w with [] => [] | _ => [rev (rev w)] end = [w].
Proof.
  intros Hw. rewrite rev_involutive. destruct (rev w) eqn:E; [|done].
  apply (f_equal (@rev byte)) in E. by rewrite rev_involutive in E.
Qed.

Lemma split_words_spaced words extra :
  Forall (fun w => w <> [] /\ plain w = true) words ->
  split_words (length (spaced words) + extra) [] (spaced words) = words.
Proof.
  induction 1 as [|w words [Hw Hp] _ IH]; [by destruct extra|].
  destruct words as [|w' words].
  - cbn [spaced]. rewrite <- (app_nil_r w) at 2. rewrite split_words_plain by done.
    rewrite app_nil_r, <- (close_word w Hw) at 1. by destruct extra.
  - change (spaced (w :: w' :: words)) with (w ++ x20 :: spaced (w' :: words)).
    rewrite length_app, <- Nat.add_assoc, split_words_plain by done.
    rewrite app_nil_r. cbn [length plus]. by rewrite split_words_space, IH, close_word.
Qed.

Lemma split_lines_to_newline s line :
  (x0a ∉ s) -> split_lines line (s ++ [x0a]) = [strip_cr (rev s ++ line)].
Proof.
  revert line; induction s as [|c s IH]; intros line Hs; [done|].
  apply not_elem_of_cons in Hs as [Hc Hs]. cbn [app rev]. rewrite <- app_assoc. cbn [app].
  rewrite <- IH by done. destruct c; done.
Qed.

Lemma plain_free s : plain s = true -> (x0a ∉ s).
Proof.
  unfold plain. rewrite forallb_forall. intros Hp Hin%list_elem_of_In. by specialize (Hp _ Hin).
Qed.

Lemma spaced_free words :
  Forall (fun w => w <> [] /\ plain w = true) words -> (x0a ∉ spaced words).
Proof.
  induction 1 as [|w words [_ Hp%plain_free] _ IH]; [apply not_elem_of_nil|].
  destruct words as [|w' words]; [done|].
  change (spaced (w :: w' :: words)) with (w ++ x20 :: spaced (w' :: words)).
  rewrite elem_of_app, elem_of_cons. by intros [|[|]].
Qed.

Lemma plain_incremental c :
  plain (appendfilename c) = true -> plain (incremental_name c FIRST) = true.
Proof. intros Hp. unfold incremental_name. rewrite plain_app, Hp. reflexivity. Qed.

Lemma listing_spaced c :
  listing c = spaced [lit "file"; incremental_name c FIRST; lit "seq"; lit "1"; lit "type";
                      INCREMENTAL] ++ [x0a].
Proof. unfold listing. cbn [spaced]. cbn. by rewrite <- !app_assoc. Qed.

(** A manifest this server has written names the file it went on to open. *)
Lemma last_incremental_listing c :
  plain (appendfilename c) = true -> last_incremental (listing c) = Some (incremental_name c FIRST).
Proof.
  intros Hp%plain_incremental. rewrite listing_spaced. set (words := [lit "file"; _; _; _; _; _]).
  assert (Hw : Forall (fun w => w <> [] /\ plain w = true) words).
  { unfold words. apply Forall_cons; split; [done|]. apply Forall_cons; split.
    { split; [|done]. unfold incremental_name. intros [_ [? _]%app_nil]%app_nil. discriminate. }
    by repeat (apply Forall_cons; split; [done|]). }
  assert (Hfree := spaced_free words Hw).
  unfold last_incremental, lines. rewrite split_lines_to_newline by done. rewrite app_nil_r.
  assert (Hcr : strip_cr (rev (spaced words)) = spaced words).
  { assert (spaced words = (lit "file " ++ incremental_name c FIRST ++ lit " seq 1 type ") ++ INCREMENTAL)
      as -> by (cbn; by rewrite <- !app_assoc).
    rewrite rev_app_distr. set (front := rev (lit "file " ++ _)).
    change (strip_cr (rev INCREMENTAL ++ front)) with (rev (rev INCREMENTAL ++ front)).
    unfold front. by rewrite <- rev_app_distr, rev_involutive. }
  rewrite Hcr. cbn [omap list_omap]. unfold listed, split_whitespace.
  rewrite <- (Nat.add_0_r (length _)), split_words_spaced by done. reflexivity.
Qed.

(** A file of whole commands, and perhaps one cut short, is read as those. *)
Lemma recorded_whole faults files a commands torn :
  faults (ReadFile (path a)) = None -> Forall (wire MAX_DEPTH) commands ->
  (torn = [] \/ value MAX_DEPTH torn = Ok None) ->
  files !! path a = Some (flat_map encode commands ++ torn) ->
  recorded faults files a = Ok commands.
Proof.
  intros Hf Hw Ht E. unfold recorded, read_file. rewrite Hf, E.
  cbn [ok_or map_err context rbind]. by rewrite read_commands_whole.
Qed.

(** ** What is promised *)

(** C17. What is recorded is read back: a record opened over commands recorded
    before, with any number of commands recorded in turn -- pushed through to
    the disk or not, whatever became of the pushing -- is read as those commands
    in the order they were recorded.  A last one the system cut short is left
    out, wherever it was cut, and nothing before it is lost. *)
Theorem recorded_reads_back faults a files old commands final written flushing said :
  faults (ReadFile (path a)) = None ->
  files !! path a = Some (flat_map encode old) ->
  Forall (wire MAX_DEPTH) (old ++ map snd commands) -> wire MAX_DEPTH final ->
  let kept := record_all a commands files in
  recorded faults kept a = Ok (old ++ map snd commands)
  /\ recorded faults (record (CutShort written flushing said) a final kept).1 a
     = Ok (old ++ map snd commands
           ++ if bool_decide (length (encode final) <= written)%nat then [final] else []).
Proof.
  intros Hf Ho Hw Hl kept.
  assert (Hk : kept !! path a = Some (flat_map encode (old ++ map snd commands))).
  { unfold kept. rewrite record_all_file by (rewrite Ho; eauto). by rewrite Ho, flat_map_app. }
  split; [apply (recorded_whole _ _ _ _ []); [done|done|by left|by rewrite Hk, app_nil_r]|].
  assert (Ht : (record (CutShort written flushing said) a final kept).1 !! path a
               = Some (flat_map encode (old ++ map snd commands) ++ take written (encode final))).
  { cbn. by rewrite lookup_insert_eq, Hk. }
  rewrite app_assoc. case_bool_decide as Hlen.
  - apply (recorded_whole _ _ _ _ []); [done|by apply Forall_app; auto|by left|].
    rewrite Ht, take_ge by done. rewrite app_nil_r, (flat_map_app _ _ [final]). cbn.
    by rewrite app_nil_r.
  - rewrite app_nil_r. eapply recorded_whole; [done|done| |exact Ht]. right.
    eapply value_cut; [exact Hl|symmetry; apply take_drop|].
    intros E. apply (f_equal length) in E. rewrite length_drop in E. cbn in E. lia.
Qed.

Definition no_faults : Faults := fun _ => None.
Definition kept_in : Aof := {| path := lit "d/a.aof.1.incr.aof"; durable := true |}.

Lemma recorded_reads_back_witness :
  recorded no_faults (record (CutShort 5 true (lit "disk full")) kept_in PING
     (record_all kept_in [(None, PING)] {[ path kept_in := encode PING ]})).1 kept_in
  = Ok [PING; PING].
Proof.
  assert (wire MAX_DEPTH PING) as H by (vm_compute; repeat split; discriminate).
  refine (proj2 (recorded_reads_back no_faults kept_in {[ path kept_in := encode PING ]} [PING]
                   [(None, PING)] PING 5 true (lit "disk full") eq_refl _ _ H)).
  - vm_compute. reflexivity.
  - exact (Forall_cons_2 _ _ _ H (Forall_cons_2 _ _ _ H (Forall_nil_2 _))).
Defined.

(** What is recorded after a command that was cut short is not: the parser takes
    the new command for the rest of the old one.  Here an [INCR] cut off by a
    server that was stopped is followed by another once it is back up; the
    second is read as something else. *)
Lemma torn_record_swallows :
  let incr := Array [BulkString (lit "INCR"); BulkString (lit "k")] in
  let files := (record (CutShort 10 false []) kept_in incr {[ path kept_in := [] ]}).1 in
  recorded no_faults files kept_in = Ok []
  /\ recorded no_faults (record (Appended None) kept_in incr files).1 kept_in
     = Ok [Array [BulkString (lit "IN*2"); BulkString (lit "INCR")]; BulkString (lit "k")].
Proof. vm_compute. split; reflexivity. Qed.

(** Once the file is settled on, the manifest names it. *)
Lemma settle_name_settled faults c files named nm :
  plain (appendfilename c) = true -> settle_name faults c files = (named, Ok nm) ->
  exists text, from_utf8 <$> named !! manifest c = Some (Ok text) /\ last_incremental text = Some nm.
Proof.
  intros Hplain. unfold settle_name, recorded_in, read_to_string, read_file.
  destruct (faults (ReadFile (manifest c))) as [f|]; [done|].
  assert (Hfresh : forall files' : Files, from_utf8 <$> (<[manifest c := listing c]> files') !! manifest c
            = Some (Ok (listing c))).
  { intros files'. rewrite lookup_insert_eq. apply (f_equal Some), from_utf8_ascii.
    unfold listing. rewrite !is_ascii_app, (plain_ascii _ (plain_incremental c Hplain)).
    reflexivity. }
  assert (Hwrite : forall files' : Files, (let '(fs, written) := write_file faults (manifest c) (listing c) files' in
      (fs, try? _ <- context (about (lit "writing ") (manifest c)) written;
           Ok (incremental_name c FIRST))) = (named, Ok nm) ->
    exists text, from_utf8 <$> named !! manifest c = Some (Ok text) /\ last_incremental text = Some nm).
  { intros files'. unfold write_file, attempt. destruct (faults (WriteFile _)) as [f|]; [done|].
    intros [= <- <-]. exists (listing c). split; [apply Hfresh|by apply last_incremental_listing]. }
  destruct (files !! manifest c) as [bytes|] eqn:E; cbn [ok_or rbind]; [|apply Hwrite].
  destruct (from_utf8 bytes) as [text|e] eqn:Eu; cbn [map_err]; [|done].
  destruct (last_incremental text) as [nm'|] eqn:El; [|apply Hwrite].
  intros [= <- <-]. exists text. rewrite E. cbn. by rewrite Eu.
Qed.

Lemma recorded_in_settled faults files manifest text nm :
  (forall what, faults what = None) -> last_incremental text = Some nm ->
  from_utf8 <$> files !! manifest = Some (Ok text) ->
  recorded_in faults files manifest = Ok (Some nm).
Proof.
  intros Hf Hl (bytes & E & Eu)%fmap_Some. unfold recorded_in, read_to_string, read_file.
  rewrite Hf, E. cbn [ok_or rbind]. rewrite <- Eu. cbn [map_err]. by rewrite Hl.
Qed.

(** C35. A server started again over its own data goes on where it was writing:
    having once made ready a record, and whatever has been appended to it and
    written elsewhere since, so long as the manifest and the file are still there, it
    finds the same file and changes nothing, the manifest it wrote the first time being
    one it reads back: under any other settings, so long as it keeps a record at all, the
    directories are the same, and the file's name is the same and [plain], with nothing in
    it but printable ASCII other than spaces (with a space in it the manifest is misread:
    [manifest_misread]); and so long as nothing goes wrong with the files. *)
Theorem prepare_again faults faults' c c' files files' after a :
  (forall what, faults' what = None) ->
  prepare faults c files = (files', Ok (Some a)) ->
  appendonly c' = true -> dir c' = dir c -> appenddirname c' = appenddirname c ->
  appendfilename c' = appendfilename c -> plain (appendfilename c) = true ->
  after !! manifest c = files' !! manifest c -> is_Some (after !! path a) ->
  prepare faults' c' after
  = (after, Ok (Some {| path := path a;
                        durable := eq_ignore_ascii_case (appendfsync c') ALWAYS |})).
Proof.
  intros Hf Hprep Hon Hdir Hdn Hfn Hplain Hman [bytes Hpath].
  assert (directory c' = directory c) as Ed by (unfold directory; by rewrite Hdir, Hdn).
  assert (manifest c' = manifest c) as Em by (unfold manifest; by rewrite Ed, Hfn).
  unfold prepare in *. rewrite Hon. cbn [negb]. unfold attempt in *. rewrite !Hf.
  cbn [context map_err] in *. destruct (negb (appendonly c)); [done|].
  destruct (faults (CreateDirs _)); [done|].
  destruct (settle_name faults c files) as [named [nm|e]] eqn:Es; [|done].
  destruct (faults (OpenAppend _)); [done|]. injection Hprep as <- <-. cbn [path] in *.
  destruct (settle_name_settled _ _ _ _ _ Hplain Es) as (text & Hm & Ht).
  assert (settle_name faults' c' after = (after, Ok nm)) as ->.
  { assert (Hm' : from_utf8 <$> after !! manifest c = Some (Ok text)).
    { rewrite Hman. destruct (decide (join (directory c) nm = manifest c)) as [->|Hne].
      - rewrite lookup_insert_eq. by destruct (named !! manifest c).
      - by rewrite lookup_insert_ne. }
    unfold settle_name. rewrite Em. by rewrite (recorded_in_settled _ _ _ _ _ Hf Ht Hm'). }
  rewrite Hf, Ed, Hpath. cbn [from_option id context map_err].
  by rewrite insert_id.
Qed.

Definition recording : Config :=
  {| port := 0; replicaof := None; dir := lit "d"; dbfilename := []; appendonly := true;
     appenddirname := lit "aof"; appendfilename := lit "a.aof"; appendfsync := lit "always" |}.

Lemma prepare_again_witness :
  let made := prepare no_faults recording ∅ in
  let a := {| path := lit "d/aof/a.aof.1.incr.aof"; durable := true |} in
  let after := (record (Appended None) a PING made.1).1 in
  made.2 = Ok (Some a) /\ prepare no_faults recording after = (after, Ok (Some a)).
Proof.
  intros made a after. assert (made.2 = Ok (Some a)) as E by (vm_compute; reflexivity).
  split; [exact E|].
  assert (path a <> manifest recording) as Hp by (vm_compute; discriminate).
  refine (prepare_again no_faults no_faults recording recording ∅ made.1 after a
    (fun _ => eq_refl) _ eq_refl eq_refl eq_refl eq_refl eq_refl _ _).
  - fold made. destruct made as [files r]. cbn [fst snd] in *. by rewrite E.
  - unfold after, record. cbn [fst]. by rewrite lookup_insert_ne.
  - unfold after, record. cbn [fst]. rewrite lookup_insert_eq. eauto.
Defined.

(** A name with spaces in it is one the manifest cannot carry: the record is
    made in one file, and once the server is back up looked for in another. *)
Lemma manifest_misread :
  let c := {| port := 0; replicaof := None; dir := lit "d"; dbfilename := []; appendonly := true;
              appenddirname := lit "aof"; appendfilename := lit "a b c";
              appendfsync := lit "always" |} in
  let '(files, first) := prepare no_faults c ∅ in
  let '(_, second) := prepare no_faults c files in
  map_err (fun _ => tt) first
    = Ok (Some {| path := lit "d/aof/a b c.1.incr.aof"; durable := true |})
  /\ map_err (fun _ => tt) second = Ok (Some {| path := lit "d/aof/a"; durable := true |}).
Proof. vm_compute. split; reflexivity. Qed.
