(* ===== verification/Rdb.v ===== *)
(** * The saved dataset: src/src/rdb.rs

    [Reader] reads a file from the front and keeps its place: here a state monad
    over the place, with the file to read from, which refuses or panics.
    [unsqueeze] is the LZF decoder, and [load] fills the store.  The texts of
    the errors are told apart by constructors.

    What a file says is given by what it is made of: [Spelt] for the ways a
    string is stored, [section_bytes] for the sections.  A file made of sections
    is read as the records they save ([dataset_reads]), a string squeezed into
    copies of itself included ([unsqueeze_lets_out]); and a file cut short is
    refused, however it is cut ([dataset_cut_short]). *)
From S2P Require Import Prelude Text Config Aof Store StoreStrings.
Open Scope Z_scope.

Definition MAGIC : Bytes := lit "REDIS".
Definition HEADER : Z := len MAGIC + 4.
Definition AUXILIARY : Z := 0xFA.
Definition RESIZE : Z := 0xFB.
Definition EXPIRES_AT_MILLISECONDS : Z := 0xFC.
Definition EXPIRES_AT_SECONDS : Z := 0xFD.
Definition DATABASE : Z := 0xFE.
Definition END : Z := 0xFF.
Definition STRING : Z := 0x00.
Definition AS_I8 : Z := 0.
Definition AS_I16 : Z := 1.
Definition AS_I32 : Z := 2.
Definition SQUEEZED : Z := 3.

(** [Record]: the deadline in nanoseconds since the epoch. *)
Record Saved := { saved_key : Bytes; saved_value : Bytes; saved_until : option Z }.

Inductive RdbError : Type :=
| TooShort (e : RdbError)
| NotADataset (header : Bytes)
| UnreadableLength (first : Z)
| PackedCount (how : Z)
| PackedString (how : Z)
| UnreadableKind (kind : Z)
| TooLarge
| Wanted (length at_ file : Z)
| StoredLength (e : RdbError)
| UnsqueezedLength (e : RdbError)
| RunPastEnd
| LengthPastEnd
| DistancePastEnd
| DistancePastStart
| WrongUnpacked (got wanted : Z).

(** ** Reading from the front *)
Inductive Step (A : Type) : Type :=
| Got (a : A) (at_ : Z)
| Refused (e : RdbError)
| Panicked.
Arguments Got {A} _ _.
Arguments Refused {A} _.
Arguments Panicked {A}.

Definition Reader (A : Type) : Type := Bytes -> Z -> Step A.
Definition got {A} (a : A) : Reader A := fun _ at_ => Got a at_.
Definition bail {A} (e : RdbError) : Reader A := fun _ _ => Refused e.
Definition and_then {A B} (m : Reader A) (k : A -> Reader B) : Reader B :=
  fun file at_ =>
    match m file at_ with
    | Got a at_ => k a file at_
    | Refused e => Refused e
    | Panicked => Panicked
    end.
Definition in_context {A} (f : RdbError -> RdbError) (m : Reader A) : Reader A :=
  fun file at_ => match m file at_ with Refused e => Refused (f e) | r => r end.
Notation "'let!' x <- m ; k" := (and_then m (fun x => k))
  (at level 10, x pattern, m at level 100, k at level 200).

(** [Reader::take]. *)
Definition take_bytes (length : Z) : Reader Bytes := fun file at_ =>
  let end_ := at_ + length in
  if USIZE_MAX <? end_ then Refused TooLarge
  else if end_ <=? len file
       then Got (take (Z.to_nat length) (drop (Z.to_nat at_) file)) end_
       else Refused (Wanted length at_ (len file)).

(** Numbers of a known width, least significant byte first or last. *)
Fixpoint from_le_bytes (bytes : Bytes) : Z :=
  match bytes with [] => 0 | c :: bytes => u8 c + 256 * from_le_bytes bytes end.
Definition from_be_bytes (bytes : Bytes) : Z := from_le_bytes (rev bytes).
Definition signed (bits n : Z) : Z := if n <? 2 ^ (bits - 1) then n else n - 2 ^ bits.

(** [Reader::byte] and [Reader::fixed]. *)
Definition byte_ : Reader Z := let! taken <- take_bytes 1; got (from_le_bytes taken).
Definition fixed (width : Z) : Reader Bytes := take_bytes width.

(** [Length]. *)
Inductive Length : Type := Of (length : Z) | Packed (how : Z).

(** [Reader::length]. *)
Definition length_ : Reader Length :=
  let! first <- byte_;
  let way := Z.shiftr first 6 in
  if way =? 0 then got (Of (Z.land first 0x3f))
  else if way =? 1 then
    let! rest <- byte_; got (Of (Z.lor (Z.shiftl (Z.land first 0x3f) 8) rest))
  else if way =? 2 then
    if first =? 0x80 then let! n <- fixed 4; got (Of (from_be_bytes n))
    else if first =? 0x81 then let! n <- fixed 8; got (Of (from_be_bytes n))
    else bail (UnreadableLength first)
  else got (Packed (Z.land first 0x3f)).

(** [Reader::count]. *)
Definition count_ : Reader Z :=
  let! l <- length_;
  match l with Of count => got count | Packed how => bail (PackedCount how) end.

(** ** LZF *)

Definition AS_THEY_ARE : Z := 0x20.
Definition SPILLS : Z := 7.

(** The loop that copies a byte at a time; [None] is an index out of range. *)
Fixpoint repeat_from (length : nat) (from : nat) (out : Bytes) : option Bytes :=
  match length with
  | O => Some out
  | S length =>
      match out !! from with
      | Some c => repeat_from length (S from) (out ++ [c])
      | None => None
      end
  end.

(** The loop of [unsqueeze], on what is left of the instructions: each takes at
    least a byte. *)
Fixpoint unsqueeze_loop (fuel : nat) (squeezed out : Bytes) : may (result Bytes RdbError) :=
  match squeezed, fuel with
  | [], _ | _, O => Done (Ok out)
  | c :: rest, S fuel =>
      let control := u8 c in
      if control <? AS_THEY_ARE then
        let run := Z.to_nat (control + 1) in
        if (run <=? length rest)%nat
        then unsqueeze_loop fuel (drop run rest) (out ++ take run rest)
        else Done (Err RunPastEnd)
      else
        let length := Z.shiftr control 5 in
        match (if length =? SPILLS
               then match rest with
                    | [] => Err LengthPastEnd
                    | more :: rest => Ok (length + u8 more, rest)
                    end
               else Ok (length, rest)) with
        | Err e => Done (Err e)
        | Ok (_, []) => Done (Err DistancePastEnd)
        | Ok (length, low :: rest) =>
            let distance := Z.lor (Z.shiftl (Z.land control 0x1f) 8) (u8 low) in
            if len out <? distance + 1 then Done (Err DistancePastStart)
            else
              match repeat_from (Z.to_nat (length + 2)) (Z.to_nat (len out - (distance + 1))) out with
              | Some out => unsqueeze_loop fuel rest out
              | None => Panic
              end
        end
  end.

(** [unsqueeze]: [Vec::with_capacity] panics past [isize::MAX] bytes. *)
Definition unsqueeze (squeezed : Bytes) (unpacked : Z) : may (result Bytes RdbError) :=
  if ISIZE_MAX <? unpacked then Panic
  else mbind_may (unsqueeze_loop (length squeezed) squeezed [])
         (fun r => Done (try? out <- r;
                         if len out =? unpacked then Ok out
                         else Err (WrongUnpacked (len out) unpacked))).

(** ** Strings and sections *)

(** [Reader::squeezed]. *)
Definition squeezed_ : Reader Bytes :=
  let! stored <- in_context StoredLength count_;
  let! unpacked <- in_context UnsqueezedLength count_;
  let! squeezed <- take_bytes stored;
  match unsqueeze squeezed unpacked with
  | Done (Ok out) => got out
  | Done (Err e) => bail e
  | Panic => fun _ _ => Panicked
  end.

(** [Reader::string], with [spelled]. *)
Definition string_ : Reader Bytes :=
  let! l <- length_;
  match l with
  | Of length => take_bytes length
  | Packed how =>
      if how =? AS_I8 then let! n <- fixed 1; got (show (signed 8 (from_le_bytes n)))
      else if how =? AS_I16 then let! n <- fixed 2; got (show (signed 16 (from_le_bytes n)))
      else if how =? AS_I32 then let! n <- fixed 4; got (show (signed 32 (from_le_bytes n)))
      else if how =? SQUEEZED then squeezed_
      else bail (PackedString how)
  end.

(** [Reader::header]. *)
Definition header : Reader unit :=
  let! h <- in_context TooShort (take_bytes HEADER);
  if starts_with MAGIC h then got tt else bail (NotADataset h).

(** The loop of [Reader::dataset]: a section takes at least a byte, so [None],
    which is running out of rounds, never comes of as many as there are bytes. *)
Fixpoint sections (fuel : nat) (database : Z) (expires_at : option Z) (records : list Saved)
  : Reader (option (list Saved)) :=
  match fuel with
  | O => got None
  | S fuel =>
      let! kind <- byte_;
      if kind =? END then got (Some records)
      else if kind =? AUXILIARY then
        let! _ <- string_; let! _ <- string_; sections fuel database expires_at records
      else if kind =? DATABASE then
        let! database <- count_; sections fuel database expires_at records
      else if kind =? RESIZE then
        let! _ <- count_; let! _ <- count_; sections fuel database expires_at records
      else if kind =? EXPIRES_AT_SECONDS then
        let! n <- fixed 4;
        sections fuel database (Some (from_le_bytes n * 1000000000)) records
      else if kind =? EXPIRES_AT_MILLISECONDS then
        let! n <- fixed 8;
        sections fuel database (Some (from_le_bytes n * 1000000)) records
      else if kind =? STRING then
        let! key <- string_; let! value <- string_;
        let record := {| saved_key := key; saved_value := value; saved_until := expires_at |} in
        sections fuel database None (if database =? 0 then records ++ [record] else records)
      else bail (UnreadableKind kind)
  end.

(** [Reader::dataset], and [read] of a file that is there. *)
Definition dataset : Reader (option (list Saved)) := fun file =>
  (let! _ <- header; sections (length file) 0 None []) file.

(** ** Filling the store *)

(** The loop of [load]: [system] is the reading of the clock deadlines are
    measured by, and [instant] that of the store's clock at each key set. *)
Fixpoint take_on (system : Z) (instant : nat -> Z) (loaded : nat) (records : list Saved)
  (s : State) : may (State * nat) :=
  match records with
  | [] => Done (s, loaded)
  | r :: records =>
      match saved_until r with
      | Some deadline =>
          if deadline <? system then take_on system instant loaded records s
          else mbind_may (StoreStrings.set (instant loaded) (saved_key r) (saved_value r)
                            (Some (deadline - system)) s)
                 (take_on system instant (S loaded) records)
      | None =>
          mbind_may (StoreStrings.set (instant loaded) (saved_key r) (saved_value r) None s)
            (take_on system instant (S loaded) records)
      end
  end.

(** [load], with [read].  The outer [may] is a panic, the outer error a fault of
    the file system. *)
Inductive LoadError : Type := Unreadable (said : Bytes) | Misread (e : RdbError).
Definition load (faults : Faults) (files : Files) (c : Config) (system : Z) (instant : nat -> Z)
  (s : State) : may (result (State * nat) LoadError) :=
  match read_file faults files (join (dir c) (dbfilename c)) with
  | Err NotFound => Done (Ok (s, O))
  | Err (ReadFault said) => Done (Err (Unreadable said))
  | Ok file =>
      match dataset file 0 with
      | Panicked => Panic
      | Refused e => Done (Err (Misread e))
      | Got None _ => Panic
      | Got (Some records) _ =>
          mbind_may (take_on system instant O records s) (fun r => Done (Ok r))
      end
  end.

(** ** What a file is made of *)

Fixpoint to_le (width : nat) (n : Z) : Bytes :=
  match width with O => [] | S width => byte_of n :: to_le width (n / 256) end.
Definition to_be (width : nat) (n : Z) : Bytes := rev (to_le width n).

(** The four ways of storing a length. *)
Inductive LengthAs (n : Z) : Bytes -> Prop :=
| six_bits : 0 <= n < 64 -> LengthAs n [byte_of n]
| fourteen_bits : 0 <= n < 16384 -> LengthAs n [byte_of (64 + n / 256); byte_of n]
| four_bytes : 0 <= n < 2 ^ 32 -> LengthAs n (x80 :: to_be 4 n)
| eight_bytes : 0 <= n < 2 ^ 64 -> LengthAs n (x81 :: to_be 8 n).

(** What LZF is made of: bytes as they are, and copies of what came before. *)
Inductive Instruction : Type :=
| Literal (run : Bytes)
| Copy (distance copied : Z).

Definition instruction_bytes (i : Instruction) : Bytes :=
  match i with
  | Literal run => byte_of (len run - 1) :: run
  | Copy distance copied =>
      let count := copied - 2 in
      if count <? 7
      then [byte_of (count * 32 + distance / 256); byte_of distance]
      else [byte_of (7 * 32 + distance / 256); byte_of (count - 7); byte_of distance]
  end.

(** [LetOut out instrs result]: after [out], the instructions leave [result].  A copy
    repeats, byte for byte, what stands that far back, itself included. *)
Inductive LetOut (out : Bytes) : list Instruction -> Bytes -> Prop :=
| let_out_done : LetOut out [] out
| let_out_literal run instrs result :
    1 <= len run <= 32 -> LetOut (out ++ run) instrs result ->
    LetOut out (Literal run :: instrs) result
| let_out_copy distance copied copy instrs result :
    0 <= distance < 8192 -> distance < len out -> 3 <= copied <= 264 -> len copy = copied ->
    (forall i, (i < length copy)%nat ->
       copy !! i = (out ++ copy) !! (length out + i - Z.to_nat distance - 1)%nat) ->
    LetOut (out ++ copy) instrs result ->
    LetOut out (Copy distance copied :: instrs) result.

(** The ways of storing a string. *)
Inductive Spelt : Bytes -> Bytes -> Prop :=
| spelt_out l s : LengthAs (len s) l -> Spelt (l ++ s) s
| spelt_i8 n : -128 <= n < 128 -> Spelt (xc0 :: to_le 1 (n mod 256)) (show n)
| spelt_i16 n : -32768 <= n < 32768 -> Spelt (xc1 :: to_le 2 (n mod 65536)) (show n)
| spelt_i32 n : -2147483648 <= n < 2147483648 -> Spelt (xc2 :: to_le 4 (n mod 4294967296)) (show n)
| spelt_squeezed l l' instrs s :
    LetOut [] instrs s -> len s <= ISIZE_MAX ->
    LengthAs (len (flat_map instruction_bytes instrs)) l -> LengthAs (len s) l' ->
    Spelt (xc3 :: l ++ l' ++ flat_map instruction_bytes instrs) s.

Inductive FileSection : Type :=
| Fact_ (nm value : Bytes)
| Database (number : Z)
| Resize (keys_ expiring : Z)
| ExpiresSeconds (n : Z)
| ExpiresMilliseconds (n : Z)
| Key (key value : Bytes).

Inductive SectionAs : FileSection -> Bytes -> Prop :=
| fact_as nm value b b' : Spelt b nm -> Spelt b' value -> SectionAs (Fact_ nm value) (xfa :: b ++ b')
| database_as n l : LengthAs n l -> SectionAs (Database n) (xfe :: l)
| resize_as n m l l' : LengthAs n l -> LengthAs m l' -> SectionAs (Resize n m) (xfb :: l ++ l')
| seconds_as n : 0 <= n < 2 ^ 32 -> SectionAs (ExpiresSeconds n) (xfd :: to_le 4 n)
| milliseconds_as n : 0 <= n < 2 ^ 64 -> SectionAs (ExpiresMilliseconds n) (xfc :: to_le 8 n)
| key_as key value b b' : Spelt b key -> Spelt b' value -> SectionAs (Key key value) (x00 :: b ++ b').

(** The records the sections save: the keys of database 0, each with the
    deadline that stands before it. *)
Fixpoint saved (database : Z) (until : option Z) (ss : list FileSection) : list Saved :=
  match ss with
  | [] => []
  | Fact_ _ _ :: ss | Resize _ _ :: ss => saved database until ss
  | Database n :: ss => saved n until ss
  | ExpiresSeconds n :: ss => saved database (Some (n * 1000000000)) ss
  | ExpiresMilliseconds n :: ss => saved database (Some (n * 1000000)) ss
  | Key key value :: ss =>
      (if database =? 0
       then [{| saved_key := key; saved_value := value; saved_until := until |}] else [])
      ++ saved database None ss
  end.

(** ** LZF lets out what was squeezed *)
Lemma repeat_from_copy copy out from :
  (from < length out)%nat ->
  (forall i, (i < length copy)%nat -> copy !! i = (out ++ copy) !! (from + i)%nat) ->
  repeat_from (length copy) from out = Some (out ++ copy).
Proof.
  revert out from; induction copy as [|c copy IH]; intros out from Hf Hc; cbn [length repeat_from].
  - by rewrite app_nil_r.
  - assert (out !! from = Some c) as ->.
    { specialize (Hc 0%nat). cbn [lookup list_lookup] in Hc. rewrite Nat.add_0_r in Hc.
      rewrite lookup_app_l in Hc by done. symmetry. apply Hc. cbn; lia. }
    rewrite IH; [by rewrite <- app_assoc|rewrite length_app; cbn; lia|].
    intros i Hi. assert (copy !! i = (out ++ c :: copy) !! (from + S i)%nat) as ->
      by (apply (Hc (S i)); cbn; lia).
    rewrite <- app_assoc. cbn [app]. f_equal. lia.
Qed.

(** The fields packed into the control byte of a copy. *)
Lemma copy_control count high :
  0 <= count < 8 -> 0 <= high < 32 ->
  (AS_THEY_ARE <=? u8 (byte_of (count * 32 + high))) = (1 <=? count)
  /\ Z.shiftr (u8 (byte_of (count * 32 + high))) 5 = count
  /\ Z.land (u8 (byte_of (count * 32 + high))) 0x1f = high.
Proof.
  intros Hc Hh. rewrite u8_byte_of, Z.mod_small by lia. split_and!.
  - unfold AS_THEY_ARE. destruct (Z.leb_spec 1 count); decide_leb; lia || done.
  - rewrite Z.shiftr_div_pow2 by lia. change (2 ^ 5) with 32.
    rewrite Z.div_add_l, (Z.div_small high) by lia. lia.
  - change 0x1f with (Z.ones 5). rewrite Z.land_ones by lia. change (2 ^ 5) with 32.
    rewrite Z.add_comm, Z.mod_add, Z.mod_small by lia. done.
Qed.

Lemma lor_low high low k :
  0 <= k -> 0 <= low < 2 ^ k -> Z.lor (Z.shiftl high k) low = high * 2 ^ k + low.
Proof.
  intros Hk Hl. rewrite <- (Z.shiftl_mul_pow2 high k) by done.
  assert (Z.land (Z.shiftl high k) low = 0) as E.
  { apply Z.bits_inj'. intros i Hi. rewrite Z.land_spec, Z.bits_0.
    destruct (Z.lt_ge_cases i k).
    - by rewrite Z.shiftl_spec_low.
    - rewrite <- (Z.mod_small low (2 ^ k)) by done.
      by rewrite (Z.mod_pow2_bits_high low k i), andb_false_r by lia. }
  by rewrite Z.add_nocarry_lxor, Z.lxor_lor.
Qed.

(** A number cut in a high part and a low byte. *)
Lemma high_low n : 0 <= n -> Z.lor (Z.shiftl (n / 256) 8) (u8 (byte_of n)) = n.
Proof.
  intros Hn. rewrite u8_byte_of, lor_low; [|lia|apply Z.mod_pos_bound; lia].
  change (2 ^ 8) with 256. pose proof (Z.div_mod n 256). lia.
Qed.

Lemma unsqueeze_loop_lets_out out instrs result fuel :
  LetOut out instrs result -> (length (flat_map instruction_bytes instrs) <= fuel)%nat ->
  unsqueeze_loop fuel (flat_map instruction_bytes instrs) out = Done (Ok result).
Proof.
  intros H. revert fuel. induction H as [out|out run instrs result Hr _ IH
    |out distance copied copy instrs result Hd Ho Hc Hl Hcopy _ IH]; intros fuel Hf.
  - by destruct fuel.
  - cbn [flat_map instruction_bytes app] in *. destruct fuel as [|fuel]; [cbn in Hf; lia|].
    cbn [unsqueeze_loop]. rewrite u8_byte_of, Z.mod_small by lia. unfold AS_THEY_ARE. decide_leb.
    assert (Hn : Z.to_nat (len run - 1 + 1) = length run) by (unfold len; lia). rewrite !Hn.
    rewrite (proj2 (Nat.leb_le _ _)) by (rewrite length_app; lia).
    rewrite take_app_length, drop_app_length. apply IH.
    cbn in Hf. rewrite length_app in Hf. lia.
  - assert (Hcopied : repeat_from (Z.to_nat copied) (Z.to_nat (len out - (distance + 1))) out
                      = Some (out ++ copy)).
    { replace (Z.to_nat copied) with (length copy) by (unfold len in Hl; lia).
      unfold len in *. apply repeat_from_copy; [lia|].
      intros i Hi. rewrite Hcopy by done. f_equal. lia. }
    replace (flat_map instruction_bytes (Copy distance copied :: instrs))
      with (instruction_bytes (Copy distance copied) ++ flat_map instruction_bytes instrs) in *
      by done.
    assert (Hd' : 0 <= distance / 256 < 32) by (split; [apply Z.div_pos|apply Z.div_lt_upper_bound]; lia).
    cbn [instruction_bytes] in *. destruct (Z.ltb_spec (copied - 2) 7) as [Hs|Hs].
    + destruct (copy_control (copied - 2) (distance / 256)) as (E1 & E2 & E3); [lia..|].
      rewrite (proj2 (Z.leb_le 1 _)), Z.leb_le in E1 by lia.
      destruct fuel as [|fuel]; [cbn in Hf; lia|]. cbn [app unsqueeze_loop].
      decide_leb. rewrite E2, E3, (proj2 (Z.eqb_neq _ SPILLS)) by (unfold SPILLS; lia).
      cbv iota beta. rewrite high_low by lia. decide_leb. replace (copied - 2 + 2) with copied by lia.
      rewrite Hcopied. apply IH. cbn in Hf. lia.
    + destruct (copy_control 7 (distance / 256)) as (E1 & E2 & E3); [lia..|].
      change (1 <=? 7) with true in E1. rewrite Z.leb_le in E1.
      destruct fuel as [|fuel]; [cbn in Hf; lia|]. cbn [app unsqueeze_loop].
      decide_leb. rewrite E2, E3. change (7 =? SPILLS) with true. cbv iota beta.
      rewrite high_low, u8_byte_of, Z.mod_small by lia.
      decide_leb. replace (7 + (copied - 2 - 7) + 2) with copied by lia.
      rewrite Hcopied. apply IH. cbn in Hf. lia.
Qed.

Lemma unsqueeze_squeezed instrs s :
  LetOut [] instrs s -> len s <= ISIZE_MAX ->
  unsqueeze (flat_map instruction_bytes instrs) (len s) = Done (Ok s).
Proof.
  intros H Hs. unfold unsqueeze. decide_leb. erewrite unsqueeze_loop_lets_out by done.
  cbn [mbind_may rbind]. by rewrite Z.eqb_refl.
Qed.

(** ** What is stored is what is read *)
Definition reads {A} (m : Reader A) (stored : Bytes) (a : A) : Prop :=
  forall before after, len (before ++ stored ++ after) <= USIZE_MAX ->
  m (before ++ stored ++ after) (len before) = Got a (len before + len stored).

Lemma reads_got {A} (a : A) : reads (got a) [] a.
Proof. intros before after _. unfold got. rewrite len_nil. f_equal. lia. Qed.

Lemma reads_then {A B} (m : Reader A) (k : A -> Reader B) s s' a b :
  reads m s a -> reads (k a) s' b -> reads (and_then m k) (s ++ s') b.
Proof.
  intros Hm Hk before after Hl. unfold and_then.
  rewrite <- app_assoc in *. rewrite Hm by done.
  rewrite <- len_app. specialize (Hk (before ++ s) after). rewrite <- app_assoc in Hk.
  rewrite Hk by done. rewrite !len_app. f_equal. lia.
Qed.

Lemma reads_then_nil {A B} (m : Reader A) (k : A -> Reader B) s a b :
  reads m s a -> reads (k a) [] b -> reads (and_then m k) s b.
Proof. rewrite <- (app_nil_r s) at 2. apply reads_then. Qed.

Lemma reads_context {A} f (m : Reader A) s a : reads m s a -> reads (in_context f m) s a.
Proof. intros Hm before after Hl. unfold in_context. by rewrite Hm. Qed.

Lemma reads_take s : reads (take_bytes (len s)) s s.
Proof.
  intros before after Hl. unfold take_bytes. rewrite !len_app in *.
  pose proof (len_nonneg after). decide_leb.
  replace (Z.to_nat (len before)) with (length before) by (unfold len; lia).
  replace (Z.to_nat (len s)) with (length s) by (unfold len; lia).
  by rewrite drop_app_length, take_app_length.
Qed.

Lemma reads_last {A B} (m : Reader A) (f : A -> B) s a :
  reads m s a -> reads (and_then m (fun a => got (f a))) s (f a).
Proof.
  intros Hm. rewrite <- (app_nil_r s). eapply reads_then; [exact Hm|apply reads_got].
Qed.

Lemma reads_byte c : reads byte_ [c] (u8 c).
Proof.
  unfold byte_. replace (u8 c) with (from_le_bytes [c]) by (cbn; lia).
  apply reads_last, (reads_take [c]).
Qed.

Lemma len_to_le width n : len (to_le width n) = Z.of_nat width.
Proof. revert n; induction width as [|w IH]; intros n; [done|]. cbn [to_le]. rewrite len_cons, IH. lia. Qed.

Lemma from_le_to_le width n : 0 <= n < 256 ^ Z.of_nat width -> from_le_bytes (to_le width n) = n.
Proof.
  revert n; induction width as [|w IH]; intros n Hn; cbn [to_le from_le_bytes]; [cbn in Hn; lia|].
  rewrite Nat2Z.inj_succ, Z.pow_succ_r in Hn by lia.
  rewrite u8_byte_of, IH by (split; [apply Z.div_pos|apply Z.div_lt_upper_bound]; lia).
  pose proof (Z.div_mod n 256). lia.
Qed.

Lemma from_be_to_be width n : 0 <= n < 256 ^ Z.of_nat width -> from_be_bytes (to_be width n) = n.
Proof. unfold from_be_bytes, to_be. rewrite rev_involutive. apply from_le_to_le. Qed.

Lemma len_to_be width n : len (to_be width n) = Z.of_nat width.
Proof. unfold to_be, len. rewrite length_rev. apply len_to_le. Qed.

Lemma reads_fixed (width : nat) bytes : len bytes = Z.of_nat width -> reads (fixed (Z.of_nat width)) bytes bytes.
Proof. intros <-. apply reads_take. Qed.

Lemma reads_length n l : LengthAs n l -> reads length_ l (Of n).
Proof.
  intros H. unfold length_. destruct H as [Hn|Hn|Hn|Hn].
  - rewrite <- (app_nil_r [byte_of n]). eapply reads_then; [apply reads_byte|].
    rewrite u8_byte_of, Z.mod_small by lia.
    replace (Z.shiftr n 6) with 0 by (rewrite Z.shiftr_div_pow2 by lia; symmetry; apply Z.div_small; lia).
    cbn iota. replace (Z.land n 0x3f) with n; [apply reads_got|].
    change 0x3f with (Z.ones 6). by rewrite Z.land_ones, Z.mod_small by lia.
  - assert (0 <= n / 256 < 64) by (split; [apply Z.div_pos|apply Z.div_lt_upper_bound]; lia).
    change [byte_of (64 + n / 256); byte_of n] with ([byte_of (64 + n / 256)] ++ [byte_of n]).
    eapply reads_then; [apply reads_byte|]. rewrite u8_byte_of, Z.mod_small by lia.
    replace (Z.shiftr (64 + n / 256) 6) with 1.
    2: { rewrite Z.shiftr_div_pow2 by lia. change (2 ^ 6) with 64.
         rewrite <- (Z.mul_1_l 64) at 1. rewrite Z.div_add_l, Z.div_small by lia. lia. }
    replace (Z.land (64 + n / 256) 0x3f) with (n / 256).
    2: { change 0x3f with (Z.ones 6). rewrite Z.land_ones by lia. change (2 ^ 6) with 64.
         rewrite Z.add_comm. change 64 with (1 * 64) at 1. rewrite Z.mod_add, Z.mod_small by lia. done. }
    cbn iota. replace (Of n) with (Of (Z.lor (Z.shiftl (n / 256) 8) (u8 (byte_of n))))
      by (by rewrite high_low by lia).
    apply (reads_last byte_ (fun rest => Of (Z.lor (Z.shiftl (n / 256) 8) rest))), reads_byte.
  - change (x80 :: to_be 4 n) with ([x80] ++ to_be 4 n). eapply reads_then; [apply reads_byte|].
    cbn -[fixed from_be_bytes to_be]. replace (Of n) with (Of (from_be_bytes (to_be 4 n)))
      by (by rewrite from_be_to_be).
    apply (reads_last (fixed 4) (fun bytes => Of (from_be_bytes bytes))), (reads_fixed 4), len_to_be.
  - change (x81 :: to_be 8 n) with ([x81] ++ to_be 8 n). eapply reads_then; [apply reads_byte|].
    cbn -[fixed from_be_bytes to_be]. replace (Of n) with (Of (from_be_bytes (to_be 8 n)))
      by (by rewrite from_be_to_be).
    apply (reads_last (fixed 8) (fun bytes => Of (from_be_bytes bytes))), (reads_fixed 8), len_to_be.
Qed.

Lemma reads_count n l : LengthAs n l -> reads count_ l n.
Proof.
  intros H. rewrite <- (app_nil_r l). eapply reads_then; [by apply reads_length|apply reads_got].
Qed.

Lemma signed_mod bits n :
  0 < bits -> - 2 ^ (bits - 1) <= n < 2 ^ (bits - 1) -> signed bits (n mod 2 ^ bits) = n.
Proof.
  intros Hb Hn. unfold signed.
  assert (2 ^ bits = 2 * 2 ^ (bits - 1)) as E
    by (rewrite <- Z.pow_succ_r by lia; f_equal; lia).
  destruct (Z.lt_ge_cases n 0).
  - replace (n mod 2 ^ bits) with (n + 2 ^ bits); [decide_leb; lia|].
    rewrite <- (Z.mod_add n 1), Z.mul_1_l, Z.mod_small by lia. done.
  - rewrite Z.mod_small by lia. by decide_leb.
Qed.

(** A number of [width] bytes, read as what it spells. *)
Lemma reads_spelled (width : nat) bits n :
  bits = 8 * Z.of_nat width -> 0 < bits -> - 2 ^ (bits - 1) <= n < 2 ^ (bits - 1) ->
  reads (let! m <- fixed (Z.of_nat width); got (show (signed bits (from_le_bytes m))))
    (to_le width (n mod 2 ^ bits)) (show n).
Proof.
  intros Hb Hp Hn. rewrite <- (signed_mod bits n) at 2 by done.
  rewrite <- (from_le_to_le width (n mod 2 ^ bits)) at 2.
  - apply (reads_last _ (fun m => show (signed bits (from_le_bytes m)))), reads_fixed, len_to_le.
  - replace (256 ^ Z.of_nat width) with (2 ^ bits); [apply Z.mod_pos_bound, Z.pow_pos_nonneg; lia|].
    rewrite Hb, Z.pow_mul_r by lia. done.
Qed.

Lemma reads_how c how : u8 c = 192 + how -> 0 <= how < 64 -> reads length_ [c] (Packed how).
Proof.
  intros Hc Hh. unfold length_. rewrite <- (app_nil_r [c]). eapply reads_then; [apply reads_byte|].
  rewrite Hc. replace (Z.shiftr (192 + how) 6) with 3.
  2: { rewrite Z.shiftr_div_pow2 by lia. change 192 with (3 * 2 ^ 6).
       rewrite Z.div_add_l, Z.div_small by lia. lia. }
  cbn iota. replace (Z.land (192 + how) 0x3f) with how; [apply reads_got|].
  change 0x3f with (Z.ones 6). rewrite Z.land_ones by lia. change 192 with (3 * 2 ^ 6).
  rewrite Z.add_comm, Z.mod_add, Z.mod_small by lia. done.
Qed.

Lemma reads_string b s : Spelt b s -> reads string_ b s.
Proof.
  intros H. unfold string_. destruct H as [l s Hl|n Hn|n Hn|n Hn|l l' instrs s Hs Hmax Hl Hl'].
  - eapply reads_then; [by apply reads_length|]. apply reads_take.
  - change (xc0 :: ?r) with ([xc0] ++ r). eapply reads_then; [by apply (reads_how _ 0)|].
    by apply (reads_spelled 1 8).
  - change (xc1 :: ?r) with ([xc1] ++ r). eapply reads_then; [by apply (reads_how _ 1)|].
    by apply (reads_spelled 2 16).
  - change (xc2 :: ?r) with ([xc2] ++ r). eapply reads_then; [by apply (reads_how _ 2)|].
    by apply (reads_spelled 4 32).
  - change (xc3 :: ?r) with ([xc3] ++ r). eapply reads_then; [by apply (reads_how _ 3)|].
    eapply reads_then; [by apply reads_context, reads_count|].
    eapply reads_then; [by apply reads_context, reads_count|].
    eapply reads_then_nil; [apply reads_take|].
    rewrite unsqueeze_squeezed by done. apply reads_got.
Qed.

(** ** The sections *)
Lemma reads_sections ss bs records fuel database until :
  Forall2 SectionAs ss bs -> (length bs < fuel)%nat ->
  reads (sections fuel database until records) (concat bs ++ [xff])
    (Some (records ++ saved database until ss)).
Proof.
  intros H. revert fuel database until records.
  induction H as [|sec b ss bs Hs _ IH]; intros fuel database until records Hf;
    (destruct fuel as [|fuel]; [cbn in Hf; lia|]); cbn [sections concat].
  - cbn [app saved]. rewrite app_nil_r. rewrite <- (app_nil_r [xff]).
    eapply reads_then; [apply reads_byte|apply reads_got].
  - assert (Hf' : (length bs < fuel)%nat) by (cbn in Hf; lia).
    specialize (fun d u r => IH fuel d u r Hf').
    rewrite <- app_assoc.
    destruct Hs as [nm value b b' Hb Hb'|n l Hl|n m l l' Hl Hl'|n Hn|n Hn|key value b b' Hb Hb'];
      (match goal with |- reads _ ((?c :: ?r) ++ ?rest) _ =>
         change ((c :: r) ++ rest) with ([c] ++ (r ++ rest)) end);
      (eapply reads_then; [apply reads_byte|]); cbn [saved].
    + rewrite <- app_assoc. eapply reads_then; [by apply reads_string|].
      eapply reads_then; [by apply reads_string|]. apply IH.
    + eapply reads_then; [by apply reads_count|]. apply IH.
    + rewrite <- app_assoc. eapply reads_then; [by apply reads_count|].
      eapply reads_then; [by apply reads_count|]. apply IH.
    + eapply reads_then; [apply (reads_fixed 4), len_to_le|]. rewrite from_le_to_le by lia. apply IH.
    + eapply reads_then; [apply (reads_fixed 8), len_to_le|]. rewrite from_le_to_le by lia. apply IH.
    + rewrite <- app_assoc. eapply reads_then; [by apply reads_string|].
      eapply reads_then; [by apply reads_string|].
      replace (records ++ _ ++ _) with
        ((if database =? 0 then records ++ [{| saved_key := key; saved_value := value; saved_until := until |}]
          else records) ++ saved database None ss) by (destruct (database =? 0); by rewrite <- ?app_assoc).
      apply IH.
Qed.

(** ** What more bytes change *)

(** What a reader makes of a file it makes of any longer one, unless it ran out
    of bytes; it reads forward, within the file, and what it reads has [P]. *)
Definition steady {A} (P : A -> Prop) (m : Reader A) : Prop :=
  forall file more at_, 0 <= at_ <= len file -> len (file ++ more) <= USIZE_MAX ->
  match m file at_ with
  | Got a to => m (file ++ more) at_ = Got a to /\ at_ <= to <= len file /\ P a
  | Panicked => m (file ++ more) at_ = Panicked
  | Refused _ => True
  end.

Definition any {A} (_ : A) : Prop := True.

Lemma steady_got {A} (P : A -> Prop) a : P a -> steady P (got a).
Proof. intros Ha file more at_ Hat _. unfold got. split_and!; [done|lia..|done]. Qed.

Lemma steady_bail {A} (P : A -> Prop) e : steady P (bail e).
Proof. by intros file more at_ _ _. Qed.

Lemma steady_then {A B} (P : A -> Prop) (Q : B -> Prop) m k :
  steady P m -> (forall a, P a -> steady Q (k a)) -> steady Q (and_then m k).
Proof.
  intros Hm Hk file more at_ Hat Hl. unfold and_then. specialize (Hm file more at_ Hat Hl).
  destruct (m file at_) as [a to|e|]; [|done|by rewrite Hm].
  destruct Hm as (-> & Hto & Ha). specialize (Hk a Ha file more to ltac:(lia) Hl).
  destruct (k a file to); [|done|done]. destruct Hk as (? & ? & ?). split_and!; [done|lia..|done].
Qed.

Lemma steady_context {A} (P : A -> Prop) f m : steady P m -> steady P (in_context f m).
Proof.
  intros Hm file more at_ Hat Hl. unfold in_context. specialize (Hm file more at_ Hat Hl).
  destruct (m file at_); [|done|by rewrite Hm]. by destruct Hm as (-> & ? & ?).
Qed.

Lemma steady_take n : 0 <= n -> steady (fun b => len b = n) (take_bytes n).
Proof.
  intros Hn file more at_ Hat Hl. unfold take_bytes. rewrite len_app in *.
  destruct (Z.ltb_spec USIZE_MAX (at_ + n)); [done|].
  destruct (Z.leb_spec (at_ + n) (len file)); [|done]. pose proof (len_nonneg more). decide_leb.
  unfold len in *. rewrite drop_app_le, take_app_le by (rewrite ?length_drop; lia).
  split_and!; [done|lia..|]. rewrite length_take, length_drop. lia.
Qed.

Lemma from_le_bytes_nonneg b : 0 <= from_le_bytes b.
Proof. induction b as [|c b IH]; cbn; [done|]. pose proof (u8_range c). lia. Qed.

Lemma steady_byte : steady (fun n => 0 <= n) byte_.
Proof.
  eapply steady_then; [by apply steady_take|]. intros b _. apply steady_got, from_le_bytes_nonneg.
Qed.

Definition length_ok (l : Length) : Prop := match l with Of n => 0 <= n | Packed _ => True end.

Lemma steady_length : steady length_ok length_.
Proof.
  unfold length_. eapply steady_then; [apply steady_byte|]. intros first Hf.
  repeat case_match; try apply steady_bail.
  - apply steady_got, Z.land_nonneg. by left.
  - eapply steady_then; [apply steady_byte|]. intros rest Hr. apply steady_got. cbn.
    apply Z.lor_nonneg. split; [|done]. apply Z.shiftl_nonneg, Z.land_nonneg. by left.
  - eapply steady_then; [by apply steady_take|]. intros b _. apply steady_got, from_le_bytes_nonneg.
  - eapply steady_then; [by apply steady_take|]. intros b _. apply steady_got, from_le_bytes_nonneg.
  - by apply steady_got.
Qed.

Lemma steady_count : steady (fun n => 0 <= n) count_.
Proof.
  eapply steady_then; [apply steady_length|]. intros [n|how] Hn; [by apply steady_got|apply steady_bail].
Qed.

Lemma steady_string : steady any string_.
Proof.
  eapply steady_then; [apply steady_length|]. intros [n|how] Hn.
  - intros file more at_ Hat Hl. pose proof (steady_take n Hn file more at_ Hat Hl) as H.
    destruct (take_bytes n file at_); [|done|done]. by destruct H as (? & ? & _).
  - repeat case_match; try apply steady_bail.
    1-3: eapply steady_then; [by apply steady_take|]; intros b _; by apply steady_got.
    unfold squeezed_. eapply steady_then; [apply steady_context, steady_count|]. intros stored Hs.
    eapply steady_then; [apply steady_context, steady_count|]. intros unpacked _.
    eapply steady_then; [by apply steady_take|]. intros z _.
    destruct (unsqueeze z unpacked) as [[out|e]|]; [by apply steady_got|apply steady_bail|done].
Qed.

Lemma steady_sections fuel database until records :
  steady any (sections fuel database until records).
Proof.
  revert database until records; induction fuel as [|fuel IH]; intros database until records;
    [by apply steady_got|].
  cbn [sections]. eapply steady_then; [apply steady_byte|]. intros kind _.
  pose proof steady_string as Hs. pose proof steady_count as Hc.
  repeat case_match; try apply steady_bail; try by apply steady_got.
  all: repeat (eapply steady_then; [first [exact Hs|exact Hc|by apply steady_take]|intros ? _]).
  all: apply IH.
Qed.

(** Every section takes a byte: the rounds never run out, and more of them
    change nothing. *)
Definition same {A} (file : Bytes) (at_ : Z) (m m' : Reader (option A)) : Prop :=
  m' file at_ = m file at_ /\ forall to, m file at_ <> Got None to.

Lemma same_then {A B} P (m : Reader A) (k k' : A -> Reader (option B)) file at_ :
  steady P m -> 0 <= at_ <= len file -> len file <= USIZE_MAX ->
  (forall a to, at_ <= to <= len file -> same file to (k a) (k' a)) ->
  same file at_ (and_then m k) (and_then m k').
Proof.
  intros Hm Hat Hl Hk. unfold same, and_then. specialize (Hm file [] at_ Hat).
  rewrite app_nil_r in Hm. specialize (Hm Hl).
  destruct (m file at_) as [a to|e|]; [|done|done]. destruct Hm as (_ & Hto & _). by apply Hk.
Qed.

Lemma same_byte {B} (k k' : Z -> Reader (option B)) file at_ :
  0 <= at_ <= len file ->
  (forall a, at_ + 1 <= len file -> same file (at_ + 1) (k a) (k' a)) ->
  same file at_ (and_then byte_ k) (and_then byte_ k').
Proof.
  intros Hat Hk. unfold same, and_then, byte_, take_bytes, and_then, got.
  destruct (USIZE_MAX <? at_ + 1); [done|]. destruct (Z.leb_spec (at_ + 1) (len file)); [|done].
  by apply Hk.
Qed.

Lemma sections_fuel fuel fuel' database until records file at_ :
  0 <= at_ <= len file -> len file <= USIZE_MAX -> len file - at_ < Z.of_nat fuel -> (fuel <= fuel')%nat ->
  same file at_ (sections fuel database until records) (sections fuel' database until records).
Proof.
  revert fuel' database until records at_; induction fuel as [|fuel IH];
    intros fuel' database until records at_ Hat Hl Hf Hle; [lia|].
  destruct fuel' as [|fuel']; [lia|]. cbn [sections]. apply same_byte; [done|]. intros kind Hat'.
  assert (IH' : forall d u r to, at_ + 1 <= to <= len file ->
            same file to (sections fuel d u r) (sections fuel' d u r))
    by (intros; apply IH; lia).
  pose proof steady_string as Hs. pose proof steady_count as Hc.
  repeat case_match; try by split.
  all: repeat (eapply same_then; [first [exact Hs|exact Hc|by apply steady_take]|lia|done|intros ? ? ?]).
  all: apply IH'; lia.
Qed.

Lemma steady_header : steady any header.
Proof.
  eapply steady_then; [apply steady_context, steady_take; vm_compute; discriminate|]. intros h _.
  case_match; [by apply steady_got|apply steady_bail].
Qed.

(** Reading a file never runs out of rounds, and goes the same on a longer
    file. *)
Lemma dataset_steady file more :
  len (file ++ more) <= USIZE_MAX ->
  match dataset file 0 with
  | Got None _ => False
  | Got (Some records) to => dataset (file ++ more) 0 = Got (Some records) to /\ to <= len file
  | Panicked => dataset (file ++ more) 0 = Panicked
  | Refused _ => True
  end.
Proof.
  intros Hl. unfold dataset. pose proof (len_nonneg file) as Hn. pose proof (len_nonneg more) as Hm.
  pose proof Hl as Hl'. rewrite len_app in Hl'.
  assert (Hh := steady_header file more 0 ltac:(lia) Hl). unfold and_then.
  destruct (header file 0) as [[] at_|e|] eqn:E; [|done|by rewrite Hh].
  destruct Hh as (-> & Hat & _).
  assert (1 <= at_) as H1.
  { revert E. unfold header, and_then, in_context, take_bytes.
    repeat case_match; try done; unfold got; simplify_eq; intros [= <-]; vm_compute; discriminate. }
  pose proof (steady_sections (length (file ++ more)) 0 None [] file more at_ ltac:(lia) Hl) as Hs.
  destruct (sections_fuel (length file) (length (file ++ more)) 0 None [] file at_) as [E' Hnone];
    [lia|lia|unfold len; lia|rewrite length_app; lia|].
  rewrite E' in Hs. destruct (sections (length file) 0 None [] file at_) as [[records|] to|e|];
    [|by destruct (Hnone to)|done|done].
  destruct Hs as (-> & ? & _). split; [done|lia].
Qed.

Lemma sections_length ss bs : Forall2 SectionAs ss bs -> (length bs <= length (concat bs))%nat.
Proof.
  induction 1 as [|sec b ss bs Hs _ IH]; [done|]. cbn [concat length]. rewrite length_app.
  assert (1 <= length b)%nat by (destruct Hs; cbn; lia). lia.
Qed.

(** ** What is promised *)

(** C18. A saved dataset is read as what it saves: after any version, sections
    each stored in any of the ways there are -- lengths of one, two, five or nine
    bytes, strings as they are, as the number they spell, or squeezed -- give the
    keys of database 0, in order, each with the deadline that stands before it;
    and nothing after the end of the dataset is looked at. *)
Theorem dataset_reads ss bs version after :
  Forall2 SectionAs ss bs -> len version = 4 ->
  let file := (MAGIC ++ version) ++ (concat bs ++ [xff]) ++ after in
  len file <= USIZE_MAX ->
  dataset file 0 = Got (Some (saved 0 None ss)) (len file - len after).
Proof.
  intros H Hv file Hl. unfold dataset.
  assert (Hfuel : (length bs < length file)%nat).
  { unfold file. apply sections_length in H. rewrite !length_app. cbn. lia. }
  assert (Hr : reads (let! _ <- header; sections (length file) 0 None [])
                 ((MAGIC ++ version) ++ concat bs ++ [xff]) (Some (saved 0 None ss))).
  { apply (reads_then header _ (MAGIC ++ version) _ tt); [|by apply (reads_sections ss bs [] (length file) 0 None)].
    eapply reads_then_nil.
    - replace HEADER with (len (MAGIC ++ version)) by (by rewrite len_app, Hv).
      apply reads_context, reads_take.
    - unfold starts_with. rewrite strip_prefix_app. apply reads_got. }
  specialize (Hr [] after). cbn [app] in Hr. rewrite <- app_assoc in Hr.
  specialize (Hr Hl). etransitivity; [exact Hr|]. f_equal. unfold file.
  rewrite !len_app. change (len []) with 0. lia.
Qed.

(** A dataset of a name squeezed into copies of itself, a number, and a key of
    another database. *)
Definition abab : Bytes := lit "abababab".
Definition sample_sections : list FileSection :=
  [Fact_ (lit "v") (lit "7"); ExpiresSeconds 5; Key abab (lit "-12"); Database 1; Key (lit "x") []].
Definition sample_bytes : list Bytes :=
  [[xfa; x01; x76; x01; x37]; [xfd; x05; x00; x00; x00];
   [x00; xc3; x05; x08; x01; x61; x62; x80; x01; xc0; xf4]; [xfe; x01]; [x00; x01; x78; x00]].

Lemma sample_sections_as : Forall2 SectionAs sample_sections sample_bytes.
Proof.
  assert (Hc : forall n, 0 <= n < 64 -> LengthAs n [byte_of n]) by (intros; by apply six_bits).
  assert (Hs : forall s b, len s < 64 -> b = byte_of (len s) :: s -> Spelt b s).
  { intros s b Hs ->. apply (spelt_out [byte_of (len s)] s), Hc. pose proof (len_nonneg s). lia. }
  unfold sample_sections, sample_bytes. repeat apply Forall2_cons_2; [..|apply Forall2_nil_2].
  - apply (fact_as _ _ [x01; x76] [x01; x37]); by apply Hs.
  - by apply (seconds_as 5).
  - apply (key_as _ _ [xc3; x05; x08; x01; x61; x62; x80; x01] [xc0; xf4]).
    + apply (spelt_squeezed [x05] [x08] [Literal (lit "ab"); Copy 1 6] abab); try by apply Hc.
      * apply let_out_literal; [done|].
        apply (let_out_copy _ 1 6 (lit "ababab")); try done; [|apply let_out_done].
        intros i Hi. do 6 (destruct i as [|i]; [done|]). cbn in Hi. lia.
      * vm_compute. discriminate.
    + by apply (spelt_i8 (-12)).
  - apply (database_as 1 [x01]). by apply Hc.
  - apply (key_as _ _ [x01; x78] [x00]); by apply Hs.
Qed.

Lemma dataset_reads_witness :
  dataset ((MAGIC ++ lit "0011") ++ (concat sample_bytes ++ [xff]) ++ lit "checksum") 0
  = Got (Some [{| saved_key := abab; saved_value := lit "-12"; saved_until := Some 5000000000 |}]) 37.
Proof.
  exact (dataset_reads sample_sections sample_bytes (lit "0011") (lit "checksum")
           sample_sections_as eq_refl ltac:(vm_compute; discriminate)).
Defined.

(** C33. A dataset cut short is refused: however much of its end is missing, what
    is left of it is neither taken for a smaller dataset nor brings the server
    down. *)
Theorem dataset_cut_short records file cut missing :
  len file <= USIZE_MAX -> dataset file 0 = Got (Some records) (len file) ->
  file = cut ++ missing -> missing <> [] -> exists e, dataset cut 0 = Refused e.
Proof.
  intros Hl Hd -> Hm. pose proof (dataset_steady cut missing Hl) as Hs.
  destruct (dataset cut 0) as [[r|] to|e|]; [|done|by exists e|congruence].
  destruct Hs as [E Hto]. rewrite E in Hd. injection Hd as _ ->. rewrite len_app in Hto.
  destruct missing; [done|]. rewrite len_cons in Hto. pose proof (len_nonneg missing). lia.
Qed.

Lemma dataset_cut_short_witness :
  exists e, dataset (lit "REDIS0011") 0 = Refused e.
Proof.
  apply (dataset_cut_short [] (lit "REDIS0011" ++ [xff]) _ [xff]); try reflexivity; discriminate.
Defined.

(** Whether the time of a key has yet to pass. *)
Definition live (system : Z) (r : Saved) : bool :=
  match saved_until r with Some deadline => system <=? deadline | None => true end.

(** What the store holds of a key, once it has been set from this record. *)
Definition holds (system : Z) (instant : nat -> Z) (r : Saved) (e : Entry) : Prop :=
  data e = DString (saved_value r)
  /\ exists i, expires_at e = (fun deadline => instant i + (deadline - system)) <$> saved_until r.

Lemma set_done now key value delay s :
  Wf s -> changes s < U64_MAX -> (forall d, delay = Some d -> now + d <= INSTANT_MAX) ->
  exists s', StoreStrings.set now key value delay s = Done s' /\ Wf s' /\ changes s' = changes s + 1
  /\ entries s' = <[key := {| data := DString value; expires_at := (fun d => now + d) <$> delay;
                              version := changes s + 1 |}]> (entries s).
Proof.
  intros W Hc Hd. destruct (StoreStrings.set now key value delay s) as [s'|] eqn:E.
  - exists s'. split; [done|]. split; [by eapply good_wf, set_good|].
    revert E. unfold StoreStrings.set, instant_add, next_version. rewrite (wrap_next s) by done.
    destruct delay as [d|]; [specialize (Hd d eq_refl); decide_leb|]; cbn [mbind_may];
      intros [= <-]; done.
  - exfalso. revert E. unfold StoreStrings.set, instant_add.
    destruct delay as [d|]; [specialize (Hd d eq_refl); decide_leb|]; done.
Qed.

Lemma take_on_spec system instant records loaded s :
  (forall r d, r ∈ records -> saved_until r = Some d -> d < 2 ^ 64 * 1000000) -> 0 <= system ->
  (forall i, instant i <= INSTANT_MAX - 2 ^ 64 * 1000000) ->
  Wf s -> changes s + len records <= U64_MAX ->
  exists s', take_on system instant loaded records s
             = Done (s', (loaded + length (List.filter (live system) records))%nat)
  /\ Wf s'
  /\ forall key, match last (List.filter (fun r => live system r && (saved_key r =b? key)) records) with
                 | None => entries s' !! key = entries s !! key
                 | Some r => exists e, entries s' !! key = Some e /\ holds system instant r e
                 end.
Proof.
  intros Hd Hsys Hi. revert loaded s; induction records as [|r records IH]; intros loaded s W Hc.
  { exists s. cbn. rewrite Nat.add_0_r. done. }
  specialize (IH ltac:(intros r' d Hr'; apply Hd; by right)). rewrite len_cons in Hc.
  pose proof (len_nonneg records) as Hn.
  cbn [take_on List.filter]. destruct (live system r) eqn:El.
  2: { unfold live in El. destruct (saved_until r) as [d|]; [|done].
       rewrite Z.ltb_antisym, El. cbn [negb andb]. apply IH; [done|lia]. }
  assert (Hset : exists s1, (match saved_until r with
      | Some deadline => if deadline <? system then take_on system instant loaded records s
          else mbind_may (StoreStrings.set (instant loaded) (saved_key r) (saved_value r)
                            (Some (deadline - system)) s) (take_on system instant (S loaded) records)
      | None => mbind_may (StoreStrings.set (instant loaded) (saved_key r) (saved_value r) None s)
                  (take_on system instant (S loaded) records) end)
      = take_on system instant (S loaded) records s1 /\ Wf s1 /\ changes s1 = changes s + 1
    /\ exists e, entries s1 = <[saved_key r := e]> (entries s) /\ holds system instant r e).
  { unfold live in El. unfold holds. destruct (saved_until r) as [d|] eqn:Eu.
    - rewrite Z.ltb_antisym, El. cbn [negb]. specialize (Hd r d ltac:(by left) Eu). specialize (Hi loaded).
      destruct (set_done (instant loaded) (saved_key r) (saved_value r) (Some (d - system)) s)
        as (s1 & -> & W1 & Hc1 & E1); [done|lia|intros ? [= <-]; lia|].
      exists s1. cbn [mbind_may]. split_and!; try done. eexists. split; [exact E1|].
      split; [done|]. by exists loaded.
    - destruct (set_done (instant loaded) (saved_key r) (saved_value r) None s)
        as (s1 & -> & W1 & Hc1 & E1); [done|lia|done|].
      exists s1. cbn [mbind_may]. split_and!; try done. eexists. split; [exact E1|].
      split; [done|]. by exists loaded. }
  destruct Hset as (s1 & -> & W1 & Hc1 & e & E1 & He).
  destruct (IH (S loaded) s1 W1 ltac:(lia)) as (s' & -> & W' & Hk).
  exists s'. cbn [length]. rewrite Nat.add_succ_r. split_and!; [done|done|].
  intros key. specialize (Hk key). cbn [andb].
  beq_cases; [rewrite last_cons|]; destruct (last (List.filter _ records)); try exact Hk.
  - subst key. exists e. by rewrite Hk, E1, lookup_insert_eq.
  - by rewrite Hk, E1, lookup_insert_ne.
Qed.

(** C34. Loading a dataset fills the store with it and nothing else: the keys whose
    time has not passed are the ones counted, each holds the value of the last
    record that has it, and goes when the record says -- measured from the
    moment it was set -- or never; and loading neither fails nor panics, for
    deadlines that fit 64 bits of milliseconds, as a dataset stores them. *)
Theorem load_fills system instant records :
  (forall r d, r ∈ records -> saved_until r = Some d -> d < 2 ^ 64 * 1000000) -> 0 <= system ->
  (forall i, instant i <= INSTANT_MAX - 2 ^ 64 * 1000000) -> len records <= U64_MAX ->
  exists s, take_on system instant 0 records empty_state
            = Done (s, length (List.filter (live system) records))
  /\ Wf s
  /\ forall key, match last (List.filter (fun r => live system r && (saved_key r =b? key)) records) with
                 | None => entries s !! key = None
                 | Some r => exists e, entries s !! key = Some e /\ holds system instant r e
                 end.
Proof.
  intros Hd Hs Hi Hl. by apply (take_on_spec system instant records 0 empty_state).
Qed.

Lemma load_fills_witness :
  exists s, take_on 3 (fun _ => 4) 0
    [{| saved_key := lit "k"; saved_value := lit "old"; saved_until := Some 2 |};
     {| saved_key := lit "k"; saved_value := lit "new"; saved_until := Some 9 |}] empty_state
  = Done (s, 1%nat).
Proof.
  edestruct (load_fills 3 (fun _ => 4)
    [{| saved_key := lit "k"; saved_value := lit "old"; saved_until := Some 2 |};
     {| saved_key := lit "k"; saved_value := lit "new"; saved_until := Some 9 |}]) as (s & E & _).
  - intros r d [->|[->|Hr%not_elem_of_nil]%elem_of_cons]%elem_of_cons; [..|done]; by intros [= <-].
  - done.
  - intros _. vm_compute. discriminate.
  - vm_compute. discriminate.
  - exists s. exact E.
Defined.

(** A squeezed string whose length is given as 2^63 brings the server down as it
    starts, rather than being refused. *)
Lemma huge_length_panics :
  dataset (MAGIC ++ lit "0011" ++ [x00; xc3; x01; x81; x80; x00; x00; x00; x00; x00; x00; x00; x00; x61; xff]) 0
  = Panicked.
Proof. vm_compute. reflexivity. Qed.
