(* ===== verification/RdbEnds.v ===== *)
(** * A dataset is read to an end

    Whatever bytes the file holds, reading it comes to a dataset, to a refusal,
    or to a panic: and to that only where the file says of a squeezed string that
    it unpacks to more bytes than an allocation can have ([dataset_ends]). *)
From S2P Require Import Prelude Text Store Rdb.
Open Scope Z_scope.

(** The file has the lead byte of an eight-byte length, and a length after it that
    is more than an allocation can have. *)
Definition huge_length (file : Bytes) : Prop :=
  exists before n after, file = before ++ x81 :: n ++ after
  /\ length n = 8%nat /\ ISIZE_MAX < from_be_bytes n.

(** A reader that goes forward in the file, reads what has [P], and panics over
    such a length only. *)
Definition goes {A} (P : Bytes -> A -> Prop) (m : Reader A) : Prop :=
  forall file at_, 0 <= at_ <= len file ->
  match m file at_ with
  | Got a to => at_ <= to <= len file /\ P file a
  | Refused _ => True
  | Panicked => huge_length file
  end.

Definition anything {A} (_ : Bytes) (_ : A) : Prop := True.

Lemma goes_got {A} (P : Bytes -> A -> Prop) a : (forall file, P file a) -> goes P (got a).
Proof. intros Ha file at_ Hat. split; [lia|apply Ha]. Qed.

Lemma goes_bail {A} (P : Bytes -> A -> Prop) e : goes P (bail e).
Proof. by intros file at_ _. Qed.

(** The next reader may count on what the one before has read. *)
Definition goes_if {A B} (P : Bytes -> A -> Prop) (Q : Bytes -> B -> Prop) (a : A) (m : Reader B) : Prop :=
  forall file at_, 0 <= at_ <= len file -> P file a ->
  match m file at_ with
  | Got b to => at_ <= to <= len file /\ Q file b
  | Refused _ => True
  | Panicked => huge_length file
  end.

Lemma goes_then {A B} (P : Bytes -> A -> Prop) (Q : Bytes -> B -> Prop) m k :
  goes P m -> (forall a, goes_if P Q a (k a)) -> goes Q (and_then m k).
Proof.
  intros Hm Hk file at_ Hat. unfold and_then. specialize (Hm file at_ Hat).
  destruct (m file at_) as [a to|e|]; [|done|done]. destruct Hm as [Hto Ha].
  specialize (Hk a file to ltac:(lia) Ha). destruct (k a file to); [|done|done].
  destruct Hk. split; [lia|done].
Qed.

Lemma goes_any {A B} (P : Bytes -> A -> Prop) (Q : Bytes -> B -> Prop) a m : goes Q m -> goes_if P Q a m.
Proof. intros Hm file at_ Hat _. by apply Hm. Qed.

Lemma goes_if_then {A B C} (R : Bytes -> C -> Prop) (P : Bytes -> A -> Prop) (Q : Bytes -> B -> Prop) c m k :
  goes_if R P c m -> (forall a, goes_if P Q a (k a)) -> goes_if R Q c (and_then m k).
Proof.
  intros Hm Hk file at_ Hat Hc. unfold and_then. specialize (Hm file at_ Hat Hc).
  destruct (m file at_) as [a to|e|]; [|done|done]. destruct Hm as [Hto Ha].
  specialize (Hk a file to ltac:(lia) Ha). destruct (k a file to); [|done|done].
  destruct Hk. split; [lia|done].
Qed.

Lemma goes_context {A} (P : Bytes -> A -> Prop) f m : goes P m -> goes P (in_context f m).
Proof.
  intros Hm file at_ Hat. unfold in_context. specialize (Hm file at_ Hat). by destruct (m file at_).
Qed.

(** ** Numbers stay within their width *)
Lemma from_le_bytes_range b : 0 <= from_le_bytes b < 256 ^ len b.
Proof.
  induction b as [|c b IH]; cbn [from_le_bytes]; [done|]. rewrite len_cons.
  pose proof (u8_range c). pose proof (len_nonneg b). rewrite Z.pow_add_r by lia. nia.
Qed.

Lemma from_be_bytes_range b : 0 <= from_be_bytes b < 256 ^ len b.
Proof.
  unfold from_be_bytes. pose proof (from_le_bytes_range (rev b)) as H.
  unfold len in *. by rewrite length_rev in H.
Qed.

Lemma goes_take n : 0 <= n -> goes (fun file b => len b = n /\ exists before after, file = before ++ b ++ after) (take_bytes n).
Proof.
  intros Hn file at_ Hat. unfold take_bytes. destruct (Z.ltb_spec USIZE_MAX (at_ + n)); [done|].
  destruct (Z.leb_spec (at_ + n) (len file)); [|done]. unfold len in *. split; [lia|]. split.
  - rewrite length_take, length_drop. lia.
  - exists (take (Z.to_nat at_) file), (drop (Z.to_nat n) (drop (Z.to_nat at_) file)).
    by rewrite !take_drop.
Qed.

Lemma byte_at file at_ n to :
  0 <= at_ <= len file -> byte_ file at_ = Got n to ->
  to = at_ + 1 /\ to <= len file
  /\ exists c rest, drop (Z.to_nat at_) file = c :: rest /\ drop (Z.to_nat to) file = rest /\ n = u8 c.
Proof.
  intros Hat. unfold byte_, and_then, take_bytes. destruct (USIZE_MAX <? at_ + 1); [done|].
  destruct (Z.leb_spec (at_ + 1) (len file)); [|done]. unfold got. intros [= <- <-].
  split; [done|]. split; [done|]. destruct (drop (Z.to_nat at_) file) as [|c rest] eqn:E.
  - apply (f_equal length) in E. rewrite length_drop in E. unfold len in *. cbn in E. lia.
  - exists c, rest. split; [done|]. split.
    + replace (Z.to_nat (at_ + 1)) with (Z.to_nat at_ + 1)%nat by lia.
      by rewrite <- drop_drop, E.
    + change (Z.to_nat 1) with 1%nat. cbn [take from_le_bytes]. change (take 0 rest) with (@nil byte). cbn [from_le_bytes]. lia.
Qed.

Lemma byte_steps file at_ : 0 <= at_ <= len file ->
  (exists e, byte_ file at_ = Refused e) \/ exists n to, byte_ file at_ = Got n to.
Proof.
  intros Hat. unfold byte_, and_then, take_bytes, got.
  destruct (USIZE_MAX <? at_ + 1); [left; by eexists|]. destruct (at_ + 1 <=? len file); [right; by eexists _, _|left; by eexists].
Qed.

Lemma goes_byte : goes anything byte_.
Proof.
  intros file at_ Hat. destruct (byte_steps file at_ Hat) as [[e E]|(n & to & E)]; rewrite E; [done|].
  destruct (byte_at file at_ n to Hat E) as (? & ? & _). split; [lia|done].
Qed.

Lemma u8_x81 c : u8 c = 0x81 -> c = x81.
Proof. intros E. by apply u8_inj. Qed.

(** A length is none below zero, and above what an allocation can have only if the
    file says so in eight bytes. *)
Definition length_told (file : Bytes) (l : Length) : Prop :=
  match l with Of n => 0 <= n /\ (ISIZE_MAX < n -> huge_length file) | Packed _ => True end.

Lemma goes_length : goes length_told length_.
Proof.
  intros file at_ Hat. unfold length_, and_then at 1.
  destruct (byte_steps file at_ Hat) as [[e E]|(first & to & E)]; rewrite E; [done|].
  destruct (byte_at file at_ first to Hat E) as (Eto & Hto & c & rest & Ed & Ed' & ->).
  pose proof (u8_range c) as Hc. clear E.
  assert (Hsmall : forall n, 0 <= n <= ISIZE_MAX -> length_told file (Of n)) by (intros n Hn; split; lia).
  assert (Hland : 0 <= Z.land (u8 c) 0x3f < 64).
  { change 0x3f with (Z.ones 6). rewrite Z.land_ones by lia. by apply Z.mod_pos_bound. }
  destruct (_ =? 0); [unfold got; split; [lia|apply Hsmall; unfold ISIZE_MAX, I64_MAX; lia]|].
  destruct (_ =? 1).
  { unfold and_then. destruct (byte_steps file to ltac:(lia)) as [[e E]|(more & to2 & E)]; rewrite E; [done|].
    destruct (byte_at file to more to2 ltac:(lia) E) as (-> & H2 & c2 & rest2 & _ & _ & ->).
    pose proof (u8_range c2). unfold got. split; [lia|]. apply Hsmall. split.
    - apply Z.lor_nonneg. split; [apply Z.shiftl_nonneg|]; lia.
    - rewrite Z.shiftl_mul_pow2 by lia. pose proof (Z.add_lor_land (Z.land (u8 c) 0x3f * 2 ^ 8) (u8 c2)).
      assert (0 <= Z.land (Z.land (u8 c) 0x3f * 2 ^ 8) (u8 c2)) by (apply Z.land_nonneg; right; lia).
      unfold ISIZE_MAX, I64_MAX. lia. }
  destruct (_ =? 2); [|unfold got; split; [lia|done]].
  assert (Hbe : forall w, 0 <= w -> match fixed w file to with
    | Got b to' => to <= to' <= len file /\ len b = w /\ b = take (Z.to_nat w) rest
    | Refused _ => True | Panicked => False end).
  { intros w Hw. unfold fixed, take_bytes. destruct (USIZE_MAX <? to + w); [done|].
    destruct (Z.leb_spec (to + w) (len file)); [|done]. rewrite Ed'. split; [lia|]. split; [|done].
    apply (f_equal length) in Ed'. rewrite length_drop in Ed'. unfold len in *. rewrite length_take. lia. }
  destruct (u8 c =? 0x80).
  { unfold and_then. specialize (Hbe 4 ltac:(lia)). destruct (fixed 4 file to) as [b to'|e|]; [|done|done].
    destruct Hbe as (? & Hl & _). unfold got. split; [lia|]. apply Hsmall.
    pose proof (from_be_bytes_range b) as Hb. rewrite Hl in Hb. unfold ISIZE_MAX, I64_MAX. lia. }
  destruct (Z.eqb_spec (u8 c) 0x81) as [E81|]; [|done].
  unfold and_then. specialize (Hbe 8 ltac:(lia)). destruct (fixed 8 file to) as [b to'|e|]; [|done|done].
  destruct Hbe as (? & Hl & ->). unfold got. split; [lia|].
  pose proof (from_be_bytes_range (take (Z.to_nat 8) rest)). split; [lia|]. intros Hbig.
  exists (take (Z.to_nat at_) file), (take 8 rest), (drop 8 rest). apply u8_x81 in E81. subst c.
  split; [by rewrite take_drop, <- Ed, take_drop|]. split; [|exact Hbig]. unfold len in Hl. by apply Nat2Z.inj.
Qed.

Lemma goes_count : goes (fun file n => length_told file (Of n)) count_.
Proof.
  eapply goes_then; [apply goes_length|]. intros [n|how] file at_ Hat Hl; cbn; [split; [lia|done]|done].
Qed.

(** ** Letting a squeezed string out *)

(** Every byte to be repeated is there by the time it is wanted. *)
Lemma repeat_from_some length from out :
  (from < List.length out)%nat -> exists out', repeat_from length from out = Some out'.
Proof.
  revert from out; induction length as [|length IH]; intros from out Hf; cbn [repeat_from]; [by eexists|].
  destruct (out !! from) as [c|] eqn:E.
  - apply IH. rewrite length_app. cbn. lia.
  - apply lookup_ge_None in E. lia.
Qed.

Lemma unsqueeze_loop_done fuel squeezed out : exists r, unsqueeze_loop fuel squeezed out = Done r.
Proof.
  revert squeezed out; induction fuel as [|fuel IH]; intros [|c rest] out; cbn [unsqueeze_loop]; try by eexists.
  destruct (u8 c <? AS_THEY_ARE); [destruct (_ <=? _)%nat; [apply IH|by eexists]|].
  match goal with |- context [match ?x with Ok _ => _ | Err _ => _ end] => destruct x as [[n [|low rest']]|] end;
    try by eexists.
  destruct (Z.ltb_spec (len out) (Z.lor (Z.shiftl (Z.land (u8 c) 0x1f) 8) (u8 low) + 1)); [by eexists|].
  destruct (repeat_from_some (Z.to_nat (n + 2))
    (Z.to_nat (len out - (Z.lor (Z.shiftl (Z.land (u8 c) 0x1f) 8) (u8 low) + 1))) out) as [out' ->]; [|apply IH].
  assert (0 <= Z.lor (Z.shiftl (Z.land (u8 c) 0x1f) 8) (u8 low)).
  { pose proof (u8_range low). pose proof (u8_range c). apply Z.lor_nonneg. split; [|lia].
    apply Z.shiftl_nonneg, Z.land_nonneg. lia. }
  unfold len in *. lia.
Qed.

(** Unsqueezing never reaches outside what it has: it panics exactly when asked for
    more than an allocation can have. *)
Lemma unsqueeze_panics squeezed unpacked : unsqueeze squeezed unpacked = Panic <-> ISIZE_MAX < unpacked.
Proof.
  unfold unsqueeze. destruct (Z.ltb_spec ISIZE_MAX unpacked); [split; done|].
  destruct (unsqueeze_loop_done (length squeezed) squeezed []) as [r ->]. cbn. split; [done|lia].
Qed.

Lemma goes_taken n P : (forall file b, P file b) ->
  goes_if (fun file n => length_told file (Of n)) P n (take_bytes n).
Proof.
  intros HP file at_ Hat [Hn _]. pose proof (goes_take n Hn file at_ Hat) as H.
  destruct (take_bytes n file at_); [|done|done]. destruct H. by split.
Qed.

Lemma goes_squeezed : goes anything squeezed_.
Proof.
  unfold squeezed_. eapply goes_then; [apply goes_context, goes_count|]. intros stored.
  eapply goes_if_then with (P := fun file u => length_told file (Of stored) /\ length_told file (Of u)).
  { intros file at_ Hat Hs. pose proof (goes_context _ UnsqueezedLength _ goes_count file at_ Hat) as H.
    destruct (in_context _ _ _ _); [|done|done]. destruct H. by split. }
  intros unpacked.
  eapply goes_if_then with (P := fun file _ => length_told file (Of unpacked)).
  { intros file at_ Hat [Hs Hu]. pose proof (goes_take stored (proj1 Hs) file at_ Hat) as H.
    destruct (take_bytes _ _ _); [|done|done]. destruct H. by split. }
  intros squeezed file at_ Hat Hu. destruct (unsqueeze squeezed unpacked) as [[out|e]|] eqn:E.
  - split; [lia|done].
  - done.
  - apply unsqueeze_panics in E. by apply Hu.
Qed.

Lemma goes_string : goes anything string_.
Proof.
  unfold string_. eapply goes_then; [apply goes_length|]. intros [n|how].
  { by apply goes_taken. }
  assert (Hfixed : forall w f, 0 <= w -> goes anything (let! n <- fixed w; got (f n) : Reader Bytes)).
  { intros w f Hw. eapply goes_then; [by apply goes_take|]. intros b. by apply goes_any, goes_got. }
  apply goes_any. repeat case_match; try (apply (Hfixed _ (fun n => show _)); lia);
    [apply goes_squeezed|apply goes_bail].
Qed.

Lemma goes_sections fuel database until records : goes anything (sections fuel database until records).
Proof.
  revert database until records; induction fuel as [|fuel IH]; intros database until records;
    [by apply goes_got|].
  cbn [sections]. eapply goes_then; [apply goes_byte|]. intros kind. apply goes_any.
  pose proof goes_string as Hs. pose proof goes_count as Hc.
  repeat case_match; try apply goes_bail; try by apply goes_got.
  all: repeat (eapply goes_then; [first [exact Hs|exact Hc|by apply goes_take]|intros ?; apply goes_any]).
  all: apply IH.
Qed.

Lemma goes_dataset n : goes anything (let! _ <- header; sections n 0 None []).
Proof.
  eapply goes_then with (P := anything); [|intros u; apply goes_any, goes_sections].
  unfold header. eapply goes_then; [apply goes_context, goes_take; vm_compute; discriminate|].
  intros h. apply goes_any. destruct (starts_with MAGIC h); [by apply goes_got|apply goes_bail].
Qed.

(** C19. Reading a saved dataset comes to an end on any file whatever, as long as
    the file fits in memory: it is read as a dataset, from the front and no further
    than the file goes, or refused with what was wrong with it -- the rounds of the
    loop never run out, and no index is ever out of range -- or else it panics,
    and then the file says somewhere in eight bytes that something in it is longer
    than an allocation can be. *)
Theorem dataset_ends file :
  len file <= USIZE_MAX ->
  match dataset file 0 with
  | Got (Some _) to => 0 <= to <= len file
  | Got None _ => False
  | Refused _ => True
  | Panicked => huge_length file
  end.
Proof.
  intros Hl. pose proof (dataset_steady file [] ltac:(by rewrite app_nil_r)) as Hs.
  pose proof (goes_dataset (length file)) as Hg.
  specialize (Hg file 0 ltac:(pose proof (len_nonneg file); lia)).
  change (and_then header _ file 0) with (dataset file 0) in Hg.
  destruct (dataset file 0) as [[r|] to|e|]; [by destruct Hg|by destruct Hs|done|done].
Qed.

Lemma dataset_ends_witness :
  huge_length (MAGIC ++ lit "0011"
    ++ [x00; xc3; x01; x81; x80; x00; x00; x00; x00; x00; x00; x00; x00; x61; xff]).
Proof.
  pose proof (dataset_ends (MAGIC ++ lit "0011"
    ++ [x00; xc3; x01; x81; x80; x00; x00; x00; x00; x00; x00; x00; x00; x61; xff]) ltac:(vm_compute; discriminate)) as H.
  rewrite huge_length_panics in H. exact H.
Defined.
