(* ===== verification/Dispatch.v ===== *)
(** * The dispatcher: src/src/commands/mod.rs

    [run] takes one request through the gates a client has to pass (who it is,
    whether it is listening, whether it is in the middle of a transaction), and
    [dispatch] runs a command, records it and passes it on.  The modules are
    asked in the order the source asks them ([run_against]).

    What a command finds out from outside at the moment it runs -- clocks, which
    clients and replicas are still there, how the record takes a write -- is its
    [Moment].  A command that has to wait leaves off in the middle ([WaitsOn]),
    and [resume] goes on with what was being waited for.  A panic ends the task
    that serves the client ([Crashes]); the locks recover. *)
From S2P Require Import Prelude Text Resp F64 Store StoreStrings StoreLists StoreStreams.
From S2P Require Import StoreSortedSets Command StoreCommands Geo Users Channels Config.
From S2P Require Import StoreSteps Families StoreSafety Replicas Transactions Aof.
Open Scope Z_scope.

(** ** The server and its clients *)

(** [Server]. *)
Record Server := {
  config : Config;
  replication : Replication;
  channels : Channels;
  aof : option Aof;
  users : list Bytes;
}.

(** Everything the connections share: the store, the server, and the files. *)
Record World := { store : State; server : Server; files : Files }.

(** What belongs to one connection.  Its subscriptions are tallied by the server, or
    ([outside]) by channels of its own that nobody publishes on: those of a client
    that is not on this server at all. *)
Record Client := {
  transaction : Transaction;
  subscriptions : Subscriptions;
  identity : Identity;
  outside : bool;
}.

Record Moment := {
  env : Env;
  alive : listener -> bool;
  ended : nat -> bool;
  append : Append;
}.

Definition with_store (w : World) (s : State) : World :=
  {| store := s; server := server w; files := files w |}.
Definition with_server (w : World) (s : Server) : World :=
  {| store := store w; server := s; files := files w |}.
Definition with_channels (w : World) (tally : Channels) : World :=
  with_server w {| config := config (server w); replication := replication (server w);
                   channels := tally; aof := aof (server w); users := users (server w) |}.
Definition with_replication (w : World) (r : Replication) : World :=
  with_server w {| config := config (server w); replication := r;
                   channels := channels (server w); aof := aof (server w);
                   users := users (server w) |}.
Definition with_users (w : World) (us : list Bytes) : World :=
  with_server w {| config := config (server w); replication := replication (server w);
                   channels := channels (server w); aof := aof (server w); users := us |}.
Definition with_transaction (cl : Client) (t : Transaction) : Client :=
  {| transaction := t; subscriptions := subscriptions cl; identity := identity cl; outside := outside cl |}.
Definition with_subscriptions (cl : Client) (subs : Subscriptions) : Client :=
  {| transaction := transaction cl; subscriptions := subs; identity := identity cl; outside := outside cl |}.
Definition with_identity (cl : Client) (who : Identity) : Client :=
  {| transaction := transaction cl; subscriptions := subscriptions cl; identity := who; outside := outside cl |}.

(** The server's tally after a command of this client's: what one outside subscribes
    to or gives up is no part of it, though what it publishes is. *)
Definition tallied (cl : Client) (command : Bytes) (before after : Channels) : Channels :=
  if outside cl && negb (command =b? lit "PUBLISH") then before else after.

(** What goes on elsewhere: to clients of the store, and to listeners. *)
Inductive Heard : Type :=
| FromStore (e : Event)
| Message (to : listener) (bytes : Bytes).

(** What the dispatcher leaves the connection with. *)
Inductive Answer : Type := Reply (v : Value) | ReplicaFrom (v : Value).

Section Dispatch.
Context `{UnicodeTables} `{Trig} `{PasswordHash}.

(** ** One command *)

(** [run_against]. *)
Definition run_against (m : Moment) (c : Command) (cl : Client) (w : World)
  : Client * World * list Heard * Outcome :=
  let command := uppercased c in
  let arguments := args c in
  match transactions_run command arguments (transaction cl) with
  | Some (t, reply) => (with_transaction cl t, w, [], Replied reply)
  | None =>
  match pubsub_run (alive m) command arguments (subscriptions cl, channels (server w)) with
  | Some (subs, tally, told, reply) =>
      (with_subscriptions cl subs,
       with_channels w (tallied cl command (channels (server w)) tally),
       map (fun lb => Message lb.1 lb.2) told, Replied reply)
  | None =>
  match store_run (env m) command arguments (store w) with
  | Some (s, events, out) => (cl, with_store w s, map FromStore events, out)
  | None =>
  match acl_run command arguments (users (server w)) (identity cl) with
  | Some (us, who, reply) => (with_identity cl who, with_users w us, [], Replied reply)
  | None =>
  match info_run command arguments (config (server w)) (id (replication (server w)))
          (offset (replication (server w))) with
  | Some reply => (cl, w, [], Replied reply)
  | None =>
  match settings_run command arguments (config (server w)) with
  | Some reply => (cl, w, [], Replied reply)
  | None =>
  match replication_run (ended m) (now (env m)) command arguments (replication (server w)) with
  | Some (r, out) => (cl, with_replication w r, [], out)
  | None => (cl, w, [], Replied (unknown_command (name c)))
  end end end end end end end.

(** What [dispatch] does once the command has answered: the record, then the
    replicas. *)
Definition finish (m : Moment) (c : Command) (reply : Value) (w : World) : World * Value :=
  if is_error reply then (w, reply)
  else
    match written_down c reply with
    | None => (w, reply)
    | Some written =>
        let '(w, recorded) :=
          match aof (server w) with
          | None => (w, Ok tt)
          | Some a =>
              let '(fs, r) := record (append m) a written (files w) in
              ({| store := store w; server := server w; files := fs |}, r)
          end in
        match recorded with
        | Err _ => (w, unrecorded)
        | Ok _ =>
            (match replicaof (config (server w)) with
             | None => with_replication w (pass_on (ended m) written (replication (server w)))
             | Some _ => w
             end, reply)
        end
    end.

(** [dispatch], up to where it waits. *)
Definition dispatch (m : Moment) (c : Command) (cl : Client) (w : World)
  : Client * World * list Heard * Outcome :=
  let '(cl, w, heard, out) := run_against m c cl w in
  match out with
  | Replied reply => let '(w, reply) := finish m c reply w in (cl, w, heard, Replied reply)
  | Blocks _ | Panics => (cl, w, heard, out)
  end.

(** ** A transaction *)

(** How far [execute] got: the replies of the commands that have run, and, when
    it waits on one or panics in one, the commands still to run. *)
Inductive Execution : Type :=
| Executed (replies : list Value)
| Held_up (replies : list Value) (by_ : Command) (on : Pending) (rest : list Command)
| Broken_off.

(** [execute]: the [n]th command runs at the [n]th moment. *)
Fixpoint execute (moments : nat -> Moment) (n : nat) (commands : list Command)
  (replies : list Value) (cl : Client) (w : World)
  : Client * World * list Heard * Execution :=
  match commands with
  | [] => (cl, w, [], Executed replies)
  | c :: commands =>
      let '(cl, w, heard, out) := dispatch (moments n) c cl w in
      match out with
      | Replied reply =>
          let '(cl, w, heard', e) := execute moments (S n) commands (replies ++ [reply]) cl w in
          (cl, w, heard ++ heard', e)
      | Blocks p => (cl, w, heard, Held_up replies c p commands)
      | Panics => (cl, w, heard, Broken_off)
      end
  end.

(** ** One request *)

(** What a request comes to: an answer; a wait, with what is to be done after
    it (the commands of the transaction it is part of); or a panic. *)
Inductive Progress : Type :=
| Answers (a : Answer)
| WaitsOn (p : Pending) (asked : Command) (part_of : option (list Value * list Command))
| Crashes.

(** The last lines of [run]. *)
Definition answer_to (c : Command) (reply : Value) : Answer :=
  if (uppercased c =b? lit "PSYNC") && negb (is_error reply) then ReplicaFrom reply
  else Reply reply.

Definition execution_progress (e : Execution) : Progress :=
  match e with
  | Executed replies => Answers (Reply (Array replies))
  | Held_up replies by_ on rest => WaitsOn on by_ (Some (replies, rest))
  | Broken_off => Crashes
  end.

(** [run]: steering a transaction takes the first moment, what it runs those
    after it. *)
Definition run (moments : nat -> Moment) (request : Value) (cl : Client) (w : World)
  : Client * World * list Heard * Progress :=
  match parse_command request with
  | Err reply => (cl, w, [], Answers (Reply reply))
  | Ok c =>
      if negb (authenticated (identity cl)) && negb (allowed_while_out (uppercased c))
      then (cl, w, [], Answers (Reply needs_authenticating))
      else if listening (subscriptions cl) && negb (allowed_while_listening (uppercased c))
      then (cl, w, [], Answers (Reply (out_of_context (uppercased c))))
      else
        match steers_a_transaction (uppercased c), queued (transaction cl) with
        | false, Some commands =>
            (with_transaction cl {| queued := Some (commands ++ [c]);
                                    watched := watched (transaction cl) |},
             w, [], Answers (Reply (SimpleString (lit "QUEUED"))))
        | _, _ =>
            match steer (now (env (moments O))) c (transaction cl) (store w) with
            | Some (t, s, SteerReply reply) =>
                (with_transaction cl t, with_store w s, [], Answers (answer_to c reply))
            | Some (t, s, Execute commands) =>
                let '(cl, w, heard, e) :=
                  execute moments 1 commands [] (with_transaction cl t) (with_store w s) in
                (cl, w, heard, execution_progress e)
            | None =>
                let '(cl, w, heard, out) := dispatch (moments O) c cl w in
                (cl, w, heard,
                 match out with
                 | Replied reply => Answers (answer_to c reply)
                 | Blocks p => WaitsOn p c None
                 | Panics => Crashes
                 end)
            end
        end
  end.

(** What comes of a wait: the command answers, is recorded and passed on, and
    the transaction it is part of goes on. *)
Definition resume (moments : nat -> Moment) (asked : Command)
  (part_of : option (list Value * list Command)) (reply : Value) (cl : Client) (w : World)
  : Client * World * list Heard * Progress :=
  let '(w, reply) := finish (moments O) asked reply w in
  match part_of with
  | None => (cl, w, [], Answers (answer_to asked reply))
  | Some (replies, rest) =>
      let '(cl, w, heard, e) := execute moments 1 rest (replies ++ [reply]) cl w in
      (cl, w, heard, execution_progress e)
  end.

(** ** Facts *)
Lemma finish_store m c reply w : store (finish m c reply w).1 = store w.
Proof.
  unfold finish, record. repeat (case_match; simplify_eq; try done).
Qed.

Lemma run_against_store m c cl w cl' w' heard out :
  run_against m c cl w = (cl', w', heard, out) ->
  (store w' = store w /\ out <> Panics)
  \/ exists events, store_run (env m) (uppercased c) (args c) (store w) = Some (store w', events, out)
     /\ server w' = server w /\ files w' = files w /\ cl' = cl.
Proof.
  unfold run_against.
  destruct (transactions_run _ _ _) as [[t reply]|]; [intros [= <- <- <- <-]; by left|].
  destruct (pubsub_run _ _ _ _) as [[[[subs tally] told] reply]|]; [intros [= <- <- <- <-]; by left|].
  destruct (store_run _ _ _ _) as [[[s events] o]|]; [intros [= <- <- <- <-]; right; by exists events|].
  destruct (acl_run _ _ _ _) as [[[us who] reply]|]; [intros [= <- <- <- <-]; by left|].
  destruct (info_run _ _ _ _); [intros [= <- <- <- <-]; by left|].
  destruct (settings_run _ _ _); [intros [= <- <- <- <-]; by left|].
  destruct (replication_run _ _ _ _ _) as [[r o]|] eqn:E; [|intros [= <- <- <- <-]; by left].
  intros [= <- <- <- <-]. left. split; [done|]. revert E. unfold replication_run, wait, wait_round.
  repeat (case_match; simplify_eq; try done); intros [= <- <-]; try done; by case_match.
Qed.

End Dispatch.

(** ** What is promised *)

(** C4. A command, whatever it is and whoever sends it, leaves the store some
    steps on -- so well formed, and with what [WATCH] promises kept -- and brings
    its connection down in two cases only: a [SET] whose deadline is past what
    the clock can hold, and an [XRANGE] whose bounds are crossed over an entry. *)
Theorem command_safe `{UnicodeTables} `{Trig} `{PasswordHash} m c cl w cl' w' heard out :
  Wf (store w) -> changes (store w) < U64_MAX -> 0 <= clock (env m) <= U64_MAX ->
  dispatch m c cl w = (cl', w', heard, out) ->
  rtc step (store w) (store w') /\ Wf (store w')
  /\ (out = Panics -> deadline_overflows (env m) (uppercased c) (args c)
                     \/ bounds_crossed (env m) (uppercased c) (args c) (store w)).
Proof.
  intros W Hc Hclock Hd. unfold dispatch in Hd.
  destruct (run_against m c cl w) as [[[cl1 w1] heard1] out1] eqn:E.
  assert (Hs : store w' = store w1 /\ (out = Panics -> out1 = Panics)).
  { destruct out1 as [reply| |]; [|by injection Hd as <- <- <- <-..].
    pose proof (finish_store m c reply w1) as Hf. destruct (finish m c reply w1).
    by injection Hd as <- <- <- <-. }
  destruct Hs as [-> Hp].
  assert (Hsteps : rtc step (store w) (store w1)
    /\ (out1 = Panics -> deadline_overflows (env m) (uppercased c) (args c)
                        \/ bounds_crossed (env m) (uppercased c) (args c) (store w))).
  { apply run_against_store in E as [[-> Hn]|(events & E & _)]; [done|].
    split; [by eapply store_run_steps|]. intros ->.
    destruct (upholds (law := panicking) (env m) (uppercased c) (args c) (store w) W Hc) as [Hu|Hu]; [|done].
    by rewrite E in Hu. }
  destruct Hsteps as [Hsteps Hcause]. split_and!; [done|by eapply good_wf, steps_good|by intros ->%Hp; auto].
Qed.

(** A world to try things in. *)
Definition trial_config : Config :=
  {| port := 0; replicaof := None; dir := lit "d"; dbfilename := []; appendonly := true;
     appenddirname := lit "aof"; appendfilename := lit "a"; appendfsync := lit "no" |}.
Definition trial_server : Server :=
  {| config := trial_config;
     replication := {| id := lit "me"; offset := 0;
                       replicas := [{| replica_id := 1; queue := []; reached := 0 |}] |};
     channels := ∅; aof := Some {| path := lit "f"; durable := false |};
     users := [lit "secret"] |}.
Definition trial_world : World := {| store := empty_state; server := trial_server; files := ∅ |}.
Definition stranger : Client :=
  {| transaction := no_transaction; subscriptions := subscriptions_of 0;
     identity := {| authenticated := false |}; outside := false |}.
Definition insider : Client := with_identity stranger trusted.
Definition trial_moment : Moment :=
  {| env := {| now := 7; clock := 7; open := fun _ => true; closed := fun _ => false;
               held := fun _ => true; new_waiter := 0; new_watcher := 0 |};
     alive := fun _ => true; ended := fun _ => false; append := Appended None |}.
Definition command_of (words : list string) : Command :=
  match words with
  | [] => {| uppercased := []; name := []; args := [] |}
  | w :: ws => {| uppercased := lit w; name := lit w; args := map lit ws |}
  end.
Definition request_of (words : list string) : Value := Array (map (fun w => BulkString (lit w)) words).

Definition dispatch_ := @dispatch plain_tables plain_trig plain_hash.
Definition run_ := @run plain_tables plain_trig plain_hash.

Lemma command_safe_witness :
  let r := dispatch_ trial_moment (command_of ["SET"; "k"; "v"; "EX"; "18446744073709551615"])
             insider trial_world in
  r.2 = Panics /\ Wf (store r.1.1.2).
Proof.
  intros r. destruct r as [[[cl' w'] heard] out] eqn:E. cbn [fst snd].
  destruct (@command_safe plain_tables plain_trig plain_hash trial_moment
              (command_of ["SET"; "k"; "v"; "EX"; "18446744073709551615"]) insider trial_world
              cl' w' heard out Wf_empty eq_refl ltac:(vm_compute; split; discriminate) E) as (_ & W & _).
  split; [|exact W]. revert E. unfold r. vm_compute. by intros [= _ _ _ <-].
Defined.

Lemma with_users_id w : with_users w (users (server w)) = w.
Proof. by destruct w as [? [] ?]. Qed.

(** What [AUTH] makes of whoever sends it. *)
Lemma auth_result `{PasswordHash} arguments us who :
  exists who' reply, acl_run (lit "AUTH") arguments us who = Some (us, who', reply)
  /\ ((who' = who /\ reply <> OK)
      \/ (who' = {| authenticated := true |} /\ reply = OK
          /\ exists password, last arguments = Some password /\ accepts password us = true)).
Proof.
  assert (Ha : forall user password, exists who' reply,
    authenticate user password us who = (who', reply)
    /\ ((who' = who /\ reply <> OK)
        \/ (who' = {| authenticated := true |} /\ reply = OK /\ accepts password us = true))).
  { intros user password. unfold authenticate. destruct (accepts password us) eqn:E.
    - destruct (user =b? DEFAULT_USER); eexists _, _; (split; [done|]); [by right|by left].
    - rewrite orb_true_r. eexists _, _. split; [done|]. by left. }
  destruct arguments as [|a [|b [|]]].
  - eexists _, _. split; [done|]. by left.
  - change (acl_run (lit "AUTH") [a] us who)
      with (let '(who, reply) := alone a us who in Some (us, who, reply)).
    unfold alone. destruct (wants_no_password us); [eexists _, _; split; [done|]; by left|].
    destruct (Ha DEFAULT_USER a) as (who' & reply & -> & Hw). exists who', reply. split; [done|].
    destruct Hw as [?|(-> & -> & ?)]; [by left|right]. split_and!; [done..|by exists a].
  - change (acl_run (lit "AUTH") [a; b] us who)
      with (let '(who, reply) := authenticate a b us who in Some (us, who, reply)).
    destruct (Ha a b) as (who' & reply & -> & Hw). exists who', reply. split; [done|].
    destruct Hw as [?|(-> & -> & ?)]; [by left|right]. split_and!; [done..|by exists b].
  - eexists _, _. split; [done|]. by left.
Qed.

(** What comes of someone's request who has not been let in: whatever there is to know
    about the server but its passwords, it makes no difference. *)
Definition outsider_gets `{PasswordHash} (request : result Command Value) (cl : Client) (us : list Bytes)
  (cl' : Client) (p : Progress) : Prop :=
  ((cl' = cl \/ exists t, cl' = with_transaction cl t) /\ p <> Answers (Reply OK)
   \/ p = Answers (Reply OK) /\ authenticated (identity cl') = true
      /\ exists c password, request = Ok c /\ uppercased c = lit "AUTH"
         /\ last (args c) = Some password /\ accepts password us = true)
  /\ forall c, request = Ok c -> one_of ["AUTH"; "HELLO"; "QUIT"; "RESET"]%string (uppercased c) = false ->
     cl' = cl /\ p = Answers (Reply (Error (lit "NOAUTH Authentication required."))).

Lemma outsider_run `{UnicodeTables} `{Trig} `{PasswordHash} request cl us :
  authenticated (identity cl) = false ->
  exists cl' p, outsider_gets (parse_command request) cl us cl' p
  /\ forall moments w, users (server w) = us -> run moments request cl w = (cl', w, [], p).
Proof.
  intros Hout. unfold outsider_gets, run. destruct (parse_command request) as [c|e] eqn:Ep.
  2: { eexists _, _. split; [|done]. split; [|done]. left. split; [by left|].
       intros [= ->]. revert Ep. unfold parse_command. by repeat case_match. }
  rewrite Hout. cbn [negb andb]. change allowed_while_out with (one_of ["AUTH"; "HELLO"; "QUIT"; "RESET"]%string).
  destruct (one_of _ (uppercased c)) eqn:Ea; cbn [negb].
  2: { eexists _, _. split; [|done]. split; [left; split; [by left|done]|]. by intros ? [= <-]. }
  assert (Hno : forall cl' p, forall c', (Ok c : result Command Value) = Ok c' ->
    one_of ["AUTH"; "HELLO"; "QUIT"; "RESET"]%string (uppercased c') = false ->
    cl' = cl /\ p = Answers (Reply (Error (lit "NOAUTH Authentication required."))))
    by (intros cl' p c' [= <-]; congruence).
  destruct (listening (subscriptions cl) && _).
  { eexists _, _. split; [|done]. split; [left; split; [by left|done]|apply Hno]. }
  assert (Hcommand : (exists u, uppercased c = lit u /\ (u = "HELLO" \/ u = "QUIT" \/ u = "RESET")%string)
                     \/ uppercased c = lit "AUTH").
  { revert Ea. unfold one_of. cbn [existsb].
    rewrite !orb_true_iff, !beq_true. intros [?|[?|[?|[?|?]]]]; [by right|left; eauto..|done]. }
  assert (Hsteer : steers_a_transaction (uppercased c) = false
                   /\ forall moment t s, steer moment c t s = None).
  { unfold steer. destruct Hcommand as [(u & -> & [->|[->| ->]])| ->]; done. }
  destruct Hsteer as [-> Hsteer]. destruct (queued (transaction cl)).
  { eexists _, _. split; [|done]. split; [left; split; [by right; eexists|done]|apply Hno]. }
  destruct Hcommand as [(u & Eu & Hu)|Eu].
  - exists cl, (Answers (Reply (unknown_command (name c)))). split; [split; [left; split; [by left|done]|apply Hno]|].
    intros moments w _. rewrite Hsteer. unfold dispatch.
    assert (run_against (moments O) c cl w = (cl, w, [], Replied (unknown_command (name c)))) as ->.
    { unfold run_against. rewrite Eu. by destruct Hu as [->|[->| ->]]. }
    cbn [finish is_error unknown_command]. unfold answer_to. cbn [is_error unknown_command]. by rewrite andb_false_r.
  - destruct (auth_result (args c) us (identity cl)) as (who & reply & Ha & Hin).
    exists (with_identity cl who), (Answers (Reply reply)). split.
    { split; [|apply Hno]. destruct Hin as [[-> Hn]|(-> & -> & password & Hl & Hacc)].
      - left. split; [left; by destruct cl|congruence].
      - right. split_and!; [done..|]. by exists c, password. }
    intros moments w Hus. rewrite Hsteer. unfold dispatch.
    assert (run_against (moments O) c cl w = (with_identity cl who, w, [], Replied reply)) as ->.
    { rewrite <- (with_users_id w) at 2. unfold run_against. rewrite Eu.
      change (store_run _ _ _ _) with (None : option Ran). by rewrite Hus, Ha. }
    assert (finish (moments O) c reply w = (w, reply)) as ->.
    { unfold finish, written_down. rewrite Eu. by destruct (is_error reply). }
    unfold answer_to. by rewrite Eu.
Qed.

(** C14. Someone who has not been let in has no say and is told nothing: whatever they
    send, the store, the server and the files are left exactly as they were, nobody
    else hears of it, and what they are answered hangs on nothing the server holds
    but its passwords.  Anything but [AUTH], [HELLO], [QUIT] and [RESET] is answered
    that authentication is required.  They are answered [OK] just when they are let in,
    and that takes an [AUTH] whose last word is a password the server accepts. *)
Theorem locked_out `{UnicodeTables} `{Trig} `{PasswordHash} moments request cl w cl' w' heard p :
  authenticated (identity cl) = false ->
  run moments request cl w = (cl', w', heard, p) ->
  w' = w /\ heard = []
  /\ (authenticated (identity cl') = true <-> p = Answers (Reply OK))
  /\ (p = Answers (Reply OK) ->
      exists c password, parse_command request = Ok c /\ uppercased c = lit "AUTH"
      /\ last (args c) = Some password /\ accepts password (users (server w)) = true)
  /\ (forall c, parse_command request = Ok c ->
      one_of ["AUTH"; "HELLO"; "QUIT"; "RESET"]%string (uppercased c) = false ->
      cl' = cl /\ p = Answers (Reply (Error (lit "NOAUTH Authentication required."))))
  /\ forall moments' w2, users (server w2) = users (server w) -> (run moments' request cl w2).2 = p.
Proof.
  intros Hout. destruct (outsider_run request cl (users (server w)) Hout) as (cl1 & p1 & [Hgets Hno] & Hrun).
  rewrite (Hrun moments w eq_refl). intros [= <- <- <- <-]. split_and!; [done..| | |exact Hno|].
  - destruct Hgets as [[Hcl Hp]|(-> & Hin & _)]; [|done]. split; [|done]. intros Hin.
    destruct Hcl as [->|[t ->]]; cbn in Hin; congruence.
  - by destruct Hgets as [[_ Hp]|(_ & _ & Hacc)].
  - intros moments' w2 Hus. by rewrite (Hrun moments' w2 Hus).
Qed.

Lemma locked_out_witness :
  let r := run_ (fun _ => trial_moment) (request_of ["SET"; "k"; "v"]) stranger trial_world in
  r.1.1.2 = trial_world /\ r.2 = Answers (Reply needs_authenticating).
Proof.
  intros r. destruct r as [[[cl' w'] heard] p] eqn:E. cbn [fst snd].
  destruct (@locked_out plain_tables plain_trig plain_hash (fun _ => trial_moment)
              (request_of ["SET"; "k"; "v"]) stranger trial_world cl' w' heard p eq_refl E)
    as (Hw & _ & _ & _ & Hno & _).
  split; [exact Hw|]. exact (proj2 (Hno (command_of ["SET"; "k"; "v"]) eq_refl eq_refl)).
Defined.

(** A client listening on a channel is held to that conversation: any other
    command is refused, and neither queued nor run. *)
Theorem held_to_listening `{UnicodeTables} `{Trig} `{PasswordHash} moments request c cl w :
  parse_command request = Ok c -> authenticated (identity cl) = true ->
  listening (subscriptions cl) = true -> allowed_while_listening (uppercased c) = false ->
  run moments request cl w = (cl, w, [], Answers (Reply (out_of_context (uppercased c)))).
Proof. intros Hp Hi Hl Ha. unfold run. by rewrite Hp, Hi, Hl, Ha. Qed.

(** *** The record, and those who follow it *)

(** A command the wire can carry, and that reads as the command it is: one that
    came in over it. *)
Definition fit `{UnicodeTables} (c : Command) : Prop :=
  wire MAX_DEPTH (as_sent c) /\ parse_command (as_sent c) = Ok c.

(** A request that is a command, fit for the wire. *)
Definition fit_request `{UnicodeTables} (v : Value) : Prop :=
  wire MAX_DEPTH v /\ exists c, parse_command v = Ok c.

Lemma written_down_fit `{UnicodeTables} c reply written :
  fit c -> written_down c reply = Some written -> fit_request written.
Proof.
  unfold written_down. intros [Hf Hp].
  destruct (one_of _ _); [intros [= <-]; split; [done|by exists c]|].
  destruct (uppercased c =b? lit "BLPOP"); [|done].
  destruct (args c) as [|key rest] eqn:Ea; [done|]. destruct reply; try done. intros [= <-].
  revert Hf. unfold as_sent. rewrite Ea. cbn [map]. change MAX_DEPTH with 8%nat.
  rewrite wire_array. intros [_ Hf]. inversion Hf as [|? ? _ Hf']; subst. inversion Hf' as [|? ? Hk _]; subst.
  split; [|by eexists]. apply wire_array. split; [by vm_compute|].
  apply Forall_cons; split; [by vm_compute|]. apply Forall_cons; split; [done|]. apply Forall_nil_2.
Qed.

(** What a command that has answered adds to the record. *)
Definition written_by (c : Command) (reply : Value) : list Value :=
  if is_error reply then [] else option_list (written_down c reply).

Section History.
Context `{UnicodeTables} `{Trig} `{PasswordHash}.

Definition written_in (m : Moment) (c : Command) (cl : Client) (w : World) : list Value :=
  match (run_against m c cl w).2 with Replied reply => written_by c reply | _ => [] end.

Lemma run_against_keeps m c cl w cl' w' heard out :
  run_against m c cl w = (cl', w', heard, out) ->
  files w' = files w /\ aof (server w') = aof (server w) /\ config (server w') = config (server w).
Proof.
  unfold run_against.
  destruct (transactions_run _ _ _) as [[t reply]|]; [by intros [= <- <- <- <-]|].
  destruct (pubsub_run _ _ _ _) as [[[[subs tally] told] reply]|]; [by intros [= <- <- <- <-]|].
  destruct (store_run _ _ _ _) as [[[s events] o]|]; [by intros [= <- <- <- <-]|].
  destruct (acl_run _ _ _ _) as [[[us who] reply]|]; [by intros [= <- <- <- <-]|].
  destruct (info_run _ _ _ _); [by intros [= <- <- <- <-]|].
  destruct (settings_run _ _ _); [by intros [= <- <- <- <-]|].
  destruct (replication_run _ _ _ _ _) as [[r o]|]; by intros [= <- <- <- <-].
Qed.

Lemma finish_records m c reply w a bytes fault :
  append m = Appended fault -> aof (server w) = Some a -> files w !! path a = Some bytes ->
  aof (server (finish m c reply w).1) = Some a
  /\ files (finish m c reply w).1 !! path a = Some (bytes ++ flat_map encode (written_by c reply)).
Proof.
  intros Hm Ha Hb. unfold finish, written_by. destruct (is_error reply); [by rewrite app_nil_r|].
  destruct (written_down c reply) as [written|]; [|by rewrite app_nil_r].
  rewrite Ha, Hm. cbn [record option_list option_rect flat_map]. rewrite app_nil_r, Hb.
  destruct fault as [said|]; [destruct (durable a)|]; cbn; try (case_match; cbn);
    by rewrite lookup_insert_eq, ?Ha.
Qed.

Lemma dispatch_records m c cl w cl' w' heard out a bytes fault :
  append m = Appended fault -> aof (server w) = Some a -> files w !! path a = Some bytes ->
  dispatch m c cl w = (cl', w', heard, out) ->
  aof (server w') = Some a
  /\ files w' !! path a = Some (bytes ++ flat_map encode (written_in m c cl w)).
Proof.
  intros Hm Ha Hb. unfold dispatch, written_in.
  destruct (run_against m c cl w) as [[[cl1 w1] heard1] out1] eqn:E. cbn [snd].
  destruct (run_against_keeps _ _ _ _ _ _ _ _ E) as (Hf & Ha' & _). rewrite <- Ha' in Ha. rewrite <- Hf in Hb.
  destruct out1 as [reply| |]; [|intros [= _ <- _ _]; by rewrite app_nil_r..].
  pose proof (finish_records m c reply w1 a bytes fault Hm Ha Hb) as Hfin.
  destruct (finish m c reply w1) as [w2 reply']. by intros [= _ <- _ _].
Qed.

Lemma written_by_fit c reply : fit c -> Forall fit_request (written_by c reply).
Proof.
  intros Hc. unfold written_by. destruct (is_error reply); [apply Forall_nil_2|].
  destruct (written_down c reply) as [v|] eqn:E; [|apply Forall_nil_2]. cbn.
  apply Forall_cons; split; [by eapply written_down_fit|apply Forall_nil_2].
Qed.

End History.

(** Words of a trial, fit for the wire. *)
Lemma fit_words words :
  words <> [] -> forallb (fun b => len b <=? MAX_BULK_LENGTH) (map lit words) = true ->
  (len words <=? USIZE_MAX) = true ->
  @parse_command plain_tables (request_of words) = Ok (command_of words) ->
  @fit plain_tables (command_of words).
Proof.
  intros Hne Hl Hn Hp. assert (as_sent (command_of words) = request_of words) as Ew.
  { destruct words; [done|]. unfold as_sent, request_of. cbn. by rewrite map_map. }
  unfold fit. rewrite Ew. split; [|done]. unfold request_of. apply wire_array.
  apply Z.leb_le in Hn. unfold len in *. rewrite length_map. split; [done|].
  clear -Hl. induction words as [|x words IH]; cbn in *; [apply Forall_nil_2|].
  apply andb_true_iff in Hl as [Hx Hl]. apply Z.leb_le in Hx.
  apply Forall_cons; split; [done|by apply IH].
Qed.
