(* ===== verification/Replies.v ===== *)
(** * What a reply looks like

    The shape of reply each command gives, whoever sends it and whatever it finds
    ([shape_of]), as a client library relies on: [replies_typed]. *)
From S2P Require Import Prelude Text Resp F64 Store StoreStrings StoreLists StoreStreams.
From S2P Require Import StoreSortedSets Command StoreCommands Geo Families Users.
From S2P Require Import Channels Config Replicas Transactions Aof Dispatch.
Open Scope Z_scope.

(** ** Shapes *)
Inductive Shape : Type :=
| Simple
| Int
| Bulk
| Nil
| NilArray
| ListOf (each : Shape)
| Tuple (parts : list Shape)
| Either (this that : Shape)
| Each (reply : Shape)        (* several replies, one after the other *)
| FileAfter (reply : Shape).  (* a reply, and the file it announces *)

Fixpoint has_shape (s : Shape) (v : Value) {struct s} : bool :=
  match s, v with
  | Simple, SimpleString _ | Int, Integer _ | Bulk, BulkString _ | Nil, Null | NilArray, NullArray => true
  | ListOf each, Array vs => forallb (has_shape each) vs
  | Tuple parts, Array vs =>
      (fix tuple (parts : list Shape) (vs : list Value) : bool :=
         match parts, vs with
         | [], [] => true
         | part :: parts, v :: vs => has_shape part v && tuple parts vs
         | _, _ => false
         end) parts vs
  | Either this that, v => has_shape this v || has_shape that v
  | Each reply, Sequence vs => forallb (has_shape reply) vs
  | FileAfter reply, Sequence [v; File _] => has_shape reply v
  | _, _ => false
  end.

Definition Entry_ : Shape := Tuple [Bulk; ListOf Bulk].
Definition Confirmation : Shape := Tuple [Bulk; Bulk; Int].

(** The reply a command gives when it does not fail; [None] for a word that is
    no command that runs. *)
Definition shape_of (command : Bytes) (args : list Bytes) : option Shape :=
  let named (words : list string) := one_of words command in
  if named ["SET"; "TYPE"; "AUTH"; "REPLCONF"; "UNWATCH"]%string then Some Simple
  else if named ["INCR"; "RPUSH"; "LPUSH"; "LLEN"; "ZADD"; "ZREM"; "ZCARD"; "GEOADD"; "PUBLISH"; "WAIT"]%string
  then Some Int
  else if named ["ECHO"; "XADD"; "INFO"]%string then Some Bulk
  else if named ["GET"; "ZSCORE"; "GEODIST"]%string then Some (Either Bulk Nil)
  else if named ["KEYS"; "LRANGE"; "ZRANGE"; "GEOSEARCH"; "CONFIG"]%string then Some (ListOf Bulk)
  else if named ["ZRANK"]%string then Some (Either Int Nil)
  else if named ["LPOP"]%string then
    Some (match args with [_] => Either Bulk Nil | _ => ListOf Bulk end)
  else if named ["BLPOP"]%string then Some (Either (Tuple [Bulk; Bulk]) NilArray)
  else if named ["GEOPOS"]%string then Some (ListOf (Either (Tuple [Bulk; Bulk]) NilArray))
  else if named ["XRANGE"]%string then Some (ListOf Entry_)
  else if named ["XREAD"]%string then Some (Either (ListOf (Tuple [Bulk; ListOf Entry_])) NilArray)
  else if named ["PING"]%string then Some (Either Simple (Tuple [Bulk; Bulk]))
  else if named ["SUBSCRIBE"]%string then Some (Each Confirmation)
  else if named ["UNSUBSCRIBE"]%string then Some (Either (Each Confirmation) (Tuple [Bulk; Nil; Int]))
  else if named ["ACL"]%string then
    Some (Either (Either Bulk Simple) (Either NilArray (Tuple [Bulk; ListOf Bulk; Bulk; ListOf Bulk])))
  else if named ["PSYNC"]%string then Some (FileAfter Simple)
  else None.

(** An error, or the reply the command gives. *)
Definition fits (command : Bytes) (args : list Bytes) (v : Value) : bool :=
  is_error v || match shape_of command args with Some s => has_shape s v | None => false end.

(** ** The shapes of lists *)
Lemma bulks_shape l : forallb (has_shape Bulk) (map BulkString l) = true.
Proof. by induction l. Qed.

Lemma forallb_map {A} (f : A -> Value) (p : Value -> bool) l :
  (forall a, p (f a) = true) -> forallb p (map f l) = true.
Proof. intros Hf. induction l as [|a l IH]; cbn; [done|]. by rewrite Hf, IH. Qed.

Lemma entry_shape e : has_shape Entry_ (encode_entry e) = true.
Proof.
  cbn. rewrite andb_true_r. generalize (fields e) as l. induction l as [|[f v] l IH]; [done|]. exact IH.
Qed.

Lemma streams_shape l :
  has_shape (Either (ListOf (Tuple [Bulk; ListOf Entry_])) NilArray) (encode_streams l) = true.
Proof.
  destruct l as [|k l]; [done|]. cbn [has_shape encode_streams]. rewrite forallb_map; [done|].
  intros [key es]. cbn [fst snd andb]. rewrite andb_true_r. apply forallb_map, entry_shape.
Qed.

Lemma confirm_each_shape what act channels st :
  forallb (has_shape Confirmation) (confirm_each what act channels st).2 = true.
Proof.
  revert st; induction channels as [|c cs IH]; intros st; cbn [confirm_each]; [done|].
  destruct (act c st) as [st1 n]. specialize (IH st1). by destruct (confirm_each what act cs st1).
Qed.

(** ** What is refused is refused with an error *)
Section Refusals.
Context `{UnicodeTables} `{Trig}.

Lemma parse_expiry_refuses options e : parse_expiry options = Err e -> is_error e = true.
Proof.
  destruct options as [|unit [|amount [|]]]; cbn [parse_expiry]; try by intros [= <-].
  destruct (match text amount with Some _ => _ | None => _ end); cbn [ok_or rbind]; [|by intros [= <-]].
  repeat case_match; by intros [= <-].
Qed.

Lemma parse_timeout_refuses t e : parse_timeout t = Err e -> is_error e = true.
Proof.
  unfold parse_timeout. destruct (match text t with Some _ => _ | None => _ end) as [x|]; cbn [ok_or rbind].
  - destruct (f_lt _ _); [by intros [= <-]|]. destruct (f_eq _ _); [done|].
    destruct (duration_of_secs x); cbn; [done|by intros [= <-]].
  - by intros [= <-].
Qed.

Lemma collect_refuses {A B} (f : A -> result B Value) l e :
  (forall a e, f a = Err e -> is_error e = true) -> collect_results f l = Err e -> is_error e = true.
Proof. intros Hf [a Ha]%collect_results_Err. by eapply Hf. Qed.

Lemma parse_score_refuses t e : parse_score t = Err e -> is_error e = true.
Proof. unfold parse_score. repeat case_match; by intros [= <-]. Qed.

Lemma parse_members_refuses l e : parse_members l = Err e -> is_error e = true.
Proof.
  unfold parse_members. destruct (negb _); [by intros [= <-]|]. apply collect_refuses.
  intros [a b] e' Hp. destruct (parse_score (a, b).1) eqn:E; cbn in Hp; [done|].
  injection Hp as ->. by eapply parse_score_refuses.
Qed.

Lemma pending_read_refuses ki e : pending_read ki = Err e -> is_error e = true.
Proof.
  unfold pending_read. repeat case_match; try by intros [= <-].
  destruct (parse_id _ _); cbn; by intros [= <-].
Qed.

Lemma parse_xread_refuses env l e : parse_xread env l = Err e -> is_error e = true.
Proof.
  unfold parse_xread. match goal with |- rbind ?r _ = _ -> _ => destruct r as [wr|e'] eqn:E end; cbn [rbind].
  2: { intros [= ->]. revert E. repeat case_match; try done; by intros [= <-]. }
  match goal with |- rbind ?r _ = _ -> _ => destruct r as [rest|e'] eqn:E' end; cbn [rbind].
  2: { intros [= ->]. revert E'. repeat case_match; try done; by intros [= <-]. }
  destruct (_ || _); [by intros [= <-]|].
  destruct (collect_results _ _) eqn:Ec; cbn; [done|]. intros [= ->].
  eapply collect_refuses; [|exact Ec]. apply pending_read_refuses.
Qed.

Lemma measure_refuses u e : measure u = Err e -> is_error e = true.
Proof. unfold measure. repeat case_match; by intros [= <-]. Qed.

Lemma point_refuses a b e : point a b = Err e -> is_error e = true.
Proof. unfold point, out_of_range. repeat case_match; by intros [= <-]. Qed.

Lemma search_terms_refuses fuel terms c r e : search_terms fuel terms c r = Err e -> is_error e = true.
Proof.
  revert terms c r; induction fuel as [|fuel IH]; intros [|t terms] c r; cbn [search_terms]; try done.
  destruct (to_uppercase <$> text t) as [u|]; [|by intros [= <-]]. case_match; [|case_match; [|by intros [= <-]]].
  - destruct terms as [|lon [|lat terms]]; try by intros [= <-].
    destruct (point lon lat) eqn:E; cbn [rbind]; [apply IH|intros [= <-]; by eapply point_refuses].
  - destruct terms as [|d [|u' terms]]; try by intros [= <-].
    destruct (parse_coordinate d); cbn [ok_or rbind]; [|by intros [= <-]].
    destruct (measure u') eqn:E; cbn [rbind]; [apply IH|intros [= <-]; by eapply measure_refuses].
Qed.

Lemma search_for_refuses terms e : search_for terms = Err e -> is_error e = true.
Proof.
  unfold search_for. destruct (search_terms _ _ _ _) as [[[c|] [r|]]|] eqn:E; cbn; try done;
    try by intros [= <-]. intros [= <-]. by eapply search_terms_refuses.
Qed.

End Refusals.

Create HintDb refusals.
#[export] Hint Resolve parse_expiry_refuses parse_timeout_refuses parse_members_refuses
  parse_xread_refuses measure_refuses search_for_refuses : refusals.

Section Replies.
Context `{UnicodeTables} `{Trig} `{PasswordHash}.

(** ** Command by command *)
Definition fit_ran (command : Bytes) (args : list Bytes) (r : option Ran) : Prop :=
  match r with Some (_, _, Replied v) => fits command args v = true | _ => True end.

(** The law: what a command replies is of its own kind. *)
Definition fitting_reply : Law := fun _ command args _ r => fit_ran command args r.

Lemma fits_error command args v : is_error v = true -> fits command args v = true.
Proof. intros Hv. unfold fits. by rewrite Hv. Qed.

Lemma fits_shape command args s v :
  shape_of command args = Some s -> has_shape s v = true -> fits command args v = true.
Proof. intros Hs Hv. unfold fits. by rewrite Hs, Hv, orb_true_r. Qed.

(** The word a command is claimed by. *)
Ltac claimed := match goal with
  | E : (?command =b? lit _) = true |- _ => apply beq_true in E; subst command
  end.
Ltac shaped :=
  repeat case_match; unfold refuses, says, replies, fit_ran, count, typed, or_null, bulks; cbn [fst snd];
  try done; repeat (case_match; try done); try (by apply (bulks_shape _));
  try (apply fits_error; solve [eauto with refusals]);
  try (eapply fits_shape; [reflexivity|]; solve [apply streams_shape|by apply (forallb_map _ _ _ entry_shape)]).

#[export] Instance strings_fit : Upholds fitting_reply strings_run.
Proof.
  intros env command args s. unfold strings_run, run_set. repeat (case_match; [claimed; shaped|]). exact I.
Qed.

#[export] Instance keys_fit : Upholds fitting_reply keys_run.
Proof. intros env command args s. unfold keys_run. repeat (case_match; [claimed; shaped|]). exact I. Qed.

#[export] Instance lists_fit : Upholds fitting_reply lists_run.
Proof.
  intros env command args s. unfold lists_run, run_push, run_lpop, run_blpop, run_range, resume_element.
  repeat (case_match; [claimed; shaped|]). exact I.
Qed.

#[export] Instance streams_fit : Upholds fitting_reply streams_run.
Proof.
  intros env command args s. unfold streams_run, run_xadd, run_xrange, run_xread, wait_for_entries.
  repeat (case_match; [claimed; shaped|]); try exact I.
Qed.

#[export] Instance sorted_sets_fit : Upholds fitting_reply sorted_sets_run.
Proof.
  intros env command args s. unfold sorted_sets_run, run_zadd, run_range. repeat (case_match; [claimed; shaped|]). exact I.
Qed.

Lemma positions_shape env key places found s s' ev v :
  forallb (has_shape (Either (Tuple [Bulk; Bulk]) NilArray)) found = true ->
  positions env key places found s = Some (s', ev, Replied v) ->
  is_error v = true \/ has_shape (ListOf (Either (Tuple [Bulk; Bulk]) NilArray)) v = true.
Proof.
  revert found s; induction places as [|p ps IH]; intros found s Hf; cbn [positions].
  - intros [= _ _ <-]. by right.
  - destruct (zscore _ _ _ _) as [s1 [[x|]|[]]]; [apply IH..|intros [= _ _ <-]; by left].
    all: rewrite forallb_app, Hf; done.
Qed.

Lemma located_refuses (l : list (Bytes * Bytes * Bytes)) e :
  collect_results (fun '(lon, lat, place) =>
    try? p <- point lon lat; (Ok (place_score p, place) : result (f64 * Bytes) Value)) l = Err e ->
  is_error e = true.
Proof.
  apply collect_refuses. intros [[lon lat] place] e'. destruct (point lon lat) eqn:E; cbn; [done|].
  intros [= ->]. by eapply point_refuses.
Qed.

#[export] Instance geo_fit : Upholds fitting_reply geo_run.
Proof.
  intros env command args s. unfold fitting_reply, geo_run, geoadd, geosearch.
  case_match; [claimed; shaped; apply fits_error; by eapply located_refuses|].
  case_match.
  { claimed. destruct args as [|key [|p ps]]; try done.
    destruct (positions env key (p :: ps) [] s) as [[[s1 ev] [v| |]]|] eqn:E; try done.
    unfold fit_ran, fits. destruct (positions_shape env key (p :: ps) [] s s1 ev v eq_refl E) as [->|Hs]; [done|].
    apply orb_true_iff. by right. }
  unfold geodist. repeat (case_match; [claimed; shaped|]); exact I.
Qed.

#[export] Instance store_run_fit : Upholds fitting_reply store_run.
Proof. unfold store_run. apply _. Qed.

Lemma transactions_fit command args t t' v :
  transactions_run command args t = Some (t', v) -> fits command args v = true.
Proof. unfold transactions_run. case_match; [|done]. claimed. case_match; by intros [= _ <-]. Qed.

Lemma pubsub_fit alive command args st subs tally told v :
  pubsub_run alive command args st = Some (subs, tally, told, v) -> fits command args v = true.
Proof.
  destruct st as [subs0 tally0]. unfold pubsub_run. case_match; [claimed|case_match; [claimed|case_match; [claimed|]]].
  - destruct args as [|c [|m [|]]]; try by intros [= _ _ _ <-]. destruct (send _ _ _). by intros [= _ _ _ <-].
  - destruct args as [|c cs]; [by intros [= _ _ _ <-]|].
    pose proof (confirm_each_shape "subscribe" subscribe (c :: cs) (subs0, tally0)) as Hc.
    destruct (confirm_each _ _ _ _) as [[a b] replies]. intros [= _ _ _ <-]. exact Hc.
  - destruct args as [|c cs].
    + unfold given_up. destruct (on _) as [|c cs] eqn:Eon; [by intros [= _ _ _ <-]|].
      pose proof (confirm_each_shape "unsubscribe" unsubscribe (c :: cs) (subs0, tally0)) as Hc.
      destruct (confirm_each _ _ _ _) as [[a b] replies]. intros [= _ _ _ <-].
      eapply fits_shape; [reflexivity|]. apply orb_true_iff. left. exact Hc.
    + pose proof (confirm_each_shape "unsubscribe" unsubscribe (c :: cs) (subs0, tally0)) as Hc.
      destruct (confirm_each _ _ _ _) as [[a b] replies]. intros [= _ _ _ <-].
      eapply fits_shape; [reflexivity|]. apply orb_true_iff. left. exact Hc.
  - destruct (command =b? lit "PING") eqn:E; [|done]. claimed. case_match; [|done]. by intros [= _ _ _ <-].
Qed.

Lemma set_user_fit user rules users users' v :
  set_user user rules users = (users', v) -> is_error v = true \/ v = OK.
Proof.
  unfold set_user. case_match; [intros [= _ <-]; by left|].
  destruct (collect_results password_rule rules) as [l|e] eqn:E; intros [= _ <-]; [by right|left].
  eapply collect_refuses; [|exact E]. intros r e'. unfold password_rule.
  repeat case_match; by intros [= <-].
Qed.

Lemma acl_fit command args users who users' who' v :
  acl_run command args users who = Some (users', who', v) -> fits command args v = true.
Proof.
  unfold acl_run. case_match; [claimed|case_match; [claimed|done]].
  - destruct args as [|action rest]; [by intros [= _ _ <-]|].
    case_match; [|case_match; [|case_match; [|by intros [= _ _ <-]]]].
    + case_match; by intros [= _ _ <-].
    + destruct rest as [|user [|]]; try by intros [= _ _ <-]. unfold user_named.
      case_match; intros [= _ _ <-]; [done|]. eapply fits_shape; [reflexivity|].
      pose proof (bulks_shape (hashed_passwords users)) as Hb.
      destruct (wants_no_password users); cbn -[hashed_passwords] in Hb |- *; by rewrite Hb.
    + destruct rest as [|user [|r rs]]; try by intros [= _ _ <-].
      destruct (set_user _ _ _) as [us reply] eqn:E. intros [= _ _ <-].
      destruct (set_user_fit _ _ _ _ _ E) as [?| ->]; [by apply fits_error|done].
  - unfold alone, authenticate. destruct args as [|a [|b [|]]]; try by intros [= _ _ <-].
    all: repeat case_match; intros [= _ _ <-]; simplify_eq; done.
Qed.

Lemma settings_shape names c : forallb (has_shape Bulk) (settings names c) = true.
Proof.
  induction names as [|nm names IH]; [done|]. unfold settings in *. cbn [flat_map].
  rewrite forallb_app, IH, andb_true_r. by repeat case_match.
Qed.

Lemma settings_fit command args c v : settings_run command args c = Some v -> fits command args v = true.
Proof.
  unfold settings_run. case_match; [claimed|done]. intros [= <-].
  destruct args as [|a names]; [done|]. case_match; [|done]. destruct names as [|n ns]; [done|].
  eapply fits_shape; [reflexivity|]. apply (settings_shape (n :: ns)).
Qed.

Lemma info_fit command args c id offset v :
  info_run command args c id offset = Some v -> fits command args v = true.
Proof. unfold info_run. case_match; [claimed|done]. intros [= <-]. by destruct args. Qed.

Lemma replication_fit ended now command args r r' v :
  replication_run ended now command args r = Some (r', Replied v) -> fits command args v = true.
Proof.
  unfold replication_run, wait, wait_round. case_match; [claimed|case_match; [claimed|case_match; [claimed|done]]].
  - intros [= _ <-]. by case_match.
  - intros [= _ <-]. by destruct args as [|? [|? [|]]].
  - repeat case_match; intros [= _ <-]; simplify_eq; done.
Qed.

Lemma run_against_fit m c cl w cl' w' heard v :
  run_against m c cl w = (cl', w', heard, Replied v) -> fits (uppercased c) (args c) v = true.
Proof.
  unfold run_against.
  destruct (transactions_run _ _ _) as [[t reply]|] eqn:E; [intros [= _ _ _ <-]; by eapply transactions_fit|].
  clear E. destruct (pubsub_run _ _ _ _) as [[[[subs tally] told] reply]|] eqn:E;
    [intros [= _ _ _ <-]; by eapply pubsub_fit|].
  clear E. pose proof (upholds (law := fitting_reply) (env m) (uppercased c) (args c) (store w)) as Hs.
  unfold fitting_reply in Hs.
  destruct (store_run _ _ _ _) as [[[s events] o]|]; [by intros [= _ _ _ ->]|]. clear Hs.
  destruct (acl_run _ _ _ _) as [[[us who] reply]|] eqn:E; [intros [= _ _ _ <-]; by eapply acl_fit|].
  clear E. destruct (info_run _ _ _ _) eqn:E; [intros [= _ _ _ <-]; by eapply info_fit|].
  clear E. destruct (settings_run _ _ _) eqn:E; [intros [= _ _ _ <-]; by eapply settings_fit|].
  clear E. destruct (replication_run _ _ _ _ _) as [[r o]|] eqn:E; [|by intros [= _ _ _ <-]].
  intros [= _ _ _ ->]. by eapply replication_fit.
Qed.

Lemma finish_fit m c reply w :
  fits (uppercased c) (args c) reply = true ->
  fits (uppercased c) (args c) (finish m c reply w).2 = true.
Proof.
  intros Hf. unfold finish. destruct (is_error reply); [done|].
  destruct (written_down c reply); [|done]. by repeat (case_match; simplify_eq).
Qed.

Lemma dispatch_fit m c cl w cl' w' heard v :
  dispatch m c cl w = (cl', w', heard, Replied v) -> fits (uppercased c) (args c) v = true.
Proof.
  unfold dispatch. destruct (run_against m c cl w) as [[[cl1 w1] h1] [reply| |]] eqn:E; [|done|done].
  pose proof (finish_fit m c reply w1 (run_against_fit _ _ _ _ _ _ _ _ E)) as Hf.
  destruct (finish m c reply w1). by intros [= _ _ _ <-].
Qed.

Definition fitting (c : Command) (v : Value) : Prop := fits (uppercased c) (args c) v = true.

(** What steering a transaction answers. *)
Lemma steer_fit now c t s t' s' reply :
  steer now c t s = Some (t', s', SteerReply reply) ->
  is_error reply = true \/ reply = OK \/ (uppercased c = lit "EXEC" /\ reply = NullArray).
Proof.
  unfold steer. intros E.
  destruct (uppercased c =b? lit "MULTI"); [revert E; repeat case_match; intros [= _ _ <-]; auto|].
  destruct (uppercased c =b? lit "EXEC") eqn:Ee.
  { apply beq_true in Ee. revert E. repeat case_match; intros [= _ _ Hx]; simplify_eq; auto. }
  destruct (uppercased c =b? lit "WATCH"); [revert E; repeat case_match; intros [= _ _ <-]; auto|].
  destruct (uppercased c =b? lit "DISCARD"); [|done]. revert E. repeat case_match; intros [= _ _ <-]; auto.
Qed.

Lemma steer_executes now c t s t' s' commands :
  steer now c t s = Some (t', s', Execute commands) ->
  uppercased c = lit "EXEC" /\ queued t = Some commands.
Proof.
  unfold steer. intros E.
  destruct (uppercased c =b? lit "MULTI"); [revert E; by repeat case_match|].
  destruct (uppercased c =b? lit "EXEC") eqn:Ee.
  { apply beq_true in Ee. split; [done|]. revert E. repeat case_match; by intros [= _ _ <-]. }
  destruct (uppercased c =b? lit "WATCH"); [revert E; by repeat case_match|].
  destruct (uppercased c =b? lit "DISCARD"); [|done]. revert E. by repeat case_match.
Qed.

(** ** What a wait comes to *)

(** What may come of what a client waits for: the element it is handed, or nothing when
    its time is up; what is found of the streams when they are looked at again; how many
    replicas have got so far, when they are enough or the time is up. *)
Inductive comes_to : Pending -> Value -> Prop :=
| comes_element key me timeout element :
    (element = None -> is_Some timeout) ->
    comes_to (AwaitElement key me timeout) (resume_element key element)
| comes_entries env reads waker deadline s s' ev v :
    resume_entries env reads deadline s = (s', ev, Replied v) ->
    comes_to (AwaitEntries reads waker deadline) v
| comes_replicas ended target wanted deadline r r' v :
    wait_round ended target wanted deadline r = (r', Replied v) ->
    comes_to (AwaitReplicas target wanted deadline) v
| comes_too_few ended target wanted deadline r :
    comes_to (AwaitReplicas target wanted (Some deadline)) (wait_over ended target r).2.

(** The words that may have to wait, and what for. *)
Definition waits_for (command : Bytes) (on : Pending) : Prop :=
  command = match on with
            | AwaitElement _ _ _ => lit "BLPOP"
            | AwaitEntries _ _ _ => lit "XREAD"
            | AwaitReplicas _ _ _ => lit "WAIT"
            end.

Definition waiting : Law := fun _ command _ _ r =>
  match r with Some (_, _, Blocks on) => waits_for command on | _ => True end.

Ltac waits_not :=
  repeat match goal with |- waiting _ _ _ _ (if ?b then _ else _) => destruct b eqn:? end;
  unfold waiting, refuses, says, replies; repeat (case_match; simplify_eq; try done); try exact I.

#[export] Instance strings_waiting : Upholds waiting strings_run.
Proof. intros env command args s. unfold strings_run, run_set. waits_not. Qed.
#[export] Instance lists_waiting : Upholds waiting lists_run.
Proof.
  intros env command args s. unfold lists_run, run_push, run_lpop, run_range. destruct (command =b? lit "BLPOP") eqn:E.
  - apply beq_true in E as ->. unfold waiting. cbn. unfold run_blpop, refuses, says.
    repeat (case_match; simplify_eq; try done); try exact I.
  - waits_not.
Qed.
#[export] Instance streams_waiting : Upholds waiting streams_run.
Proof.
  intros env command args s. unfold streams_run, run_xadd, run_xrange. destruct (command =b? lit "XREAD") eqn:E.
  - apply beq_true in E as ->. unfold waiting. cbn. unfold run_xread, wait_for_entries, refuses, says, replies.
    repeat (case_match; simplify_eq; try done); try exact I.
  - waits_not.
Qed.
#[export] Instance sorted_sets_waiting : Upholds waiting sorted_sets_run.
Proof. intros env command args s. unfold sorted_sets_run, run_zadd, run_range. waits_not. Qed.
Lemma positions_waits_not env key places found s :
  match positions env key places found s with Some (_, _, Blocks _) => False | _ => True end.
Proof.
  revert found s; induction places as [|p places IH]; intros found s; cbn [positions]; [done|].
  destruct (zscore _ _ _ _) as [s' [[x|]|[]]]; [apply IH..|done].
Qed.
#[export] Instance geo_waiting : Upholds waiting geo_run.
Proof.
  intros env command args s. unfold geo_run. destruct (command =b? lit "GEOPOS").
  - destruct (command =b? lit "GEOADD"); [unfold geoadd; waits_not|]. destruct args as [|key places]; [done|].
    pose proof (positions_waits_not env key places [] s) as Hp. unfold waiting.
    destruct places; [done|]. by destruct (positions _ _ _ _ _) as [[[? ?] []]|].
  - unfold geoadd, geodist, geosearch. waits_not.
Qed.
#[export] Instance keys_waiting : Upholds waiting keys_run.
Proof. intros env command args s. unfold keys_run. waits_not. Qed.
#[export] Instance store_run_waiting : Upholds waiting store_run.
Proof. unfold store_run. apply _. Qed.

Lemma replication_waits ended now command args r r' on :
  replication_run ended now command args r = Some (r', Blocks on) -> waits_for command on.
Proof.
  unfold replication_run, wait, wait_round. destruct (command =b? lit "REPLCONF"); [done|].
  destruct (command =b? lit "PSYNC"); [done|]. destruct (command =b? lit "WAIT") eqn:E; [|done].
  apply beq_true in E as ->. repeat case_match; intros [= _ <-]; simplify_eq; done.
Qed.

Lemma dispatch_waits m c cl w cl' w' heard on :
  dispatch m c cl w = (cl', w', heard, Blocks on) -> waits_for (uppercased c) on.
Proof.
  unfold dispatch. destruct (run_against m c cl w) as [[[cl1 w1] h1] [reply|on'|]] eqn:E;
    [by destruct (finish _ _ _ _)| |done]. intros [= _ _ _ ->]. revert E. unfold run_against.
  destruct (transactions_run _ _ _) as [[t reply]|]; [done|].
  destruct (pubsub_run _ _ _ _) as [[[[subs tally] told] reply]|]; [done|].
  pose proof (upholds (law := waiting) (env m) (uppercased c) (args c) (store w)) as Hs. unfold waiting in Hs.
  destruct (store_run _ _ _ _) as [[[s events] o]|]; [by intros [= _ _ _ ->]|].
  destruct (acl_run _ _ _ _) as [[[us who] reply]|]; [done|].
  destruct (info_run _ _ _ _); [done|]. destruct (settings_run _ _ _); [done|].
  destruct (replication_run _ _ _ _ _) as [[r o]|] eqn:Er; [|done].
  intros [= _ _ _ ->]. by eapply replication_waits.
Qed.

(** Whatever it comes to is of the kind the command gives. *)
Lemma comes_fitting c on v : waits_for (uppercased c) on -> comes_to on v -> fitting c v.
Proof.
  unfold waits_for, fitting. intros Hc Hv.
  destruct Hv as [key me timeout element Ht|env reads waker deadline s s' ev v Hr
    |ended target wanted deadline r r' v Hr|ended target wanted deadline r]; rewrite Hc.
  - by destruct element.
  - revert Hr. unfold resume_entries, wait_for_entries.
    repeat case_match; intros [= _ _ <-]; try done. eapply fits_shape; [reflexivity|apply streams_shape].
  - revert Hr. unfold wait_round. repeat case_match; by intros [= _ <-].
  - done.
Qed.

Lemma execute_fitting moments n commands before cl w cl' w' heard e :
  execute moments n commands before cl w = (cl', w', heard, e) ->
  match e with
  | Executed replies => exists more, replies = before ++ more /\ Forall2 fitting commands more
  | Held_up replies asked on rest =>
      exists done more, replies = before ++ more /\ commands = done ++ asked :: rest
      /\ Forall2 fitting done more /\ waits_for (uppercased asked) on
  | Broken_off => True
  end.
Proof.
  revert n before cl w cl' w' heard e; induction commands as [|c commands IH];
    intros n before cl w cl' w' heard e; cbn [execute].
  - intros [= _ _ _ <-]. exists []. by rewrite app_nil_r.
  - destruct (dispatch (moments n) c cl w) as [[[cl1 w1] h1] [reply|on|]] eqn:E; [| |by intros [= _ _ _ <-]].
    + destruct (execute moments (S n) commands (before ++ [reply]) cl1 w1) as [[[cl2 w2] h2] e2] eqn:E2.
      intros [= _ _ _ <-]. apply IH in E2. apply dispatch_fit in E.
      destruct e2 as [replies|replies asked on rest|]; [| |done].
      * destruct E2 as (more & -> & Hm). exists (reply :: more). rewrite <- app_assoc. split; [done|].
        by apply Forall2_cons_2.
      * destruct E2 as (done & more & -> & -> & Hm & Hw). exists (c :: done), (reply :: more).
        rewrite <- app_assoc. split_and!; [done|done|by apply Forall2_cons_2|done].
    + intros [= _ _ _ <-]. apply dispatch_waits in E. exists [], [].
      split_and!; [by rewrite app_nil_r|done|apply Forall2_nil_2|done].
Qed.

(** ** What a request comes to *)

(** Sooner or later: at once, or after the waits of it, whatever the server has become
    by then. *)
Inductive reaches (request : Value) (cl : Client) : Progress -> Prop :=
| reaches_now moments w cl' w' heard p :
    run moments request cl w = (cl', w', heard, p) -> reaches request cl p
| reaches_later on asked part_of moments reply cl1 w1 cl2 w2 heard p :
    reaches request cl (WaitsOn on asked part_of) -> comes_to on reply ->
    resume moments asked part_of reply cl1 w1 = (cl2, w2, heard, p) -> reaches request cl p.

(** The kinds of answer a request may get. *)
Definition kind_of_answer (request : Value) (q : option (list Command)) (a : Answer) : Prop :=
  match a with
  | Reply v =>
      is_error v = true
      \/ exists c, parse_command request = Ok c
         /\ match steers_a_transaction (uppercased c), q with
            | false, Some _ => v = SimpleString (lit "QUEUED")
            | false, None =>
                exists s, shape_of (uppercased c) (args c) = Some s /\ has_shape s v = true
            | true, q =>
                v = OK
                \/ uppercased c = lit "EXEC"
                   /\ (v = NullArray
                       \/ exists commands replies, q = Some commands /\ v = Array replies
                          /\ Forall2 fitting commands replies)
            end
  | ReplicaFrom v => exists c, parse_command request = Ok c /\ uppercased c = lit "PSYNC"
                     /\ has_shape (FileAfter Simple) v = true
  end.

(** How far one may have got. *)
Definition on_its_way (request : Value) (q : option (list Command)) (p : Progress) : Prop :=
  match p with
  | Answers a => kind_of_answer request q a
  | WaitsOn on asked None =>
      waits_for (uppercased asked) on /\ parse_command request = Ok asked
      /\ steers_a_transaction (uppercased asked) = false /\ q = None
  | WaitsOn on asked (Some (replies, rest)) =>
      waits_for (uppercased asked) on
      /\ exists c done, parse_command request = Ok c /\ steers_a_transaction (uppercased c) = true
         /\ uppercased c = lit "EXEC" /\ q = Some (done ++ asked :: rest) /\ Forall2 fitting done replies
  | Crashes => True
  end.

Lemma executed_on_its_way request c q commands before more e :
  parse_command request = Ok c -> steers_a_transaction (uppercased c) = true -> uppercased c = lit "EXEC" ->
  q = Some (before ++ commands) -> Forall2 fitting before more ->
  match e with
  | Executed replies => exists more', replies = more ++ more' /\ Forall2 fitting commands more'
  | Held_up replies asked on rest =>
      exists done more', replies = more ++ more' /\ commands = done ++ asked :: rest
      /\ Forall2 fitting done more' /\ waits_for (uppercased asked) on
  | Broken_off => True
  end -> on_its_way request q (execution_progress e).
Proof.
  intros Hp Hs Hc -> Hb. destruct e as [replies|replies asked on rest|]; cbn [execution_progress on_its_way kind_of_answer]; [| |done].
  - intros (more' & -> & Hm). right. exists c. rewrite Hs. split; [done|]. right. split; [done|]. right.
    exists (before ++ commands), (more ++ more'). split_and!; [done..|]. by apply Forall2_app.
  - intros (done & more' & -> & -> & Hm & Hw). split; [done|]. exists c, (before ++ done).
    split_and!; [done..|by rewrite <- app_assoc|by apply Forall2_app].
Qed.

Lemma answered_on_its_way request c q v :
  parse_command request = Ok c -> steers_a_transaction (uppercased c) = false -> q = None -> fitting c v ->
  kind_of_answer request q (answer_to c v).
Proof.
  intros Hp Hs -> Hf. unfold fitting, fits in Hf. unfold answer_to.
  destruct (is_error v) eqn:Ee; [rewrite andb_false_r; by left|].
  destruct (uppercased c =b? lit "PSYNC") eqn:E1; cbn [andb negb].
  - apply beq_true in E1. exists c. split_and!; [done|done|]. by rewrite E1 in Hf.
  - right. exists c. rewrite Hs. split; [done|]. destruct (shape_of _ _) as [s|]; [by exists s|done].
Qed.

Lemma run_on_its_way moments request cl w cl' w' heard p :
  run moments request cl w = (cl', w', heard, p) -> on_its_way request (queued (transaction cl)) p.
Proof.
  unfold run. destruct (parse_command request) as [c|reply] eqn:Ep.
  2: { intros [= _ _ _ <-]. left. revert Ep. unfold parse_command. repeat case_match; by intros [= <-]. }
  destruct (_ && _); [intros [= _ _ _ <-]; by left|]. destruct (_ && _); [intros [= _ _ _ <-]; by left|].
  destruct (steers_a_transaction (uppercased c)) eqn:Es; [|destruct (queued (transaction cl)) eqn:Eq].
  - destruct (proj2 (steer_claims (now (env (moments O))) c (transaction cl) (store w)) Es) as [[[t s] todo] E].
    rewrite E. destruct todo as [reply|commands].
    + intros [= _ _ _ <-]. unfold answer_to.
      assert ((uppercased c =b? lit "PSYNC") = false) as ->.
      { destruct (uppercased c =b? lit "PSYNC") eqn:E1; [|done]. apply beq_true in E1. by rewrite E1 in Es. }
      cbn [andb]. destruct (steer_fit _ _ _ _ _ _ _ E) as [?|[->|[? ->]]]; [by left|right..]; exists c; rewrite Es; auto.
    + destruct (steer_executes _ _ _ _ _ _ _ E) as [Hc Hq].
      destruct (execute _ _ _ _ _ _) as [[[cl1 w1] h1] e] eqn:Ex. intros [= _ _ _ <-].
      apply execute_fitting in Ex. by eapply (executed_on_its_way request c _ commands []).
  - intros [= _ _ _ <-]. right. exists c. by rewrite Es.
  - assert (steer (now (env (moments O))) c (transaction cl) (store w) = None) as ->.
    { apply eq_None_not_Some. rewrite steer_claims. congruence. }
    destruct (dispatch _ _ _ _) as [[[cl1 w1] h1] [reply|on|]] eqn:Ed; intros [= _ _ _ <-]; [| |done].
    + eapply answered_on_its_way; [done..|by eapply dispatch_fit].
    + by apply dispatch_waits in Ed.
Qed.

Lemma reaches_on_its_way request cl p : reaches request cl p -> on_its_way request (queued (transaction cl)) p.
Proof.
  induction 1 as [moments w cl' w' heard p Hr|on asked part_of moments reply cl1 w1 cl2 w2 heard p _ IH Hv Hr];
    [by eapply run_on_its_way|]. revert Hr. unfold resume.
  destruct part_of as [[replies rest]|]; cbn in IH.
  - destruct IH as (Hw & c & done & Hp & Hs & Hc & Hq & Hd).
    pose proof (finish_fit (moments O) asked reply w1 (comes_fitting _ _ _ Hw Hv)) as Hf.
    destruct (finish _ _ _ _) as [w3 reply3]. cbn [snd] in Hf.
    destruct (execute _ _ rest _ _ _) as [[[cl4 w4] h4] e] eqn:Ex. intros [= _ _ _ <-].
    apply execute_fitting in Ex.
    eapply (executed_on_its_way request c _ rest (done ++ [asked])); [done..| | |exact Ex].
    + by rewrite <- app_assoc.
    + apply Forall2_app; [done|]. apply Forall2_cons_2; [done|apply Forall2_nil_2].
  - destruct IH as (Hw & Hp & Hs & Hq).
    pose proof (finish_fit (moments O) asked reply w1 (comes_fitting _ _ _ Hw Hv)) as Hf.
    destruct (finish _ _ _ _) as [w3 reply3]. cbn [snd] in Hf. intros [= _ _ _ <-].
    by apply answered_on_its_way.
Qed.

End Replies.

(** C16. Every reply is of the kind its command gives: whatever a client in
    whatever state asks, the answer, be it given at once or after whatever waits, is
    an error; or, for a command a transaction takes down, [QUEUED]; or the [OK] of the
    commands that steer one; or, of [EXEC], the null array or the replies of the
    commands that were queued, one each, each of its own command's kind; or a reply of
    the shape of the command.  And what turns a connection into a replica's is the
    reply of a [PSYNC], a dataset after it. *)
Theorem replies_typed `{UnicodeTables} `{Trig} `{PasswordHash} request cl a :
  reaches request cl (Answers a) ->
  match a with
  | Reply v =>
      is_error v = true
      \/ exists c, parse_command request = Ok c
         /\ match steers_a_transaction (uppercased c), queued (transaction cl) with
            | false, Some _ => v = SimpleString (lit "QUEUED")
            | false, None =>
                exists s, shape_of (uppercased c) (args c) = Some s /\ has_shape s v = true
            | true, q =>
                v = OK
                \/ uppercased c = lit "EXEC"
                   /\ (v = NullArray
                       \/ exists commands replies, q = Some commands /\ v = Array replies
                          /\ Forall2 fitting commands replies)
            end
  | ReplicaFrom v => exists c, parse_command request = Ok c /\ uppercased c = lit "PSYNC"
                     /\ has_shape (FileAfter Simple) v = true
  end.
Proof. exact (reaches_on_its_way request cl (Answers a)). Qed.

(** An [EXEC] held up by a [BLPOP] whose time is up then. *)
Lemma replies_typed_witness :
  let queueing := with_transaction insider
    {| queued := Some [command_of ["BLPOP"; "l"; "1"]; command_of ["LPOP"; "l"]]; watched := ∅ |} in
  let held := run_ (fun _ => trial_moment) (request_of ["EXEC"]) queueing trial_world in
  let out := @resume plain_tables plain_trig plain_hash (fun _ => trial_moment) (command_of ["BLPOP"; "l"; "1"])
               (Some ([], [command_of ["LPOP"; "l"]])) NullArray held.1.1.1 held.1.1.2 in
  out.2 = Answers (Reply (Array [NullArray; Null]))
  /\ has_shape (Either (Tuple [Bulk; Bulk]) NilArray) NullArray = true.
Proof.
  intros queueing held out.
  assert (exists d, held.2 = WaitsOn (AwaitElement (lit "l") 0 (Some d)) (command_of ["BLPOP"; "l"; "1"])
                     (Some ([], [command_of ["LPOP"; "l"]]))) as [d Hh] by (eexists; vm_compute; reflexivity).
  assert (out.2 = Answers (Reply (Array [NullArray; Null]))) as Hout by (vm_compute; reflexivity).
  split; [exact Hout|].
  destruct held as [[[cl1 w1] h1] p1] eqn:E1. destruct out as [[[cl2 w2] h2] p2] eqn:E2.
  cbn [fst snd] in *. subst p1 p2.
  pose proof (@replies_typed plain_tables plain_trig plain_hash (request_of ["EXEC"]) queueing
    (Reply (Array [NullArray; Null]))
    (@reaches_later plain_tables plain_trig plain_hash _ _ _ _ _ _ NullArray _ _ _ _ _ _
       (@reaches_now plain_tables plain_trig plain_hash _ _ _ _ _ _ _ _ E1)
       (comes_element (lit "l") 0 (Some d) None (fun _ => mk_is_Some _ _ eq_refl)) E2))
    as [Hx|(c & Hc & Ht)]; [discriminate Hx|].
  assert (c = command_of ["EXEC"]) as -> by (injection Hc as <-; reflexivity).
  destruct Ht as [Hx|[_ [Hx|(commands & replies & Hq & Hr & Hf)]]]; [discriminate Hx|discriminate Hx|].
  injection Hq as <-. injection Hr as <-. inversion Hf as [|? ? ? ? Hl _]. exact Hl.
Defined.

(** An error that names what the client sent is written out as it was sent: a
    name with a line break in it makes one reply read as several. *)
Lemma name_breaks_reply :
  let name := lit "x" ++ CRLF ++ lit "+OK" ++ CRLF ++ lit "-y" in
  let reply := encode (unknown_command name) in
  let first := Error (lit "ERR unknown command 'x") in
  @parse_command plain_tables (Array [BulkString name]) = Ok {| uppercased := @to_uppercase plain_tables name; name := name; args := [] |}
  /\ parse reply = Ok (Some (first, len (encode first)))
  /\ parse (drop (length (encode first)) reply) = Ok (Some (SimpleString (lit "OK"), 5)).
Proof. vm_compute. split_and!; reflexivity. Qed.
