(* ===== verification/Alike.v ===== *)
(** * Stores that hold the same data

    Two stores are [alike] when they hold the same under every key of a set, whatever
    the versions that go with it, with no deadlines: a master's and its replica's, a
    server's and the one's that has played its record back.  The set is that of the
    keys one is [sure] of; it may be all there are.

    Such stores are told apart by nothing a client can ask of those keys, at whatever
    time it asks: the operations that only look are [Proper] for [alike], and so are
    the commands made of them ([answering], a law of every family of [Families]); and
    they leave alone whatever is not to expire ([keeping]).  What a command that is
    written down does to both is for [Twins]. *)
From S2P Require Import Prelude Text Resp F64 Store StoreStrings StoreLists StoreStreams.
From S2P Require Import StoreSortedSets Command StoreCommands Geo Families Users.
From S2P Require Import Channels Config Replicas Transactions Aof Dispatch Replies.
Open Scope Z_scope.

(** ** Stores alike *)

(** What a store holds, versions apart. *)
Definition data_of (s : State) : gmap Bytes Data := data <$> entries s.

Lemma data_of_at s key : data_of s !! key = data <$> entries s !! key.
Proof. unfold data_of. apply lookup_fmap. Qed.

(** What is under the key, if anything, is not to expire. *)
Definition untimed (es : Entries) (key : Bytes) : Prop :=
  forall e, es !! key = Some e -> expires_at e = None.

(** Stores that hold the same under one key, whatever they hold under others. *)
Definition alike_at (key : Bytes) (s t : State) : Prop :=
  untimed (entries s) key /\ untimed (entries t) key
  /\ data <$> entries s !! key = data <$> entries t !! key.

(** Stores that hold the same under every key one is sure of. *)
Definition alike (sure : Bytes -> bool) (s t : State) : Prop :=
  forall key, sure key = true -> alike_at key s t.

(** One is sure of this key. *)
Class Sure (sure : Bytes -> bool) (key : Bytes) : Prop := is_sure : sure key = true.

(** Nothing tells them apart, and a store with deadlines there is alike to none,
    itself not excepted. *)
#[export] Instance alike_PER sure : RelationClasses.PER (alike sure).
Proof.
  split.
  - intros s t Hst key Hk. destruct (Hst key Hk) as (Us & Ut & E). by split_and!.
  - intros s t u Hst Htu key Hk. destruct (Hst key Hk) as (Us & _ & E), (Htu key Hk) as (_ & Uu & E').
    split_and!; [done|done|by rewrite E].
Qed.

#[export] Instance data_of_alike sure key : Sure sure key -> Proper (alike sure ==> eq) (fun s => data_of s !! key).
Proof. intros Hk s t Hst. rewrite !data_of_at. apply (Hst key Hk). Qed.

Lemma alike_empty sure s t : entries s = ∅ -> entries t = ∅ -> alike sure s t.
Proof. intros Es Et key _. split_and!; [intros e; by rewrite ?Es, ?Et, lookup_empty..|by rewrite Es, Et]. Qed.

Lemma untimed_drop now es key : untimed es key -> drop_if_expired now es key = es.
Proof.
  intros Hu. unfold drop_if_expired. destruct (es !! key) as [e|] eqn:E; [|done].
  unfold has_expired. by rewrite (Hu e E).
Qed.

(** Both stores at the key an operation works on. *)
Ltac both_at key s t Hst :=
  let Ek := fresh "Ek" in
  pose proof (proj2 (proj2 Hst)) as Ek;
  destruct (entries s !! key) as [[d x v]|] eqn:Es, (entries t !! key) as [[d' x' v']|] eqn:Et;
  cbn [fmap option_fmap option_map data] in Ek; simplify_eq;
  [pose proof (proj1 Hst _ Es); pose proof (proj1 (proj2 Hst) _ Et)|].

(** ** Questions leave what is not to expire as it is *)

(** Nothing has gone, by this time, but what was to expire by then; and nothing else has
    changed. *)
Definition lapses (now : Z) (es es' : Entries) : Prop := forall key,
  es' !! key = es !! key \/ es' !! key = None /\ exists e, es !! key = Some e /\ has_expired now e = true.

#[export] Instance lapses_preorder now : PreOrder (lapses now).
Proof.
  split; [by intros es key; left|]. intros es es' es'' H H' key.
  destruct (H key) as [E|[E Hx]], (H' key) as [E'|[E' Hx']].
  - left. congruence.
  - right. split; [done|]. by rewrite <- E.
  - right. split; [congruence|done].
  - by right.
Qed.

(** So what is not to expire is as it was. *)
Definition abides (es es' : Entries) : Prop := forall key, untimed es key -> es' !! key = es !! key.

Lemma lapses_abides now es es' : lapses now es es' -> abides es es'.
Proof.
  intros H key Hu. destruct (H key) as [E|(_ & e & E & Hx)]; [done|].
  unfold has_expired in Hx. by rewrite (Hu e E) in Hx.
Qed.

#[export] Instance abides_preorder : PreOrder abides.
Proof.
  split; [by intros es key|]. intros es es' es'' H H' key Hu. rewrite <- H by done. apply H'.
  intros e. rewrite H by done. apply Hu.
Qed.

Lemma abides_alike key s t s' t' :
  alike_at key s t -> abides (entries s) (entries s') -> abides (entries t) (entries t') -> alike_at key s' t'.
Proof.
  intros (Us & Ut & E) Hs Ht. split_and!; [intros e; rewrite Hs by done; apply Us
    |intros e; rewrite Ht by done; apply Ut|by rewrite Hs, Ht].
Qed.

Lemma drop_lapses now es key : lapses now es (drop_if_expired now es key).
Proof.
  intros k. unfold drop_if_expired. destruct (es !! key) as [e|] eqn:E; [|by left].
  destruct (has_expired now e) eqn:Ex; [|by left].
  destruct (decide (k = key)) as [->|Hne]; [right|left; by apply lookup_delete_ne].
  split; [apply lookup_delete_eq|by exists e].
Qed.

Lemma drop_abides now es key : abides es (drop_if_expired now es key).
Proof. apply (lapses_abides now), drop_lapses. Qed.

Create HintDb lapses.
#[export] Hint Resolve drop_lapses : lapses.
#[export] Hint Extern 1 (lapses _ ?es ?es) => reflexivity : lapses.

Lemma ask_lapses {A} (none : A) question now key s : lapses now (entries s) (entries (ask none question now key s).1).
Proof. unfold ask, set_at. cbn. auto with lapses. Qed.

Lemma get_lapses now key s : lapses now (entries s) (entries (get now key s).1).
Proof. unfold get. cbn. auto with lapses. Qed.

Lemma kind_lapses now key s : lapses now (entries s) (entries (kind now key s).1).
Proof. unfold kind. cbn. auto with lapses. Qed.

Lemma keys_lapses now wanted s : lapses now (entries s) (entries (keys now wanted s).1).
Proof.
  intros k. unfold keys. cbn [fst with_entries entries]. destruct (entries s !! k) as [e|] eqn:E.
  - destruct (has_expired now e) eqn:Ex; [right|left].
    + split; [|by exists e]. apply map_lookup_filter_None. right. intros e'. rewrite E. intros [= <-].
      cbn. by rewrite Ex.
    + apply map_lookup_filter_Some. split; [done|]. cbn. by rewrite Ex.
  - left. apply map_lookup_filter_None. by left.
Qed.

Lemma lrange_lapses now key start stop s : lapses now (entries s) (entries (lrange now key start stop s).1).
Proof. unfold lrange, list_at. cbn. auto with lapses. Qed.

Lemma llen_lapses now key s : lapses now (entries s) (entries (llen now key s).1).
Proof. unfold llen, list_at. cbn. auto with lapses. Qed.

Lemma xrange_lapses now key start stop s : lapses now (entries s) (entries (xrange now key start stop s).1).
Proof. unfold xrange, stream_at. cbn. auto with lapses. Qed.

Lemma versions_lapses now ks s : lapses now (entries s) (entries (versions now ks s).1).
Proof.
  unfold versions. assert (forall es, lapses now es (versions_in now ks es).1) as Hks.
  { induction ks as [|k ks IH]; intros es; cbn [versions_in]; [done|].
    specialize (IH (drop_if_expired now es k)). destruct (versions_in now ks _). cbn in *.
    by etransitivity; [apply drop_lapses|]. }
  specialize (Hks (entries s)). by destruct (versions_in now ks (entries s)).
Qed.

Lemma unchanged_lapses now watched s : lapses now (entries s) (entries (unchanged now watched s).1).
Proof.
  unfold unchanged. assert (forall es, lapses now es (unchanged_in now watched es).1) as Hws.
  { induction watched as [|[k v] watched IH]; intros es; cbn [unchanged_in]; [done|].
    case_match; cbn; [|auto with lapses]. by etransitivity; [apply drop_lapses|apply IH]. }
  specialize (Hws (entries s)). by destruct (unchanged_in now watched (entries s)).
Qed.

Lemma resolve_reads_lapses now reads s : lapses now (entries s) (entries (resolve_reads now reads s).1).
Proof.
  unfold resolve_reads. assert (forall es, lapses now es (resolve_reads_in now reads es).1) as Hrs.
  { induction reads as [|[k [after|]] reads IH]; intros es; cbn [resolve_reads_in]; [done| |].
    - specialize (IH es). by destruct (resolve_reads_in now reads es).
    - unfold stream_at. destruct (rbind _ _); [|cbn; auto with lapses].
      specialize (IH (drop_if_expired now es k)). destruct (resolve_reads_in now reads _). cbn in *.
      by etransitivity; [apply drop_lapses|]. }
  specialize (Hrs (entries s)). by destruct (resolve_reads_in now reads (entries s)).
Qed.

Lemma read_streams_lapses now reads es : lapses now es (read_streams now reads es).1.
Proof.
  revert es; induction reads as [|[k after] reads IH]; intros es; cbn [read_streams]; [done|].
  unfold stream_at. destruct (match drop_if_expired now es k !! k with Some _ => _ | None => _ end) as [[l|]|];
    [|by etransitivity; [apply drop_lapses|apply IH]|cbn; auto with lapses].
  specialize (IH (drop_if_expired now es k)). destruct (read_streams now reads _). cbn in *.
  by etransitivity; [apply drop_lapses|].
Qed.

Lemma xread_lapses now reads s : lapses now (entries s) (entries (xread now reads s).1).
Proof.
  unfold xread. pose proof (read_streams_lapses now reads (entries s)).
  by destruct (read_streams _ _ _).
Qed.

(** ** Questions are answered alike *)

(** Two readings of a clock, any two. *)
Definition whenever {A} : relation A := fun _ _ => True.

(** Left alike, with the same answer. *)
Definition same {A} (sure : Bytes -> bool) : relation (State * A) := prod_relation (alike sure) eq.

(** A question leaves both stores with what they have, and its answer hangs on the
    data under the key. *)
Lemma same_kept {A} sure now now' (r r' : State * A) s t :
  alike sure s t -> lapses now (entries s) (entries r.1) -> lapses now' (entries t) (entries r'.1) -> r.2 = r'.2 ->
  same sure r r'.
Proof.
  intros Hst Hs Ht Ha. split; [|exact Ha]. intros key Hk.
  by apply (abides_alike key s t); [apply Hst|eapply lapses_abides..].
Qed.

Ltac at_key key s t Hat :=
  rewrite !untimed_drop by apply Hat; both_at key s t Hat; cbn [data] in *; by subst.

#[export] Instance get_alike sure key :
  Sure sure key -> Proper (whenever ==> alike sure ==> same sure) (fun now => get now key).
Proof.
  intros Hk now now' _ s t Hst. apply (same_kept _ now now' _ _ s t); [done|apply get_lapses..|].
  pose proof (Hst key Hk) as Hat. unfold get. cbn [snd]. at_key key s t Hat.
Qed.

#[export] Instance kind_alike sure key :
  Sure sure key -> Proper (whenever ==> alike sure ==> same sure) (fun now => kind now key).
Proof.
  intros Hk now now' _ s t Hst. apply (same_kept _ now now' _ _ s t); [done|apply kind_lapses..|].
  pose proof (Hst key Hk) as Hat. unfold kind. cbn [snd]. at_key key s t Hat.
Qed.

Lemma list_at_alike now now' key s t :
  alike_at key s t -> (list_at now (entries s) key).2 = (list_at now' (entries t) key).2.
Proof. intros Hat. unfold list_at. cbn [snd]. at_key key s t Hat. Qed.

Lemma set_at_alike now now' key s t :
  alike_at key s t -> (set_at now (entries s) key).2 = (set_at now' (entries t) key).2.
Proof. intros Hat. unfold set_at. cbn [snd]. at_key key s t Hat. Qed.

#[export] Instance lrange_alike sure key i j :
  Sure sure key -> Proper (whenever ==> alike sure ==> same sure) (fun now => lrange now key i j).
Proof.
  intros Hk now now' _ s t Hst. apply (same_kept _ now now' _ _ s t); [done|apply lrange_lapses..|].
  unfold lrange. pose proof (list_at_alike now now' key s t (Hst key Hk)).
  destruct (list_at _ _ _), (list_at _ _ _). by simplify_eq/=.
Qed.

#[export] Instance llen_alike sure key :
  Sure sure key -> Proper (whenever ==> alike sure ==> same sure) (fun now => llen now key).
Proof.
  intros Hk now now' _ s t Hst. apply (same_kept _ now now' _ _ s t); [done|apply llen_lapses..|].
  unfold llen. pose proof (list_at_alike now now' key s t (Hst key Hk)).
  destruct (list_at _ _ _), (list_at _ _ _). by simplify_eq/=.
Qed.

#[export] Instance ask_alike {A} (none : A) question sure key :
  Sure sure key -> Proper (whenever ==> alike sure ==> same sure) (fun now => ask none question now key).
Proof.
  intros Hk now now' _ s t Hst. apply (same_kept _ now now' _ _ s t); [done|apply ask_lapses..|].
  unfold ask. pose proof (set_at_alike now now' key s t (Hst key Hk)).
  destruct (set_at _ _ _), (set_at _ _ _). by simplify_eq/=.
Qed.

(** Streams, of which several may be read at once. *)
Definition same_under (sure : Bytes -> bool) (es es' : Entries) : Prop :=
  forall key, sure key = true -> untimed es key /\ untimed es' key /\ data <$> es !! key = data <$> es' !! key.

Lemma same_under_drop sure now now' es es' k :
  same_under sure es es' -> same_under sure (drop_if_expired now es k) (drop_if_expired now' es' k).
Proof.
  intros H key Hk. destruct (H key Hk) as (U & U' & E). unfold untimed.
  by rewrite !(drop_abides _ _ k key).
Qed.

Lemma stream_at_alike sure now now' key es es' :
  same_under sure es es' -> sure key = true -> (stream_at now es key).2 = (stream_at now' es' key).2.
Proof.
  intros H Hk. destruct (H key Hk) as (U & U' & E). unfold stream_at. cbn [snd].
  rewrite !untimed_drop by done. destruct (es !! key) as [[d ? ?]|], (es' !! key) as [[d' ? ?]|]; cbn in *; by simplify_eq.
Qed.

#[export] Instance xrange_alike sure key i j :
  Sure sure key -> Proper (whenever ==> alike sure ==> same sure) (fun now => xrange now key i j).
Proof.
  intros Hk now now' _ s t Hst. apply (same_kept _ now now' _ _ s t); [done|apply xrange_lapses..|].
  unfold xrange. pose proof (stream_at_alike sure now now' key _ _ Hst Hk).
  destruct (stream_at _ _ _), (stream_at _ _ _). by simplify_eq/=.
Qed.

Lemma resolve_reads_in_alike sure now now' reads es es' :
  same_under sure es es' -> Forall (Sure sure) (map fst reads) ->
  (resolve_reads_in now reads es).2 = (resolve_reads_in now' reads es').2.
Proof.
  revert es es'; induction reads as [|[k [after|]] reads IH]; intros es es' H Hf; cbn [resolve_reads_in]; [done| |];
    cbn [map fst] in Hf; apply Forall_cons in Hf as [Hk Hf].
  - specialize (IH es es' H Hf). destruct (resolve_reads_in now _ _), (resolve_reads_in now' _ _). by simplify_eq/=.
  - pose proof (stream_at_alike sure now now' k es es' H Hk) as E. unfold stream_at in *. cbn [snd] in E. rewrite E.
    destruct (rbind _ _); [|done]. specialize (IH _ _ (same_under_drop _ now now' _ _ k H) Hf).
    destruct (resolve_reads_in now _ _), (resolve_reads_in now' _ _). by simplify_eq/=.
Qed.

#[export] Instance resolve_reads_alike sure reads :
  TCForall (Sure sure) (map fst reads) ->
  Proper (whenever ==> alike sure ==> same sure) (fun now => resolve_reads now reads).
Proof.
  intros Hf%TCForall_Forall now now' _ s t Hst. apply (same_kept _ now now' _ _ s t); [done|apply resolve_reads_lapses..|].
  unfold resolve_reads. pose proof (resolve_reads_in_alike sure now now' reads _ _ Hst Hf).
  destruct (resolve_reads_in now _ _), (resolve_reads_in now' _ _). by simplify_eq/=.
Qed.

Lemma read_streams_alike sure now now' reads es es' :
  same_under sure es es' -> Forall (Sure sure) (map fst reads) ->
  (read_streams now reads es).2 = (read_streams now' reads es').2.
Proof.
  revert es es'; induction reads as [|[k after] reads IH]; intros es es' H Hf; cbn [read_streams]; [done|].
  cbn [map fst] in Hf; apply Forall_cons in Hf as [Hk Hf].
  pose proof (stream_at_alike sure now now' k es es' H Hk) as E. unfold stream_at in *. cbn [snd] in E. rewrite E.
  specialize (IH _ _ (same_under_drop _ now now' _ _ k H) Hf).
  destruct (match drop_if_expired now' es' k !! k with Some _ => _ | None => _ end) as [[l|]|]; [|done|done].
  destruct (read_streams now _ _), (read_streams now' _ _). by simplify_eq/=.
Qed.

#[export] Instance xread_alike sure reads :
  TCForall (Sure sure) (map fst reads) ->
  Proper (whenever ==> alike sure ==> same sure) (fun now => xread now reads).
Proof.
  intros Hf%TCForall_Forall now now' _ s t Hst. apply (same_kept _ now now' _ _ s t); [done|apply xread_lapses..|].
  unfold xread. pose proof (read_streams_alike sure now now' reads _ _ Hst Hf).
  destruct (read_streams _ _ _), (read_streams _ _ _). by simplify_eq/=.
Qed.

(** Whoever is sure of a key finds it among the keys of both or of neither. *)
Lemma keys_alike now now' wanted key s t :
  alike_at key s t -> key ∈ (keys now wanted s).2 <-> key ∈ (keys now' wanted t).2.
Proof.
  intros (Us & Ut & E). unfold keys. cbn [snd].
  assert (Hin : forall now es, untimed es key ->
    key ∈ List.filter wanted (map fst (map_to_list (filter (fun ke => has_expired now (snd ke) = false) es)))
    <-> wanted key = true /\ is_Some (es !! key)).
  { clear. intros now es U. rewrite elem_filter, list_elem_of_fmap. split.
    - intros [([k e] & -> & Hke) Hw]. apply elem_of_map_to_list, map_lookup_filter_Some in Hke as [He _].
      by split; [|eexists].
    - intros [Hw [e He]]. split; [|done]. exists (key, e). split; [done|]. apply elem_of_map_to_list, map_lookup_filter_Some.
      split; [done|]. cbn. unfold has_expired. by rewrite (U e He). }
  rewrite (Hin now), (Hin now') by done. rewrite <- !(fmap_is_Some data), E. done.
Qed.

(** The elements handed to clients that waited for them. *)
Definition handed (events : list Event) : list Bytes :=
  omap (fun e => match e with Handed _ element => Some element | Woken _ => None end) events.

(** Nothing has gone but what was to expire, and nothing has been handed out. *)
Definition kept (env : Env) (s : State) (r : option Ran) : Prop :=
  match r with
  | Some (s', events, _) => lapses (now env) (entries s) (entries s') /\ handed events = []
  | None => True
  end.

Lemma kept_says env s v : kept env s (says s v).
Proof. by split. Qed.

Lemma kept_replies {A} env s (r : State * A) reply :
  lapses (now env) (entries s) (entries r.1) -> kept env s (replies r reply).
Proof. intros H. by split. Qed.

(** What is kept is kept of what was kept. *)
Lemma kept_after env s s' r : lapses (now env) (entries s) (entries s') -> kept env s' r -> kept env s r.
Proof. intros H. destruct r as [[[s'' ev] o]|]; [|done]. intros [H' He]. split; [by etransitivity|done]. Qed.

#[local] Hint Resolve kept_says kept_replies ask_lapses get_lapses kind_lapses keys_lapses lrange_lapses
  llen_lapses xrange_lapses xread_lapses : lapses.

Lemma wait_kept env reads deadline s : kept env s (Some (wait_for_entries env reads deadline s)).
Proof.
  unfold wait_for_entries, xread_or_watch.
  pose proof (read_streams_lapses (now env) reads (entries s)) as H.
  destruct (read_streams _ _ _) as [es [[|]|[]]]; cbn in H; try by split.
  destruct deadline; [case_match|]; by split.
Qed.

(** ** Commands that change nothing *)
Section Commands.
Context `{UnicodeTables} `{Trig}.

Ltac asked := unfold refuses; repeat (case_match; try exact I; try solve [auto with lapses]).

Lemma not_write command word :
  one_of WRITES command = false -> one_of WRITES (lit word) = true -> (command =b? lit word) = false.
Proof. intros Hc Hw. destruct (command =b? lit word) eqn:E; [|done]. apply beq_true in E. congruence. Qed.

Ltac no_write command word :=
  let E := fresh in
  assert ((command =b? lit word) = false) as E by (by apply not_write); rewrite E; clear E.

Lemma positions_kept env key places found s : kept env s (positions env key places found s).
Proof.
  revert found s; induction places as [|p ps IH]; intros found s; cbn [positions]; [by split|].
  pose proof (ask_lapses None (score_of p) (now env) key s) as E. fold (zscore (now env) key p s) in E.
  destruct (zscore _ _ _ _) as [s' [[x|]|[]]]; cbn in E; [by eapply kept_after; [exact E|apply IH]..|by split].
Qed.

Lemma geodist_kept env key from to unit s : kept env s (geodist env key from to unit s).
Proof.
  unfold geodist. destruct (match unit with Some _ => _ | None => _ end); [|by split].
  pose proof (ask_lapses None (score_of from) (now env) key s) as E.
  fold (zscore (now env) key from s) in E. destruct (zscore _ _ from _) as [s1 r1]. cbn in E.
  apply (kept_after env s s1); [done|].
  pose proof (ask_lapses None (score_of to) (now env) key s1) as E2.
  fold (zscore (now env) key to s1) in E2. destruct (zscore _ _ to _) as [s2 r2]. cbn in E2.
  apply (kept_after env s1 s2); [done|]. by destruct r1 as [[]|[]], r2 as [[]|[]]; split.
Qed.

Lemma xread_kept env arguments s : kept env s (run_xread env arguments s).
Proof.
  unfold run_xread. destruct (parse_xread env arguments) as [[w pending]|]; [|by split].
  pose proof (resolve_reads_lapses (now env) pending s) as E.
  destruct (resolve_reads _ _ _) as [s1 [reads|[]]]; cbn in E; [|by split].
  apply (kept_after env s s1); [done|]. destruct w; [auto with lapses|by apply wait_kept..].
Qed.

Lemma xrange_kept env key start stop s : kept env s (run_xrange env key start stop s).
Proof.
  unfold run_xrange. destruct (parse_bound start 0) as [i|], (parse_bound stop U64_MAX) as [j|];
    try by split.
  pose proof (xrange_lapses (now env) key i j s) as E.
  destruct (xrange _ _ _ _ _) as [s1 [r|]]; cbn in E; by split.
Qed.

(** The law: a command that is not written down changes nothing but what was to
    expire. *)
Definition keeping : Law := fun env command _ s r => one_of WRITES command = false -> kept env s r.

#[export] Instance strings_keeping : Upholds keeping strings_run.
Proof.
  intros env command args s Hw. unfold strings_run.
  no_write command "SET"%string. no_write command "INCR"%string. asked.
Qed.

#[export] Instance lists_keeping : Upholds keeping lists_run.
Proof.
  intros env command args s Hw. unfold lists_run, run_range.
  no_write command "RPUSH"%string. no_write command "LPUSH"%string.
  no_write command "LPOP"%string. no_write command "BLPOP"%string. asked.
Qed.

#[export] Instance streams_keeping : Upholds keeping streams_run.
Proof.
  intros env command args s Hw. unfold streams_run. no_write command "XADD"%string.
  asked; by (apply xread_kept || apply xrange_kept).
Qed.

#[export] Instance sorted_sets_keeping : Upholds keeping sorted_sets_run.
Proof.
  intros env command args s Hw. unfold sorted_sets_run, run_range, zrank, zscore, zcard, zrange.
  no_write command "ZADD"%string. no_write command "ZREM"%string. asked.
Qed.

#[export] Instance geo_keeping : Upholds keeping geo_run.
Proof.
  intros env command args s Hw. unfold geo_run, geosearch, zmembers. no_write command "GEOADD"%string.
  asked; by (apply positions_kept || apply geodist_kept).
Qed.

#[export] Instance keys_keeping : Upholds keeping keys_run.
Proof. intros env command args s Hw. unfold keys_run. asked. Qed.

#[export] Instance store_run_keeping : Upholds keeping store_run.
Proof. unfold store_run. apply _. Qed.

(** ** Commands that only ask *)

(** The keys a command works on. *)
Definition keys_named (env : Env) (command : Bytes) (args : list Bytes) : list Bytes :=
  if command =b? lit "XREAD" then
    match parse_xread env args with Ok (_, pending) => map fst pending | Err _ => [] end
  else match args with key :: _ => [key] | [] => [] end.

(** What a command comes to in either store: the same answer, or a wait in both. *)
Definition same_outcome (o o' : Outcome) : Prop :=
  match o, o' with
  | Replied v, Replied v' => v = v'
  | Blocks _, Blocks _ | Panics, Panics => True
  | _, _ => False
  end.

Definition ran_alike (sure : Bytes -> bool) (r r' : option Ran) : Prop :=
  match r, r' with
  | Some (s, _, o), Some (t, _, o') => alike sure s t /\ same_outcome o o'
  | None, None => True
  | _, _ => False
  end.

Section Sure.
Context (sure : Bytes -> bool).

(** The law: a command that is not written down is answered alike, if one is sure of
    the keys it names; all but [KEYS], whose answer is in the order of a table nobody
    is to rely on. *)
Definition answering : Accord := fun command args s t r r' =>
  alike sure s t -> one_of WRITES command = false -> (command =b? lit "KEYS") = false ->
  (forall env, Forall (Sure sure) (keys_named env command args)) -> ran_alike sure r r'.

Lemma says_alike s t v : alike sure s t -> ran_alike sure (says s v) (says t v).
Proof. by split. Qed.

Lemma replies_alike {A} (r r' : State * A) reply :
  same sure r r' -> ran_alike sure (replies r reply) (replies r' reply).
Proof. intros [Hst E]. split; [done|]. cbn. by f_equal. Qed.

(** A family of commands that work on the key they name first. *)
Lemma named_first (env : Env) command key args :
  (command =b? lit "XREAD") = false ->
  (forall env, Forall (Sure sure) (keys_named env command (key :: args))) -> Sure sure key.
Proof. intros Hc Hk. specialize (Hk env). unfold keys_named in Hk. rewrite Hc in Hk. by apply Forall_cons in Hk as [? _]. Qed.

Create HintDb alike.
#[local] Hint Resolve says_alike replies_alike : alike.
#[local] Hint Extern 2 (same _ _ _) =>
  first [apply (get_alike sure _ _) | apply (kind_alike sure _ _) | apply (lrange_alike sure _ _ _ _)
        | apply (llen_alike sure _ _) | apply (ask_alike _ _ sure _ _)]; done : alike.

Ltac answered := unfold refuses; repeat (case_match; try exact I; try solve [auto with alike]).

(** The key they work on is one to be sure of. *)
Ltac sure_of_first env command args :=
  let E := fresh in
  destruct (command =b? lit "XREAD") eqn:E; [apply beq_true in E; subst command; exact I|];
  destruct args as [|key args]; [|assert (Sure sure key) by (by eapply (named_first env command))].

#[export] Instance strings_answering : Agrees answering strings_run.
Proof.
  intros env env' command args s t Hst Hw Hk Hn. sure_of_first env command args; unfold strings_run.
  all: no_write command "SET"%string; no_write command "INCR"%string; answered.
Qed.

#[export] Instance keys_answering : Agrees answering keys_run.
Proof.
  intros env env' command args s t Hst Hw Hk Hn. sure_of_first env command args; unfold keys_run.
  all: rewrite Hk; answered.
Qed.

#[export] Instance lists_answering : Agrees answering lists_run.
Proof.
  intros env env' command args s t Hst Hw Hk Hn. sure_of_first env command args; unfold lists_run, run_range.
  all: no_write command "RPUSH"%string; no_write command "LPUSH"%string.
  all: no_write command "LPOP"%string; no_write command "BLPOP"%string; answered.
Qed.

#[export] Instance sorted_sets_answering : Agrees answering sorted_sets_run.
Proof.
  intros env env' command args s t Hst Hw Hk Hn.
  sure_of_first env command args; unfold sorted_sets_run, run_range, zrank, zscore, zcard, zrange.
  all: no_write command "ZADD"%string; no_write command "ZREM"%string; answered.
Qed.

(** How far is it, where is it: a score asked for. *)
Lemma score_asked now now' key member s t :
  Sure sure key -> alike sure s t ->
  exists s' t' r, zscore now key member s = (s', r) /\ zscore now' key member t = (t', r) /\ alike sure s' t'.
Proof.
  intros Hk Hst. pose proof (ask_alike None (score_of member) sure key Hk now now' I s t Hst) as [Ha E].
  unfold zscore. destruct (ask _ _ now _ _) as [s1 r], (ask _ _ now' _ _) as [t1 r']. cbn in *. subst. by exists s1, t1, r'.
Qed.

Lemma positions_alike env env' key places found s t :
  Sure sure key -> alike sure s t ->
  ran_alike sure (positions env key places found s) (positions env' key places found t).
Proof.
  intros Hk. revert found s t; induction places as [|p ps IH]; intros found s t Hst; cbn [positions];
    [by apply says_alike|].
  destruct (score_asked (now env) (now env') key p s t Hk Hst) as (s' & t' & r & -> & -> & Hst').
  destruct r as [[x|]|[]]; [by apply IH..|by apply says_alike].
Qed.

Lemma geodist_alike env env' key from to unit s t :
  Sure sure key -> alike sure s t ->
  ran_alike sure (geodist env key from to unit s) (geodist env' key from to unit t).
Proof.
  intros Hk Hst. unfold geodist. destruct (match unit with Some _ => _ | None => _ end); [|by apply says_alike].
  destruct (score_asked (now env) (now env') key from s t Hk Hst) as (s1 & t1 & r1 & -> & -> & H1').
  destruct (score_asked (now env) (now env') key to s1 t1 Hk H1') as (s2 & t2 & r2 & -> & -> & H2').
  destruct r1 as [[]|[]], r2 as [[]|[]]; by apply says_alike.
Qed.

#[export] Instance geo_answering : Agrees answering geo_run.
Proof.
  intros env env' command args s t Hst Hw Hk Hn. sure_of_first env command args; unfold geo_run, geosearch, zmembers.
  all: no_write command "GEOADD"%string; answered; by (apply positions_alike || apply geodist_alike).
Qed.

(** An [XREAD] is willing to wait the same time wherever it is sent. *)
Definition same_wait (now now' : Z) (w w' : Wait) : Prop :=
  match w, w' with
  | NotAtAll, NotAtAll | Forever, Forever => True
  | Until d, Until d' => now <= d /\ d - now = d' - now'
  | _, _ => False
  end.

Lemma parse_xread_alike env env' arguments :
  match parse_xread env arguments, parse_xread env' arguments with
  | Ok (w, pending), Ok (w', pending') => pending = pending' /\ same_wait (now env) (now env') w w'
  | Err e, Err e' => e = e'
  | _, _ => False
  end.
Proof.
  unfold parse_xread.
  destruct arguments as [|block [|ms rest]]; [done| |destruct (eq_ignore_ascii_case block _)];
    [| destruct (match text ms with Some _ => _ | None => _ end) as [n|] eqn:En; [|done]|].
  - cbn [rbind fst snd]. by destruct (eq_ignore_ascii_case block _).
  - assert (0 <= n) as Hn.
    { destruct (text ms) as [x|]; [|done]. destruct (parse_u64 x) eqn:E; [|done]. injection En as <-.
      apply parse_int_range in E; [lia|done]. }
    destruct n as [|n|]; [| |lia]; cbn [rbind fst snd].
    all: destruct rest as [|w rest]; [done|]; destruct (eq_ignore_ascii_case w _); [|done]; cbn [rbind].
    all: destruct (_ || _); [done|]; destruct (collect_results _ _); cbn; [split; [done|lia || done]|done].
  - cbn [rbind fst snd]. destruct (eq_ignore_ascii_case block _); [|done]. cbn [rbind]. destruct (_ || _); [done|].
    by destruct (collect_results _ _).
Qed.

Lemma wait_alike env env' reads d d' s t :
  Forall (Sure sure) (map fst reads) -> alike sure s t ->
  match d, d' with
  | Some d, Some d' => now env <= d /\ d - now env = d' - now env'
  | None, None => True
  | _, _ => False
  end ->
  ran_alike sure (Some (wait_for_entries env reads d s)) (Some (wait_for_entries env' reads d' t)).
Proof.
  intros Hr Hst Hd. unfold wait_for_entries, xread_or_watch.
  pose proof (read_streams_lapses (now env) reads (entries s)) as Es.
  pose proof (read_streams_lapses (now env') reads (entries t)) as Et.
  pose proof (read_streams_alike sure (now env) (now env') reads (entries s) (entries t) Hst Hr) as E.
  destruct (read_streams (now env) _ _) as [es r], (read_streams (now env') _ _) as [es' r']. cbn in Es, Et, E. subst r'.
  assert (forall s' t', entries s' = es -> entries t' = es' -> alike sure s' t') as Ha.
  { intros s' t' <- <- key Hk. by apply (abides_alike key s t); [apply Hst|eapply lapses_abides..]. }
  destruct r as [[|x l]|[]]; [|by split; [apply Ha|]..].
  destruct d as [d|], d' as [d'|]; try done; [|by split; [apply Ha|]].
  destruct (Z.ltb_spec d (now env)), (Z.ltb_spec d' (now env')); try lia. by split; [apply Ha|].
Qed.

Lemma resolved_keys now pending s s' reads :
  resolve_reads now pending s = (s', Ok reads) -> map fst reads = map fst pending.
Proof.
  unfold resolve_reads. destruct (resolve_reads_in now pending (entries s)) as [es r] eqn:E. intros [= _ ->].
  revert reads es E. generalize (entries s). induction pending as [|[k [after|]] pending IH]; intros es0 reads es;
    cbn [resolve_reads_in]; [by intros [= _ <-]| |].
  - destruct (resolve_reads_in now pending es0) as [es1 r] eqn:E. intros [= _ Hr].
    destruct r as [rest|]; [|done]. injection Hr as <-. cbn. f_equal. by eapply IH.
  - destruct (stream_at now es0 k) as [es1 r1]. destruct (rbind _ _); [|done].
    destruct (resolve_reads_in now pending es1) as [es2 r2] eqn:E. intros [= _ Hr].
    destruct r2 as [rest|]; [|done]. injection Hr as <-. cbn. f_equal. by eapply IH.
Qed.

Lemma xread_run_alike env env' arguments s t :
  (forall env, Forall (Sure sure) (keys_named env (lit "XREAD") arguments)) -> alike sure s t ->
  ran_alike sure (run_xread env arguments s) (run_xread env' arguments t).
Proof.
  intros Hn Hst. specialize (Hn env). unfold keys_named in Hn. change (lit "XREAD" =b? lit "XREAD") with true in Hn.
  unfold run_xread. pose proof (parse_xread_alike env env' arguments) as Hp.
  destruct (parse_xread env arguments) as [[w pending]|], (parse_xread env' arguments) as [[w' pending']|];
    [|done|done|subst; by apply says_alike].
  destruct Hp as [-> Hw].
  destruct (resolve_reads_alike sure pending' (proj2 (TCForall_Forall _ _) Hn) (now env) (now env') I s t Hst) as [Hst' E].
  destruct (resolve_reads (now env) _ _) as [s1 r] eqn:Er, (resolve_reads (now env') _ _) as [t1 r'].
  cbn in Hst', E. subst r'. destruct r as [reads|[]]; [|by apply says_alike].
  apply resolved_keys in Er. rewrite <- Er in Hn.
  destruct w, w'; try done; [|by apply wait_alike..].
  apply replies_alike, (xread_alike sure reads); [by apply TCForall_Forall|done..].
Qed.

Lemma xrange_run_alike env env' key start stop s t :
  Sure sure key -> alike sure s t ->
  ran_alike sure (run_xrange env key start stop s) (run_xrange env' key start stop t).
Proof.
  intros Hk Hst. unfold run_xrange. destruct (parse_bound start 0) as [i|], (parse_bound stop U64_MAX) as [j|];
    try by apply says_alike.
  destruct (xrange_alike sure key i j Hk (now env) (now env') I s t Hst) as [Hst' E].
  destruct (xrange (now env) _ _ _ _) as [s1 r], (xrange (now env') _ _ _ _) as [t1 r'].
  cbn in Hst', E. subst r'. destruct r; by split.
Qed.

#[export] Instance streams_answering : Agrees answering streams_run.
Proof.
  intros env env' command args s t Hst Hw Hk Hn. unfold streams_run. no_write command "XADD"%string.
  destruct (command =b? lit "XREAD") eqn:Ex.
  - apply beq_true in Ex as ->. change (lit "XREAD" =b? lit "XRANGE") with false. cbv iota.
    by apply xread_run_alike.
  - destruct args as [|key args]; [|assert (Sure sure key) by (by eapply (named_first env command))];
      answered; by apply xrange_run_alike.
Qed.

(** A question is answered in a store as it is in any other that holds the same. *)
#[export] Instance store_run_answering : Agrees answering store_run.
Proof. unfold store_run. apply _. Qed.

End Sure.
End Commands.

(** ** Asked of two servers *)

(** The words that ask for what the store holds; but for [KEYS], whose answer is in
    no order ([keys_alike]). *)
Definition QUESTIONS : list string :=
  ["GET"; "TYPE"; "LLEN"; "LRANGE"; "XRANGE"; "XREAD"; "ZRANK"; "ZSCORE"; "ZCARD"; "ZRANGE";
   "GEOPOS"; "GEODIST"; "GEOSEARCH"]%string.

(** A client that has been let in, listens to nothing and queues nothing. *)
Record at_leisure (cl : Client) : Prop := {
  leisure_in : authenticated (identity cl) = true;
  leisure_ears : listening (subscriptions cl) = false;
  leisure_hands : queued (transaction cl) = None;
}.

Definition same_progress (p p' : Progress) : Prop :=
  match p, p' with
  | Answers a, Answers a' => a = a'
  | WaitsOn _ _ None, WaitsOn _ _ None | Crashes, Crashes => True
  | _, _ => False
  end.

(** Whatever is asked of one about the keys to be sure of, by whoever, whenever, the
    other answers the same. *)
Definition answer_alike `{UnicodeTables} `{Trig} `{PasswordHash} (sure : Bytes -> bool) (w u : World) : Prop :=
  forall request c moments moments' cl cl',
  parse_command request = Ok c -> one_of QUESTIONS (uppercased c) = true ->
  Forall (Sure sure) (keys_named (env (moments O)) (uppercased c) (args c)) ->
  at_leisure cl -> at_leisure cl' ->
  same_progress (run moments request cl w).2 (run moments' request cl' u).2.

Lemma question_apart command :
  one_of QUESTIONS command = true ->
  one_of WRITES command = false /\ (command =b? lit "KEYS") = false /\ steers_a_transaction command = false
  /\ (command =b? lit "PSYNC") = false
  /\ (forall arguments t, transactions_run command arguments t = None)
  /\ (forall alive arguments st, pubsub_run alive command arguments st = None).
Proof.
  unfold one_of, QUESTIONS. cbn [existsb]. rewrite !orb_true_iff, !beq_true.
  intros Hq. repeat destruct Hq as [->|Hq]; try done; (split_and!; [done..|by intros ? ? []]).
Qed.

Section Asking.
Context `{UnicodeTables} `{Trig} `{PasswordHash}.

Lemma question_not_written c reply : one_of WRITES (uppercased c) = false -> written_down c reply = None.
Proof.
  intros Hw. destruct (written_down c reply) eqn:E; [|done]. apply written_down_writes in E. congruence.
Qed.

(** What a question comes to is what the store makes of it. *)
Lemma question_run moments request c cl w :
  parse_command request = Ok c -> one_of QUESTIONS (uppercased c) = true -> at_leisure cl ->
  (run moments request cl w).2
  = match store_run (env (moments O)) (uppercased c) (args c) (store w) with
    | Some (_, _, Replied v) => Answers (Reply v)
    | Some (_, _, Blocks p) => WaitsOn p c None
    | Some (_, _, Panics) => Crashes
    | None => (run moments request cl w).2
    end.
Proof.
  intros Hp Hq [Hin Hears Hhands]. destruct (question_apart _ Hq) as (Hw & _ & Hs & Hsync & Ht & Hpub).
  unfold run, dispatch, run_against, answer_to.
  rewrite Hp, Hin, Hears, Hs, Hhands, Ht, Hpub, Hsync. cbn [negb andb].
  assert (steer (now (env (moments O))) c (transaction cl) (store w) = None) as ->.
  { apply eq_None_not_Some. rewrite steer_claims. congruence. }
  destruct (store_run _ _ _ _) as [[[s ev] [v| |]]|]; [|done..].
  unfold finish. rewrite question_not_written by done. by destruct (is_error v).
Qed.

Lemma keys_named_whenever env env' command arguments :
  keys_named env command arguments = keys_named env' command arguments.
Proof.
  unfold keys_named. destruct (command =b? lit "XREAD"); [|done]. pose proof (parse_xread_alike env env' arguments).
  destruct (parse_xread env arguments) as [[w p]|], (parse_xread env' arguments) as [[w' p']|]; try done.
  naive_solver.
Qed.

Lemma alike_answer sure w u : alike sure (store w) (store u) -> answer_alike sure w u.
Proof.
  intros Hst request c moments moments' cl cl' Hp Hq Hn Hcl Hcl'.
  assert (Hn' : forall env, Forall (Sure sure) (keys_named env (uppercased c) (args c)))
    by (intros e; by rewrite (keys_named_whenever e (env (moments O)))).
  rewrite (question_run _ _ c) by done. rewrite (question_run moments' _ c) by done.
  destruct (question_apart _ Hq) as (Hw & Hk & _).
  pose proof (agrees (accord := answering sure) (env (moments O)) (env (moments' O)) (uppercased c) (args c)
    _ _ Hst Hw Hk Hn') as Ha.
  destruct (store_run _ _ _ (store w)) as [[[s ev] o]|] eqn:E.
  - destruct (store_run _ _ _ (store u)) as [[[t ev'] o']|]; [|done]. destruct Ha as [_ Ho].
    destruct o, o'; cbn in *; by subst.
  - apply store_run_claims in E. exfalso. revert E Hq. generalize (uppercased c) as word. clear.
    intros word. unfold one_of at 2, QUESTIONS. cbn [existsb]. rewrite !orb_true_iff, !beq_true.
    intros E Hq. repeat destruct Hq as [->|Hq]; try done; discriminate E.
Qed.

End Asking.
