(* ===== verification/Twins.v ===== *)
(** * The same command in two stores that hold the same

    A command that is written down works on one key, and changes nothing else.  Run
    in two stores that hold the same under that key, whatever else they hold and
    whatever their clocks say, it answers the same and leaves the same under the key
    ([twins], [store_run_twins]), if it means the same whenever it is run
    ([timeless]: no [SET] with a deadline, no [XADD] that leaves its timestamp to the
    clock).  Pushes, which serve the clients that wait, are for [Owing]. *)
From S2P Require Import Prelude Text Resp F64 Store StoreStrings StoreLists StoreStreams.
From S2P Require Import StoreSortedSets StoreSteps Command StoreCommands Geo Families StoreSafety Replies Alike.
Open Scope Z_scope.

(** A command that means the same whenever it is run. *)
Definition timeless `{UnicodeTables} (c : Command) : bool :=
  if uppercased c =b? lit "SET" then
    match args c with _ :: _ :: _ :: _ => false | _ => true end
  else if uppercased c =b? lit "XADD" then
    match args c with
    | _ :: id :: _ =>
        match (match text id with Some t => ok (parse_requested_id t) | None => None end) with
        | Some Auto => false
        | _ => true
        end
    | _ => true
    end
  else true.


(** ** One key written to, in two stores *)

(** Only what is under the key has changed. *)
Definition framed (key : Bytes) (s s' : State) : Prop :=
  forall k, k <> key -> entries s' !! k = entries s !! k.

(** [s] and [t] have become [s'] and [t'], the same under [key] and otherwise what
    they were. *)
Definition written (key : Bytes) (s t s' t' : State) : Prop :=
  alike_at key s' t' /\ framed key s s' /\ framed key t t'.

Lemma framed_insert key e s s' : entries s' = <[key := e]> (entries s) -> framed key s s'.
Proof. intros Hs k Hk. rewrite Hs. by apply lookup_insert_ne. Qed.

Lemma framed_delete key s s' : entries s' = delete key (entries s) -> framed key s s'.
Proof. intros Hs k Hk. rewrite Hs. by apply lookup_delete_ne. Qed.

Lemma framed_same key s s' : entries s' = entries s -> framed key s s'.
Proof. by intros Hs k _; rewrite Hs. Qed.

Lemma written_insert key s t s' t' e e' :
  data e = data e' -> expires_at e = None -> expires_at e' = None ->
  entries s' = <[key := e]> (entries s) -> entries t' = <[key := e']> (entries t) ->
  written key s t s' t'.
Proof.
  intros Hd He He' Hs Ht. split_and!; [|by eapply framed_insert..].
  split_and!; [intros e0; rewrite Hs, lookup_insert_eq; by intros [= <-]
    |intros e0; rewrite Ht, lookup_insert_eq; by intros [= <-]|].
  rewrite Hs, Ht, !lookup_insert_eq. cbn. by rewrite Hd.
Qed.

Lemma written_delete key s t s' t' :
  entries s' = delete key (entries s) -> entries t' = delete key (entries t) -> written key s t s' t'.
Proof.
  intros Hs Ht. split_and!; [|by apply framed_delete..].
  split_and!; [intros e0; by rewrite Hs, lookup_delete_eq|intros e0; by rewrite Ht, lookup_delete_eq|].
  by rewrite Hs, Ht, !lookup_delete_eq.
Qed.

Lemma written_same key s t s' t' :
  alike_at key s t -> entries s' = entries s -> entries t' = entries t -> written key s t s' t'.
Proof.
  intros Hst Hs Ht. split_and!; [|by apply framed_same..]. unfold alike_at. by rewrite Hs, Ht.
Qed.

Definition failed {A E} (r : result A E) : bool := match r with Ok _ => false | Err _ => true end.

(** An operation run in both: it has changed nothing if it failed, and whoever waits
    on a list goes on waiting. *)
Record twins {A E} (key : Bytes) (s t : State) (r r' : State * result A E) : Prop := {
  twins_written : written key s t r.1 r'.1;
  twins_answer : r.2 = r'.2;
  twins_failed : failed r.2 = true -> data <$> entries r.1 !! key = data <$> entries s !! key;
  twins_waiters : waiters r'.1 = waiters t;
}.

(** An entry written under the key in both stores, or taken out of both, or written
    as it was. *)
Ltac alike_written s t := eapply (written_insert _ s t); [| | |reflexivity..]; done.
Ltac written_off s t := by apply (written_delete _ s t).
Ltac as_it_was := intros _; cbn; rewrite ?lookup_insert_eq; by simplify_map_eq.

Lemma increment_twins now now' key s t :
  alike_at key s t -> twins key s t (increment now key s) (increment now' key t).
Proof.
  intros Hst. unfold increment, next_version.
  rewrite !untimed_drop by apply Hst. cbn [with_entries entries waiters watchers changes].
  both_at key s t Hst; cbn [from_option Datatypes.id data new_entry] in *; subst.
  - destruct d' as [value| | |]; cbn [data with_data];
      [destruct (as_number value) as [n|]; [destruct (checked_succ_i64 n)|]|..].
    all: rewrite ?insert_insert_eq; split; cbn; try done; try alike_written s t; as_it_was.
  - change (as_number (lit "0")) with (Some 0). cbv beta iota.
    change (checked_succ_i64 0) with (Some 1). cbv beta iota. rewrite !insert_insert_eq. split; cbn; try done; alike_written s t.
Qed.

Lemma lpop_twins now now' key n s t :
  alike_at key s t -> twins key s t (lpop now key n s) (lpop now' key n t).
Proof.
  intros Hst. unfold lpop, next_version.
  rewrite !untimed_drop by apply Hst. cbn [with_entries entries waiters watchers changes].
  both_at key s t Hst; cbn [data] in *; subst.
  - destruct d' as [|l| |]; try (split; cbn; try done; by apply written_same).
    destruct (bool_decide (drop _ _ = [])), (bool_decide (take _ _ = [])); split; cbn; try done;
      try alike_written s t; rewrite !delete_insert_eq; written_off s t.
  - split; cbn; try done; by apply written_same.
Qed.

Lemma resolve_clock clock clock' requested top :
  requested <> Auto -> resolve clock requested top = resolve clock' requested top.
Proof. by destruct requested. Qed.

Lemma resolve_first clock requested : exists id, resolve clock requested None = Ok id.
Proof. destruct requested; by eexists. Qed.

Lemma xadd_twins clock clock' now now' key requested fs s t :
  alike_at key s t -> requested <> Auto ->
  twins key s t ((xadd clock now key requested fs s).1.1, (xadd clock now key requested fs s).2)
          ((xadd clock' now' key requested fs t).1.1, (xadd clock' now' key requested fs t).2).
Proof.
  intros Hst Hr. unfold xadd, next_version, wake_watchers.
  destruct (match requested with Explicit _ => _ | _ => _ end);
    [by split; [apply written_same|..]|].
  rewrite !untimed_drop by apply Hst. cbn [with_entries entries waiters watchers changes].
  both_at key s t Hst; cbn [from_option Datatypes.id data new_entry] in *; subst.
  - destruct d' as [| |l|];
      try (split; cbn; [alike_written s t|done|as_it_was|done]).
    rewrite (resolve_clock clock clock') by done.
    destruct (resolve clock' requested _) as [id|]; [destruct (match _ with Some _ => _ | None => _ end)|].
    all: rewrite ?insert_insert_eq; split; cbn; try done; try alike_written s t; as_it_was.
  - rewrite (resolve_clock clock clock') by done. cbn [last fmap option_fmap option_map].
    destruct (resolve_first clock' requested) as [id ->]. rewrite !insert_insert_eq.
    split; cbn; try done; alike_written s t.
Qed.

Lemma zadd_twins now now' key members s t :
  alike_at key s t -> twins key s t (zadd now key members s) (zadd now' key members t).
Proof.
  intros Hst. unfold zadd, next_version.
  rewrite !untimed_drop by apply Hst. cbn [with_entries entries waiters watchers changes].
  both_at key s t Hst; cbn [from_option Datatypes.id data new_entry] in *; subst.
  - destruct d' as [| | |set]; [| | |destruct (add_all members set 0)];
      split; cbn; try done; try alike_written s t; as_it_was.
  - destruct (add_all members [] 0). split; cbn; try done; alike_written s t.
Qed.

Lemma zrem_twins now now' key names s t :
  alike_at key s t -> twins key s t (zrem now key names s) (zrem now' key names t).
Proof.
  intros Hst. unfold zrem, next_version.
  rewrite !untimed_drop by apply Hst. cbn [with_entries entries waiters watchers changes].
  both_at key s t Hst; cbn [data] in *; subst.
  - destruct d' as [| | |set]; try (split; cbn; try done; by apply written_same).
    destruct (take_all names set 0) as [set' removed].
    destruct (bool_decide (set' = [])), (0 <? removed); split; cbn; try done;
      try alike_written s t; rewrite !delete_insert_eq; written_off s t.
  - split; cbn; try done; by apply written_same.
Qed.


(** ** Commands that are written down *)
Section Commands.
Context `{UnicodeTables} `{Trig}.

(** A command run in both, handing nothing out. *)
Definition ran_twins (key : Bytes) (s t : State) (r r' : option Ran) : Prop :=
  match r, r' with
  | Some (s1, ev, Replied v), Some (t1, _, Replied v') =>
      written key s t s1 t1 /\ v = v' /\ (is_error v = true -> data <$> entries s1 !! key = data <$> entries s !! key)
      /\ waiters t1 = waiters t /\ handed ev = []
  | _, _ => False
  end.

Lemma ran_says key s t v : alike_at key s t -> ran_twins key s t (says s v) (says t v).
Proof. intros Hst. split; [by apply written_same|by split_and!]. Qed.

Lemma ran_of {A E} key s t (r r' : State * result A E) (reply : result A E -> Value) ev ev' :
  twins key s t r r' -> (forall a, is_error (reply (Ok a)) = false) -> handed ev = [] ->
  ran_twins key s t (Some (r.1, ev, Replied (reply r.2))) (Some (r'.1, ev', Replied (reply r'.2))).
Proof.
  intros [Ha Hv Hf Hw] Hr He. split; [done|]. split_and!; [by rewrite Hv| |done|done].
  destruct r as [s1 [a|e]]; cbn in *; [by rewrite Hr|auto].
Qed.

Lemma ran_replies {A E} key s t (r r' : State * result A E) reply :
  twins key s t r r' -> (forall a, is_error (reply (Ok a)) = false) ->
  ran_twins key s t (replies r reply) (replies r' reply).
Proof. intros Ht Hr. by apply ran_of. Qed.

Lemma ran_first key s t r r' q q' :
  ran_twins key s t r r' ->
  ran_twins key s t match r with Some a => Some a | None => q end
                    match r' with Some a => Some a | None => q' end.
Proof. by destruct r as [[[? ?] []]|], r' as [[[? ?] []]|]. Qed.

Lemma or_null_fine o : is_error (or_null o) = false.
Proof. by destruct o. Qed.

Create HintDb twins.
#[local] Hint Resolve ran_says or_null_fine increment_twins lpop_twins zadd_twins zrem_twins : twins.

Ltac twinned := repeat (case_match; try solve [auto with twins]);
  try (apply ran_replies; [auto with twins|intros; cbn; auto with twins]).

Lemma run_lpop_twins env env' key n s t :
  alike_at key s t -> ran_twins key s t (run_lpop env key n s) (run_lpop env' key n t).
Proof.
  intros Hst. unfold run_lpop. destruct n as [n|]; [|twinned].
  destruct (number_i64 n); [|by apply ran_says]. case_match; [by apply ran_says|twinned].
Qed.

Lemma run_xadd_twins env env' key id fs s t :
  alike_at key s t ->
  match (match text id with Some t => ok (parse_requested_id t) | None => None end) with
  | Some Auto => false
  | _ => true
  end = true ->
  ran_twins key s t (run_xadd env key id fs s) (run_xadd env' key id fs t).
Proof.
  intros Hst. unfold run_xadd. destruct (match text id with Some _ => _ | None => _ end) as [r|];
    [|intros _; by apply ran_says].
  intros Hr. assert (r <> Auto) as Hr' by (by destruct r).
  pose proof (xadd_twins (clock env) (clock env') (now env) (now env') key r (pairs_of fs) s t Hst Hr') as Ht.
  destruct (xadd (clock env) _ _ _ _ _) as [[s1 w] v], (xadd (clock env') _ _ _ _ _) as [[t1 w'] v'].
  destruct Ht as [Ha Hv Hf Hw]; cbn in *; subst v'. split; [done|]. split_and!; [done| |done|].
  - intros He. apply Hf. by destruct v.
  - induction w; [done|]. done.
Qed.

Lemma run_set_twins env env' key value s t :
  alike_at key s t -> ran_twins key s t (run_set env key value [] s) (run_set env' key value [] t).
Proof.
  intros Hst. unfold run_set, StoreStrings.set, next_version. cbn [parse_expiry mbind_may].
  split; [alike_written s t|by split_and!].
Qed.

(** The commands that are told as they came in and serve nobody. *)
Definition ALONE : list string := ["SET"; "INCR"; "LPOP"; "XADD"; "ZADD"; "ZREM"; "GEOADD"]%string.

(** Such a command does the same in two stores that hold the same under its key. *)
Lemma store_run_twins env env' c key rest s t :
  args c = key :: rest -> alike_at key s t -> timeless c = true -> one_of ALONE (uppercased c) = true ->
  ran_twins key s t (store_run env (uppercased c) (args c) s) (store_run env' (uppercased c) (args c) t).
Proof.
  intros Ea Hst Ht. unfold timeless in Ht. rewrite Ea in *.
  unfold one_of, ALONE. cbn [existsb]. rewrite !orb_true_iff, !beq_true.
  intros [E|[E|[E|[E|[E|[E|[E|?]]]]]]]; [..|done]; rewrite E in *; revert Ht; told_apart; intros Ht;
    unfold store_run, or_else, strings_run, lists_run, streams_run, sorted_sets_run, geo_run, run_zadd, geoadd, refuses;
    told_apart.
  - destruct rest as [|value [|]]; [by apply ran_says|by apply ran_first, run_set_twins|done].
  - destruct rest; [|by apply ran_says]. apply ran_replies; auto with twins.
  - destruct rest as [|n [|]]; [by apply ran_first, run_lpop_twins..|by apply ran_says].
  - destruct rest as [|id fs]; [by apply ran_says|].
    destruct (negb _ && _); [by apply ran_first, run_xadd_twins|by apply ran_says].
  - destruct rest; [by apply ran_says|]. apply ran_first. twinned.
  - destruct rest; [by apply ran_says|]. apply ran_first. twinned.
  - destruct (PER_LOCATION <=? length rest)%nat; [apply ran_first|by apply ran_says]. twinned.
Qed.

(** Sent with nothing to work on, it is refused. *)
Lemma store_run_bare env command s :
  one_of WRITES command = true ->
  exists v, store_run env command [] s = Some (s, [], Replied v) /\ is_error v = true.
Proof.
  unfold one_of, WRITES. cbn [existsb]. rewrite !orb_true_iff, !beq_true.
  intros [->|[->|[->|[->|[->|[->|[->|[->|[->|[->|?]]]]]]]]]]; [..|done]; by eexists.
Qed.

(** ** A [BLPOP], told as an [LPOP] *)

(** One that finds an element does what the [LPOP] it is told as does; one that
    comes to anything else has changed nothing but what was to expire. *)
Lemma blpop_twins env arguments s s1 ev out :
  store_run env (lit "BLPOP") arguments s = Some (s1, ev, out) ->
  handed ev = [] /\
  match out with
  | Replied (Array l) =>
      exists key timeout, arguments = [key; timeout] /\ framed key s s1 /\
      forall env' t, alike_at key s t ->
      exists t1 ev' x, store_run env' (lit "LPOP") [key] t = Some (t1, ev', Replied x)
      /\ is_error x = false /\ written key s t s1 t1 /\ waiters t1 = waiters t
  | _ => abides (entries s) (entries s1)
  end.
Proof.
  change (store_run env (lit "BLPOP") arguments s) with
    (match (match arguments with [key; timeout] => run_blpop env key timeout s | _ => refuses s "blpop" end)
     with Some r => Some r | None => keys_run env (lit "BLPOP") arguments s end).
  assert (Hsay : forall v, is_error v = true -> Some (s, [], Replied v) = Some (s1, ev, out) ->
    handed ev = [] /\ match out with Replied (Array l) => False | _ => abides (entries s) (entries s1) end)
    by (intros v He [= <- <- <-]; by destruct v).
  destruct arguments as [|key [|timeout [|]]];
    try (intros E; by destruct (Hsay (wrong_arity "blpop") eq_refl E) as [? ?]; destruct out as [[]| |]).
  unfold run_blpop. destruct (parse_timeout timeout) as [d|e] eqn:Ep.
  2: { intros E. destruct (Hsay e ltac:(by eapply parse_timeout_refuses) E). by destruct out as [[]| |]. }
  unfold blpop. cbn [with_entries entries]. pose proof (drop_abides (now env) (entries s) key) as Hdrop.
  pose proof (untimed_drop (now env) (entries s) key) as Hsame.
  assert (Hne : forall k, k <> key -> drop_if_expired (now env) (entries s) key !! k = entries s !! k)
    by (intros; by apply drop_if_expired_ne).
  set (es := drop_if_expired (now env) (entries s) key) in *.
  destruct (es !! key) as [[[|l| |] x v0]|] eqn:Es; try (by intros [= <- <- <-]).
  unfold pop_first, next_version. cbn [entries with_entries]. rewrite Es. cbn [data].
  destruct l as [|y l]; [by intros [= <- <- <-]|].
  intros [= <- <- <-]. split; [done|]. exists key, timeout. split; [done|]. split.
  { intros k Hk. cbn. rewrite <- (Hne k Hk). destruct (bool_decide (l = []));
      [by rewrite lookup_delete_ne, lookup_insert_ne|by rewrite lookup_insert_ne]. }
  intros env' t Hst. specialize (Hsame (proj1 Hst)). rewrite Hsame in *. clear es Hsame Hdrop Hne.
  pose proof (proj2 (proj2 Hst)) as Ek. rewrite Es in Ek.
  destruct (entries t !! key) as [[d' x' v']|] eqn:Et; cbn in Ek; [|done]. injection Ek as <-.
  pose proof (proj1 Hst _ Es) as Hx. pose proof (proj1 (proj2 Hst) _ Et) as Hx'.
  eexists _, _, _. split.
  { change (store_run env' (lit "LPOP") [key] t) with
      (replies (lpop (now env') key 1 t) (typed (fun l => or_null (head l)))).
    unfold replies, lpop, next_version. rewrite untimed_drop by apply Hst. cbn [with_entries entries].
    rewrite Et. cbn [data]. rewrite len_cons, Z.min_l by (pose proof (len_nonneg l); lia). reflexivity. }
  change (Z.to_nat 1) with 1%nat. cbn [take drop]. rewrite take_0, drop_0.
  split; [done|]. rewrite (bool_decide_false ([y] = [])) by done. cbn [fst]. split; [|done].
  destruct (bool_decide (l = [])); [rewrite !delete_insert_eq; written_off s t|].
  alike_written s t.
Qed.

(** ** Confined to their key *)

(** Whatever a command that writes comes to, it changes nothing but under its key, and
    gives nobody a place in a queue. *)
Definition confined (key : Bytes) (s s' : State) : Prop :=
  framed key s s' /\ (waiters s = ∅ -> waiters s' = ∅).

Ltac confine := split; [intros k Hk; cbn; rewrite ?lookup_delete_ne, ?lookup_insert_ne by done;
                        (reflexivity || by apply drop_if_expired_ne)|done].

Lemma increment_confined now key s : confined key s (increment now key s).1.
Proof. unfold increment, next_version. cbn [with_entries entries]. repeat case_match; confine. Qed.

Lemma lpop_confined now key n s : confined key s (lpop now key n s).1.
Proof. unfold lpop, next_version. cbn [with_entries entries]. repeat case_match; confine. Qed.

Lemma zadd_confined now key members s : confined key s (zadd now key members s).1.
Proof. unfold zadd, next_version. cbn [with_entries entries]. repeat case_match; confine. Qed.

Lemma zrem_confined now key names s : confined key s (zrem now key names s).1.
Proof. unfold zrem, next_version. cbn [with_entries entries]. repeat case_match; confine. Qed.

Lemma xadd_confined clock now key requested fs s : confined key s (xadd clock now key requested fs s).1.1.
Proof.
  unfold xadd, next_version, wake_watchers. cbn [with_entries entries]. repeat case_match; confine.
Qed.

Lemma serve_queue_framed open queue key v es k :
  k <> key -> (serve_queue open queue es key v).1.1 !! k = es !! k.
Proof.
  intros Hk. revert es; induction queue as [|w queue IH]; intros es; cbn [serve_queue]; [done|].
  assert (Hpop : (pop_first es key v).1 !! k = es !! k).
  { unfold pop_first. repeat case_match; cbn; rewrite ?lookup_delete_ne, ?lookup_insert_ne by done; done. }
  destruct (pop_first es key v) as [es1 [element|]]; cbn in Hpop; [|done]. destruct (open w).
  - specialize (IH es1). destruct (serve_queue open queue es1 key v) as [[es2 q] given]. cbn in *. congruence.
  - rewrite IH. unfold push_first. repeat case_match; by rewrite lookup_insert_ne.
Qed.

Lemma push_confined open now key elements side s : confined key s (push open now key elements side s).1.1.
Proof.
  unfold push, next_version, wake_waiters. cbn [with_entries entries waiters].
  destruct (data _) as [|l| |]; try confine. destruct (waiters s !! key) as [queue|] eqn:Eq; [|confine].
  split; [|intros Hw; by rewrite Hw, lookup_empty in Eq]. intros k Hk.
  match goal with |- context [serve_queue ?o ?q ?es ?key ?v] =>
    pose proof (serve_queue_framed o q key v es k Hk) as E; destruct (serve_queue o q es key v) as [[es' q'] given] end.
  cbn in *. rewrite E, lookup_insert_ne by done. by apply drop_if_expired_ne.
Qed.

(** The law: so it is with every command that is written down as it came in. *)
Definition confining : Law := fun env command args s r =>
  one_of WRITES command = true -> (command =b? lit "BLPOP") = false ->
  match r, args with
  | Some (s', _, out), key :: _ =>
      confined key s s'
      /\ (out = Panics /\ deadline_overflows env command args \/ exists v, out = Replied v)
  | _, _ => True
  end.

Lemma confining_says env command args s v : confining env command args s (says s v).
Proof. intros _ _. destruct args; [done|]. split; [by split|by right; eexists]. Qed.

Lemma confining_replies {A} env command key rest s (r : State * A) reply :
  confined key s r.1 -> confining env command (key :: rest) s (replies r reply).
Proof. intros Hc _ _. split; [done|by right; eexists]. Qed.

(** What is not written down does not come into it. *)
Lemma confining_not_written env command args s r :
  one_of WRITES command = false -> confining env command args s r.
Proof. intros E Hw. congruence. Qed.

Create HintDb confined.
#[local] Hint Resolve confining_says confining_replies increment_confined lpop_confined zadd_confined
  zrem_confined : confined.

(** Command by command: one that is not written down, or one that is. *)
Ltac confining_one := first
  [apply confining_not_written; done
  |unfold refuses; repeat (case_match; try solve [auto with confined])].

#[export] Instance strings_confining : Upholds confining strings_run.
Proof.
  intros env command args s. unfold strings_run.
  destruct (command =b? lit "PING"); [by apply confining_says|].
  destruct (command =b? lit "ECHO"); [confining_one|].
  destruct (command =b? lit "SET") eqn:Es.
  { apply beq_true in Es as ->. destruct args as [|key [|value options]]; [apply confining_says..|].
    unfold run_set. destruct (parse_expiry options) as [[delay|]|] eqn:Ep; [| |apply confining_says].
    - unfold StoreStrings.set, instant_add, next_version. destruct (Z.leb_spec (now env + delay) INSTANT_MAX) as [Hl|Hl].
      + cbn. intros _ _. split; [confine|by right; eexists].
      + cbn. intros _ _. split; [confine|left]. split; [done|]. split; [done|].
        exists key, value, options, delay. split_and!; [done..|lia].
    - cbn. intros _ _. split; [confine|by right; eexists]. }
  destruct (command =b? lit "GET") eqn:Eg; [apply beq_true in Eg as ->; by apply confining_not_written|].
  destruct (command =b? lit "INCR"); [confining_one|done].
Qed.

Lemma confining_push env command key elements side s :
  confining env command (key :: elements) s (run_push env key elements side s).
Proof.
  intros _ _. unfold run_push. pose proof (push_confined (open env) (now env) key elements side s) as Hp.
  destruct (push _ _ _ _ _ _) as [[s1 given] r]. split; [done|by right; eexists].
Qed.

#[local] Hint Resolve confining_push : confined.

(** A word that is not written down. *)
Ltac asks command word :=
  let E := fresh in
  destruct (command =b? lit word) eqn:E;
  [apply beq_true in E as ->; by apply confining_not_written|clear E].

#[export] Instance lists_confining : Upholds confining lists_run.
Proof.
  intros env command args s. unfold lists_run.
  destruct (command =b? lit "RPUSH"); [confining_one|].
  destruct (command =b? lit "LPUSH"); [confining_one|].
  destruct (command =b? lit "LPOP"); [unfold run_lpop; confining_one|].
  destruct (command =b? lit "BLPOP") eqn:E; [intros _ Hb; congruence|].
  asks command "LLEN"%string. asks command "LRANGE"%string. done.
Qed.

#[export] Instance streams_confining : Upholds confining streams_run.
Proof.
  intros env command args s. unfold streams_run. destruct (command =b? lit "XADD").
  - unfold run_xadd, refuses. destruct args as [|key [|id fs]]; [apply confining_says..|].
    destruct (_ && _); [|apply confining_says].
    destruct (match text id with Some _ => _ | None => _ end) as [r|]; [|apply confining_says].
    pose proof (xadd_confined (clock env) (now env) key r (pairs_of fs) s) as Hx.
    destruct (xadd _ _ _ _ _ _) as [[s1 w] v]. intros _ _. split; [done|by right; eexists].
  - asks command "XRANGE"%string. asks command "XREAD"%string. done.
Qed.

#[export] Instance sorted_sets_confining : Upholds confining sorted_sets_run.
Proof.
  intros env command args s. unfold sorted_sets_run.
  destruct (command =b? lit "ZADD"); [unfold run_zadd; confining_one|].
  asks command "ZRANK"%string. destruct (command =b? lit "ZREM"); [confining_one|].
  asks command "ZSCORE"%string. asks command "ZCARD"%string. asks command "ZRANGE"%string. done.
Qed.

#[export] Instance geo_confining : Upholds confining geo_run.
Proof.
  intros env command args s. unfold geo_run. destruct (command =b? lit "GEOADD"); [unfold geoadd; confining_one|].
  asks command "GEOPOS"%string. asks command "GEODIST"%string. asks command "GEOSEARCH"%string. done.
Qed.

#[export] Instance keys_confining : Upholds confining keys_run.
Proof.
  intros env command args s. unfold keys_run. asks command "TYPE"%string. asks command "KEYS"%string. done.
Qed.

#[export] Instance store_run_confining : Upholds confining store_run.
Proof. unfold store_run. apply _. Qed.

End Commands.
