(* ===== verification/Owing.v ===== *)
(** * What has been handed over and not yet been told of

    An element pushed to a list somebody waits on goes to that client at once; but
    what is written down is the push alone, and it is only when the client's
    connection goes on that it has the [LPOP] written down it is told as.  A store
    that carries out what is written down is [behind] in the meantime: it still
    holds, in front of the list, what has been handed over ([given_back]).  It stays
    so as long as nobody else takes from the list or puts to the front of it
    ([behind_written], [behind_pushed]), and every client that tells of what it got
    makes up for one element ([behind_told]). *)
From S2P Require Import Prelude Text Resp F64 Store StoreStrings StoreLists StoreStreams.
From S2P Require Import StoreSortedSets Command StoreCommands Geo Families Replies Alike Twins.
Open Scope Z_scope.

(** What is yet to be told of, under each key. *)
Abbreviation Owed := (gmap Bytes (list Bytes)).
Definition owed_at (owed : Owed) (key : Bytes) : list Bytes := default [] (owed !! key).

Definition elements_of (o : option Data) : list Bytes :=
  match o with Some (DList l) => l | _ => [] end.

(** Elements put back in front of the list they came from. *)
Definition put_back (xs : list Bytes) (o : option Data) : option Data :=
  match xs with [] => o | _ => Some (DList (xs ++ elements_of o)) end.

Definition given_back_entry (xs : option (list Bytes)) (e : option Entry) : option Entry :=
  match xs with
  | Some ((_ :: _) as xs) =>
      Some {| data := DList (xs ++ elements_of (data <$> e)); expires_at := None;
              version := from_option version 0 e |}
  | _ => e
  end.

(** The store as it would be, still with all it has handed over. *)
Definition given_back (owed : Owed) (s : State) : State :=
  with_entries s (merge given_back_entry owed (entries s)).

Lemma given_back_nothing s : given_back ∅ s = s.
Proof.
  transitivity (with_entries s (entries s)); [|by destruct s]. unfold given_back. f_equal. apply map_eq. intros k.
  rewrite lookup_merge, lookup_empty. by destruct (entries s !! k).
Qed.

Lemma given_back_at owed s key :
  data <$> entries (given_back owed s) !! key = put_back (owed_at owed key) (data <$> entries s !! key).
Proof.
  unfold given_back, owed_at. cbn [with_entries entries]. rewrite lookup_merge.
  destruct (owed !! key) as [[|x xs]|], (entries s !! key) as [e|]; reflexivity.
Qed.

Lemma given_back_untimed owed s key :
  untimed (entries s) key -> untimed (entries (given_back owed s)) key.
Proof.
  intros Us e. unfold given_back. cbn [with_entries entries]. rewrite lookup_merge.
  unfold untimed in Us. destruct (owed !! key) as [[|x xs]|], (entries s !! key) as [e'|]; cbn;
    try (intros [= <-]; auto); done.
Qed.

(** Of a list that has been handed out of, there is nothing left but elements. *)
Definition pending (xs : option (list Bytes)) (o : option Data) : Prop :=
  match xs with
  | None => True
  | Some xs => xs <> [] /\ match o with None => True | Some (DList l) => l <> [] | _ => False end
  end.

(** What [t] holds under the key is what has been told of [s]. *)
Record behind_at (owed : Owed) (s t : State) (key : Bytes) : Prop := {
  behind_untimed : untimed (entries s) key;
  behind_untimed' : untimed (entries t) key;
  behind_pending : pending (owed !! key) (data <$> entries s !! key);
  behind_data : data <$> entries t !! key = put_back (owed_at owed key) (data <$> entries s !! key);
}.

(** [t] has carried out what has been told of [s], as far as the keys one is sure of
    go. *)
Definition behind (sure : Bytes -> bool) (owed : Owed) (s t : State) : Prop :=
  (forall key, sure key = true -> behind_at owed s t key) /\ waiters t = ∅.

Section Behind.
Context (sure : Bytes -> bool).

Lemma behind_alike owed s t : behind sure owed s t -> alike sure (given_back owed s) t.
Proof.
  intros [Hb _] key Hk. destruct (Hb key Hk) as [Us Ut _ Hd].
  split_and!; [by apply given_back_untimed|done|by rewrite given_back_at, Hd].
Qed.

Lemma alike_behind s t : alike sure s t -> waiters t = ∅ -> behind sure ∅ s t.
Proof.
  intros Hst Hw. split; [|done]. intros key Hk. destruct (Hst key Hk) as (Us & Ut & E).
  split; [done..| |]; unfold owed_at; rewrite lookup_empty; [done|by rewrite <- E].
Qed.

Lemma behind_here owed s t key :
  behind sure owed s t -> sure key = true -> owed !! key = None -> alike_at key s t.
Proof.
  intros [Hb _] Hk Ho. destruct (Hb key Hk) as [Us Ut _ Hd]. split_and!; [done..|].
  rewrite Hd. unfold owed_at. by rewrite Ho.
Qed.

(** ** Kept *)

(** Key by key, as long as the keys one is sure of hold what they held, and no more is
    owed there. *)
Lemma behind_same owed owed' s t s' t' :
  behind sure owed s t -> waiters t' = ∅ ->
  (forall key, sure key = true ->
     behind_at owed' s' t' key
     \/ owed' !! key = owed !! key /\ untimed (entries s') key
        /\ data <$> entries s' !! key = data <$> entries s !! key /\ entries t' !! key = entries t !! key) ->
  behind sure owed' s' t'.
Proof.
  intros [Hb _] Hw Hsame. split; [|done]. intros key Hk.
  destruct (Hsame key Hk) as [?|(Eo & Us' & Es & Et)]; [done|].
  destruct (Hb key Hk) as [Us Ut Hp Hd]. unfold untimed in *.
  split; unfold untimed, owed_at in *; rewrite ?Eo, ?Es, ?Et; done.
Qed.

Lemma behind_abides owed s s' t :
  behind sure owed s t -> abides (entries s) (entries s') -> behind sure owed s' t.
Proof.
  intros Hb Ha. eapply behind_same; [exact Hb|apply Hb|]. intros key Hk. right.
  destruct (proj1 Hb key Hk) as [Us _ _ _]. unfold untimed. by rewrite (Ha key Us).
Qed.

(** A key one is not sure of is written to. *)
Lemma behind_unsure owed key s t s' t' :
  behind sure owed s t -> sure key = false -> framed key s s' -> confined key t t' ->
  behind sure owed s' t'.
Proof.
  intros Hb Hu Fs [Ft Hw]. eapply behind_same; [exact Hb|apply Hw, Hb|]. intros k Hk. right.
  destruct (proj1 Hb k Hk) as [Us _ _ _]. assert (k <> key) as Hne by congruence.
  unfold untimed. by rewrite (Fs k Hne), (Ft k Hne).
Qed.

(** A key nothing is owed under is written to. *)
Lemma behind_written owed key s t s' t' :
  behind sure owed s t -> owed !! key = None -> written key s t s' t' -> waiters t' = waiters t ->
  behind sure owed s' t'.
Proof.
  intros Hb Ho ((Us & Ut & E) & Fs & Ft) Hw. eapply behind_same; [exact Hb|rewrite Hw; apply Hb|].
  intros k Hk. destruct (decide (k = key)) as [->|Hne].
  - left. split; [done..|by rewrite Ho|]. unfold owed_at. by rewrite Ho.
  - right. destruct (proj1 Hb k Hk) as [Us' _ _ _]. unfold untimed. by rewrite (Fs k Hne), (Ft k Hne).
Qed.

(** One is written to and nothing comes of it. *)
Lemma behind_refused owed key s t s' :
  behind sure owed s t -> framed key s s' -> untimed (entries s') key ->
  data <$> entries s' !! key = data <$> entries s !! key -> behind sure owed s' t.
Proof.
  intros Hb Fs Us E. eapply behind_same; [exact Hb|apply Hb|]. intros k Hk. right.
  destruct (proj1 Hb k Hk) as [Us' _ _ _]. unfold untimed.
  destruct (decide (k = key)) as [->|Hne]; [done|by rewrite (Fs k Hne)].
Qed.

End Behind.

(** ** A push that serves *)

Definition list_or_none (o : option Data) : bool :=
  match o with None | Some (DList _) => true | _ => false end.

(** A list in the table, and nothing for an empty one. *)
Definition list_held (l : list Bytes) : option Data := match l with [] => None | _ => Some (DList l) end.

(** What a push makes of a store: it hands out what [serve] says. *)
Lemma push_untimed open now key elements side s s' given r :
  untimed (entries s) key -> elements <> [] -> push open now key elements side s = (s', given, r) ->
  framed key s s' /\ untimed (entries s') key /\
  if list_or_none (data <$> entries s !! key) then
    exists n rest q,
    r = Ok n
    /\ serve open (extend side elements (elements_of (data <$> entries s !! key))) (queue_at s key)
       = (rest, q, given)
    /\ data <$> entries s' !! key = list_held rest
    /\ (waiters s !! key = None -> waiters s' = waiters s)
  else r = Err WrongType /\ given = [] /\ data <$> entries s' !! key = data <$> entries s !! key.
Proof.
  intros Us Hne E. pose proof (push_confined open now key elements side s) as [Hf _]. rewrite E in Hf.
  split; [exact Hf|]. clear Hf. revert E. unfold push. rewrite untimed_drop by done.
  cbn [next_version with_entries entries waiters watchers changes]. set (v := wrap_u64 _).
  set (e := default _ (entries s !! key)).
  assert (He : expires_at e = None) by (unfold e; destruct (entries s !! key) eqn:E; [by apply Us|done]).
  destruct (data e) as [d|l|d|d] eqn:De.
  1,3,4: assert (entries s !! key = Some e) as Hk
    by (unfold e in *; by destruct (entries s !! key); [|discriminate De]);
    rewrite Hk; cbn [fmap option_fmap option_map list_or_none]; rewrite De; intros [= <- <- <-];
    (split; [intros e'; cbn; rewrite lookup_insert_eq; by intros [= <-]|]);
    split_and!; try done; cbn; by rewrite lookup_insert_eq; cbn; rewrite De.
  assert (data <$> entries s !! key = Some (DList l) \/ data <$> entries s !! key = None /\ l = []) as Hk.
  { unfold e in De. destruct (entries s !! key); cbn in De |- *; [left; by rewrite De|right].
    by injection De as <-. }
  assert (list_or_none (data <$> entries s !! key) = true /\ elements_of (data <$> entries s !! key) = l) as [-> ->]
    by (by destruct Hk as [->|[-> ->]]).
  rewrite (wake_waiters_put open key v (extend side elements l) (entries s)).
  2: { cbn [entries]. unfold put, with_data. rewrite He.
       pose proof (extend_not_nil side elements l Hne) as Hx. by destruct (extend side elements l). }
  cbn [waiters watchers changes with_entries]. unfold queue_at at 1. cbn [with_entries waiters]. fold (queue_at s key).
  destruct (serve open (extend side elements l) (queue_at s key)) as [[rest q] given'] eqn:Es.
  intros [= <- <- <-]. cbn [entries]. split.
  - intros e'. cbn. rewrite put_lookup. destruct rest; [done|]. by intros [= <-].
  - eexists _, rest, q. split_and!; [done|done| |by intros ->]. rewrite put_lookup. by destruct rest.
Qed.

(** What is owed under a key becomes this. *)
Definition owe (key : Bytes) (ys : list Bytes) (owed : Owed) : Owed :=
  match ys with [] => delete key owed | _ => <[key := ys]> owed end.

Lemma owe_eq key ys owed : owed_at (owe key ys owed) key = ys.
Proof. unfold owed_at. destruct ys; cbn; [by rewrite lookup_delete_eq|by rewrite lookup_insert_eq]. Qed.
Lemma owe_ne key ys owed k : k <> key -> owe key ys owed !! k = owed !! k.
Proof. intros. destruct ys; cbn; [by apply lookup_delete_ne|by apply lookup_insert_ne]. Qed.
Lemma owe_Some key ys owed xs : owe key ys owed !! key = Some xs -> xs <> [].
Proof. destruct ys; cbn; [by rewrite lookup_delete_eq|rewrite lookup_insert_eq; by intros [= <-]]. Qed.

(** A list both hold, the one of them behind with some elements. *)
Lemma behind_list sure owed key ys rest s t s' t' :
  behind sure owed s t -> waiters t' = waiters t -> framed key s s' -> framed key t t' ->
  untimed (entries s') key -> untimed (entries t') key ->
  data <$> entries s' !! key = list_held rest -> data <$> entries t' !! key = list_held (ys ++ rest) ->
  behind sure (owe key ys owed) s' t'.
Proof.
  intros Hb Hw Fs Ft Us Ut Es Et. eapply behind_same; [exact Hb|rewrite Hw; apply Hb|].
  intros k Hk. destruct (decide (k = key)) as [->|Hne].
  - left. split; [done..| |]; rewrite Es.
    + unfold pending. destruct (owe key ys owed !! key) as [xs|] eqn:Ex; [|done].
      split; [by eapply owe_Some|by destruct rest].
    + rewrite Et, owe_eq. destruct ys; cbn; [done|]. do 3 f_equal. by destruct rest.
  - right. destruct (proj1 Hb k Hk) as [Us' _ _ _]. unfold untimed. by rewrite owe_ne, (Fs k Hne), (Ft k Hne).
Qed.

(** What a push has handed out is owed from then on. *)
Definition lent (key : Bytes) (xs : list Bytes) (owed : Owed) : Owed :=
  match xs with [] => owed | _ => owe key (owed_at owed key ++ xs) owed end.

Lemma lent_owe key xs owed o :
  pending (owed !! key) o -> lent key xs owed = owe key (owed_at owed key ++ xs) owed.
Proof.
  intros Hp. destruct xs as [|x xs]; [|done]. rewrite app_nil_r. unfold lent, owed_at, owe.
  destruct (owed !! key) as [ys|] eqn:E; cbn; [|by rewrite delete_id].
  destruct Hp as [Hy _]. destruct ys; [done|]. by rewrite insert_id.
Qed.

Lemma put_back_list xs o :
  list_or_none o = true ->
  list_or_none (put_back xs o) = true /\ elements_of (put_back xs o) = xs ++ elements_of o.
Proof. by destruct xs. Qed.

Lemma extend_back side xs elements l :
  xs = [] \/ side = Right -> extend side elements (xs ++ l) = xs ++ extend side elements l.
Proof. intros [->| ->]; [done|]. cbn. by rewrite app_assoc. Qed.

Lemma handed_given given : handed (map (fun we : waiter * Bytes => Handed we.1 we.2) given) = map snd given.
Proof. induction given as [|[w x] given IH]; [done|]. cbn. by f_equal. Qed.

Section Commands.
Context `{UnicodeTables} `{Trig}.

(** A push done again behind the store it was done to, where nobody waits: what it
    handed out there stays here.  Where something is owed already, it has to be at the
    other end. *)
Lemma behind_pushed sure env env' key elements side owed s t s' ev out :
  behind sure owed s t -> sure key = true -> elements <> [] -> owed_at owed key = [] \/ side = Right ->
  run_push env key elements side s = Some (s', ev, out) ->
  exists v, out = Replied v /\
  if is_error v then behind sure owed s' t /\ handed ev = []
  else exists t' ev' v', run_push env' key elements side t = Some (t', ev', Replied v')
       /\ is_error v' = false /\ behind sure (lent key (handed ev) owed) s' t'.
Proof.
  intros Hb Hk Hne Hside. unfold run_push. destruct (proj1 Hb key Hk) as [Us Ut Hp Hd].
  destruct (push (open env) (now env) key elements side s) as [[s1 given] r] eqn:E.
  intros [= <- <- <-]. eexists. split; [done|].
  destruct (push_untimed _ _ _ _ _ _ _ _ _ Us Hne E) as (Fs & Us1 & Hs).
  destruct (list_or_none (data <$> entries s !! key)) eqn:El.
  2: { destruct Hs as (-> & -> & Hsame). cbn. split; [|done]. by apply (behind_refused sure owed key s). }
  destruct Hs as (n & rest & q & -> & Hserve & Hs1 & _). cbn [typed count is_error].
  destruct (push (open env') (now env') key elements side t) as [[t1 given'] r'] eqn:E'.
  destruct (push_untimed _ _ _ _ _ _ _ _ _ Ut Hne E') as (Ft & Ut1 & Ht). rewrite Hd in Ht.
  destruct (put_back_list (owed_at owed key) _ El) as [El' Hback]. rewrite El', Hback in Ht.
  destruct Ht as (n' & rest' & q' & -> & Hserve' & Ht1 & Hw').
  assert (waiters t !! key = None) as Hno by (by rewrite (proj2 Hb)).
  unfold queue_at in Hserve'. rewrite Hno in Hserve'. cbn [default from_option Datatypes.id] in Hserve'.
  rewrite serve_nil in Hserve'. injection Hserve' as <- _ _.
  destruct (serve_spec _ _ _ _ _ _ Hserve) as (Hx & _ & _).
  eexists _, _, _. split; [done|]. split; [done|]. rewrite handed_given, (lent_owe _ _ _ _ Hp).
  apply (behind_list sure owed key _ rest s t); try done; [by apply Hw'|].
  by rewrite Ht1, extend_back, Hx, app_assoc by done.
Qed.

Lemma lpop_untimed now key x l t :
  untimed (entries t) key -> data <$> entries t !! key = Some (DList (x :: l)) ->
  exists t', lpop now key 1 t = (t', Ok [x]) /\ framed key t t' /\ untimed (entries t') key
  /\ waiters t' = waiters t /\ data <$> entries t' !! key = list_held l.
Proof.
  intros Ut Hk. pose proof (lpop_confined now key 1 t) as [Hf _]. revert Hf.
  unfold lpop. rewrite untimed_drop by done. cbn [next_version with_entries entries waiters watchers changes].
  destruct (entries t !! key) as [[d ex v]|] eqn:E; [|done]. cbn in Hk. injection Hk as ->. cbn [data].
  rewrite len_cons, Z.min_l by (pose proof (len_nonneg l); lia). change (Z.to_nat 1) with 1%nat.
  cbn [take drop]. rewrite take_0, drop_0, (bool_decide_false ([x] = [])) by done.
  intros Hf. eexists. split; [done|]. split; [exact Hf|]. clear Hf. pose proof (Ut _ E) as Hx. cbn in Hx. subst ex.
  destruct l as [|y l].
  - rewrite bool_decide_true, delete_insert_eq by done. cbn. unfold untimed. by rewrite lookup_delete_eq.
  - rewrite bool_decide_false by done. cbn. unfold untimed. rewrite lookup_insert_eq.
    split; [by intros e [= <-]|done].
Qed.

(** One of those served tells of it. *)
Lemma behind_told sure env key x xs owed s t :
  behind sure owed s t -> sure key = true -> owed !! key = Some (x :: xs) ->
  exists t' ev, store_run env (lit "LPOP") [key] t = Some (t', ev, Replied (BulkString x))
  /\ behind sure (owe key xs owed) s t'.
Proof.
  intros Hb Hk Ho. destruct (proj1 Hb key Hk) as [Us Ut Hp Hd]. unfold owed_at in Hd. rewrite Ho in Hd, Hp.
  destruct (lpop_untimed (now env) key x _ t Ut Hd) as (t' & E & Ft & Ut' & Hw & Hd').
  change (store_run env (lit "LPOP") [key] t) with
    (replies (lpop (now env) key 1 t) (typed (fun l => or_null (head l)))).
  unfold replies. rewrite E. eexists _, _. split; [done|].
  apply (behind_list sure owed key xs (elements_of (data <$> entries s !! key)) s t); try done.
  destruct Hp as [_ Hl]. by destruct (data <$> entries s !! key) as [[|[|y l]| |]|].
Qed.

End Commands.
