(* ===== verification/Sessions.v ===== *)
(** * What a client and those who follow the server can count on

    Facts about [run] and [dispatch] of [Dispatch] over several requests: a
    transaction runs what was queued and nothing before [EXEC]; a client that
    listens touches nothing but its own subscriptions; a write is in the record
    and on its way to every replica before its client is answered; and a [BLPOP]
    told as the [LPOP] it came to leaves whoever replays it with the same list, if
    nothing else comes in between. *)
From S2P Require Import Prelude Text Resp F64 Store StoreStrings StoreLists StoreStreams.
From S2P Require Import StoreSortedSets StoreSteps Command StoreCommands Geo Families Users.
From S2P Require Import Channels Config Replicas Transactions Aof Dispatch.
Open Scope Z_scope.

Section Sessions.
Context `{UnicodeTables} `{Trig} `{PasswordHash}.

(** Requests of one client, each answered before the next. *)
Fixpoint session (moments : nat -> nat -> Moment) (n : nat) (requests : list Value) (cl : Client)
  (w : World) : Client * World * list Heard * list Progress :=
  match requests with
  | [] => (cl, w, [], [])
  | r :: requests =>
      let '(cl, w, heard, p) := run (moments n) r cl w in
      let '(cl, w, heard', ps) := session moments (S n) requests cl w in
      (cl, w, heard ++ heard', p :: ps)
  end.

Lemma session_app moments n rs rs' cl w :
  session moments n (rs ++ rs') cl w
  = let '(cl, w, heard, ps) := session moments n rs cl w in
    let '(cl, w, heard', ps') := session moments (n + length rs) rs' cl w in
    (cl, w, heard ++ heard', ps ++ ps').
Proof.
  revert n cl w; induction rs as [|r rs IH]; intros n cl w; cbn [session app length].
  - rewrite Nat.add_0_r. by destruct (session moments n rs' cl w) as [[[? ?] ?] ?].
  - destruct (run (moments n) r cl w) as [[[cl1 w1] h1] p1]. rewrite IH, Nat.add_succ_r.
    destruct (session moments (S n) rs cl1 w1) as [[[cl2 w2] h2] p2]. cbn.
    destruct (session moments (S (n + length rs)) rs' cl2 w2) as [[[cl3 w3] h3] p3].
    by rewrite app_assoc.
Qed.

(** A client free to ask for what it likes. *)
Definition free (cl : Client) : Prop :=
  authenticated (identity cl) = true /\ listening (subscriptions cl) = false.

(** A request for a command that a transaction queues. *)
Definition queues (request : Value) (c : Command) : Prop :=
  parse_command request = Ok c /\ steers_a_transaction (uppercased c) = false.

(** A request to steer it. *)
Definition steers (word : string) (request : Value) : Prop :=
  exists c, parse_command request = Ok c /\ uppercased c = lit word /\ args c = [].

Definition QUEUED : Progress := Answers (Reply (SimpleString (lit "QUEUED"))).

Definition holding (cl : Client) (commands : list Command) : Client :=
  with_transaction cl {| queued := Some commands; watched := watched (transaction cl) |}.

Lemma session_queues moments n requests cs held cl w :
  free cl -> Forall2 queues requests cs ->
  session moments n requests (holding cl held) w
  = (holding cl (held ++ cs), w, [], map (fun _ => QUEUED) requests).
Proof.
  intros [Hi Hl] Hq. revert n held; induction Hq as [|r c rs cs [Hp Hs] _ IH]; intros n held; cbn [session].
  - by rewrite app_nil_r.
  - unfold run at 1. rewrite Hp. cbn [holding with_transaction identity subscriptions transaction queued watched].
    rewrite Hi, Hl, Hs. cbn [negb andb].
    change (with_transaction (holding cl held) {| queued := Some (held ++ [c]); watched := watched (transaction cl) |})
      with (holding cl (held ++ [c])).
    rewrite IH. by rewrite <- app_assoc.
Qed.

Lemma run_multi moments request cl w :
  free cl -> queued (transaction cl) = None -> steers "MULTI" request ->
  run moments request cl w = (holding cl [], w, [], Answers (Reply OK)).
Proof.
  intros [Hi Hl] Hq (c & Hp & Hc & Ha). unfold run, steer, answer_to.
  rewrite Hp, Hi, Hl, Hc, Ha, Hq. cbn [negb andb]. by destruct w.
Qed.

Lemma run_exec moments request commands cl w :
  free cl -> watched (transaction cl) = ∅ -> steers "EXEC" request ->
  run moments request (holding cl commands) w
  = let '(cl, w, heard, e) := execute moments 1 commands [] (with_transaction cl no_transaction) w in
    (cl, w, heard, execution_progress e).
Proof.
  intros [Hi Hl] Hw (c & Hp & Hc & Ha). unfold run, steer, answer_to.
  cbn [holding with_transaction identity subscriptions transaction queued watched].
  rewrite Hp, Hi, Hl, Hc, Ha, Hw. cbn [negb andb].
  by destruct w as [[] ? ?].
Qed.

End Sessions.

(** The commands of a transaction in turn, from the [n]th moment on: each is run and
    answered before the next, and these are their replies.  Stated apart from
    [execute]. *)
Inductive in_turn `{UnicodeTables} `{Trig} `{PasswordHash} (moments : nat -> Moment) :
  nat -> list Command -> Client -> World -> list Value -> list Heard -> Client -> World -> Prop :=
| in_turn_none n cl w : in_turn moments n [] cl w [] [] cl w
| in_turn_next n c cs cl w cl1 w1 heard reply replies heard' cl' w' :
    dispatch (moments n) c cl w = (cl1, w1, heard, Replied reply) ->
    in_turn moments (S n) cs cl1 w1 replies heard' cl' w' ->
    in_turn moments n (c :: cs) cl w (reply :: replies) (heard ++ heard') cl' w'.

(** What running commands comes to: all of them in turn, and their replies; or those
    before one that has to wait, or that brings the connection down. *)
Definition comes_of_running `{UnicodeTables} `{Trig} `{PasswordHash} (moments : nat -> Moment) (n : nat)
  (cs : list Command) (cl : Client) (w : World) (cl' : Client) (w' : World) (heard : list Heard)
  (before : list Value) (p : Progress) : Prop :=
  (exists replies, in_turn moments n cs cl w replies heard cl' w'
                   /\ p = Answers (Reply (Array (before ++ replies))))
  \/ exists done c rest cl1 w1 replies heard1 heard2,
     cs = done ++ c :: rest /\ in_turn moments n done cl w replies heard1 cl1 w1
     /\ heard = heard1 ++ heard2
     /\ ((exists on, dispatch (moments (n + length done)%nat) c cl1 w1 = (cl', w', heard2, Blocks on)
                     /\ p = WaitsOn on c (Some (before ++ replies, rest)))
         \/ dispatch (moments (n + length done)%nat) c cl1 w1 = (cl', w', heard2, Panics) /\ p = Crashes).

Lemma execute_in_turn `{UnicodeTables} `{Trig} `{PasswordHash} moments n cs before cl w cl' w' heard e :
  execute moments n cs before cl w = (cl', w', heard, e) ->
  comes_of_running moments n cs cl w cl' w' heard before (execution_progress e).
Proof.
  unfold comes_of_running.
  revert n before cl w cl' w' heard e; induction cs as [|c cs IH]; intros n before cl w cl' w' heard e; cbn [execute].
  { intros [= <- <- <- <-]. left. exists []. split; [constructor|by rewrite app_nil_r]. }
  destruct (dispatch (moments n) c cl w) as [[[cl1 w1] h1] [reply|on|]] eqn:E.
  - destruct (execute _ _ cs _ _ _) as [[[cl2 w2] h2] e2] eqn:E2. intros [= <- <- <- <-].
    apply IH in E2 as [(replies & Hin & ->)|(done & c' & rest & cl3 & w3 & replies & h3 & h4 & -> & Hin & -> & Hend)].
    + left. exists (reply :: replies). split; [by econstructor|by rewrite <- app_assoc].
    + right. exists (c :: done), c', rest, cl3, w3, (reply :: replies), (h1 ++ h3), h4. cbn [app length].
      replace (n + S (length done))%nat with (S n + length done)%nat by lia.
      split_and!; [done|by econstructor|by rewrite app_assoc|].
      destruct Hend as [(on & Hd & ->)|[Hd ->]]; [left|by right]. exists on. split; [done|].
      by rewrite <- app_assoc.
  - intros [= <- <- <- <-]. right. exists [], c, cs, cl, w, [], [], h1. cbn [app length].
    rewrite Nat.add_0_r, app_nil_r. split_and!; [done|constructor|done|left; by exists on].
  - intros [= <- <- <- <-]. right. exists [], c, cs, cl, w, [], [], h1. cbn [app length].
    rewrite Nat.add_0_r. split_and!; [done|constructor|done|by right].
Qed.

(** C13. A transaction runs what was queued in it, in order, at [EXEC] and not
    before: between [MULTI] and [EXEC] every request a transaction can queue is
    answered [QUEUED] and changes nothing -- not the store, not the server, not
    what anyone hears -- and [EXEC] comes to running those very commands one after the
    other ([in_turn]), leaving no transaction behind, and answering with their replies,
    in order.  Where one of them has to wait, those before it have run, with their
    replies kept and those after it still to run; and going on from there, with
    whatever the wait comes to, the rest are run in turn, and the replies of those
    before, of the one that waited and of the rest are the answer. *)
Theorem transaction_runs_queued `{UnicodeTables} `{Trig} `{PasswordHash}
  moments multi requests exec cs cl w :
  free cl -> transaction cl = no_transaction ->
  steers "MULTI" multi -> steers "EXEC" exec -> Forall2 queues requests cs ->
  (exists cl' w' heard p,
    session moments 0 (multi :: requests ++ [exec]) cl w
    = (cl', w', heard, Answers (Reply OK) :: map (fun _ => QUEUED) requests ++ [p])
    /\ comes_of_running (moments (S (length requests))) 1 cs cl w cl' w' heard [] p)
  /\ forall moments' asked replies rest reply cl1 w1,
     let '(w2, reply') := finish (moments' O) asked reply w1 in
     let '(cl', w', heard, p) := resume moments' asked (Some (replies, rest)) reply cl1 w1 in
     comes_of_running moments' 1 rest cl1 w2 cl' w' heard (replies ++ [reply']) p.
Proof.
  intros Hfree Ht Hm He Hq. split.
  - cbn [session].
    rewrite run_multi by (done || by rewrite Ht). rewrite session_app, (session_queues _ _ _ cs) by done.
    cbn [session app plus]. rewrite run_exec by (done || by rewrite Ht).
    assert (with_transaction cl no_transaction = cl) as -> by (rewrite <- Ht; by destruct cl).
    destruct (execute _ _ _ _ _ _) as [[[cl' w'] heard] e] eqn:E. apply execute_in_turn in E.
    eexists _, _, _, _. split; [done|]. by rewrite !app_nil_r.
  - intros moments' asked replies rest reply cl1 w1. unfold resume.
    destruct (finish _ _ _ _) as [w2 reply']. destruct (execute _ _ _ _ _ _) as [[[cl' w'] heard] e] eqn:E.
    by apply execute_in_turn in E.
Qed.

(** Two commands, and they cannot change places: the second finds what the first put
    there. *)
Lemma transaction_runs_queued_witness :
  exists cl' w' heard p,
    @session plain_tables plain_trig plain_hash (fun _ _ => trial_moment) 0
      [request_of ["multi"]; request_of ["rpush"; "l"; "a"]; request_of ["lpop"; "l"]; request_of ["exec"]]
      insider trial_world
    = (cl', w', heard, [Answers (Reply OK); QUEUED; QUEUED; p])
    /\ p = Answers (Reply (Array [Integer 1; BulkString (lit "a")]))
    /\ @comes_of_running plain_tables plain_trig plain_hash (fun _ => trial_moment) 1
         [{| uppercased := lit "RPUSH"; name := lit "rpush"; args := [lit "l"; lit "a"] |};
          {| uppercased := lit "LPOP"; name := lit "lpop"; args := [lit "l"] |}] insider trial_world cl' w' heard [] p.
Proof.
  assert (Hq : Forall2 (@queues plain_tables) [request_of ["rpush"; "l"; "a"]; request_of ["lpop"; "l"]]
     [{| uppercased := lit "RPUSH"; name := lit "rpush"; args := [lit "l"; lit "a"] |};
      {| uppercased := lit "LPOP"; name := lit "lpop"; args := [lit "l"] |}])
    by (apply Forall2_cons_2; [by split|apply Forall2_cons_2; [by split|apply Forall2_nil_2]]).
  destruct (@transaction_runs_queued plain_tables plain_trig plain_hash (fun _ _ => trial_moment)
    (request_of ["multi"]) [request_of ["rpush"; "l"; "a"]; request_of ["lpop"; "l"]] (request_of ["exec"]) _
    insider trial_world (conj eq_refl eq_refl) eq_refl
    (ex_intro _ _ (conj eq_refl (conj eq_refl eq_refl)))
    (ex_intro _ _ (conj eq_refl (conj eq_refl eq_refl))) Hq) as [(cl' & w' & heard & p & E & Hruns) _].
  exists cl', w', heard, p. cbn [app map] in E. split_and!; [exact E| |exact Hruns].
  assert ((@session plain_tables plain_trig plain_hash (fun _ _ => trial_moment) 0
      [request_of ["multi"]; request_of ["rpush"; "l"; "a"]; request_of ["lpop"; "l"]; request_of ["exec"]]
      insider trial_world).2
    = [Answers (Reply OK); QUEUED; QUEUED; Answers (Reply (Array [Integer 1; BulkString (lit "a")]))]) as Hv
    by (vm_compute; reflexivity).
  rewrite E in Hv. cbn [snd] in Hv. by injection Hv.
Defined.

Lemma with_channels_id w : with_channels w (channels (server w)) = w.
Proof. by destruct w as [? [] ?]. Qed.
Lemma with_subscriptions_id cl : with_subscriptions cl (subscriptions cl) = cl.
Proof. by destruct cl. Qed.

(** What the commands open to a listening client come to. *)
Lemma listening_run_against `{UnicodeTables} `{Trig} `{PasswordHash} m c cl w :
  listening (subscriptions cl) = true -> allowed_while_listening (uppercased c) = true ->
  exists subs tally reply,
  run_against m c cl w = (with_subscriptions cl subs, with_channels w tally, [], Replied reply).
Proof.
  intros Hl Ha.
  assert (Hrun : (exists subs tally reply,
      pubsub_run (alive m) (uppercased c) (args c) (subscriptions cl, channels (server w))
      = Some (subs, tally, [], reply) /\ transactions_run (uppercased c) (args c) (transaction cl) = None)
    \/ run_against m c cl w = (cl, w, [], Replied (unknown_command (name c)))).
  { revert Ha. unfold allowed_while_listening, one_of, ALLOWED_WHILE_LISTENING. cbn [existsb].
    rewrite !orb_true_iff, !beq_true.
    intros [Eu|[Eu|[Eu|[Eu|[Eu|[Eu|[Eu|?]]]]]]]; [| | | | | | |done]; rewrite Eu.
    - left. unfold pubsub_run. change (lit "SUBSCRIBE" =b? lit "PUBLISH") with false.
      change (lit "SUBSCRIBE" =b? lit "SUBSCRIBE") with true. cbv iota.
      destruct (args c) as [|a l]; [by eexists _, _, _|].
      destruct (confirm_each _ _ _ _) as [[subs tally] replies]. by eexists _, _, _.
    - left. unfold pubsub_run. change (lit "UNSUBSCRIBE" =b? lit "PUBLISH") with false.
      change (lit "UNSUBSCRIBE" =b? lit "SUBSCRIBE") with false.
      change (lit "UNSUBSCRIBE" =b? lit "UNSUBSCRIBE") with true. cbv iota.
      destruct (args c) as [|a l].
      + destruct (given_up _) as [[subs tally] reply]. by eexists _, _, _.
      + destruct (confirm_each _ _ _ _) as [[subs tally] replies]. by eexists _, _, _.
    - right. unfold run_against. by rewrite Eu.
    - right. unfold run_against. by rewrite Eu.
    - left. unfold pubsub_run. rewrite Hl. by eexists _, _, _.
    - right. unfold run_against. by rewrite Eu.
    - right. unfold run_against. by rewrite Eu. }
  destruct Hrun as [(subs & tally & reply & Hp & Ht)|Hr].
  - exists subs, (tallied cl (uppercased c) (channels (server w)) tally), reply.
    unfold run_against. by rewrite Ht, Hp.
  - exists (subscriptions cl), (channels (server w)), (unknown_command (name c)).
    by rewrite with_channels_id, with_subscriptions_id.
Qed.

(** A client that listens is held to the conversation it is in: whatever it
    sends, it touches nothing but its own subscriptions and the server's tally of
    them -- or, with a transaction open, what is queued there -- and nobody hears
    of it; a command that is not part of that conversation is refused outright. *)
Theorem listening_client_held `{UnicodeTables} `{Trig} `{PasswordHash}
  moments request cl w cl' w' heard p :
  authenticated (identity cl) = true -> listening (subscriptions cl) = true ->
  run moments request cl w = (cl', w', heard, p) ->
  (exists tally, w' = with_channels w tally) /\ identity cl' = identity cl /\ heard = []
  /\ (forall c, parse_command request = Ok c -> allowed_while_listening (uppercased c) = false ->
      cl' = cl /\ w' = w /\ p = Answers (Reply (out_of_context (uppercased c)))).
Proof.
  intros Hi Hl. unfold run. destruct (parse_command request) as [c|reply] eqn:Ep.
  2: { intros [= <- <- <- <-]. split_and!; try done. exists (channels (server w)).
       by rewrite with_channels_id. }
  rewrite Hi, Hl. cbn [negb andb]. destruct (allowed_while_listening (uppercased c)) eqn:Ea; cbn [negb].
  2: { intros [= <- <- <- <-]. split_and!; try done.
       - exists (channels (server w)). by rewrite with_channels_id.
       - by intros ? [= <-]. }
  assert (Hall : forall tally w' cl' p, w' = with_channels w tally -> identity cl' = identity cl ->
    (exists t, w' = with_channels w t) /\ identity cl' = identity cl /\ ([] : list Heard) = []
    /\ (forall c', (Ok c : result Command Value) = Ok c' -> allowed_while_listening (uppercased c') = false ->
        cl' = cl /\ w' = w /\ p = Answers (Reply (out_of_context (uppercased c'))))).
  { intros tally w1 cl1 p1 -> Hc. split_and!; [by exists tally|done|done|]. intros c' [= <-]. congruence. }
  assert (Hsteer : steers_a_transaction (uppercased c) = false
                   /\ written_down c = (fun _ => None)
                   /\ forall t s, steer (now (env (moments O))) c t s = None).
  { unfold steer, written_down. revert Ea.
    unfold allowed_while_listening, one_of, ALLOWED_WHILE_LISTENING. cbn [existsb].
    rewrite !orb_true_iff, !beq_true.
    by intros [-> |[-> |[-> |[-> |[-> |[-> |[-> |?]]]]]]]. }
  destruct Hsteer as (-> & Hw & Hsteer). destruct (queued (transaction cl)).
  { intros [= <- <- <- <-]. apply (Hall (channels (server w))); [|done].
    by rewrite with_channels_id. }
  rewrite Hsteer. unfold dispatch.
  destruct (listening_run_against (moments O) c cl w Hl Ea) as (subs & tally & reply & ->).
  unfold finish. rewrite Hw. destruct (is_error reply); intros [= <- <- <- <-];
    by apply (Hall tally).
Qed.

Definition tuned_in : Client := with_subscriptions insider {| on := [lit "news"]; me := 3%nat |}.

Lemma listening_client_held_witness :
  let r := run_ (fun _ => trial_moment) (request_of ["GET"; "k"]) tuned_in trial_world in
  r.1.1.2 = trial_world.
Proof.
  intros r. destruct r as [[[cl' w'] heard] p] eqn:E. cbn [fst snd].
  destruct (@listening_client_held plain_tables plain_trig plain_hash (fun _ => trial_moment)
    (request_of ["GET"; "k"]) tuned_in trial_world cl' w' heard p eq_refl eq_refl E)
    as (_ & _ & _ & Href).
  exact (proj1 (proj2 (Href (command_of ["GET"; "k"]) eq_refl eq_refl))).
Defined.

(** The commands that are written down are the store's alone. *)
Lemma run_against_write `{UnicodeTables} `{Trig} `{PasswordHash} m c cl w :
  one_of WRITES (uppercased c) = true ->
  run_against m c cl w
  = match store_run (env m) (uppercased c) (args c) (store w) with
    | Some (s, events, out) => (cl, with_store w s, map FromStore events, out)
    | None => (cl, w, [], Replied (unknown_command (name c)))
    end.
Proof.
  intros Hw. unfold run_against. destruct (store_run _ _ _ _) as [[[s events] o]|].
  all: revert Hw; unfold one_of, WRITES; cbn [existsb]; rewrite !orb_true_iff, !beq_true.
  all: intros [-> |[-> |[-> |[-> |[-> |[-> |[-> |[-> |[-> |[-> |?]]]]]]]]]]; done.
Qed.

Lemma write_run_against `{UnicodeTables} `{Trig} `{PasswordHash} m c cl w cl1 w1 heard out :
  one_of WRITES (uppercased c) = true -> run_against m c cl w = (cl1, w1, heard, out) ->
  server w1 = server w /\ files w1 = files w.
Proof.
  intros Hw. rewrite run_against_write by done.
  destruct (store_run _ _ _ _) as [[[s events] o]|]; by intros [= <- <- <- <-].
Qed.

(** Where a command that writes has left its words, once it has answered: [before] what
    was then done about the record and the replicas, and [after]. *)
Definition told_of (m : Moment) (c : Command) (first reply : Value) (before after : World) : Prop :=
  (* it worked: the words are at the end of the record and of every queue *)
  (is_error reply = false /\ reply = first
   /\ forall written, written_down c reply = Some written ->
      (forall a, aof (server before) = Some a ->
         files after !! path a = Some (default [] (files before !! path a) ++ encode written))
      /\ match replicaof (config (server before)) with
         | Some _ => replication (server after) = replication (server before)
         | None =>
             replicas (replication (server after))
             = map (enqueue (encode written)) (following (ended m) (replicas (replication (server before))))
         end)
  (* it failed: nobody is told of it *)
  \/ (is_error first = true /\ reply = first /\ after = before)
  (* it worked and could not be recorded: no replica is told of it, and of its words
     the record has got as many bytes as it took, all of them perhaps *)
  \/ (reply = unrecorded /\ replication (server after) = replication (server before)
      /\ exists a written n, aof (server before) = Some a /\ written_down c first = Some written
         /\ files after = <[path a := default [] (files before !! path a) ++ take n (encode written)]>
                            (files before)).

Lemma finish_told m c first w :
  one_of WRITES (uppercased c) = true ->
  told_of m c first (finish m c first w).2 w (finish m c first w).1.
Proof.
  intros Hwr. unfold told_of, finish. destruct (is_error first) eqn:Ee; [by right; left|].
  destruct (written_down c first) as [written|] eqn:Ew.
  2: { left. cbn [fst snd]. split_and!; [done..|]. rewrite Ew. by intros ? [=]. }
  destruct (aof (server w)) as [a|] eqn:Ea.
  - destruct (append m) as [fault|n flushing said]; cbn [record].
    2: { right; right. split_and!; [done..|]. by exists a, written, n. }
    assert (Hall : encode written = take (length (encode written)) (encode written)) by (by rewrite firstn_all).
    destruct fault as [said|]; [destruct (durable a)|].
    { right; right. split_and!; [done..|]. exists a, written, (length (encode written)).
      split_and!; [done..|]. by rewrite <- Hall. }
    all: left; cbn [server config replication]; destruct (replicaof (config (server w))) eqn:Er;
      (split_and!; [done..|]); cbn [fst snd]; rewrite Ew; intros ? [= <-]; (split;
        [intros a' [= <-]; cbn; by rewrite lookup_insert_eq|]); [done|];
      cbn; unfold pass_on; by rewrite send_to_replicas_spec.
  - left. destruct (replicaof (config (server w))) eqn:Er; (split_and!; [done..|]);
      cbn [fst snd]; rewrite Ew; intros ? [= <-]; (split; [done|]); [done|].
    cbn; unfold pass_on; by rewrite send_to_replicas_spec.
Qed.

(** C12. A client is not told of a write before it is where it should be: when a
    command that writes answers, at once or (a [BLPOP]) after a wait, with anything
    but an error, its words stand at the end of the record, for a server that keeps
    one, and at the end of the queue of every replica still there, for a server that is
    no replica itself.  When the command itself failed, neither the record nor a
    replica is told of it.  And when it worked but could not be recorded, the client is
    told just that ([unrecorded]): the store has changed, no replica is told, and of
    the words the record has so many bytes as were written before the fault, which may
    be all of them. *)
Theorem told_before_answered `{UnicodeTables} `{Trig} `{PasswordHash} m c :
  one_of WRITES (uppercased c) = true ->
  (forall cl w cl' w' heard reply, dispatch m c cl w = (cl', w', heard, Replied reply) ->
   exists first w1, run_against m c cl w = (cl', w1, heard, Replied first)
   /\ server w1 = server w /\ files w1 = files w /\ store w' = store w1
   /\ told_of m c first reply w1 w')
  /\ forall moments first cl w cl' w' heard p,
     moments O = m -> resume moments c None first cl w = (cl', w', heard, p) ->
     store w' = store w /\ exists reply, p = Answers (Reply reply) /\ told_of m c first reply w w'.
Proof.
  intros Hwr. split.
  - intros cl w cl' w' heard reply. unfold dispatch.
    destruct (run_against m c cl w) as [[[cl1 w1] heard1] [first| |]] eqn:E; [|done|done].
    destruct (write_run_against _ _ _ _ _ _ _ _ Hwr E) as [Es Ef].
    pose proof (finish_told m c first w1 Hwr) as Ht. pose proof (finish_store m c first w1) as Hs.
    destruct (finish m c first w1) as [w2 reply2]. intros [= <- <- <- <-]. by exists first, w1.
  - intros moments first cl w cl' w' heard p <-. unfold resume.
    pose proof (finish_told (moments O) c first w Hwr) as Ht. pose proof (finish_store (moments O) c first w) as Hs.
    destruct (finish (moments O) c first w) as [w2 reply2]. intros [= _ <- _ <-]. split; [done|].
    exists reply2. split; [|done]. unfold answer_to.
    destruct (uppercased c =b? lit "PSYNC") eqn:E; [|done]. apply beq_true in E. by rewrite E in Hwr.
Qed.

Lemma told_before_answered_witness :
  let r := dispatch_ trial_moment (command_of ["INCR"; "n"]) insider trial_world in
  r.2 = Replied (Integer 1)
  /\ files r.1.1.2 !! lit "f" = Some (encode (request_of ["INCR"; "n"])).
Proof.
  intros r. destruct r as [[[cl' w'] heard] out] eqn:E. cbn [fst snd].
  assert (out = Replied (Integer 1)) as -> by (revert E; unfold r; vm_compute; by intros [= _ _ _ <-]).
  split; [done|].
  destruct (proj1 (@told_before_answered plain_tables plain_trig plain_hash trial_moment
    (command_of ["INCR"; "n"]) eq_refl) insider trial_world cl' w' heard (Integer 1) E)
    as (first & w1 & _ & Es & Ef & _ & [(_ & _ & H)|[(Hx & Hr & _)|(Hx & _)]]).
  - pose proof (proj1 (H (request_of ["INCR"; "n"]) eq_refl) {| path := lit "f"; durable := false |}) as Hf.
    rewrite Es, Ef in Hf. exact (Hf eq_refl).
  - by rewrite <- Hr in Hx.
  - discriminate Hx.
Defined.

(** *** A [BLPOP] told as an [LPOP] *)

Lemma list_seen_entry now s key v l :
  entries s !! key = match l with
                     | [] => None
                     | _ => Some {| data := DList l; expires_at := None; version := v |}
                     end ->
  list_seen now s key = Ok l.
Proof. intros E. unfold list_seen, seen. rewrite E. by destruct l. Qed.

(** [LPOP]s one after the other, at the times given. *)
Definition lpops (times : list Z) (key : Bytes) (s : State) : State :=
  fold_left (fun s now => (lpop now key 1 s).1) times s.

Lemma lpop_changes now key count s :
  Wf s -> changes s < U64_MAX -> changes (lpop now key count s).1 <= changes s + 1.
Proof.
  intros W Hc. unfold lpop, next_version.
  cbn [with_entries entries waiters watchers changes]. rewrite (wrap_next s) by done.
  repeat (case_match; simplify_eq; cbn [fst changes with_entries]; try lia).
Qed.

Lemma push_changes open now key elements side s :
  Wf s -> changes s < U64_MAX -> changes (push open now key elements side s).1.1 <= changes s + 1.
Proof.
  intros W Hc. unfold push, next_version, wake_waiters.
  cbn [with_entries entries waiters watchers changes]. rewrite (wrap_next s) by done.
  repeat (case_match; simplify_eq; cbn [fst changes with_entries] in *; try lia).
Qed.

Lemma lpops_list times key s l :
  Wf s -> changes s + len times <= U64_MAX -> (forall now, list_seen now s key = Ok l) ->
  (length times <= length l)%nat ->
  forall now, list_seen now (lpops times key s) key = Ok (drop (length times) l).
Proof.
  revert s l; induction times as [|t times IH]; intros s l W Hc Hl Hn; [done|].
  rewrite len_cons in Hc. pose proof (len_nonneg times). destruct l as [|x l]; [cbn in Hn; lia|].
  pose proof (lpop_changes t key 1 s W ltac:(lia)) as Hc1.
  destruct (lpop t key 1 s) as [s1 r] eqn:E.
  destruct (lpop_spec t key 1 s s1 r W ltac:(lia) ltac:(lia) E) as [[G _ _ _] Hs].
  rewrite Hl in Hs. destruct Hs as [_ Hk]. cbn [fst] in Hc1.
  change (lpops (t :: times) key s) with (lpops times key (lpop t key 1 s).1). rewrite E. cbn [fst].
  apply IH; [by apply G|lia| |cbn in Hn; lia].
  intros now. apply (list_seen_entry now s1 key (changes s + 1) l). rewrite Hk. by destruct l.
Qed.

(** C21. A [BLPOP] is told as an [LPOP], and whoever replays what is told ends up
    with the same list.  One that finds an element at once leaves exactly the
    store an [LPOP] would have left.  And one served by a later push: where the
    push found clients blocked and handed its elements out, a server that replays
    the push with nobody blocked, and then, before anything else is done to that list,
    one [LPOP] for each element handed out, is left with the very list the first
    server kept.  (What an [LPUSH] in between does is shown by
    [handed_over_told_late].) *)
Theorem blpop_told_as_lpop open closed me now key s :
  Wf s -> changes s < U64_MAX ->
  (forall s' x, blpop closed me now key s = Done (s', Ok (Ready x)) ->
     snd (lpop now key 1 s) = Ok [x]
     /\ forall k, entries (lpop now key 1 s).1 !! k = entries s' !! k)
  /\ forall elements side s' given r replica open' now' times,
     elements <> [] -> push open now key elements side s = (s', given, Ok r) ->
     Wf replica -> changes replica + 1 + len times <= U64_MAX -> queue_at replica key = [] ->
     list_seen now' replica key = list_seen now s key -> length times = length given ->
     forall t t', list_seen t (lpops times key (push open' now' key elements side replica).1.1) key
                  = list_seen t' s' key.
Proof.
  intros W Hc. split.
  - intros s' x Hb. destruct (blpop_spec closed me now key s W Hc) as (s1 & r1 & E1 & _ & Hel & _ & Hs).
    rewrite Hb in E1. injection E1 as <- <-.
    destruct (lpop now key 1 s) as [s2 r2] eqn:E2.
    destruct (lpop_spec now key 1 s s2 r2 W Hc ltac:(lia) E2) as [[_ Hel2 _ _] Hs2].
    destruct (list_seen now s key) as [[|y l]|[]]; [by destruct Hs| |by destruct Hs].
    destruct Hs as ([= ->] & _ & Hk). destruct Hs2 as [-> Hk2]. split; [done|]. intros k. cbn [fst].
    destruct (decide (k = key)) as [->|Hne]; [|by rewrite (Hel k Hne), (Hel2 k Hne)].
    rewrite Hk, Hk2. by destruct l.
  - intros elements side s' given r replica open' now' times Hne E Wr Hcr Hq Hl Ht t t'.
    pose proof (len_nonneg times) as Hn.
    destruct (push_spec _ _ _ _ _ _ _ _ _ W Hc Hne E) as (_ & _ & _ & _ & Hs).
    pose proof (push_changes open' now' key elements side replica Wr ltac:(lia)) as Hc'.
    destruct (push open' now' key elements side replica) as [[r1 given1] ans1] eqn:E1. cbn [fst] in *.
    destruct (push_spec _ _ _ _ _ _ _ _ _ Wr ltac:(lia) Hne E1) as ([Wr1 _] & _ & _ & _ & Hs1).
    rewrite Hl in Hs1. destruct (list_seen now s key) as [l|[]]; [|by destruct Hs].
    destruct Hs as (_ & rest & Hserve & Hk). destruct Hs1 as (_ & rest1 & Hserve1 & Hk1).
    rewrite Hq in Hserve1.
    assert (rest1 = extend side elements l) as -> by (destruct (extend side elements l); cbn in Hserve1; congruence).
    destruct (serve_spec _ _ _ _ _ _ Hserve) as (Hx & _ & _).
    rewrite (lpops_list times key r1 (extend side elements l)); [|done|lia| |].
    + rewrite Hx, Ht. rewrite <- (length_map snd given), drop_app_length. symmetry.
      exact (list_seen_entry t' s' key _ rest Hk).
    + intros u. exact (list_seen_entry u r1 key _ _ Hk1).
    + rewrite Hx, Ht, length_app, length_map. lia.
Qed.

Lemma blpop_told_as_lpop_witness :
  let blocked := match blpop (fun _ => false) 1%nat 0 (lit "l") empty_state with Done (s, _) => s | Panic => empty_state end in
  let s' := (push (fun _ => true) 5 (lit "l") [lit "a"; lit "b"] Right blocked).1.1 in
  list_seen 9 (lpops [7] (lit "l") (push (fun _ => true) 6 (lit "l") [lit "a"; lit "b"] Right empty_state).1.1)
    (lit "l") = list_seen 9 s' (lit "l").
Proof.
  intros blocked s'.
  destruct (blpop_spec (fun _ => false) 1%nat 0 (lit "l") empty_state Wf_empty eq_refl)
    as (s1 & r1 & E1 & [W1 _] & _).
  assert (blocked = s1) as Hb by (unfold blocked; by rewrite E1).
  assert (Wf blocked) as W by (by rewrite Hb).
  destruct (push (fun _ => true) 5 (lit "l") [lit "a"; lit "b"] Right blocked) as [[s2 given] r] eqn:E.
  change s' with s2.
  assert (exists n, r = Ok n) as [n ->] by (revert E; vm_compute; intros [= _ _ <-]; by eexists).
  apply (proj2 (blpop_told_as_lpop (fun _ => true) (fun _ => false) 1%nat 5 (lit "l") blocked W eq_refl)
    [lit "a"; lit "b"] Right s2 given n empty_state (fun _ => true) 6 [7]); try done.
  revert E. vm_compute. by intros [= _ <- _].
Defined.

(** ** What the words leave out

    [XADD] with [*] is told as it came in: played back by a clock that reads
    otherwise, it makes another entry. *)
Definition at_clock (c : Z) : Moment :=
  {| env := {| now := 7; clock := c; open := fun _ => true; closed := fun _ => false;
               held := fun _ => true; new_waiter := 0; new_watcher := 0 |};
     alive := fun _ => true; ended := fun _ => false; append := Appended None |}.

Lemma auto_id_told_as_star :
  let c := command_of ["XADD"; "s"; "*"; "f"; "v"] in
  let made clock := (dispatch_ (at_clock clock) c insider trial_world).2 in
  made 1000 = Replied (BulkString (lit "1000-0"))
  /\ written_down c (BulkString (lit "1000-0")) = Some (request_of ["XADD"; "s"; "*"; "f"; "v"])
  /\ made 2000 = Replied (BulkString (lit "2000-0")).
Proof. vm_compute. split_and!; reflexivity. Qed.

(** An [LPOP] that finds nothing changes nothing, and is told all the same. *)
Lemma empty_pop_is_told :
  let r := dispatch_ trial_moment (command_of ["LPOP"; "nothing"]) insider trial_world in
  r.2 = Replied Null /\ files r.1.1.2 !! lit "f" = Some (encode (request_of ["LPOP"; "nothing"])).
Proof. vm_compute. split; reflexivity. Qed.
