(* ===== verification/Connection.v ===== *)
(** * Connections: src/src/connection.rs

    [serve] reads what a client sends, runs every whole request in it and answers
    each; [keep_up_to_date] is what a connection turns into once its client has
    become a replica.  A connection is what it has read and not made sense of, and
    its client; the requests it has run are counted, and the [n]th is run at the
    moments [moments n].  Bytes written are taken to arrive: a write that fails
    ends the connection, as hanging up does. *)
From S2P Require Import Prelude Text Resp Store Command StoreCommands Geo Users Channels.
From S2P Require Import Config Replicas Transactions Aof Dispatch.
Open Scope Z_scope.

(** How a connection stands: being served; gone, after a protocol error; handed
    over to replication; or waiting, or lost to a panic, in the middle of a
    request. *)
Inductive Standing : Type :=
| Serving
| HungUp
| Following
| Waiting (p : Pending) (asked : Command) (part_of : option (list Value * list Command))
| Lost.

Record Connection := {
  buf : Bytes;
  client : Client;
  ran : nat;
  written : list Bytes;
  standing : Standing;
}.

Section Serving.
Context `{UnicodeTables} `{Trig} `{PasswordHash} (moments : nat -> nat -> Moment).

(** A client as it arrives, known to the channels by [l]: [serve] up to its
    loop. *)
Definition arrive (l : listener) (w : World) : Connection :=
  {| buf := [];
     client := {| transaction := no_transaction; subscriptions := subscriptions_of l;
                  identity := new_identity (users (server w)); outside := false |};
     ran := O; written := []; standing := Serving |}.

Definition protocol_error (e : ParseError) : Value :=
  Error (lit "ERR Protocol error: " ++ show_parse_error e).

(** The inner loop of [serve], which runs what has been read as far as it goes.
    A request takes up a byte at least. *)
Fixpoint drain (fuel : nat) (c : Connection) (w : World) : Connection * World * list Heard :=
  match fuel with
  | O => (c, w, [])
  | S fuel =>
      match parse (buf c) with
      | Ok None => (c, w, [])
      | Err e =>
          ({| buf := buf c; client := client c; ran := ran c;
              written := written c ++ [encode (protocol_error e)]; standing := HungUp |}, w, [])
      | Ok (Some (request, consumed)) =>
          let rest := drop (Z.to_nat consumed) (buf c) in
          let '(cl, w, heard, p) := run (moments (ran c)) request (client c) w in
          let leave standing written :=
            {| buf := rest; client := cl; ran := S (ran c); written := written;
               standing := standing |} in
          match p with
          | Answers (Reply reply) =>
              let '(c, w, heard') := drain fuel (leave Serving (written c ++ [encode reply])) w in
              (c, w, heard ++ heard')
          | Answers (ReplicaFrom reply) =>
              (leave Following (written c ++ [encode reply]), w, heard)
          | WaitsOn p asked part_of => (leave (Waiting p asked part_of) (written c), w, heard)
          | Crashes => (leave Lost (written c), w, heard)
          end
      end
  end.

Definition with_buf (c : Connection) (bytes : Bytes) : Connection :=
  {| buf := bytes; client := client c; ran := ran c; written := written c; standing := standing c |}.

(** The outer loop of [serve], on what one read brings.  A connection that is
    not being served keeps what arrives for whoever takes it up. *)
Definition read (bytes : Bytes) (c : Connection) (w : World) : Connection * World * list Heard :=
  let c := with_buf c (buf c ++ bytes) in
  match standing c with
  | Serving => drain (S (length (buf c))) c w
  | _ => (c, w, [])
  end.

(** A message published elsewhere, handed on as it stands. *)
Definition deliver (message : Bytes) (c : Connection) : Connection :=
  {| buf := buf c; client := client c; ran := ran c; written := written c ++ [message];
     standing := standing c |}.

(** What becomes of a client's subscriptions when its connection ends. *)
Definition close (c : Connection) (w : World) : World :=
  with_channels w (drop_subscriptions (subscriptions (client c)) (channels (server w))).

(** ** Facts *)
Lemma drain_fuel fuel fuel' c w :
  (length (buf c) < fuel)%nat -> (length (buf c) < fuel')%nat -> drain fuel c w = drain fuel' c w.
Proof.
  revert fuel' c w; induction fuel as [|fuel IH]; intros fuel' c w Hf Hf'; [lia|].
  destruct fuel' as [|fuel']; [lia|]. cbn [drain].
  destruct (parse (buf c)) as [[[request consumed]|]|e] eqn:E; [|done|done].
  apply parse_takes in E. destruct (run _ _ _ _) as [[[cl w1] heard] p].
  destruct p as [[reply|reply]| |]; try done.
  rewrite (IH fuel'); [done|cbn [buf]; rewrite length_drop; unfold len in E; lia..].
Qed.

Lemma drain_more fuel c w more :
  standing c = Serving -> (length (buf c ++ more) < fuel)%nat ->
  drain fuel (with_buf c (buf c ++ more)) w
  = let '(c, w, heard) := drain fuel c w in
    let '(c, w, heard') := read more c w in (c, w, heard ++ heard').
Proof.
  revert c w; induction fuel as [|fuel IH]; intros c w Hs Hf; [lia|].
  cbn [drain]. cbn [buf client ran written standing with_buf].
  pose proof (parse_stable (buf c) more) as Hp.
  destruct (parse (buf c)) as [[[request consumed]|]|e] eqn:E.
  - rewrite Hp. apply parse_takes in E. unfold len in E. cbn [client ran written].
    rewrite drop_app_le by lia.
    destruct (run _ _ _ _) as [[[cl w1] heard] p]. rewrite length_app in Hf.
    destruct p as [[reply|reply]| |]; try (unfold read; cbn; by rewrite app_nil_r).
    set (c1 := {| buf := drop (Z.to_nat consumed) (buf c); client := cl; ran := S (ran c);
                  written := written c ++ [encode reply]; standing := Serving |}).
    specialize (IH c1 w1 eq_refl). cbn [buf c1] in IH.
    change {| buf := drop (Z.to_nat consumed) (buf c) ++ more; client := cl; ran := S (ran c);
              written := written c ++ [encode reply]; standing := Serving |}
      with (with_buf c1 (drop (Z.to_nat consumed) (buf c) ++ more)).
    rewrite IH by (rewrite length_app, length_drop; lia).
    destruct (drain fuel c1 w1) as [[c2 w2] heard2].
    destruct (read more c2 w2) as [[c3 w3] heard3]. by rewrite app_assoc.
  - unfold read. cbn [with_buf standing buf]. rewrite ?Hs. cbn [with_buf standing buf].
    rewrite (drain_fuel (S (length (buf c ++ more))) (S fuel)) by (cbn [buf with_buf]; lia).
    cbn [drain buf with_buf client ran written standing]. rewrite ?Hs.
    destruct (match parse (buf c ++ more) with Ok _ => _ | Err _ => _ end) as [[c2 w2] h2]. done.
  - rewrite Hp. unfold read. cbn. done.
Qed.

End Serving.

(** C15. How the bytes of a client arrive makes no difference: requests split
    anywhere, or many sent at once, are run and answered as if the whole had come
    in one read -- the same requests in the same order on the same store, with
    the same bytes written back -- and the same goes for where the connection
    ends up: still served, hung up on after a protocol error, handed over to
    replication or waiting, with the same bytes left unread. *)
Theorem pieces_make_no_difference `{UnicodeTables} `{Trig} `{PasswordHash} moments first second c w :
  read moments (first ++ second) c w
  = let '(c1, w1, heard1) := read moments first c w in
    let '(c2, w2, heard2) := read moments second c1 w1 in
    (c2, w2, heard1 ++ heard2).
Proof.
  unfold read at 1 2. cbn [standing with_buf buf].
  destruct (standing c) eqn:Es.
  1: { rewrite app_assoc. set (c0 := with_buf c (buf c ++ first)).
       change (with_buf c ((buf c ++ first) ++ second)) with (with_buf c0 (buf c0 ++ second)).
       change ((buf c ++ first) ++ second) with (buf c0 ++ second).
       change (buf c ++ first) with (buf c0).
       rewrite drain_more by (cbn; (done || lia)).
       rewrite (drain_fuel moments (S (length (buf c0 ++ second))) (S (length (buf c0))))
         by (rewrite ?length_app; lia). done. }
  all: unfold read; cbn [standing with_buf buf]; rewrite Es; cbn [standing with_buf buf client ran written];
    by rewrite <- app_assoc.
Qed.

Lemma pieces_show :
  let '(c, _, _) := @read plain_tables plain_trig plain_hash (fun _ _ => trial_moment)
     (encode (request_of ["AUTH"; "secret"]) ++ encode (request_of ["PING"]) ++ lit "?what" ++ CRLF)
     (arrive 0 trial_world) trial_world in
  written c = [encode OK; encode (SimpleString (lit "PONG"));
               encode (protocol_error (UnknownType "?"))]
  /\ standing c = HungUp.
Proof. vm_compute. split; reflexivity. Qed.

(** ** A connection that has become a replica's *)

(** [how_far]. *)
Definition how_far (said : Value) : option Z :=
  match said with
  | Array [BulkString nm; BulkString ack; BulkString offset] =>
      if negb (eq_ignore_ascii_case nm (lit "REPLCONF")) || negb (eq_ignore_ascii_case ack (lit "ACK"))
      then None
      else match text offset with Some t => ok (parse_u64 t) | None => None end
  | _ => None
  end.

(** The loop of [keep_up_to_date] over what the replica has said: what is left
    unread, and the replicas as they stand then. *)
Fixpoint make_sense (fuel : nat) (me : nat) (heard : Bytes) (rs : list Replica)
  : result (Bytes * list Replica) ParseError :=
  match fuel with
  | O => Ok (heard, rs)
  | S fuel =>
      try? r <- parse heard;
      match r with
      | None => Ok (heard, rs)
      | Some (said, consumed) =>
          make_sense fuel me (drop (Z.to_nat consumed) heard)
            (match how_far said with Some offset => note_reached me offset rs | None => rs end)
      end
  end.

(** [keep_up_to_date] on what one read brings, and on a change that is waiting
    for the replica: the bytes it writes. *)
Definition replica_says (me : nat) (bytes heard : Bytes) (rs : list Replica)
  : result (Bytes * list Replica) ParseError :=
  make_sense (S (length (heard ++ bytes))) me (heard ++ bytes) rs.
Fixpoint next_change (me : nat) (rs : list Replica) : option (Bytes * list Replica) :=
  match rs with
  | [] => None
  | r :: rs =>
      if Nat.eqb (replica_id r) me then
        match queue r with
        | [] => None
        | change :: rest =>
            Some (change, {| replica_id := replica_id r; queue := rest; reached := reached r |} :: rs)
        end
      else match next_change me rs with
           | Some (change, rs) => Some (change, r :: rs)
           | None => None
           end
  end.
