(* ===== verification/ReplicaSide.v ===== *)
(** * The replica's side: src/src/replica.rs

    [follow] agrees with a master on how to go on, takes its dataset, and then
    does what the master tells it ([keep_up]).  A [Conversation] is what has been
    heard and not made sense of, what each read to come is to bring, and what has
    been said; a master that hangs up, or answers otherwise than it should, ends
    it.  What is kept here is the constructor of the error ([Refusal]), not its
    text.  [Joining] has the two sides meet. *)
From S2P Require Import Prelude Text Resp Store Command StoreCommands Geo Users Channels.
From S2P Require Import Config Replicas Transactions Aof Dispatch Connection.
Open Scope Z_scope.

(** ** The handshake *)

Inductive Refusal : Type :=
| CouldNotConnect
| Malformed (e : ParseError)
| Unexpected (said : Value)
| NotAFile (line : Bytes)
| BadNumber (text : Bytes)
| LengthOverflows
| MasterHungUp.

(** The first line of a file: [heard.windows(2).position(..)] with what comes
    before it. *)
Definition file_header (heard : Bytes) : result (option (Z * Z)) Refusal :=
  match line heard with
  | None => Ok None
  | Some (before, _) =>
      match strip_prefix (lit "$") before with
      | None => Err (NotAFile before)
      | Some length =>
          match text length with
          | None => Err (BadNumber length)
          | Some t =>
              match parse_usize t with
              | Ok n => Ok (Some (n, len before + 2))
              | Err _ => Err (BadNumber length)
              end
          end
      end
  end.

(** A read that brings nothing, or fails, is a master that has hung up; so is the
    end of [to_come]. *)
Record Conversation := {
  unread : Bytes;
  to_come : list Bytes;
  spoken : list Bytes;
}.

(** What is done in a conversation: it may end it. *)
Definition Talk (A : Type) : Type := Conversation -> result A Refusal * Conversation.
Definition tret {A} (a : A) : Talk A := fun t => (Ok a, t).
Definition refuse {A} (e : Refusal) : Talk A := fun t => (Err e, t).
Definition tbind {A B} (m : Talk A) (k : A -> Talk B) : Talk B :=
  fun t => match m t with (Ok a, t) => k a t | (Err e, t) => (Err e, t) end.
Notation "'talk!' x <- m ; k" := (tbind m (fun x => k))
  (at level 10, x pattern, m at level 100, k at level 200).

(** [Conversation::connect], to a master reached or not. *)
Definition connect (reached : option (list Bytes)) : result Conversation Refusal :=
  match reached with
  | None => Err CouldNotConnect
  | Some reads => Ok {| unread := []; to_come := reads; spoken := [] |}
  end.

(** [Conversation::fill]. *)
Definition fill : Talk unit := fun t =>
  match to_come t with
  | [] => (Err MasterHungUp, t)
  | [] :: reads => (Err MasterHungUp, {| unread := unread t; to_come := reads; spoken := spoken t |})
  | bytes :: reads => (Ok tt, {| unread := unread t ++ bytes; to_come := reads; spoken := spoken t |})
  end.

(** The loops of [hear] and [take_file], which read more until they find what they
    are looking for in what has been heard.  A read takes one of [to_come], and
    without any there is nobody to read from. *)
Fixpoint until_in {A} (fuel : nat) (found : Bytes -> result (option A) Refusal) : Talk A := fun t =>
  match found (unread t) with
  | Err e => (Err e, t)
  | Ok (Some a) => (Ok a, t)
  | Ok None =>
      match fuel with
      | O => (Err MasterHungUp, t)
      | S fuel => (talk! _ <- fill; until_in fuel found) t
      end
  end.
Definition until {A} (found : Bytes -> result (option A) Refusal) : Talk A :=
  fun t => until_in (length (to_come t)) found t.

(** [self.heard.advance(..)]. *)
Definition advance_by (n : Z) : Talk unit := fun t =>
  (Ok tt, {| unread := drop (Z.to_nat n) (unread t); to_come := to_come t; spoken := spoken t |}).

(** [self.stream.write_all(..)]. *)
Definition write (bytes : Bytes) : Talk unit := fun t =>
  (Ok tt, {| unread := unread t; to_come := to_come t; spoken := spoken t ++ [bytes] |}).

(** [Conversation::hear]: the value, and how many bytes it took. *)
Definition a_value (heard : Bytes) : result (option (Value * Z)) Refusal :=
  match parse heard with Ok r => Ok r | Err e => Err (Malformed e) end.
Definition hear : Talk (Value * Z) :=
  talk! (reply, consumed) <- until a_value;
  talk! _ <- advance_by consumed;
  tret (reply, consumed).

(** [Conversation::ask] and [Conversation::say]. *)
Definition ask (command : list Bytes) : Talk Value :=
  talk! _ <- write (encode (as_command command));
  talk! (reply, _) <- hear;
  tret reply.
Definition say (command : list Bytes) (expected : Bytes) : Talk unit :=
  talk! reply <- ask command;
  match reply with
  | SimpleString s => if s =b? expected then tret tt else refuse (Unexpected reply)
  | _ => refuse (Unexpected reply)
  end.

(** [Conversation::take_file].  Where [header + length] does not fit a [usize] the
    source panics: at the sum, or, in a build that lets it wrap, at [split_to],
    which is asked for more than there is. *)
Definition take_file : Talk Bytes :=
  talk! (length, header) <- until file_header;
  if USIZE_MAX <? header + length then refuse LengthOverflows
  else
    talk! _ <- until (fun heard => Ok (if len heard <? header + length then None else Some tt));
    fun t => (Ok (take (Z.to_nat length) (drop (Z.to_nat header) (unread t))),
              {| unread := drop (Z.to_nat (header + length)) (unread t); to_come := to_come t;
                 spoken := spoken t |}).

(** The agreement: where in the master's history the replica is to start. *)
Definition agreed_from (reply : Value) : result Z Refusal :=
  match reply with
  | SimpleString agreement =>
      match (match strip_prefix (lit "FULLRESYNC ") agreement with
             | Some handover => split_once " "%byte handover
             | None => None
             end) with
      | Some (_, from) =>
          match parse_u64 from with Ok n => Ok n | Err _ => Err (BadNumber from) end
      | None => Err (Unexpected reply)
      end
  | _ => Err (Unexpected reply)
  end.

(** [follow], up to where it keeps up: what the replica says to introduce itself,
    each with what it expects to hear, and its request for the history. *)
Definition greetings (listening : Z) : list (list Bytes * Bytes) :=
  [([lit "PING"], lit "PONG");
   ([lit "REPLCONF"; lit "listening-port"; show listening], lit "OK");
   ([lit "REPLCONF"; lit "capa"; lit "psync2"], lit "OK")].
Definition asking_to_sync : list Bytes := [lit "PSYNC"; lit "?"; lit "-1"].

Fixpoint say_all (commands : list (list Bytes * Bytes)) : Talk unit :=
  match commands with
  | [] => tret tt
  | (command, expected) :: commands => talk! _ <- say command expected; say_all commands
  end.
Definition agree (listening : Z) : Talk (Z * Bytes) :=
  talk! _ <- say_all (greetings listening);
  talk! reply <- ask asking_to_sync;
  match agreed_from reply with
  | Err e => refuse e
  | Ok from => talk! dataset <- take_file; tret (from, dataset)
  end.

(** ** Keeping up *)

(** [asks_how_far]. *)
Definition asks_how_far (command : Value) : bool :=
  match command with
  | Array (BulkString nm :: BulkString option :: _) =>
      eq_ignore_ascii_case nm (lit "REPLCONF") && eq_ignore_ascii_case option (lit "GETACK")
  | _ => false
  end.

Definition acknowledgement (offset : Z) : Value :=
  as_command [lit "REPLCONF"; lit "ACK"; show offset].

(** How a replica stands: keeping up; gone, its master having said something out
    of shape; waiting in the middle of a command, so many bytes long, or lost to a
    panic there. *)
Inductive Upkeep : Type :=
| KeepingUp
| Misled (e : ParseError)
| Stuck (p : Pending) (asked : Command) (part_of : option (list Value * list Command)) (length : Z)
| Fallen.

Record Follower := {
  heard : Bytes;
  at_ : Z;
  self : Client;
  done_ : nat;
  said : list Bytes;
  upkeep : Upkeep;
}.

(** The client a replica runs its master's commands as, on channels of its own. *)
Definition trusted_client (l : listener) : Client :=
  {| transaction := no_transaction; subscriptions := subscriptions_of l; identity := trusted; outside := true |}.

Section KeepingUp.
Context `{UnicodeTables} `{Trig} `{PasswordHash} (moments : nat -> nat -> Moment).

(** One command of the master's, [length] bytes long: the body of the loop of
    [keep_up]. *)
Definition obey (command : Value) (length : Z) (rest : Bytes) (f : Follower) (w : World)
  : Follower * World :=
  let next cl answers up moved :=
    {| heard := rest; at_ := if moved : bool then wrap_u64 (at_ f + length) else at_ f; self := cl;
       done_ := S (done_ f); said := said f ++ answers; upkeep := up |} in
  if asks_how_far command
  then (next (self f) [encode (acknowledgement (at_ f))] KeepingUp true, w)
  else
    let '(cl, w, _, p) := run (moments (done_ f)) command (self f) w in
    match p with
    | Answers _ => (next cl [] KeepingUp true, w)
    | WaitsOn p asked part_of => (next cl [] (Stuck p asked part_of length) false, w)
    | Crashes => (next cl [] Fallen false, w)
    end.

(** The loop of [keep_up], over what has been heard. *)
Fixpoint keep_up (fuel : nat) (f : Follower) (w : World) : Follower * World :=
  match fuel, upkeep f with
  | S fuel, KeepingUp =>
      match parse (heard f) with
      | Ok None => (f, w)
      | Err e =>
          ({| heard := heard f; at_ := at_ f; self := self f; done_ := done_ f; said := said f;
              upkeep := Misled e |}, w)
      | Ok (Some (command, length)) =>
          let '(f, w) := obey command length (drop (Z.to_nat length) (heard f)) f w in
          keep_up fuel f w
      end
  | _, _ => (f, w)
  end.

(** What one read brings. *)
Definition hear_more (bytes : Bytes) (f : Follower) (w : World) : Follower * World :=
  let heard := heard f ++ bytes in
  keep_up (S (length heard))
    {| heard := heard; at_ := at_ f; self := self f; done_ := done_ f; said := said f;
       upkeep := upkeep f |} w.

(** What the replica was stuck on has come, or its time is up, and is answered with
    this: the command is done with, and what has been heard since is kept up with. *)
Definition unstuck (reply : Value) (f : Follower) (w : World) : Follower * World :=
  match upkeep f with
  | Stuck _ asked part_of length =>
      let '(cl, w, _, p) := resume (moments (done_ f)) asked part_of reply (self f) w in
      let next up moved :=
        {| heard := heard f; at_ := if moved : bool then wrap_u64 (at_ f + length) else at_ f; self := cl;
           done_ := S (done_ f); said := said f; upkeep := up |} in
      match p with
      | Answers _ => keep_up (S (Datatypes.length (heard f))) (next KeepingUp true) w
      | WaitsOn p asked part_of => (next (Stuck p asked part_of length) false, w)
      | Crashes => (next Fallen false, w)
      end
  | _ => (f, w)
  end.

(** The commands themselves, one after the other. *)
Fixpoint obey_all (commands : list Value) (f : Follower) (w : World) : Follower * World :=
  match commands, upkeep f with
  | command :: commands, KeepingUp =>
      let '(f, w) := obey command (len (encode command)) (flat_map encode commands) f w in
      obey_all commands f w
  | _, _ => (f, w)
  end.

(** The reads to come, up to where the master hangs up. *)
Fixpoint hear_all (reads : list Bytes) (f : Follower) (w : World) : Follower * World :=
  match reads with
  | [] | [] :: _ => (f, w)
  | bytes :: reads => let '(f, w) := hear_more bytes f w in hear_all reads f w
  end.

Definition as_heard (bytes : Bytes) (at_ : Z) (cl : Client) : Follower :=
  {| heard := bytes; at_ := at_; self := cl; done_ := O; said := []; upkeep := KeepingUp |}.

(** [follow]: everything said to the master, and how the replica stood when it hung
    up, or why it was not followed that far.  The dataset is only told the length
    of. *)
Definition follow (reached : option (list Bytes)) (listening : Z) (l : listener) (w : World)
  : result Follower Refusal * list Bytes * World :=
  match connect reached with
  | Err e => (Err e, [], w)
  | Ok t =>
      match agree listening t with
      | (Err e, t) => (Err e, spoken t, w)
      | (Ok (from, dataset), t) =>
          let '(f, w) := hear_more [] (as_heard (unread t) from (trusted_client l)) w in
          let '(f, w) := hear_all (to_come t) f w in
          (Ok f, spoken t ++ said f, w)
      end
  end.

(** ** Facts *)
Lemma keep_up_obeys commands fuel f w :
  Forall (wire MAX_DEPTH) commands -> heard f = flat_map encode commands ->
  (length (flat_map encode commands) < fuel)%nat ->
  keep_up fuel f w = obey_all commands f w.
Proof.
  revert fuel f w; induction commands as [|v commands IH]; intros fuel f w Hw Hh Hf.
  - destruct fuel as [|fuel]; [lia|]. cbn [keep_up obey_all]. rewrite Hh.
    by destruct (upkeep f).
  - inversion Hw as [|? ? Hv Hws]; subst. destruct fuel as [|fuel]; [lia|]. cbn [keep_up obey_all].
    destruct (upkeep f); try done. rewrite Hh. cbn [flat_map]. rewrite parse_whole by done.
    replace (Z.to_nat (len (encode v))) with (length (encode v)) by (unfold len; lia).
    rewrite drop_app_length.
    assert (heard (obey v (len (encode v)) (flat_map encode commands) f w).1 = flat_map encode commands) as Hr.
    { unfold obey. destruct (asks_how_far v); [done|].
      destruct (run _ _ _ _) as [[[cl w1] h] p]. by destruct p. }
    destruct (obey v _ _ f w) as [f1 w1]. cbn [fst] in Hr.
    apply IH; [done|done|]. cbn [flat_map] in Hf. rewrite length_app in Hf.
    assert (3 <= len (encode v)); [|unfold len in *; lia].
    pose proof (parse_whole v [] Hv) as Hp. apply parse_takes in Hp. lia.
Qed.

(** A replica that is keeping up at the end was all along. *)
Lemma obey_all_up commands f w :
  upkeep (obey_all commands f w).1 = KeepingUp -> upkeep f = KeepingUp.
Proof. destruct commands; cbn [obey_all]; destruct (upkeep f) eqn:E; cbn; congruence. Qed.

Lemma obey_all_at commands f w :
  upkeep (obey_all commands f w).1 = KeepingUp -> heard f = flat_map encode commands ->
  0 <= at_ f <= U64_MAX ->
  heard (obey_all commands f w).1 = []
  /\ at_ (obey_all commands f w).1 = wrap_u64 (at_ f + len (flat_map encode commands)).
Proof.
  revert f w; induction commands as [|v commands IH]; intros f w Hup Hh Hat.
  - assert (obey_all [] f w = (f, w)) as -> by (by destruct (upkeep f)). split; [done|].
    cbn [fst flat_map]. rewrite len_nil, Z.add_0_r. unfold wrap_u64, U64_MAX in *.
    rewrite Z.mod_small; lia.
  - cbn [obey_all] in *. destruct (upkeep f) eqn:Eu; try (cbn in Hup; congruence).
    assert (heard (obey v (len (encode v)) (flat_map encode commands) f w).1 = flat_map encode commands
            /\ (upkeep (obey v (len (encode v)) (flat_map encode commands) f w).1 = KeepingUp ->
                at_ (obey v (len (encode v)) (flat_map encode commands) f w).1
                = wrap_u64 (at_ f + len (encode v)))) as [Hr Hm].
    { unfold obey. destruct (asks_how_far v); [done|].
      destruct (run _ _ _ _) as [[[cl w1] h] p]. by destruct p. }
    destruct (obey v _ _ f w) as [f1 w1]. cbn [fst] in *.
    pose proof (obey_all_up _ _ _ Hup) as Eu1.
    specialize (Hm Eu1).
    destruct (IH f1 w1 Hup Hr) as [E1 E2].
    { rewrite Hm. pose proof (Z.mod_pos_bound (at_ f + len (encode v)) 18446744073709551616 ltac:(lia)).
      unfold wrap_u64, U64_MAX. lia. }
    split; [done|]. rewrite E2, Hm, wrap_u64_add. f_equal. cbn [flat_map]. rewrite len_app. lia.
Qed.

End KeepingUp.

(** ** What is promised *)

(** A replica stays in step with its master: what the master passes on, any
    commands in any number, reaches a replica as bytes that are read as exactly
    those commands, carried out in the order they were passed on; and a replica
    that started where the master stood has, once it is through them, counted to
    exactly where the master stands now, with nothing left unread. *)
Theorem replica_in_step `{UnicodeTables} `{Trig} `{PasswordHash} moments ended commands r a cl w :
  Forall (wire MAX_DEPTH) commands -> commands <> [] -> 0 <= offset r <= U64_MAX ->
  a ∈ following ended (replicas r) -> queue a = [] ->
  let r' := pass_all ended commands r in
  exists b, b ∈ replicas r' /\ replica_id b = replica_id a
  /\ let '(f, w') := hear_more moments (queued_bytes b) (as_heard [] (offset r) cl) w in
     (f, w') = obey_all moments commands (as_heard (flat_map encode commands) (offset r) cl) w
     /\ (upkeep f = KeepingUp -> heard f = [] /\ at_ f = offset r').
Proof.
  intros Hw Hne Ho Ha Hq r'. destruct (pass_all_stream ended commands r Hne) as (_ & Hqs & Hoff).
  fold r' in Hqs, Hoff. specialize (Hoff Ho).
  apply list_elem_of_lookup in Ha as [i Hi].
  destruct (Forall2_lookup_l _ _ _ _ _ Hqs Hi) as (b & Hb & Hid & _ & Hbytes).
  exists b. split; [by eapply list_elem_of_lookup_2|]. split; [done|].
  rewrite Hbytes. unfold queued_bytes. rewrite Hq. cbn [concat app].
  unfold hear_more. cbn [as_heard heard app].
  rewrite (keep_up_obeys moments commands) by (cbn [heard]; (done || lia)).
  pose proof (obey_all_at moments commands (as_heard (flat_map encode commands) (offset r) cl) w) as Hat.
  unfold as_heard in *. cbn [at_ self done_ said upkeep heard] in *.
  destruct (obey_all _ _ _ _) as [f w']. cbn [fst] in Hat. split; [done|]. intros Hup.
  destruct (Hat Hup eq_refl Ho) as [-> ->]. split; [done|]. rewrite Hoff.
  destruct (following ended (replicas r)); [done|done].
Qed.

Lemma replica_in_step_witness :
  let commands := [request_of ["INCR"; "n"]; as_command [lit "REPLCONF"; lit "GETACK"; lit "*"]] in
  let r := {| id := lit "x"; offset := 5;
              replicas := [{| replica_id := 1; queue := []; reached := 0 |}] |} in
  let f := (@obey_all plain_tables plain_trig plain_hash (fun _ _ => trial_moment) commands
              (as_heard (flat_map encode commands) 5 (trusted_client 0)) trial_world).1 in
  at_ f = offset (pass_all (fun _ => false) commands r)
  /\ said f = [encode (acknowledgement 26)].
Proof.
  intros commands r f.
  destruct (@replica_in_step plain_tables plain_trig plain_hash (fun _ _ => trial_moment)
    (fun _ => false) commands r {| replica_id := 1; queue := []; reached := 0 |} (trusted_client 0)
    trial_world) as (b & _ & _ & Hb).
  - repeat (apply Forall_cons; split; [vm_compute; repeat split; discriminate|]). apply Forall_nil_2.
  - by intros [=].
  - vm_compute. split; discriminate.
  - left.
  - done.
  - destruct (hear_more _ _ _ _) as [f' w']. destruct Hb as [Hf Hat].
    assert (f' = f) as -> by (apply (f_equal fst) in Hf; exact Hf).
    split; [apply Hat|]; vm_compute; reflexivity.
Defined.

(** *** Acknowledgements *)

Lemma how_far_acknowledgement n : 0 <= n <= U64_MAX -> how_far (acknowledgement n) = Some n.
Proof.
  intros Hn. unfold acknowledgement, as_command. cbn [map how_far].
  change (eq_ignore_ascii_case (lit "REPLCONF") (lit "REPLCONF")) with true.
  change (eq_ignore_ascii_case (lit "ACK") (lit "ACK")) with true. cbn [negb orb].
  rewrite text_show. unfold parse_u64. by rewrite parse_show by (done || lia).
Qed.

Lemma show_u64_short n : 0 <= n <= U64_MAX -> len (show n) <= 64.
Proof.
  intros Hn. unfold show. decide_leb. cbv iota. unfold show_unsigned.
  assert (Hloop : forall fuel m tail, len (show_loop fuel m tail) <= len tail + Z.of_nat fuel).
  { induction fuel as [|fuel IH]; intros m tail; cbn [show_loop]; [lia|].
    case_match; [rewrite len_cons; lia|]. etransitivity; [apply IH|]. rewrite len_cons. lia. }
  etransitivity; [apply Hloop|]. unfold show_nat_fuel. change (len []) with 0.
  pose proof (Z.log2_le_mono n U64_MAX ltac:(lia)) as Hlog.
  change (Z.log2 U64_MAX) with 63 in Hlog. pose proof (Z.log2_nonneg n). lia.
Qed.

Lemma wire_acknowledgement n : 0 <= n <= U64_MAX -> wire MAX_DEPTH (acknowledgement n).
Proof.
  intros Hn. apply wire_array. split; [by vm_compute|].
  apply Forall_cons; split; [by vm_compute|]. apply Forall_cons; split; [by vm_compute|].
  apply Forall_cons; split; [|apply Forall_nil_2].
  change (len (show n) <= MAX_BULK_LENGTH). pose proof (show_u64_short n Hn). unfold MAX_BULK_LENGTH. lia.
Qed.

Lemma note_reached_again me n m rs : note_reached me n (note_reached me m rs) = note_reached me n rs.
Proof.
  unfold note_reached. rewrite map_map. apply map_ext. intros r.
  destruct (Nat.eqb (replica_id r) me) eqn:E; cbn [replica_id queue]; by rewrite E.
Qed.

Lemma make_sense_acknowledgements me ns fuel rs :
  Forall (fun n => 0 <= n <= U64_MAX) ns ->
  (length (flat_map (fun n => encode (acknowledgement n)) ns) < fuel)%nat ->
  make_sense fuel me (flat_map (fun n => encode (acknowledgement n)) ns) rs
  = Ok ([], match last ns with Some n => note_reached me n rs | None => rs end).
Proof.
  intros Hn. revert fuel rs; induction Hn as [|n ns Hn Hns IH]; intros fuel rs Hf;
    (destruct fuel as [|fuel]; [lia|]); [done|].
  cbn [flat_map make_sense] in *. pose proof (wire_acknowledgement n Hn) as Hw.
  pose proof (parse_whole (acknowledgement n) [] Hw) as Ht. apply parse_takes in Ht.
  rewrite parse_whole by done. cbn [rbind].
  replace (Z.to_nat (len (encode (acknowledgement n)))) with (length (encode (acknowledgement n)))
    by (unfold len; lia).
  rewrite drop_app_length, how_far_acknowledgement by done.
  rewrite length_app in Hf. unfold len in Ht. rewrite IH by lia. rewrite last_cons.
  destruct (last ns); [|done]. by rewrite note_reached_again.
Qed.

(** A replica that says how far it has got is believed: whatever it
    acknowledges, once or many times over in one read, its master has it down as
    having reached what it said last, no other replica is touched, and nothing is
    left unread. *)
Theorem acknowledgements_noted me ns rs :
  Forall (fun n => 0 <= n <= U64_MAX) ns ->
  replica_says me (flat_map (fun n => encode (acknowledgement n)) ns) [] rs
  = Ok ([], map (fun r => match last ns with
                          | Some n => if Nat.eqb (replica_id r) me
                                      then {| replica_id := replica_id r; queue := queue r; reached := n |}
                                      else r
                          | None => r
                          end) rs).
Proof.
  intros Hn. unfold replica_says. cbn [app]. rewrite make_sense_acknowledgements by (done || lia).
  destruct (last ns); [done|]. by rewrite map_id.
Qed.

Lemma acknowledgements_noted_witness :
  replica_says 1 (flat_map (fun n => encode (acknowledgement n)) [14; 37]) []
    [{| replica_id := 1; queue := []; reached := 0 |}; {| replica_id := 2; queue := []; reached := 5 |}]
  = Ok ([], [{| replica_id := 1; queue := []; reached := 37 |}; {| replica_id := 2; queue := []; reached := 5 |}]).
Proof.
  apply (acknowledgements_noted 1 [14; 37]). repeat (apply Forall_cons; split; [by vm_compute|]).
  apply Forall_nil_2.
Defined.

(** A change passed on after the answer to a replica's [PSYNC] went out, and before
    the replica was taken on, reaches everybody but the new replica: it counts from
    the offset it was told, nothing is queued for it, and it is short of the master
    from then on. *)
Lemma change_slips_past :
  let r0 := {| Replicas.id := lit "history"; offset := 37;
               replicas := [{| replica_id := 1; queue := []; reached := 37 |}] |} in
  let none_ended := fun _ : nat => false in
  let told := replication_run none_ended 0 (lit "PSYNC") [lit "?"; lit "-1"] r0 in
  let r1 := pass_on none_ended (as_command [lit "SET"; lit "k"; lit "v"]) r0 in
  let r2 := with_replicas r1 (add_replica none_ended 2 (replicas r1)) in
  told = Some (r0, Replied (Sequence [SimpleString (lit "FULLRESYNC history 37"); File EMPTY_DATASET]))
  /\ map queue (replicas r2) = [[encode (as_command [lit "SET"; lit "k"; lit "v"])]; []]
  /\ offset r2 = 64.
Proof. vm_compute. split_and!; reflexivity. Qed.
