(* ===== verification/Joining.v ===== *)
(** * A replica joins its master

    The two sides of replication put together: [Connection.read], which is what a
    master does with what its replica says, and [ReplicaSide.follow], which is what
    the replica does with what its master says.  Everything the replica says to
    introduce itself is answered the way it expects, the answer to its [PSYNC] is
    read as the agreement and the file it is, and what is passed on after that is
    carried out as the commands it was -- however the bytes are cut into reads on
    either side ([replica_joins]). *)
From S2P Require Import Prelude Text Resp Store Command StoreCommands Geo Users Channels.
From S2P Require Import Config Replicas Transactions Aof Dispatch Connection ReplicaSide.
Open Scope Z_scope.

(** ** Conversations, however their bytes arrive *)

(** What the master is still to be heard saying, in reads that each bring
    something, and what has been said to it. *)
Definition stands (t : Conversation) (bytes : Bytes) (words : list Bytes) : Prop :=
  unread t ++ concat (to_come t) = bytes /\ Forall (fun read => read <> []) (to_come t)
  /\ spoken t = words.

(** Looking for something in what is heard finds it once the first [need] bytes
    have been, and not before. *)
Definition found_at {A} (found : Bytes -> result (option A) Refusal) (bytes : Bytes) (need : nat)
  (a : A) : Prop :=
  (need <= length bytes)%nat
  /\ forall p q, p ++ q = bytes -> found p = Ok (if Nat.leb need (length p) then Some a else None).

Lemma until_finds {A} found bytes need (a : A) t words :
  found_at found bytes need a -> stands t bytes words ->
  exists t', until found t = (Ok a, t') /\ stands t' bytes words /\ (need <= length (unread t'))%nat.
Proof.
  intros [Hlen Hf]. unfold until. destruct t as [u reads s].
  revert u; induction reads as [|read reads IH]; intros u (Hb & Hr & Hs); cbn in *;
    pose proof (Hf _ _ Hb) as Hu; rewrite Hu;
    (destruct (Nat.leb_spec need (length u)); [by eexists; split; [done|]|]).
  - subst bytes. rewrite app_nil_r in Hlen. lia.
  - inversion Hr as [|? ? Hne Hrs]; subst. destruct read as [|c read]; [done|]. cbn.
    apply (IH (u ++ c :: read)). split; [|done]. cbn. by rewrite <- app_assoc.
Qed.

Lemma stands_drop t bytes first more words :
  stands t bytes words -> bytes = first ++ more -> (length first <= length (unread t))%nat ->
  stands {| unread := drop (length first) (unread t); to_come := to_come t; spoken := spoken t |}
    more words.
Proof.
  intros (Hb & Hr & Hs) -> Hl. split; [|done]. cbn.
  rewrite <- drop_app_le by done. by rewrite Hb, drop_app_length.
Qed.

Lemma a_value_found v more :
  wire MAX_DEPTH v -> found_at a_value (encode v ++ more) (length (encode v)) (v, len (encode v)).
Proof.
  intros Hv. split; [rewrite length_app; lia|]. intros p q E. unfold a_value.
  pose proof (parse_stable p q) as Hp. rewrite E, parse_whole in Hp by done.
  destruct (Nat.leb_spec (length (encode v)) (length p)) as [Hle|Hlt].
  - destruct (parse p) as [[r|]|e] eqn:Ep; [by simplify_eq| |done].
    assert (p = encode v ++ drop (length (encode v)) p) as Hsplit.
    { rewrite <- (take_drop (length (encode v)) p) at 1. f_equal.
      rewrite <- (take_app_le p q) by done. by rewrite E, take_app_length. }
    by rewrite Hsplit, parse_whole in Ep.
  - destruct (parse p) as [[[u n]|]|e] eqn:Ep; [|done|done].
    injection Hp as -> Hn. apply parse_takes in Ep. unfold len in *. lia.
Qed.

Lemma hear_value v more t words :
  wire MAX_DEPTH v -> stands t (encode v ++ more) words ->
  exists t', hear t = (Ok (v, len (encode v)), t') /\ stands t' more words.
Proof.
  intros Hv Ht. destruct (until_finds _ _ _ _ _ _ (a_value_found v more Hv) Ht) as (t' & E & Ht' & Hl).
  unfold hear, tbind. rewrite E. eexists; split; [done|]. cbn.
  replace (Z.to_nat (len (encode v))) with (length (encode v)) by (unfold len; lia).
  by eapply stands_drop.
Qed.

Lemma ask_hears command reply more t words :
  wire MAX_DEPTH reply -> stands t (encode reply ++ more) words ->
  exists t', ask command t = (Ok reply, t')
             /\ stands t' more (words ++ [encode (as_command command)]).
Proof.
  intros Hv (Hb & Hr & Hs). unfold ask, tbind, write.
  edestruct (hear_value reply more) as (t' & -> & Ht'); [done| |by exists t'].
  split_and!; cbn; [done|done|by rewrite Hs].
Qed.

Lemma say_hears command s more t words :
  wire MAX_DEPTH (SimpleString s) -> stands t (encode (SimpleString s) ++ more) words ->
  exists t', say command s t = (Ok tt, t')
             /\ stands t' more (words ++ [encode (as_command command)]).
Proof.
  intros Hv Ht. destruct (ask_hears command _ _ _ _ Hv Ht) as (t' & E & Ht').
  exists t'. unfold say, tbind. rewrite E. unfold beq. by rewrite bool_decide_true.
Qed.

Lemma say_all_hears commands more t words :
  Forall (fun '(_, expected) => wire MAX_DEPTH (SimpleString expected)) commands ->
  stands t (flat_map (fun '(_, expected) => encode (SimpleString expected)) commands ++ more) words ->
  exists t', say_all commands t = (Ok tt, t')
             /\ stands t' more (words ++ map (fun '(command, _) => encode (as_command command)) commands).
Proof.
  intros Hw. revert t words; induction Hw as [|[command s] commands Hv _ IH]; intros t words Ht.
  - exists t. split; [done|]. by rewrite app_nil_r.
  - cbn [flat_map] in Ht. rewrite <- app_assoc in Ht.
    destruct (say_hears command s _ _ _ Hv Ht) as (t1 & E1 & Ht1).
    destruct (IH _ _ Ht1) as (t2 & E2 & Ht2). exists t2. cbn [say_all map]. unfold tbind. rewrite E1.
    split; [done|]. by rewrite <- app_assoc in Ht2.
Qed.

(** *** The file *)
Definition file_line (s : Bytes) : Bytes := lit "$" ++ show (len s) ++ CRLF.

Lemma file_header_found s more :
  len s <= USIZE_MAX ->
  found_at file_header (file_line s ++ s ++ more) (length (file_line s)) (len s, len (file_line s)).
Proof.
  intros Hs. pose proof (len_nonneg s). split; [rewrite length_app; lia|]. intros p q E.
  unfold file_header.
  assert (line (p ++ q) = Some ("$"%byte :: show (len s), s ++ more)) as Hl.
  { rewrite E. unfold file_line. rewrite <- !app_assoc. apply line_header; [done|apply line_show]. }
  assert (length (file_line s) = length ("$"%byte :: show (len s)) + 2)%nat as Hlen.
  { unfold file_line. rewrite !length_app. cbn. lia. }
  destruct (line p) as [[before after]|] eqn:Ep.
  - pose proof (line_app _ _ _ q Ep) as Hq. rewrite Hl in Hq. injection Hq as <- _.
    apply line_Some in Ep as [-> _].
    change (strip_prefix (lit "$") ("$"%byte :: show (len s))) with (Some (show (len s))). cbv iota beta.
    rewrite text_show. unfold parse_usize. rewrite parse_show by lia.
    replace (Nat.leb _ _) with true; [do 3 f_equal; unfold len at 1 3; lia|].
    symmetry. apply Nat.leb_le. rewrite Hlen, !length_app. change (length CRLF) with 2%nat. lia.
  - replace (Nat.leb _ _) with false; [done|]. symmetry. apply Nat.leb_gt.
    destruct (Nat.lt_ge_cases (length p) (length (file_line s))) as [|Hle]; [done|exfalso].
    assert (p = file_line s ++ drop (length (file_line s)) p) as Hsplit.
    { rewrite <- (take_drop (length (file_line s)) p) at 1. f_equal.
      rewrite <- (take_app_le p q) by done. by rewrite E, take_app_length. }
    rewrite Hsplit in Ep. unfold file_line in Ep. rewrite <- !app_assoc in Ep.
    by rewrite (line_header "$"%byte (show (len s)) _ ltac:(done) (line_show _)) in Ep.
Qed.

Lemma take_file_takes s more t words :
  len (file_line s) + len s <= USIZE_MAX -> stands t (encode (File s) ++ more) words ->
  exists t', take_file t = (Ok s, t') /\ stands t' more words.
Proof.
  intros Hs Ht. pose proof (len_nonneg s). pose proof (len_nonneg (file_line s)).
  assert (encode (File s) = file_line s ++ s) as He
    by (cbn [encode]; unfold file_line; by rewrite <- !app_assoc).
  rewrite He, <- app_assoc in Ht.
  destruct (until_finds _ _ _ _ _ _ (file_header_found s more ltac:(lia)) Ht) as (t1 & E1 & Ht1 & _).
  unfold take_file, tbind. rewrite E1. decide_leb.
  edestruct (until_finds (fun heard => Ok (if len heard <? len (file_line s) + len s then None else Some tt))
              (file_line s ++ s ++ more) (length (file_line s ++ s)) tt) as (t2 & E2 & Ht2 & Hl); [|done|].
  { split; [rewrite !length_app; lia|]. intros p q _. rewrite length_app. unfold len.
    destruct (Nat.leb_spec (length (file_line s) + length s) (length p)), (Z.ltb_spec (Z.of_nat (length p))
      (Z.of_nat (length (file_line s)) + Z.of_nat (length s))); (done || lia). }
  rewrite E2. destruct Ht2 as (Hb & Hr & Hw).
  replace (Z.to_nat (len (file_line s) + len s)) with (length (file_line s ++ s))
    by (rewrite length_app; unfold len; lia).
  replace (Z.to_nat (len (file_line s))) with (length (file_line s)) by (unfold len; lia).
  replace (Z.to_nat (len s)) with (length s) by (unfold len; lia).
  eexists; split.
  - do 2 f_equal. rewrite length_app in Hl.
    rewrite <- (take_app_le _ (concat (to_come t2)) (length s)) by (rewrite length_drop; lia).
    rewrite <- (drop_app_le _ (concat (to_come t2)) (length (file_line s))) by lia.
    by rewrite Hb, drop_app_length, take_app_length.
  - apply (stands_drop t2 (file_line s ++ s ++ more) (file_line s ++ s)); [done| |done].
    by rewrite <- app_assoc.
Qed.

(** *** The agreement *)
Definition introduction (listening : Z) : list Bytes :=
  map (fun command => encode (as_command command)) (map fst (greetings listening) ++ [asking_to_sync]).
Definition welcome (listening : Z) : Bytes :=
  flat_map (fun '(_, expected) => encode (SimpleString expected)) (greetings listening).

Lemma agree_hears listening agreement from dataset more t words :
  wire MAX_DEPTH (SimpleString agreement) -> agreed_from (SimpleString agreement) = Ok from ->
  len (file_line dataset) + len dataset <= USIZE_MAX ->
  stands t (welcome listening ++ encode (SimpleString agreement) ++ encode (File dataset) ++ more) words ->
  exists t', agree listening t = (Ok (from, dataset), t')
             /\ stands t' more (words ++ introduction listening).
Proof.
  intros Hw Hf Hd Ht. unfold agree, tbind.
  destruct (say_all_hears (greetings listening) _ t words ltac:(repeat (apply Forall_cons; split; [by vm_compute|]); apply Forall_nil_2) Ht) as (t1 & -> & Ht1).
  destruct (ask_hears asking_to_sync _ _ _ _ Hw Ht1) as (t2 & -> & Ht2). rewrite Hf.
  destruct (take_file_takes _ _ _ _ Hd Ht2) as (t3 & -> & Ht3).
  exists t3. split; [done|]. by rewrite <- app_assoc in Ht3.
Qed.

(** ** Keeping up, however the bytes arrive *)
Section KeepingUp.
Context `{UnicodeTables} `{Trig} `{PasswordHash} (moments : nat -> nat -> Moment).

Definition with_heard (f : Follower) (bytes : Bytes) : Follower :=
  {| heard := bytes; at_ := at_ f; self := self f; done_ := done_ f; said := said f;
     upkeep := upkeep f |}.

Lemma obey_rest command n rest f w :
  let f' := (obey moments command n rest f w).1 in
  heard f' = rest
  /\ forall rest', obey moments command n rest' f w
                   = (with_heard f' rest', (obey moments command n rest f w).2).
Proof.
  cbn zeta. unfold obey. destruct (asks_how_far command); [done|].
  destruct (run _ _ _ _) as [[[cl w1] h] p]. by destruct p.
Qed.

Lemma obey_heard command n rest f bytes w :
  obey moments command n rest (with_heard f bytes) w = obey moments command n rest f w.
Proof. done. Qed.

Lemma keep_up_fuel fuel fuel' f w :
  (length (heard f) < fuel)%nat -> (length (heard f) < fuel')%nat ->
  keep_up moments fuel f w = keep_up moments fuel' f w.
Proof.
  revert fuel' f w; induction fuel as [|fuel IH]; intros fuel' f w Hf Hf'; [lia|].
  destruct fuel' as [|fuel']; [lia|]. cbn [keep_up]. destruct (upkeep f); try done.
  destruct (parse (heard f)) as [[[command n]|]|e] eqn:E; [|done|done].
  apply parse_takes in E. unfold len in E.
  pose proof (obey_rest command n (drop (Z.to_nat n) (heard f)) f w) as [Hr _].
  destruct (obey _ _ _ _ _ _) as [f1 w1]. cbn [fst] in Hr.
  apply IH; rewrite Hr, length_drop; lia.
Qed.

Lemma keep_up_more fuel f w more :
  (length (heard f ++ more) < fuel)%nat ->
  keep_up moments fuel (with_heard f (heard f ++ more)) w
  = let '(f1, w1) := keep_up moments fuel f w in hear_more moments more f1 w1.
Proof.
  revert f w; induction fuel as [|fuel IH]; intros f w Hf; [lia|]. rewrite length_app in Hf.
  cbn [keep_up]. change (upkeep (with_heard f _)) with (upkeep f).
  change (heard (with_heard f (heard f ++ more))) with (heard f ++ more).
  destruct (upkeep f) eqn:Eu;
    try (unfold hear_more, with_heard; cbn [keep_up upkeep]; rewrite !Eu; reflexivity).
  pose proof (parse_stable (heard f) more) as Hp.
  destruct (parse (heard f)) as [[[command n]|]|e] eqn:E.
  - rewrite Hp. apply parse_takes in E. unfold len in E. rewrite drop_app_le by lia.
    pose proof (obey_rest command n (drop (Z.to_nat n) (heard f)) f w) as [Hr Ho].
    rewrite obey_heard, Ho. destruct (obey _ _ _ _ _ _) as [f1 w1]. cbn [fst snd] in *.
    rewrite <- Hr. apply IH. rewrite length_app, Hr, length_drop. lia.
  - unfold hear_more. rewrite (keep_up_fuel (S _) (S fuel)) by (cbn [heard]; rewrite ?length_app; lia).
    cbn [keep_up heard upkeep]. unfold with_heard; rewrite !Eu; reflexivity.
  - rewrite Hp. unfold hear_more. reflexivity.
Qed.

Lemma hear_more_twice first second f w :
  (let '(f1, w1) := hear_more moments first f w in hear_more moments second f1 w1)
  = hear_more moments (first ++ second) f w.
Proof.
  unfold hear_more at 1 3.
  set (f0 := with_heard f (heard f ++ first)).
  change {| heard := heard f ++ first; at_ := at_ f; self := self f; done_ := done_ f; said := said f;
            upkeep := upkeep f |} with f0.
  change {| heard := heard f ++ first ++ second; at_ := at_ f; self := self f; done_ := done_ f;
            said := said f; upkeep := upkeep f |} with (with_heard f0 (heard f ++ first ++ second)).
  replace (heard f ++ first ++ second) with (heard f0 ++ second) by (symmetry; apply app_assoc).
  rewrite keep_up_more by lia.
  rewrite (keep_up_fuel (S (length (heard f ++ first))) (S (length (heard f0 ++ second))));
    [done|cbn [f0 heard with_heard]; lia|rewrite length_app; lia].
Qed.

Lemma hear_all_once reads first f w :
  Forall (fun read => read <> []) reads ->
  (let '(f1, w1) := hear_more moments first f w in hear_all moments reads f1 w1)
  = hear_more moments (first ++ concat reads) f w.
Proof.
  intros Hr. revert first f w; induction Hr as [|read reads Hne _ IH]; intros first f w.
  - cbn [concat hear_all]. rewrite app_nil_r. by destruct (hear_more _ _ _ _).
  - cbn [concat]. rewrite app_assoc, <- IH, <- hear_more_twice.
    destruct (hear_more moments first f w) as [f1 w1]. by destruct read.
Qed.

End KeepingUp.

(** ** What the master answers *)
Section Master.
Context `{UnicodeTables} `{Trig} `{PasswordHash}.

Lemma as_command_parse words :
  words <> [] -> Forall (fun w => is_ascii w = true) words ->
  parse_command (as_command words)
  = Ok {| uppercased := map ascii_upper (hd [] words); name := hd [] words; args := tail words |}.
Proof.
  intros Hne Ha. destruct words as [|w words]; [done|]. inversion Ha; subst.
  unfold parse_command, as_command. rewrite into_parts_bulk. rewrite text_ascii by done.
  unfold to_uppercase. by replace (is_ascii w) with true.
Qed.

(** A client that is let in, listens to nothing and queues nothing. *)
Definition plain_client (cl : Client) : Prop :=
  authenticated (identity cl) = true /\ listening (subscriptions cl) = false
  /\ queued (transaction cl) = None.

(** A command that only asks is answered as its module answers it. *)
Lemma run_asking moments words cl w reply :
  let c := {| uppercased := map ascii_upper (hd [] words); name := hd [] words; args := tail words |} in
  plain_client cl -> words <> [] -> Forall (fun w => is_ascii w = true) words ->
  steers_a_transaction (uppercased c) = false -> (forall t s, steer (now (env (moments O))) c t s = None) ->
  run_against (moments O) c cl w = (cl, w, [], Replied reply) -> written_down c = (fun _ => None) ->
  run moments (as_command words) cl w = (cl, w, [], Answers (answer_to c reply)).
Proof.
  intros c (Hi & Hl & Hq) Hne Ha Hs Hst Hr Hw. unfold run.
  rewrite as_command_parse by done. fold c. rewrite Hi, Hl, Hs, Hq, Hst. cbn [negb andb].
  unfold dispatch, finish. rewrite Hr, Hw. by destruct (is_error reply).
Qed.

Lemma run_against_replication m c cl w out :
  uppercased c = lit "REPLCONF" \/ uppercased c = lit "PSYNC" ->
  replication_run (ended m) (now (env m)) (uppercased c) (args c) (replication (server w))
  = Some (replication (server w), out) ->
  run_against m c cl w = (cl, w, [], out).
Proof.
  intros Hc Hr. unfold run_against. rewrite Hr. by destruct Hc as [-> | ->], w as [? [] ?].
Qed.

Ltac words := repeat (apply Forall_cons; split; [first [reflexivity|apply show_ascii]|]); apply Forall_nil_2.

Lemma greetings_answered moments listening cl w :
  plain_client cl ->
  Forall (fun '(command, expected) =>
            run moments (as_command command) cl w
            = (cl, w, [], Answers (Reply (SimpleString expected)))) (greetings listening).
Proof.
  intros Hp. unfold greetings.
  repeat (apply Forall_cons; split); [..|apply Forall_nil_2];
    (eapply run_asking; [done|done|words|done|done| |done]).
  - unfold run_against, pubsub_run. destruct Hp as (_ & -> & _). by destruct w.
  - eapply run_against_replication; [by left|done].
  - eapply run_against_replication; [by left|done].
Qed.

Definition agreement (r : Replication) : Bytes :=
  lit "FULLRESYNC " ++ id r ++ lit " " ++ show (offset r).

Lemma sync_answered moments cl w :
  plain_client cl ->
  run moments (as_command asking_to_sync) cl w
  = (cl, w, [], Answers (ReplicaFrom
       (Sequence [SimpleString (agreement (replication (server w))); File EMPTY_DATASET]))).
Proof.
  intros Hp. apply (run_asking moments asking_to_sync cl w
    (Sequence [SimpleString (agreement (replication (server w))); File EMPTY_DATASET]));
    [done|done|words|done|done| |done].
  eapply run_against_replication; [by right|done].
Qed.

(** *** Its connection *)
Lemma drain_answered moments fuel v rest c w reply :
  wire MAX_DEPTH v -> buf c = encode v ++ rest ->
  run (moments (ran c)) v (client c) w = (client c, w, [], Answers (Reply reply)) ->
  drain moments (S fuel) c w
  = drain moments fuel {| buf := rest; client := client c; ran := S (ran c);
                          written := written c ++ [encode reply]; standing := Serving |} w.
Proof.
  intros Hv Hb Hr. cbn [drain]. rewrite Hb, parse_whole, Hr by done.
  replace (Z.to_nat (len (encode v))) with (length (encode v)) by (unfold len; lia).
  rewrite drop_app_length. by destruct (drain _ _ _ _) as [[? ?] ?].
Qed.

Lemma drain_answered_all moments commands rest fuel c w :
  Forall (fun '(command, _) => wire MAX_DEPTH (as_command command)) commands ->
  (forall n, Forall (fun '(command, expected) =>
     run (moments n) (as_command command) (client c) w
     = (client c, w, [], Answers (Reply (SimpleString expected)))) commands) ->
  standing c = Serving ->
  buf c = flat_map (fun '(command, _) => encode (as_command command)) commands ++ rest ->
  drain moments (length commands + fuel) c w
  = drain moments fuel
      {| buf := rest; client := client c; ran := ran c + length commands;
         written := written c ++ map (fun '(_, expected) => encode (SimpleString expected)) commands;
         standing := Serving |} w.
Proof.
  intros Hw. revert c; induction Hw as [|[command s] commands Hv _ IH]; intros c Hr Hs Hb.
  - cbn. rewrite app_nil_r, Nat.add_0_r. destruct c; cbn in *. by subst.
  - cbn [flat_map] in Hb. rewrite <- app_assoc in Hb. cbn [length Nat.add].
    erewrite drain_answered; [|done|done|pose proof (Hr (ran c)) as Hn; by inversion Hn].
    rewrite IH; cbn; [|intros n; pose proof (Hr n) as Hn; by inversion Hn|done|done].
    by rewrite <- app_assoc, <- plus_n_Sm.
Qed.

Lemma drain_handed_over moments fuel v rest c w reply :
  wire MAX_DEPTH v -> buf c = encode v ++ rest ->
  run (moments (ran c)) v (client c) w = (client c, w, [], Answers (ReplicaFrom reply)) ->
  drain moments (S fuel) c w
  = ({| buf := rest; client := client c; ran := S (ran c);
        written := written c ++ [encode reply]; standing := Following |}, w, []).
Proof.
  intros Hv Hb Hr. cbn [drain]. rewrite Hb, parse_whole, Hr by done.
  replace (Z.to_nat (len (encode v))) with (length (encode v)) by (unfold len; lia).
  by rewrite drop_app_length.
Qed.

End Master.

(** *** The agreement is what the replica takes it for *)
Lemma hex_plain c : c ∈ HEX -> (u8 c <? 0x80) = true /\ c <> " "%byte /\ c <> x0d.
Proof.
  unfold HEX. vm_compute (lit _). intros Hc.
  repeat (apply elem_of_cons in Hc as [->|Hc]; [by vm_compute; repeat split|]).
  by apply not_elem_of_nil in Hc.
Qed.

Lemma new_id_plain nanoseconds process :
  is_ascii (new_id nanoseconds process) = true /\ (" "%byte ∉ new_id nanoseconds process)
  /\ (x0d ∉ new_id nanoseconds process).
Proof.
  assert (Hhex : forall c, c ∈ new_id nanoseconds process -> c ∈ HEX)
    by (apply (id_digits_hex ID_LENGTH)).
  split_and!.
  - unfold is_ascii. apply forallb_forall. intros c Hc%list_elem_of_In. by apply hex_plain, Hhex.
  - intros Hc%Hhex%hex_plain. by destruct Hc as (_ & ? & _).
  - intros Hc%Hhex%hex_plain. by destruct Hc as (_ & _ & ?).
Qed.

Lemma free_of (c : byte) (s : Bytes) : forallb (fun d => negb (bool_decide (d = c))) s = true -> (c ∉ s).
Proof.
  rewrite forallb_forall. intros Hf Hc%list_elem_of_In. specialize (Hf c Hc).
  by rewrite bool_decide_true in Hf.
Qed.

Lemma agreement_wire r nanoseconds process :
  id r = new_id nanoseconds process -> wire MAX_DEPTH (SimpleString (agreement r)).
Proof.
  intros Hid. destruct (new_id_plain nanoseconds process) as (Hascii & _ & Hcr). rewrite <- Hid in *.
  split; [apply from_utf8_ascii|apply line_None_free]; unfold agreement.
  - rewrite !is_ascii_app, Hascii, show_ascii. done.
  - rewrite !elem_of_app. intros [Hc|[Hc|[Hc|Hc]]]; [|done| |].
    + by apply (free_of x0d (lit "FULLRESYNC ")).
    + by apply (free_of x0d (lit " ")).
    + revert Hc. unfold show. destruct (Z.ltb_spec (offset r) 0); [|by apply show_unsigned_free].
      intros [?|Hc]%elem_of_cons; [done|]. revert Hc. apply show_unsigned_free; [lia|done].
Qed.

Lemma agreement_from r nanoseconds process :
  id r = new_id nanoseconds process -> 0 <= offset r <= U64_MAX ->
  agreed_from (SimpleString (agreement r)) = Ok (offset r).
Proof.
  intros Hid Ho. destruct (new_id_plain nanoseconds process) as (_ & Hspace & _). rewrite <- Hid in *.
  unfold agreed_from, agreement. rewrite strip_prefix_app.
  change (lit " " ++ show (offset r)) with (" "%byte :: show (offset r)).
  rewrite split_once_app by done. unfold parse_u64. by rewrite parse_show by (done || lia).
Qed.

(** ** The two together *)

Lemma introduction_flat listening :
  concat (introduction listening)
  = flat_map (fun '(command, _) => encode (as_command command)) (greetings listening)
    ++ encode (as_command asking_to_sync).
Proof. unfold introduction, greetings. cbn [map flat_map concat app fst]. by rewrite !app_nil_r, <- !app_assoc. Qed.

Lemma introduction_wire listening :
  0 <= listening <= U16_MAX ->
  Forall (fun '(command, _) => wire MAX_DEPTH (as_command command)) (greetings listening).
Proof.
  intros Hl. repeat (apply Forall_cons; split); [by vm_compute| |by vm_compute|apply Forall_nil_2].
  apply wire_array. split; [by vm_compute|].
  repeat (apply Forall_cons; split); [by vm_compute|by vm_compute| |apply Forall_nil_2].
  change (len (show listening) <= MAX_BULK_LENGTH).
  pose proof (show_u64_short listening ltac:(unfold U16_MAX, U64_MAX in *; lia)).
  unfold MAX_BULK_LENGTH. lia.
Qed.

(** The master's connection once the replica has said all it says. *)
Definition taken_on (listening : Z) (c : Connection) (r : Replication) : Connection :=
  {| buf := []; client := client c; ran := ran c + 4;
     written := written c
       ++ map (fun '(_, expected) => encode (SimpleString expected)) (greetings listening)
       ++ [encode (Sequence [SimpleString (agreement r); File EMPTY_DATASET])];
     standing := Following |}.

Lemma introduction_heard `{UnicodeTables} `{Trig} `{PasswordHash} moments listening c w :
  0 <= listening <= U16_MAX -> plain_client (client c) -> standing c = Serving -> buf c = [] ->
  read moments (concat (introduction listening)) c w
  = (taken_on listening c (replication (server w)), w, []).
Proof.
  intros Hl Hp Hs Hb. unfold read. cbn [with_buf buf standing]. rewrite Hs, Hb. cbn [app].
  rewrite introduction_flat.
  set (bytes := _ ++ encode (as_command asking_to_sync)).
  assert (exists fuel, S (length bytes) = length (greetings listening) + S fuel)%nat as [fuel ->].
  { exists (length bytes - 3)%nat. cbn [greetings length]. enough (3 <= length bytes)%nat by lia.
    unfold bytes. rewrite length_app. enough (3 <= length (encode (as_command asking_to_sync)))%nat by lia.
    vm_compute. lia. }
  erewrite drain_answered_all; [|by apply introduction_wire| |done|done].
  2: { intros n. by apply greetings_answered. }
  rewrite (drain_handed_over moments fuel (as_command asking_to_sync) [] _ w
    (Sequence [SimpleString (agreement (replication (server w))); File EMPTY_DATASET]));
    [|vm_compute; repeat split; discriminate|by rewrite app_nil_r|by apply sync_answered].
  unfold taken_on. cbn [buf client ran written standing with_buf]. do 2 f_equal.
  rewrite <- app_assoc. do 2 f_equal. cbn [greetings length]. lia.
Qed.

(** A replica joins its master.  Everything a replica says to introduce itself
    is answered by the master, which changes nothing and hands the connection
    over to replication; and a replica that hears those answers, and after them any
    commands, in reads cut anywhere at all, has said exactly that and nothing
    else, has taken the file for the file it is, with not a byte of what comes
    after taken for part of it, and then carries out exactly those commands in
    order, counted from where the master's history stood. *)
Theorem replica_joins `{UnicodeTables} `{Trig} `{PasswordHash}
  moments listening nanoseconds process c w :
  0 <= listening <= U16_MAX -> plain_client (client c) -> standing c = Serving ->
  buf c = [] -> written c = [] ->
  id (replication (server w)) = new_id nanoseconds process ->
  0 <= offset (replication (server w)) <= U64_MAX ->
  exists c', read moments (concat (introduction listening)) c w = (c', w, [])
  /\ standing c' = Following /\ buf c' = []
  /\ forall moments' commands reads l mine,
     Forall (wire MAX_DEPTH) commands -> Forall (fun read => read <> []) reads ->
     concat reads = concat (written c') ++ flat_map encode commands ->
     let start := as_heard (flat_map encode commands) (offset (replication (server w))) (trusted_client l) in
     let '(f, mine') := obey_all moments' commands start mine in
     follow moments' (Some reads) listening l mine = (Ok f, introduction listening ++ said f, mine')
     /\ (upkeep f = KeepingUp ->
         heard f = []
         /\ at_ f = wrap_u64 (offset (replication (server w)) + len (flat_map encode commands))).
Proof.
  intros Hl Hp Hs Hb Hwr Hid Ho. eexists. split; [by apply introduction_heard|].
  split; [done|]. split; [done|]. cbn [taken_on written]. rewrite Hwr. clear c Hp Hs Hb Hwr.
  intros moments' commands reads l mine Hw Hr Hreads. set (start := as_heard _ _ _).
  set (r := replication (server w)) in *.
  edestruct (agree_hears listening (agreement r) (offset r) EMPTY_DATASET (flat_map encode commands)
    {| unread := []; to_come := reads; spoken := [] |} []) as (t & Ea & Hb & Hne & Hsp).
  - by eapply agreement_wire.
  - by eapply agreement_from.
  - by vm_compute.
  - split; [|done]. cbn [unread to_come app]. rewrite Hreads. unfold welcome.
    cbn [greetings map flat_map concat app encode]. by rewrite !app_nil_r, <- !app_assoc.
  - pose proof (obey_all_at moments' commands start mine) as Hat.
    assert (Hk : hear_more moments' (flat_map encode commands) (as_heard [] (offset r) (trusted_client l)) mine
                 = obey_all moments' commands start mine).
    { unfold hear_more. cbn [as_heard heard app]. apply keep_up_obeys; [done|done|cbn; lia]. }
    unfold follow. cbn [connect]. rewrite Ea.
    pose proof (hear_all_once moments' (to_come t) (unread t) (as_heard [] (offset r) (trusted_client l))
                  mine Hne) as Hall.
    rewrite Hb, Hk in Hall.
    replace (hear_more moments' [] (as_heard (unread t) (offset r) (trusted_client l)) mine)
      with (hear_more moments' (unread t) (as_heard [] (offset r) (trusted_client l)) mine)
      by (unfold hear_more; cbn [heard as_heard app]; by rewrite app_nil_r).
    destruct (hear_more moments' (unread t) _ mine) as [f1 w1]. rewrite Hall.
    destruct (obey_all moments' commands start mine) as [f w']. rewrite Hsp.
    split; [done|]. intros Hup. by apply Hat.
Qed.

Lemma replica_joins_witness :
  let w := with_replication trial_world {| id := new_id 1 2; offset := 9; replicas := [] |} in
  let c := {| buf := []; client := insider; ran := O; written := []; standing := Serving |} in
  let commands := [request_of ["INCR"; "n"]; as_command [lit "REPLCONF"; lit "GETACK"; lit "*"]] in
  let bytes := concat (written (taken_on 6380 c (replication (server w)))) ++ flat_map encode commands in
  exists f mine, @follow plain_tables plain_trig plain_hash (fun _ _ => trial_moment)
      (Some [take 9 bytes; drop 9 bytes]) 6380 0 trial_world
    = (Ok f, introduction 6380 ++ [encode (acknowledgement 30)], mine)
    /\ at_ f = 67.
Proof.
  intros w c commands bytes.
  destruct (@replica_joins plain_tables plain_trig plain_hash (fun _ _ => trial_moment) 6380 1 2 c w)
    as (c' & E & _ & _ & H); [by split|by split_and!|done|done|done|done|by split|].
  rewrite introduction_heard in E; [|by split|by split_and!|done|done].
  apply (f_equal (fun r => r.1.1)) in E. cbn [fst] in E. subst c'.
  specialize (H (fun _ _ => trial_moment) commands [take 9 bytes; drop 9 bytes] O trial_world).
  cbv zeta in H. destruct (obey_all _ _ _ _) as [f mine] eqn:Eo in H.
  assert (f = (@obey_all plain_tables plain_trig plain_hash (fun _ _ => trial_moment) commands
                 (as_heard (flat_map encode commands) 9 (trusted_client 0)) trial_world).1) as ->
    by (symmetry; exact (f_equal fst Eo)).
  destruct H as [Hf Hat].
  - repeat (apply Forall_cons; split; [vm_compute; repeat split; discriminate|]). apply Forall_nil_2.
  - repeat (apply Forall_cons; split; [by vm_compute|]). apply Forall_nil_2.
  - cbn [concat]. by rewrite app_nil_r, take_drop.
  - eexists _, mine. split; [exact Hf|]. vm_compute. reflexivity.
Defined.

(** A master that gives its dataset a length next to which the file's first line no
    longer fits a [usize] takes the task that follows it down. *)
Lemma length_overflows :
  (take_file {| unread := lit "$18446744073709551615" ++ CRLF; to_come := []; spoken := [] |}).1
  = Err LengthOverflows.
Proof. vm_compute. reflexivity. Qed.
