(* ===== verification/Startup.v ===== *)
(** * Starting up: src/src/main.rs, and [Server::new] of src/src/server.rs

    The saved dataset is loaded, the record made ready and played back, and only
    then taken up: [start].  None of the commands that are written down waits; but
    what the record holds is run whatever it is.  With nobody else there one that
    waits does so until its time is up, and those after it then go on ([sit_out]);
    one that waits for as long as it takes holds the server up for good, before it
    takes its first client ([HeldUp]).  [go_live] and [accept] are what follows: the port is the system's to
    settle on, and each caller gets a connection of its own. *)
From S2P Require Import Prelude Text Resp Store StoreStrings Command StoreCommands Geo.
From S2P Require Import Families StoreSafety Users Channels Config Replicas Transactions Aof Rdb Dispatch.
From S2P Require Import Connection.
Open Scope Z_scope.

(** [Server::new]. *)
Definition new_server (c : Config) (nanoseconds process : Z) : Server :=
  {| config := c;
     replication := {| id := new_id nanoseconds process; offset := 0; replicas := [] |};
     channels := ∅; aof := None; users := [] |}.

(** [server.aof.set]. *)
Definition with_aof (w : World) (a : Aof) : World :=
  with_server w {| config := config (server w); replication := replication (server w);
                   channels := channels (server w); aof := Some a; users := users (server w) |}.

Inductive StartError : Type := CouldNotLoad (e : LoadError) | CouldNotPrepare (e : Failure)
| CouldNotReadBack (e : Failure).

(** What starting up comes to. *)
Inductive Start : Type :=
| Started (w : World) (loaded replayed : nat)
| Failed (e : StartError)
| HeldUp
| Crashed.

Section Startup.
Context `{UnicodeTables} `{Trig} `{PasswordHash}.

(** What a wait comes to that nobody ends: what it answers when its time is up;
    nothing, when it has no end. *)
Definition time_up (ended : nat -> bool) (on : Pending) (w : World) : option (World * Value) :=
  match on with
  | AwaitElement key _ (Some _) => Some (w, resume_element key None)
  | AwaitEntries _ _ (Some _) => Some (w, NullArray)
  | AwaitReplicas target _ (Some _) =>
      let '(r, reply) := wait_over ended target (replication (server w)) in
      Some (with_replication w r, reply)
  | _ => None
  end.

(** Wait after wait of one request, a transaction's as it may be, each at a turn of its
    own.  Every wait but the first is of a command further on in the transaction. *)
Fixpoint sit_out (moments : nat -> nat -> Moment) (fuel n : nat) (cl : Client) (w : World) (p : Progress)
  : nat * Client * World * Progress :=
  match fuel, p with
  | S fuel, WaitsOn on asked part_of =>
      match time_up (ended (moments n O)) on w with
      | None => (n, cl, w, p)
      | Some (w, reply) =>
          let '(cl, w, _, p) := resume (moments n) asked part_of reply cl w in
          sit_out moments fuel (S n) cl w p
      end
  | _, _ => (n, cl, w, p)
  end.
Definition waits_left (p : Progress) : nat :=
  match p with
  | WaitsOn _ _ (Some (_, rest)) => S (length rest)
  | WaitsOn _ _ None => 1
  | _ => O
  end.

(** The loop of [replay]: the commands done, of those recorded. *)
Fixpoint replay (moments : nat -> nat -> Moment) (n : nat) (recorded : list Value) (cl : Client)
  (w : World) (replayed : nat) : World * option nat * bool :=
  match recorded with
  | [] => (w, Some replayed, true)
  | command :: recorded =>
      let '(cl, w, _, p) := run (moments n) command cl w in
      let '(n, cl, w, p) := sit_out moments (waits_left p) (S n) cl w p in
      match p with
      | Answers (Reply v) =>
          replay moments n recorded cl w (if is_error v then replayed else S replayed)
      | Answers (ReplicaFrom _) => replay moments n recorded cl w (S replayed)
      | WaitsOn _ _ _ => (w, None, true)
      | Crashes => (w, None, false)
      end
  end.

(** The client the recorded commands are run as, on channels of its own. *)
Definition replayer (l : listener) : Client :=
  {| transaction := no_transaction; subscriptions := subscriptions_of l; identity := trusted; outside := true |}.

(** [main], up to where it starts to listen. *)
Definition start (faults : Faults) (c : Config) (files : Files) (system : Z) (instant : nat -> Z)
  (nanoseconds process : Z) (moments : nat -> nat -> Moment) (l : listener) : Start :=
  match load faults files c system instant empty_state with
  | Panic => Crashed
  | Done (Err e) => Failed (CouldNotLoad e)
  | Done (Ok (s, loaded)) =>
      match prepare faults c files with
      | (_, Err e) => Failed (CouldNotPrepare e)
      | (files, Ok None) =>
          Started {| store := s; server := new_server c nanoseconds process; files := files |} loaded O
      | (files, Ok (Some a)) =>
          let w := {| store := s; server := new_server c nanoseconds process; files := files |} in
          match recorded faults files a with
          | Err e => Failed (CouldNotReadBack e)
          | Ok commands =>
              match replay moments O commands (replayer l) w O with
              | (w, Some replayed, _) => Started (with_aof w a) loaded replayed
              | (_, None, true) => HeldUp
              | (_, None, false) => Crashed
              end
          end
      end
  end.

(** The rest of [main].  [bound] is the port the system settled on, the one asked
    for unless that was zero; nothing, when it could not be had.  A master is
    followed, and told that port, if there is one to follow; [callers] are the
    connections taken. *)
Record Running := {
  world : World;
  listening_on : Z;
  follows : option (Master * Z);
  callers : list Connection;
}.
Definition go_live (bound : option Z) (w : World) : option Running :=
  match bound with
  | None => None
  | Some settled =>
      Some {| world := w; listening_on := settled;
              follows := match replicaof (config (server w)) with
                         | Some master => Some (master, settled)
                         | None => None
                         end;
              callers := [] |}
  end.

(** One turn of the loop that accepts: a caller, or a failure that is passed over. *)
Definition accept (accepted : option listener) (r : Running) : Running :=
  match accepted with
  | None => r
  | Some l =>
      {| world := world r; listening_on := listening_on r; follows := follows r;
         callers := callers r ++ [arrive l (world r)] |}
  end.
Definition accept_all (accepted : list (option listener)) (r : Running) : Running :=
  fold_left (fun r a => accept a r) accepted r.

(** ** Facts *)

(** Callers are served in the order they come in, however many others failed to:
    each with nothing said yet, let in already where no password has been set. *)
Lemma accept_all_serves accepted r :
  accept_all accepted r
  = {| world := world r; listening_on := listening_on r; follows := follows r;
       callers := callers r ++ map (fun l => arrive l (world r)) (omap Datatypes.id accepted) |}.
Proof.
  revert r; induction accepted as [|[l|] accepted IH]; intros r; cbn [accept_all fold_left] in *.
  - cbn. rewrite app_nil_r. by destruct r.
  - unfold accept_all in IH. rewrite IH. cbn. by rewrite <- app_assoc.
  - unfold accept_all in IH. by rewrite IH.
Qed.

(** A world that keeps no record and has no replicas stays one, its files as
    they are and its place in history where it was. *)
Definition unheard (w w' : World) : Prop :=
  aof (server w) = None -> replicas (replication (server w)) = [] ->
  0 <= offset (replication (server w)) <= U64_MAX ->
  aof (server w') = None /\ replicas (replication (server w')) = []
  /\ offset (replication (server w')) = offset (replication (server w))
  /\ id (replication (server w')) = id (replication (server w))
  /\ files w' = files w /\ config (server w') = config (server w).

Lemma unheard_refl w : unheard w w.
Proof. by intros ? ? ?. Qed.

Lemma unheard_trans w1 w2 w3 : unheard w1 w2 -> unheard w2 w3 -> unheard w1 w3.
Proof.
  intros H12 H23 Ha Hr Ho. destruct (H12 Ha Hr Ho) as (Ha2 & Hr2 & Ho2 & Hi2 & Hf2 & Hc2).
  destruct H23 as (? & ? & E & Ei & Ef & Ec); [done|done|by rewrite Ho2|].
  by rewrite E, Ei, Ef, Ec.
Qed.

Lemma pass_on_nobody ended v r :
  replicas r = [] -> 0 <= offset r <= U64_MAX -> pass_on ended v r = r.
Proof.
  intros Hr Ho. unfold pass_on. rewrite Hr. cbn. unfold advance, with_replicas. cbn.
  destruct r as [i o rs]. cbn in *. subst rs. f_equal. unfold wrap_u64, U64_MAX in *.
  rewrite Z.add_0_r. apply Z.mod_small. lia.
Qed.

Lemma run_against_unheard m c cl w cl' w' heard out :
  run_against m c cl w = (cl', w', heard, out) -> unheard w w'.
Proof.
  unfold run_against.
  destruct (transactions_run _ _ _) as [[t reply]|]; [by intros [= <- <- <- <-]|].
  destruct (pubsub_run _ _ _ _) as [[[[subs tally] told] reply]|]; [by intros [= <- <- <- <-]|].
  destruct (store_run _ _ _ _) as [[[s events] o]|]; [by intros [= <- <- <- <-]|].
  destruct (acl_run _ _ _ _) as [[[us who] reply]|]; [by intros [= <- <- <- <-]|].
  destruct (info_run _ _ _ _); [by intros [= <- <- <- <-]|].
  destruct (settings_run _ _ _); [by intros [= <- <- <- <-]|].
  destruct (replication_run _ _ _ _ _) as [[r o]|] eqn:E; [|by intros [= <- <- <- <-]].
  intros [= <- <- <- <-] Ha Hr Ho. cbn.
  assert (Hsame : replicas r = [] /\ offset r = offset (replication (server w))
                  /\ id r = id (replication (server w))); [|by destruct Hsame as (? & ? & ?)].
  revert E. unfold replication_run, wait, wait_round, wait_over, count_replicas, caught_up_to.
  rewrite pass_on_nobody by done. rewrite Hr. cbn [following List.filter].
  repeat case_match; try done; intros [= <- <-]; simplify_eq; done.
Qed.

Lemma finish_unheard m c reply w : unheard w (finish m c reply w).1.
Proof.
  unfold finish. destruct (is_error reply); [apply unheard_refl|].
  destruct (written_down c reply) as [written|]; [|apply unheard_refl].
  intros Ha Hr Ho. rewrite Ha. destruct (replicaof _); [done|]. cbn [fst].
  by rewrite pass_on_nobody.
Qed.

Lemma dispatch_unheard m c cl w cl' w' heard out :
  dispatch m c cl w = (cl', w', heard, out) -> unheard w w'.
Proof.
  unfold dispatch. destruct (run_against m c cl w) as [[[cl1 w1] h1] o1] eqn:E.
  apply run_against_unheard in E. destruct o1 as [reply| |]; [|by intros [= <- <- <- <-]..].
  pose proof (finish_unheard m c reply w1) as Hf. destruct (finish m c reply w1).
  intros [= <- <- <- <-]. by eapply unheard_trans.
Qed.

Lemma execute_unheard moments n commands replies cl w cl' w' heard e :
  execute moments n commands replies cl w = (cl', w', heard, e) -> unheard w w'.
Proof.
  revert n replies cl w cl' w' heard e; induction commands as [|c commands IH];
    intros n replies cl w cl' w' heard e; cbn [execute]; [intros [= <- <- <- <-]; apply unheard_refl|].
  destruct (dispatch (moments n) c cl w) as [[[cl1 w1] h1] o1] eqn:E. apply dispatch_unheard in E.
  destruct o1 as [reply| |]; [|by intros [= <- <- <- <-]..].
  destruct (execute moments (S n) commands (replies ++ [reply]) cl1 w1) as [[[cl2 w2] h2] e2] eqn:E2.
  intros [= <- <- <- <-]. eapply unheard_trans; [exact E|by eapply IH].
Qed.

Lemma run_unheard moments request cl w cl' w' heard p :
  run moments request cl w = (cl', w', heard, p) -> unheard w w'.
Proof.
  unfold run. destruct (parse_command request) as [c|]; [|intros [= <- <- <- <-]; apply unheard_refl].
  destruct (_ && _); [intros [= <- <- <- <-]; apply unheard_refl|].
  destruct (_ && _); [intros [= <- <- <- <-]; apply unheard_refl|].
  assert (Hrest : match steer (now (env (moments O))) c (transaction cl) (store w) with
            | Some (t, s, SteerReply reply) =>
                (with_transaction cl t, with_store w s, [], Answers (answer_to c reply))
            | Some (t, s, Execute commands) =>
                let '(cl, w, heard, e) :=
                  execute moments 1 commands [] (with_transaction cl t) (with_store w s) in
                (cl, w, heard, execution_progress e)
            | None =>
                let '(cl, w, heard, out) := dispatch (moments O) c cl w in
                (cl, w, heard,
                 match out with
                 | Replied reply => Answers (answer_to c reply)
                 | Blocks p => WaitsOn p c None
                 | Panics => Crashes
                 end)
            end = (cl', w', heard, p) -> unheard w w').
  { destruct (steer _ _ _ _) as [[[t s] [reply|commands]]|].
    - by intros [= <- <- <- <-].
    - destruct (execute _ _ _ _ _ _) as [[[cl1 w1] h1] e1] eqn:E. intros [= <- <- <- <-].
      apply execute_unheard in E. eapply unheard_trans; [|exact E]. done.
    - destruct (dispatch _ _ _ _) as [[[cl1 w1] h1] o1] eqn:E. intros [= <- <- <- <-].
      by apply dispatch_unheard in E. }
  destruct (steers_a_transaction _), (queued (transaction cl)); try exact Hrest.
  intros [= <- <- <- <-]. apply unheard_refl.
Qed.

Lemma resume_unheard moments asked part_of reply cl w cl' w' heard p :
  resume moments asked part_of reply cl w = (cl', w', heard, p) -> unheard w w'.
Proof.
  unfold resume. pose proof (finish_unheard (moments O) asked reply w) as Hf.
  destruct (finish (moments O) asked reply w) as [w1 reply1]. cbn [fst] in Hf.
  destruct part_of as [[replies rest]|]; [|by intros [= <- <- <- <-]].
  destruct (execute _ _ _ _ _ _) as [[[cl1 w2] h] e] eqn:E. intros [= <- <- <- <-].
  apply execute_unheard in E. by eapply unheard_trans.
Qed.

Lemma time_up_unheard ended on w w' reply : time_up ended on w = Some (w', reply) -> unheard w w'.
Proof.
  unfold time_up, wait_over, caught_up_to.
  destruct on as [? ? [|]|? ? [|]|target ? [|]]; try done; intros [= <- _]; [apply unheard_refl..|].
  intros Ha Hr Ho. cbn. rewrite Hr. by split_and!.
Qed.

Lemma sit_out_unheard moments fuel n cl w p n' cl' w' p' :
  sit_out moments fuel n cl w p = (n', cl', w', p') -> unheard w w'.
Proof.
  revert n cl w p; induction fuel as [|fuel IH]; intros n cl w p; cbn [sit_out];
    [intros [= <- <- <- <-]; apply unheard_refl|].
  destruct p as [a|on asked part_of|]; try (intros [= <- <- <- <-]; apply unheard_refl).
  destruct (time_up _ on w) as [[w1 reply]|] eqn:Et; [|intros [= <- <- <- <-]; apply unheard_refl].
  apply time_up_unheard in Et. destruct (resume _ _ _ _ _ _) as [[[cl1 w2] h] p1] eqn:Er.
  apply resume_unheard in Er. intros Hs%IH. eapply unheard_trans; [exact Et|by eapply unheard_trans].
Qed.

(** What is left waiting when they have been sat out waits for good. *)
Lemma execute_waits moments n commands replies cl w cl' w' heard e :
  execute moments n commands replies cl w = (cl', w', heard, e) ->
  match e with Held_up _ _ _ rest => (length rest < length commands)%nat | _ => True end.
Proof.
  revert n replies cl w heard; induction commands as [|c commands IH]; intros n replies cl w heard; cbn [execute];
    [by intros [= <- <- <- <-]|].
  destruct (dispatch _ _ _ _) as [[[cl1 w1] h1] [reply| |]]; [|intros [= <- <- <- <-]; cbn; lia|by intros [= <- <- <- <-]].
  destruct (execute _ _ commands _ _ _) as [[[cl2 w2] h2] e2] eqn:E2. intros [= <- <- <- <-].
  apply IH in E2. destruct e2; cbn in *; lia.
Qed.

Lemma sit_out_ends moments fuel n cl w p n' cl' w' p' :
  (waits_left p <= fuel)%nat -> sit_out moments fuel n cl w p = (n', cl', w', p') ->
  forall on asked part_of, p' = WaitsOn on asked part_of -> time_up (ended (moments n' O)) on w' = None.
Proof.
  revert n cl w p; induction fuel as [|fuel IH]; intros n cl w p Hf; cbn [sit_out].
  - intros [= <- <- <- <-] on asked part_of ->. exfalso. destruct part_of as [[? ?]|]; cbn in Hf; lia.
  - destruct p as [a|on asked part_of|]; [by intros [= <- <- <- <-]| |by intros [= <- <- <- <-]].
    destruct (time_up _ on w) as [[w1 reply]|] eqn:Et; [|by intros [= <- <- <- <-] ? ? ? [= <- <- <-]].
    unfold resume. destruct (finish _ asked reply w1) as [w2 reply2]. destruct part_of as [[replies rest]|].
    + destruct (execute _ _ rest _ _ _) as [[[cl1 w3] h] e] eqn:E. apply execute_waits in E.
      apply IH. destruct e; cbn in *; lia.
    + apply IH. unfold answer_to. cbn. lia.
Qed.

Lemma replay_unheard moments n recorded cl w replayed w' r ok :
  replay moments n recorded cl w replayed = (w', r, ok) -> unheard w w'.
Proof.
  revert n cl w replayed; induction recorded as [|v recorded IH]; intros n cl w replayed; cbn [replay].
  - intros [= <- <- <-]. apply unheard_refl.
  - destruct (run (moments n) v cl w) as [[[cl1 w1] h1] p1] eqn:E. apply run_unheard in E.
    destruct (sit_out _ _ _ _ _ _) as [[[n2 cl2] w2] p2] eqn:Es. apply sit_out_unheard in Es.
    pose proof (unheard_trans _ _ _ E Es) as Hw2.
    destruct p2 as [[reply|reply]| |]; try (by intros [= <- <- <-]);
      intros Hr%IH; by eapply unheard_trans.
Qed.

End Startup.

(** C36. Playing the record back leaves the record alone: a server that has
    started over one goes on in the very files it made ready, not a byte of them
    changed by what was played back; it stands at the start of a history of its
    own, none of what was played back counted in it; the record is what it now
    writes to; and what it would read back of it, were it to start again, is what
    it read back. *)
Theorem start_keeps_record `{UnicodeTables} `{Trig} `{PasswordHash}
  faults c files0 system instant nanoseconds process moments l w loaded replayed :
  appendonly c = true ->
  start faults c files0 system instant nanoseconds process moments l = Started w loaded replayed ->
  exists a commands, prepare faults c files0 = (files w, Ok (Some a))
  /\ aof (server w) = Some a /\ recorded faults (files w) a = Ok commands
  /\ (replayed <= length commands)%nat
  /\ replication (server w) = {| id := new_id nanoseconds process; offset := 0; replicas := [] |}.
Proof.
  intros Hon. unfold start.
  destruct (load _ _ _ _ _ _) as [[[s n]|]|]; [|done|done].
  destruct (prepare faults c files0) as [fs [[a|]|]] eqn:Ep; [| |done].
  2: { unfold prepare in Ep. rewrite Hon in Ep. cbn [negb] in Ep.
       repeat case_match; simplify_eq. }
  destruct (recorded faults fs a) as [commands|] eqn:Er; [|done].
  destruct (replay _ _ _ _ _ _) as [[w1 [r|]] ok] eqn:Ey; [|by destruct ok].
  intros [= <- <- <-].
  destruct (replay_unheard _ _ _ _ _ _ _ _ _ Ey) as (_ & Hr & Ho & Hi & Hf & _);
    [done|done|by vm_compute|].
  exists a, commands. cbn in *. rewrite Hf. split_and!; try done.
  - clear -Ey. revert Ey. generalize (replayer l), O at 1 as n.
    assert (forall k n cl w w1 r ok, replay moments n commands cl w k = (w1, Some r, ok) ->
              (r <= k + length commands)%nat) as Hgen.
    { induction commands as [|v commands IH]; intros k n cl w w2 r2 ok2; cbn [replay length].
      - intros [= <- <- <-]. lia.
      - destruct (run (moments n) v cl w) as [[[cl1 w3] h1] p3].
        destruct (sit_out _ _ _ _ _ _) as [[[n4 cl4] w4] [[v1|v1]| |]]; try done.
        + destruct (is_error v1); intros Hx%IH; lia.
        + intros Hx%IH. lia. }
    intros cl n0 Hx%Hgen. lia.
  - destruct (replication (server w1)). cbn in *. by subst.
Qed.

(** Started, with this many commands played back and this value of [n]. *)
Definition came_up (st : Start) (commands : nat) (n : Bytes) : bool :=
  match st with
  | Started w _ replayed =>
      Nat.eqb replayed commands
      && match (StoreStrings.get 7 (lit "n") (store w)).2 with Ok (Some v) => v =b? n | _ => false end
  | _ => false
  end.

Lemma start_keeps_record_witness :
  let before : Files := {[ lit "d/aof/a.1.incr.aof" := encode (request_of ["INCR"; "n"]) ]} in
  let st := @start plain_tables plain_trig plain_hash no_faults trial_config before 0 (fun _ => 0) 1 2
              (fun _ _ => trial_moment) 0 in
  came_up st 1 (lit "1") = true
  /\ match st with Started w _ _ => offset (replication (server w)) = 0 | _ => False end.
Proof.
  intros before st. assert (came_up st 1 (lit "1") = true) as Hup by (vm_compute; reflexivity).
  split; [exact Hup|]. destruct st as [w loaded replayed|e| |] eqn:E; try discriminate Hup.
  destruct (@start_keeps_record plain_tables plain_trig plain_hash no_faults trial_config before 0
              (fun _ => 0) 1 2 (fun _ _ => trial_moment) 0 w loaded replayed eq_refl E)
    as (a & commands & _ & _ & _ & _ & Hr).
  by rewrite Hr.
Defined.
