(* ===== verification/Histories.v ===== *)
(** * What a server goes through, and how it is gone through again

    The [act]s of a server, one connection's at a time: a command of any client's; a
    client that had been blocked on a list telling of what it was handed; [EXEC] and
    [WATCH] looking at versions; a woken [XREAD] looking again.  With each goes what
    it adds to the record and to the stream of a replica, and what it leaves owed
    (see [Owing]).

    Whoever is [behind] a server by what is owed, as far as the keys one is [sure] of
    go, can carry out what an act of the server's wrote down, and is behind by what is
    owed then: [act_again].  To be sure of a key takes that the commands that write to
    it mean the same whenever they are run, and keep away from where something is
    owed ([steady]).  Of other keys all that is asked is that no deadline is past what
    a clock can hold, which would bring down who carries it out. *)
From S2P Require Import Prelude Text Resp F64 Store StoreStrings StoreLists StoreStreams.
From S2P Require Import StoreSortedSets StoreSteps Command StoreCommands Geo Families StoreSafety Alike Twins Owing Users.
From S2P Require Import Channels Config Replicas Transactions Aof Dispatch Replies Sessions Startup.
Open Scope Z_scope.

(** What [WAIT] asks of the replicas before it waits. *)
Definition GETACK : Value := as_command [lit "REPLCONF"; lit "GETACK"; lit "*"].
Definition asked_by (c : Command) (r : Replication) : list Value :=
  if uppercased c =b? lit "WAIT" then
    match args c with
    | [wanted; timeout] =>
        match number_i64 wanted, number_i64 timeout with
        | Some _, Some timeout => if (timeout <? 0) || (offset r =? 0) then [] else [GETACK]
        | _, _ => []
        end
    | _ => []
    end
  else [].

(** The elements handed out to those who waited, by what was heard of a command. *)
Definition handed_out (heard : list Heard) : list Bytes :=
  handed (omap (fun h => match h with FromStore e => Some e | Message _ _ => None end) heard).

(** A deadline that an [Instant] can hold, for whoever sets it until then. *)
Definition in_time `{UnicodeTables} (until : Z) (c : Command) : Prop :=
  forall env, now env <= until -> ~ deadline_overflows env (uppercased c) (args c).

Section Acts.
Context `{UnicodeTables} `{Trig} `{PasswordHash}.
Context (sure : Bytes -> bool) (until : Z) (ok : Moment -> Prop).

(** What a command that writes may do to a key one is sure of: mean the same whenever
    it is run, and keep away from what is owed there, but to push to the end of the
    list or to wait for it.  It may do what it likes to any other, with a deadline that
    can be met. *)
Definition steady (owed : Owed) (c : Command) (out : Outcome) : Prop :=
  forall key rest, one_of WRITES (uppercased c) = true -> args c = key :: rest ->
  if sure key then
    timeless c = true
    /\ (owed !! key = None \/ uppercased c = lit "RPUSH" \/ exists p, out = Blocks p)
  else in_time until c.

(** What is owed after a command. *)
Definition owing (c : Command) (heard : list Heard) (owed : Owed) : Owed :=
  match args c with
  | key :: _ => if sure key then lent key (handed_out heard) owed else owed
  | [] => owed
  end.

(** What a server does at [ok] moments: what it asks its replicas, and what it writes
    down. *)
Inductive act : World -> Owed -> list Value -> list Value -> World -> Owed -> Prop :=
| act_dispatch m c cl w cl' w' heard out owed :
    ok m -> fit c -> steady owed c out -> dispatch m c cl w = (cl', w', heard, out) ->
    act w owed (asked_by c (replication (server w))) (written_in m c cl w) w' (owing c heard owed)
| act_told m c key timeout element x xs w owed :
    ok m -> fit c -> uppercased c = lit "BLPOP" -> args c = [key; timeout] ->
    (sure key = true -> owed !! key = Some (x :: xs)) ->
    let reply := resume_element key (Some element) in
    act w owed [] (written_by c reply) (finish m c reply w).1
      (if sure key then owe key xs owed else owed)
| act_steered now c t w t' s todo owed :
    steer now c t (store w) = Some (t', s, todo) -> act w owed [] [] (with_store w s) owed
| act_read_again env reads deadline w owed :
    act w owed [] [] (with_store w (resume_entries env reads deadline (store w)).1.1) owed.

(** It adds one word at most. *)
Lemma act_words w owed asked vs w' owed' :
  act w owed asked vs w' owed' ->
  (asked = [] /\ exists v, vs = option_list v) \/ (asked = [GETACK] /\ vs = []).
Proof.
  assert (Hw : forall c reply, exists v, written_by c reply = option_list v).
  { intros c reply. unfold written_by. destruct (is_error reply); [by exists None|by eexists]. }
  destruct 1 as [m c cl w cl' w' heard out owed| | |].
  2: left; split; [done|apply Hw].
  2,3: left; split; [done|by exists None].
  unfold asked_by. destruct (uppercased c =b? lit "WAIT") eqn:Ew.
  - assert (written_in m c cl w = []) as ->.
    { apply beq_true in Ew. unfold written_in, written_by. repeat case_match; try done.
      destruct (written_down c reply) as [v|] eqn:E; [|done].
      apply written_down_writes in E. by rewrite Ew in E. }
    repeat case_match; try (left; split; [done|]; by exists None). by right.
  - left. split; [done|]. unfold written_in. destruct (run_against m c cl w).2; [apply Hw|by exists None..].
Qed.

Lemma act_fit w owed asked vs w' owed' : act w owed asked vs w' owed' -> Forall fit_request vs.
Proof.
  destruct 1 as [m c cl w cl' w' heard out owed| | |]; try apply Forall_nil_2; [|by apply written_by_fit].
  unfold written_in. destruct (run_against m c cl w).2; [by apply written_by_fit|apply Forall_nil_2..].
Qed.

Lemma act_records w owed asked vs w' owed' a bytes :
  (forall m, ok m -> append m = Appended None) -> act w owed asked vs w' owed' ->
  aof (server w) = Some a -> files w !! path a = Some bytes ->
  aof (server w') = Some a /\ files w' !! path a = Some (bytes ++ flat_map encode vs).
Proof.
  intros Hok Ha Haof Hb. destruct Ha; [by eapply dispatch_records; eauto|by eapply finish_records; eauto|..];
    cbn; by rewrite app_nil_r.
Qed.

(** ** Gone through again *)

(** The server as it would be, had it still what it has handed over. *)
Definition giving_back (owed : Owed) (w : World) : World := with_store w (given_back owed (store w)).

Lemma giving_back_nothing w : giving_back ∅ w = w.
Proof. unfold giving_back. rewrite given_back_nothing. by destruct w. Qed.

(** What one act left for the record, done again in a store: this is what it leaves,
    and so many of it were not refused. *)
Definition done_again (env : Env) (vs : list Value) (t t' : State) (n : nat) : Prop :=
  match vs with
  | [] => t' = t /\ n = O
  | [v] => exists c ev x, parse_command v = Ok c /\ one_of WRITES (uppercased c) = true
           /\ store_run env (uppercased c) (args c) t = Some (t', ev, Replied x)
           /\ n = if is_error x then O else 1%nat
  | _ => False
  end.

Lemma steer_lapses now c t s t' s' todo :
  steer now c t s = Some (t', s', todo) -> lapses now (entries s) (entries s').
Proof.
  unfold steer.
  assert (Hv : forall ks, lapses now (entries s) (entries (versions now ks s).1)) by (intros; by apply versions_lapses).
  assert (Hu : forall ws, lapses now (entries s) (entries (unchanged now ws s).1)) by (intros; by apply unchanged_lapses).
  repeat (case_match; try done); intros [= _ <- _]; try done;
    match goal with E : _ = (?s1, ?x) |- lapses _ _ (entries ?s1) => change s1 with (s1, x).1; by rewrite <- E end.
Qed.

Lemma handed_out_store events : handed_out (map FromStore events) = handed events.
Proof. unfold handed_out. f_equal. induction events as [|e events IH]; [done|]. cbn. by f_equal. Qed.

Lemma owing_nothing c heard owed : handed_out heard = [] -> owing c heard owed = owed.
Proof. unfold owing. intros ->. destruct (args c) as [|key]; [done|]. by destruct (sure key). Qed.

(** A command that is not written down changes nothing but what was to expire, and
    hands nothing out. *)
Lemma question_kept m c cl w cl' w' heard out :
  one_of WRITES (uppercased c) = false -> run_against m c cl w = (cl', w', heard, out) ->
  lapses (now (env m)) (entries (store w)) (entries (store w')) /\ handed_out heard = [].
Proof.
  intros Hw. unfold run_against.
  destruct (transactions_run _ _ _) as [[t reply]|]; [by intros [= <- <- <- <-]|].
  destruct (pubsub_run _ _ _ _) as [[[[subs tally] told] reply]|].
  { intros [= <- <- <- <-]. split; [done|]. unfold handed_out.
    induction told as [|[l b] told IH]; [done|]. exact IH. }
  destruct (store_run _ _ _ _) as [[[s events] o]|] eqn:E.
  { intros [= <- <- <- <-]. rewrite handed_out_store.
    pose proof (upholds (law := keeping) (env m) _ (args c) (store w) Hw) as Hk. by rewrite E in Hk. }
  destruct (acl_run _ _ _ _) as [[[us who] reply]|]; [by intros [= <- <- <- <-]|].
  destruct (info_run _ _ _ _); [by intros [= <- <- <- <-]|].
  destruct (settings_run _ _ _); [by intros [= <- <- <- <-]|].
  destruct (replication_run _ _ _ _ _) as [[r o]|]; by intros [= <- <- <- <-].
Qed.

(** ** Commands that write *)

(** Told as it came in, it is done again by being run again. *)
Lemma sent_again env c v t t' ev' v' :
  fit c -> one_of WRITES (uppercased c) = true -> (uppercased c =b? lit "BLPOP") = false ->
  store_run env (uppercased c) (args c) t = Some (t', ev', Replied v') -> is_error v = false ->
  done_again env (written_by c v) t t' (if is_error v' then 0 else 1) /\ length (written_by c v) = 1%nat.
Proof.
  intros Hfit Hw Hb Hs Hv. unfold written_by. rewrite Hv.
  assert (written_down c v = Some (as_sent c)) as ->.
  { unfold written_down. revert Hw. unfold one_of, WRITES. cbn [existsb].
    rewrite Hb. cbn [orb]. rewrite !orb_false_r. by intros ->. }
  split; [|done]. exists c, ev', v'. by rewrite (proj2 Hfit).
Qed.

(** What was carried out of what was written down. *)
Definition again (env : Env) (vs : list Value) (t : State) (P : State -> Prop) : Prop :=
  exists t' n, done_again env vs t t' n /\ ((forall key, sure key = true) -> n = length vs) /\ P t'.

Lemma done_again_length env vs t t' n : done_again env vs t t' n -> (n <= length vs)%nat.
Proof.
  destruct vs as [|v [|]]; [by intros [_ ->]| |by intros []]. intros (c & ev & x & _ & _ & _ & ->).
  destruct (is_error x); cbn; lia.
Qed.

Lemma again_nothing env t (P : State -> Prop) : P t -> again env [] t P.
Proof. intros. by exists t, O. Qed.

Lemma again_refused env c v t (P : State -> Prop) : is_error v = true -> P t -> again env (written_by c v) t P.
Proof. unfold written_by. intros ->. apply again_nothing. Qed.

Lemma again_sent env c v t t' ev' v' (P : State -> Prop) :
  fit c -> one_of WRITES (uppercased c) = true -> (uppercased c =b? lit "BLPOP") = false ->
  store_run env (uppercased c) (args c) t = Some (t', ev', Replied v') -> is_error v = false ->
  (is_error v' = false \/ exists key, sure key = false) -> P t' -> again env (written_by c v) t P.
Proof.
  intros Hfit Hw Hb Hs Hv Hv' HP. destruct (sent_again env c v t t' ev' v') as [Hd Hl]; [done..|].
  exists t', (if is_error v' then 0 else 1)%nat. split_and!; [done| |done]. intros Hall. rewrite Hl.
  destruct Hv' as [->|[key Hk]]; [done|]. by rewrite Hall in Hk.
Qed.

(** One that serves nobody, to a key one is sure of. *)
Lemma alone_again env env' c key rest owed s t s' ev out :
  args c = key :: rest -> fit c -> sure key = true -> one_of ALONE (uppercased c) = true ->
  steady owed c out -> store_run env (uppercased c) (args c) s = Some (s', ev, out) ->
  behind sure owed s t ->
  exists v, out = Replied v
  /\ again env' (written_by c v) t (behind sure (lent key (handed ev) owed) s').
Proof.
  intros Ea Hfit Hk Hc Hst Es Hb.
  assert (Hw : one_of WRITES (uppercased c) = true /\ (uppercased c =b? lit "BLPOP") = false
               /\ (uppercased c =b? lit "RPUSH") = false).
  { revert Hc. unfold one_of, ALONE. cbn [existsb]. rewrite !orb_true_iff, !beq_true.
    intros [-> |[-> |[-> |[-> |[-> |[-> |[-> |?]]]]]]]; [by split_and!..|done]. }
  destruct Hw as (Hw & Hnb & Hnr). pose proof (Hst key rest Hw Ea) as Hsk. rewrite Hk in Hsk.
  destruct Hsk as [Ht Hun].
  assert (Hreply : exists v, out = Replied v).
  { destruct (proj1 Hb key Hk) as [Us _ _ _]. assert (alike_at key s s) as Hself by (by split_and!).
    pose proof (store_run_twins env env' c key rest s s Ea Hself Ht Hc) as Hr.
    rewrite Es in Hr. destruct out; [by eexists|done..]. }
  destruct Hreply as [v ->]. destruct Hun as [Ho|[Hr|[? [=]]]]; [|by rewrite Hr in Hnr].
  pose proof (store_run_twins env env' c key rest s t Ea (behind_here _ _ _ _ _ Hb Hk Ho) Ht Hc) as Hr.
  rewrite Es in Hr. destruct (store_run env' _ _ t) as [[[t1 ev'] [v'| |]]|] eqn:Et; try done.
  destruct Hr as (Hwr & <- & Hf & Hwt & ->). exists v. split; [done|]. destruct (is_error v) eqn:Ev.
  - apply again_refused; [done|]. by apply (behind_refused sure owed key s); [done|apply Hwr..|apply Hf].
  - eapply again_sent; [done..|by left|]. by eapply behind_written.
Qed.

Lemma store_run_push env key elements s :
  elements <> [] ->
  store_run env (lit "RPUSH") (key :: elements) s = run_push env key elements Right s
  /\ store_run env (lit "LPUSH") (key :: elements) s = run_push env key elements Left s.
Proof.
  intros Hne. destruct elements as [|x elements]; [done|].
  change (store_run env (lit "RPUSH") (key :: x :: elements) s) with
    (match run_push env key (x :: elements) Right s with Some r => Some r | None =>
       or_else streams_run (or_else sorted_sets_run (or_else geo_run keys_run)) env (lit "RPUSH") (key :: x :: elements) s end).
  change (store_run env (lit "LPUSH") (key :: x :: elements) s) with
    (match run_push env key (x :: elements) Left s with Some r => Some r | None =>
       or_else streams_run (or_else sorted_sets_run (or_else geo_run keys_run)) env (lit "LPUSH") (key :: x :: elements) s end).
  unfold run_push. by destruct (push _ _ _ _ Right _) as [[? ?] ?], (push _ _ _ _ Left _) as [[? ?] ?].
Qed.

(** One that may serve. *)
Lemma push_again env env' c key rest owed s t s' ev out :
  args c = key :: rest -> fit c -> sure key = true -> one_of ["RPUSH"; "LPUSH"]%string (uppercased c) = true ->
  steady owed c out -> store_run env (uppercased c) (args c) s = Some (s', ev, out) ->
  behind sure owed s t ->
  exists v, out = Replied v
  /\ again env' (written_by c v) t (behind sure (lent key (handed ev) owed) s').
Proof.
  intros Ea Hfit Hk Hc Hst Es Hb.
  assert (Hw : one_of WRITES (uppercased c) = true /\ (uppercased c =b? lit "BLPOP") = false).
  { revert Hc. unfold one_of at 1. cbn [existsb]. rewrite !orb_true_iff, !beq_true.
    intros [-> |[-> |?]]; [by split_and!..|done]. }
  destruct Hw as [Hw Hnb]. pose proof (Hst key rest Hw Ea) as Hsk. rewrite Hk in Hsk. destruct Hsk as [_ Hun].
  destruct rest as [|x elements].
  { assert (Some (s', ev, out) = refuses s (if uppercased c =b? lit "RPUSH" then "rpush" else "lpush")) as E.
    { rewrite <- Es, Ea. revert Hc. unfold one_of. cbn [existsb]. rewrite !orb_true_iff, !beq_true.
      by intros [-> |[-> |?]]. }
    injection E as -> -> ->. eexists. split; [done|by apply again_refused]. }
  assert (Hside : exists side, (owed_at owed key = [] \/ side = Right)
    /\ forall env s, store_run env (uppercased c) (args c) s = run_push env key (x :: elements) side s).
  { rewrite Ea. revert Hc. unfold one_of. cbn [existsb]. rewrite !orb_true_iff, !beq_true.
    intros [E|[E|?]]; [..|done]; rewrite E.
    - exists Right. split; [by right|]. intros. by apply store_run_push.
    - exists Left. split; [left|intros; by apply store_run_push].
      destruct Hun as [Ho|[Hr|[p ->]]]; [by unfold owed_at; rewrite Ho|rewrite E in Hr; discriminate Hr|].
      exfalso. revert Es. rewrite E, Ea. rewrite (proj2 (store_run_push env key (x :: elements) s ltac:(done))).
      unfold run_push. by destruct (push _ _ _ _ _ _) as [[? ?] ?]. }
  destruct Hside as (side & Hside & Hrun). rewrite Hrun in Es.
  destruct (behind_pushed sure env env' key (x :: elements) side owed s t s' ev out Hb Hk ltac:(done) Hside Es)
    as (v & -> & Hv).
  exists v. split; [done|]. destruct (is_error v) eqn:Ev.
  - destruct Hv as [Hv ->]. by apply again_refused.
  - destruct Hv as (t' & ev' & v' & Et & Hv' & Hb'). eapply again_sent; rewrite ?Hrun; [done..|by left|done].
Qed.

(** A command that writes to a key one is not sure of. *)
Lemma unsure_again env env' c key rest owed s t s' ev out :
  args c = key :: rest -> fit c -> sure key = false -> now env' <= until ->
  one_of WRITES (uppercased c) = true -> (uppercased c =b? lit "BLPOP") = false -> steady owed c out ->
  store_run env (uppercased c) (args c) s = Some (s', ev, out) -> behind sure owed s t ->
  again env' match out with Replied v => written_by c v | _ => [] end t (behind sure owed s').
Proof.
  intros Ea Hfit Hk Henv Hw Hnb Hst Es Hb. pose proof (Hst key rest Hw Ea) as Hin. rewrite Hk in Hin.
  pose proof (upholds (law := confining) env (uppercased c) (args c) s Hw Hnb) as Hs. rewrite Es, Ea in Hs.
  destruct Hs as [[Fs _] Hout].
  assert (Hstay : behind sure owed s' t) by (apply (behind_unsure sure owed key s t); [done..|by split]).
  destruct Hout as [[-> _]|[v ->]]; [by apply again_nothing|]. destruct (is_error v) eqn:Ev; [by apply again_refused|].
  pose proof (upholds (law := confining) env' (uppercased c) (args c) t Hw Hnb) as Ht.
  destruct (store_run env' (uppercased c) (args c) t) as [[[t' ev'] o]|] eqn:Et.
  2: { apply store_run_claims in Et. exfalso. revert Et Hw. clear. generalize (uppercased c) as word. intros word.
       unfold one_of at 2, WRITES. cbn [existsb]. rewrite !orb_true_iff, !beq_true. intros E Hw.
       repeat destruct Hw as [->|Hw]; try done; discriminate E. }
  rewrite Ea in Ht. destruct Ht as [Ft [[_ Ho]|[v' ->]]].
  - exfalso. rewrite <- Ea in Ho. by apply (Hin env').
  - eapply again_sent; [done..|by right; exists key|]. by apply (behind_unsure sure owed key s t).
Qed.

(** One that finds what it would have waited for, or waits. *)
Lemma blpop_again env env' c owed s t s' ev out :
  uppercased c = lit "BLPOP" -> steady owed c out ->
  store_run env (lit "BLPOP") (args c) s = Some (s', ev, out) -> behind sure owed s t ->
  handed ev = [] /\
  again env' match out with Replied v => written_by c v | _ => [] end t (behind sure owed s').
Proof.
  intros Hc Hst Es Hb. destruct (blpop_twins env _ _ _ _ _ Es) as [Hev Ho]. split; [done|].
  assert (Hnone : abides (entries s) (entries s') -> again env' [] t (behind sure owed s')).
  { intros Ha. apply again_nothing. by apply (behind_abides sure owed s). }
  destruct out as [v| |]; [|by apply Hnone..].
  unfold written_by, written_down. rewrite Hc. cbn [one_of existsb].
  destruct v; try (destruct (is_error _); [by apply Hnone|cbn; destruct (args c); by apply Hnone]).
  destruct Ho as (key & timeout & Ea & Fs & Hagain). cbn. rewrite Ea.
  pose proof (Hst key [timeout] ltac:(by rewrite Hc) Ea) as Hsk.
  assert (Hlpop : forall t' ev' x (P : State -> Prop), store_run env' (lit "LPOP") [key] t = Some (t', ev', Replied x) ->
    (is_error x = false \/ exists key, sure key = false) -> P t' ->
    again env' [Array [BulkString (lit "LPOP"); BulkString key]] t P).
  { intros t' ev' x P Et Hx HP. exists t', (if is_error x then 0 else 1)%nat. split_and!; [|intros Hall|done].
    - exists {| uppercased := lit "LPOP"; name := lit "LPOP"; args := [key] |}, ev', x. by split_and!.
    - destruct Hx as [->|[k Hk]]; [done|]. by rewrite Hall in Hk. }
  destruct (sure key) eqn:Hk.
  - destruct Hsk as [_ [Ho|[Hr|[? [=]]]]]; [|by rewrite Hc in Hr].
    destruct (Hagain env' t (behind_here _ _ _ _ _ Hb Hk Ho)) as (t' & ev' & x & Et & Hx & Hwr & Hwt).
    eapply Hlpop; [exact Et|by left|by eapply behind_written].
  - pose proof (upholds (law := confining) env' (lit "LPOP") [key] t eq_refl eq_refl) as Ht.
    destruct (store_run env' (lit "LPOP") [key] t) as [[[t' ev'] o]|] eqn:Et; [|done].
    destruct Ht as [Ft [[_ [? _]]|[x ->]]]; [done|].
    eapply Hlpop; [reflexivity|by right; exists key|by apply (behind_unsure sure owed key s t)].
Qed.

Lemma WRITES_split command :
  one_of WRITES command = true ->
  one_of ALONE command = true \/ one_of ["RPUSH"; "LPUSH"]%string command = true \/ command = lit "BLPOP".
Proof. unfold one_of, WRITES, ALONE. cbn [existsb]. rewrite !orb_true_iff, !beq_true. naive_solver. Qed.

Lemma write_again env env' c owed s t s' ev out :
  fit c -> one_of WRITES (uppercased c) = true -> steady owed c out -> now env' <= until ->
  store_run env (uppercased c) (args c) s = Some (s', ev, out) -> behind sure owed s t ->
  again env' match out with Replied v => written_by c v | _ => [] end t
    (behind sure (owing c (map FromStore ev) owed) s').
Proof.
  intros Hfit Hw Hst Henv Es Hb. unfold owing. rewrite handed_out_store.
  destruct (args c) as [|key rest] eqn:Ea.
  { destruct (store_run_bare env (uppercased c) s Hw) as (v & E & Hv). rewrite E in Es.
    injection Es as <- <- <-. by apply again_refused. }
  rewrite <- Ea in Es. destruct (uppercased c =b? lit "BLPOP") eqn:Hnb.
  { apply beq_true in Hnb. rewrite Hnb in Es.
    destruct (blpop_again env env' c owed s t s' ev out Hnb Hst Es Hb) as [-> ?]. by destruct (sure key). }
  destruct (sure key) eqn:Hk; [|by eapply unsure_again].
  destruct (WRITES_split _ Hw) as [Hc|[Hc|Hc]]; [..|by rewrite Hc in Hnb].
  - by destruct (alone_again env env' c key rest owed s t s' ev out) as (v & -> & ?).
  - by destruct (push_again env env' c key rest owed s t s' ev out) as (v & -> & ?).
Qed.

Lemma dispatch_store m c cl w cl' w' heard out :
  dispatch m c cl w = (cl', w', heard, out) ->
  exists cl1 w1 out1, run_against m c cl w = (cl1, w1, heard, out1) /\ store w' = store w1
  /\ forall p, out = Blocks p <-> out1 = Blocks p.
Proof.
  unfold dispatch. destruct (run_against m c cl w) as [[[cl1 w1] h1] out1].
  intros E. exists cl1, w1, out1. destruct out1 as [reply| |]; [|by injection E as <- <- <- <-..].
  pose proof (finish_store m c reply w1). destruct (finish m c reply w1). by injection E as <- <- <- <-.
Qed.

Lemma dispatch_again m c cl w cl' w' heard out env owed t :
  fit c -> steady owed c out -> now env <= until ->
  dispatch m c cl w = (cl', w', heard, out) -> behind sure owed (store w) t ->
  again env (written_in m c cl w) t (behind sure (owing c heard owed) (store w')).
Proof.
  intros Hfit Hst Henv Hd Hb. apply dispatch_store in Hd as (cl1 & w1 & out1 & E & -> & Hblocks).
  assert (steady owed c out1) as Hst1.
  { intros key rest Hw Ea. specialize (Hst key rest Hw Ea). destruct (sure key); [|done].
    destruct Hst as [Ht Hun]. split; [done|]. destruct Hun as [?|[?|[p Hp]]]; [by left|by right; left|].
    right; right. exists p. by apply Hblocks. }
  unfold written_in. rewrite E. cbn [snd].
  destruct (one_of WRITES (uppercased c)) eqn:Ew.
  - rewrite run_against_write in E by done.
    destruct (store_run (Dispatch.env m) _ _ _) as [[[s1 ev] o]|] eqn:Es; injection E as <- <- <- <-.
    + by eapply write_again.
    + apply again_refused; [done|]. by rewrite owing_nothing.
  - destruct (question_kept m c cl w cl1 w1 heard out1 Ew E) as [He Hh]. rewrite owing_nothing by done.
    assert (match out1 with Replied reply => written_by c reply | _ => [] end = []) as ->.
    { destruct out1 as [reply| |]; try done. unfold written_by.
      destruct (is_error reply); [done|]. destruct (written_down c reply) eqn:Hw; [|done].
      apply written_down_writes in Hw. congruence. }
    apply again_nothing. apply (behind_abides sure owed (store w)); [done|by eapply lapses_abides].
Qed.

(** What an act wrote down, whoever is behind the server can carry out. *)
Lemma act_again env w owed asked vs w' owed' t :
  now env <= until -> act w owed asked vs w' owed' -> behind sure owed (store w) t ->
  again env vs t (behind sure owed' (store w')).
Proof.
  intros Henv Ha Hb. destruct Ha as [m c cl w cl1 w1 heard out owed Hok Hfit Hst Hd
    |m c key timeout element x xs w owed Hok Hfit Hc Ea Ho reply|now c tr w tr' s todo owed Hs
    |env' reads deadline w owed].
  - by eapply dispatch_again.
  - rewrite finish_store. unfold written_by, written_down, reply. rewrite Hc, Ea. cbn.
    destruct (sure key) eqn:Hk.
    + destruct (behind_told sure env key x xs owed (store w) t Hb Hk (Ho eq_refl)) as (t' & ev & Et & Hb').
      exists t', 1%nat. split_and!; [|done|done].
      exists {| uppercased := lit "LPOP"; name := lit "LPOP"; args := [key] |}, ev, (BulkString x). by split_and!.
    + pose proof (upholds (law := confining) env (lit "LPOP") [key] t eq_refl eq_refl) as Ht.
      destruct (store_run env (lit "LPOP") [key] t) as [[[t' ev'] o]|] eqn:Et; [|done].
      destruct Ht as [Ft [[_ [? _]]|[v ->]]]; [done|]. exists t', (if is_error v then 0 else 1)%nat.
      split_and!; [|intros Hall; by rewrite Hall in Hk|by apply (behind_unsure sure owed key (store w) t)].
      exists {| uppercased := lit "LPOP"; name := lit "LPOP"; args := [key] |}, ev', v. by split_and!.
  - apply again_nothing. apply (behind_abides sure owed (store w)); [done|]. by eapply lapses_abides, steer_lapses.
  - apply again_nothing. cbn [with_store store]. pose proof (wait_kept env' reads deadline (store w)) as Hk.
    unfold resume_entries. destruct (wait_for_entries _ _ _ _) as [[s1 ev] out].
    apply (behind_abides sure owed (store w)); [done|eapply lapses_abides, Hk].
Qed.

End Acts.

(** ** Tried out *)
Definition after (words : list string) (w : World) : World :=
  (dispatch_ trial_moment (command_of words) insider w).1.1.2.
Definition after_telling (words : list string) (element : string) (w : World) : World :=
  (finish trial_moment (command_of words)
     (resume_element (default [] (head (args (command_of words)))) (Some (lit element))) w).1.

Section Trial.
#[local] Existing Instances plain_tables plain_trig plain_hash.
Context (sure : Bytes -> bool) (until : Z) (ok : Moment -> Prop).

Lemma act_words_of words w owed asked ws owed1 :
  ok trial_moment -> fit (command_of words) -> (forall out, steady sure until owed (command_of words) out) ->
  asked_by (command_of words) (replication (server w)) = asked ->
  written_in trial_moment (command_of words) insider w = ws ->
  owing sure (command_of words) (dispatch_ trial_moment (command_of words) insider w).1.2 owed = owed1 ->
  act sure until ok w owed asked ws (after words w) owed1.
Proof.
  intros Hok Hf Hs <- <- <-. unfold after.
  destruct (dispatch_ trial_moment (command_of words) insider w) as [[[cl w1] h] out] eqn:E.
  eapply act_dispatch; [exact Hok|exact Hf|apply Hs|exact E].
Qed.

Lemma act_told_of words key timeout element x xs w owed owed1 :
  ok trial_moment -> fit (command_of words) -> uppercased (command_of words) = lit "BLPOP" ->
  args (command_of words) = [key; timeout] -> owed !! key = Some (x :: xs) ->
  (if sure key then owe key xs owed else owed) = owed1 ->
  act sure until ok w owed [] [Array [BulkString (lit "LPOP"); BulkString key]]
    (after_telling words element w) owed1.
Proof.
  intros Hok Hf Hc Ea Ho <-. unfold after_telling. rewrite Ea. cbn [head default from_option Datatypes.id].
  pose proof (act_told sure until ok trial_moment (command_of words) key timeout (lit element) x xs w owed
    Hok Hf Hc Ea (fun _ => Ho)) as Ht.
  unfold written_by, written_down in Ht. rewrite Hc, Ea in Ht. exact Ht.
Qed.

End Trial.

(** One is sure of every key but a stream that is given its ids by a clock. *)
Definition all_but_s (key : Bytes) : bool := negb (key =b? lit "s").

Ltac holds_steady :=
  let E := fresh in
  intros ? ? ? E [= <- <-]; try (exfalso; revert E; vm_compute; discriminate);
  first [ match goal with |- if ?b then _ else _ => change b with true end; split;
          [vm_compute; reflexivity|left; vm_compute; reflexivity]
        | match goal with |- if ?b then _ else _ => change b with false end;
          intros ? _ [? _]; discriminate ].

(** The act of a client that sends these words. *)
Ltac sends words := apply (act_words_of _ _ _ words);
  [done|by apply fit_words|holds_steady|vm_compute; reflexivity..].
