(* ===== verification/Accounts.v ===== *)
(** * What the record says of the store

    A server's record is a list of commands.  Here is what it is to account for a
    history of the store ([accounted]): word by word, each a command that, run there
    and then, works and leaves the very entries that are there after, or the [LPOP] of
    an element that a push had handed over to a client who waited for it; and between
    the words nothing changes, but that what is to expire goes.  That the record of a
    server accounts for all its clients did is [record_is_history].  It takes that no
    command changes the entries without being written down: those that are not
    ([keeping]), and those that fail ([failing], as the comment in [dispatch] says). *)
From S2P Require Import Prelude Text Resp F64 Store StoreStrings StoreLists StoreStreams.
From S2P Require Import StoreSortedSets StoreSteps Command StoreCommands Geo Families StoreSafety Replies Alike Users.
From S2P Require Import Channels Config Replicas Transactions Aof Dispatch Sessions Startup Twins Owing Histories.
Open Scope Z_scope.

(** ** Commands that fail *)
Section Failing.
Context `{UnicodeTables} `{Trig}.

(** The law: one that would have written something and fails, or has to wait, changes
    nothing but what was to expire, and hands nothing out. *)
Definition failing : Law := fun env command _ s r =>
  one_of WRITES command = true ->
  match r with
  | Some (_, _, Replied v) => is_error v = true -> kept env s r
  | _ => kept env s r
  end.

Lemma failing_says env command args s v : failing env command args s (says s v).
Proof. intros _ _. apply kept_says. Qed.

(** The answer tells whether it failed. *)
Lemma failing_replies {A} env command args s (r : State * result A WrongType_t) reply :
  (r.2 = Err WrongType -> lapses (now env) (entries s) (entries r.1)) -> (forall a, is_error (reply a) = false) ->
  failing env command args s (replies r (typed reply)).
Proof.
  intros Hr Ha _. unfold replies. destruct r as [s1 [a|[]]]; cbn; [by rewrite Ha|]. intros _. split; [by apply Hr|done].
Qed.

(** Put back as it was. *)
Lemma put_back_lapses now es key e :
  drop_if_expired now es key !! key = Some e -> lapses now es (<[key := e]> (drop_if_expired now es key)).
Proof. intros E. rewrite insert_id by done. apply drop_lapses. Qed.

Lemma increment_refused now key s s' e :
  increment now key s = (s', Err e) -> lapses now (entries s) (entries s').
Proof.
  unfold increment, next_version. cbn [with_entries entries].
  destruct (drop_if_expired now (entries s) key !! key) as [en|] eqn:E; cbn [default from_option Datatypes.id].
  - pose proof (put_back_lapses now (entries s) key en E). repeat case_match; by intros [= <- _].
  - cbn [new_entry data]. change (lit "0") with (show 0). rewrite as_number_show by (by vm_compute). done.
Qed.

Lemma push_refused open now key elements side s s' given e :
  push open now key elements side s = (s', given, Err e) -> given = [] /\ lapses now (entries s) (entries s').
Proof.
  unfold push, next_version. cbn [with_entries entries].
  destruct (drop_if_expired now (entries s) key !! key) as [en|] eqn:E; cbn [default from_option Datatypes.id].
  - pose proof (put_back_lapses now (entries s) key en E). destruct (data en); try (by intros [= <- <- _]).
    by destruct (wake_waiters _ _ _ _).
  - cbn [new_entry data]. by destruct (wake_waiters _ _ _ _).
Qed.

Lemma lpop_refused now key n s s' e : lpop now key n s = (s', Err e) -> lapses now (entries s) (entries s').
Proof.
  unfold lpop, next_version. cbn [with_entries entries]. repeat case_match; intros [= <- _]; try done; apply drop_lapses.
Qed.

Lemma xadd_refused clock now key requested fs s s' woken e :
  xadd clock now key requested fs s = (s', woken, Err e) -> woken = [] /\ lapses now (entries s) (entries s').
Proof.
  unfold xadd, next_version. cbn [with_entries entries].
  destruct (match requested with Explicit id => id_le id ZERO | _ => false end); [by intros [= <- <- _]|].
  destruct (drop_if_expired now (entries s) key !! key) as [en|] eqn:E; cbn [default from_option Datatypes.id].
  - pose proof (put_back_lapses now (entries s) key en E). repeat case_match; by intros [= <- <- _].
  - cbn [new_entry data]. unfold resolve. by destruct requested.
Qed.

Lemma zadd_refused now key members s s' e :
  zadd now key members s = (s', Err e) -> lapses now (entries s) (entries s').
Proof.
  unfold zadd, next_version. cbn [with_entries entries].
  destruct (drop_if_expired now (entries s) key !! key) as [en|] eqn:E; cbn [default from_option Datatypes.id].
  - pose proof (put_back_lapses now (entries s) key en E). destruct (data en); try (by intros [= <- _]).
    by destruct (add_all _ _ _) as [? ?].
  - cbn [new_entry data]. by destruct (add_all _ _ _) as [? ?].
Qed.

Lemma zrem_refused now key members s s' e :
  zrem now key members s = (s', Err e) -> lapses now (entries s) (entries s').
Proof.
  unfold zrem, next_version. cbn [with_entries entries].
  destruct (drop_if_expired now (entries s) key !! key) as [en|] eqn:E; [|done].
  destruct (data en); try (intros [= <- _]; apply drop_lapses). by destruct (take_all _ _ _) as [? ?].
Qed.

(** What is not written down does not come into it. *)
Lemma failing_not_written env command args s r : one_of WRITES command = false -> failing env command args s r.
Proof. intros E Hw. congruence. Qed.

Ltac claimed_as word :=
  match goal with |- context [if ?command =b? lit word then _ else _] =>
    let E := fresh in destruct (command =b? lit word) eqn:E; [apply beq_true in E as ->|clear E] end.
Ltac skips word := claimed_as word; [by apply failing_not_written|].

#[export] Instance strings_failing : Upholds failing strings_run.
Proof.
  intros env command args s. unfold strings_run. skips "PING"%string. skips "ECHO"%string. claimed_as "SET"%string.
  { destruct args as [|key [|value options]]; [apply failing_says..|]. unfold run_set.
    destruct (parse_expiry options) as [d|]; [|apply failing_says].
    destruct (StoreStrings.set _ _ _ _ _); [by intros _ ?|]. by intros _. }
  skips "GET"%string. claimed_as "INCR"%string; [|by intros _].
  destruct args as [|key [|]]; [apply failing_says| |apply failing_says].
  pose proof (increment_refused (now env) key s) as Hi. unfold replies. intros _.
  destruct (increment _ _ _) as [s1 [n|e]]; [by intros ?|]. intros _. split; [by eapply Hi|done].
Qed.

Lemma failing_push env key elements side s : failing env (lit "RPUSH") (key :: elements) s (run_push env key elements side s).
Proof.
  intros _. unfold run_push. pose proof (push_refused (open env) (now env) key elements side s) as Hp.
  destruct (push _ _ _ _ _ _) as [[s1 given] [n|e]]; [by intros ?|]. intros _. by destruct (Hp _ _ _ eq_refl) as [-> ?].
Qed.

#[export] Instance lists_failing : Upholds failing lists_run.
Proof.
  intros env command args s. unfold lists_run.
  claimed_as "RPUSH"%string; [destruct args as [|key [|x xs]]; [apply failing_says..|apply failing_push]|].
  claimed_as "LPUSH"%string; [destruct args as [|key [|x xs]]; [apply failing_says..|apply failing_push]|].
  claimed_as "LPOP"%string.
  { assert (Hl : forall key n reply, (forall a, is_error (reply a) = false) ->
      failing env (lit "LPOP") args s (replies (lpop (now env) key n s) (typed reply))).
    { intros key n reply Ha. apply failing_replies; [|done]. intros E. pose proof (lpop_refused (now env) key n s) as Hr.
      destruct (lpop _ _ _ _) as [s1 r]. cbn in E. subst r. by eapply Hr. }
    destruct args as [|key [|n [|]]]; [apply failing_says|..|apply failing_says]; unfold run_lpop.
    - apply Hl. intros [|x l]; done.
    - destruct (number_i64 n) as [z|]; [|apply failing_says]. destruct (z <? 0); [apply failing_says|by apply Hl]. }
  claimed_as "BLPOP"%string.
  { destruct args as [|key [|t [|]]]; [apply failing_says..| |apply failing_says]. unfold run_blpop.
    destruct (parse_timeout t) as [d|]; [|apply failing_says]. intros _. unfold blpop, next_version.
    cbn [with_entries entries]. pose proof (drop_lapses (now env) (entries s) key) as Hd.
    destruct (drop_if_expired (now env) (entries s) key !! key) as [[[|l| |] x v]|]; try (by split).
    destruct (pop_first _ _ _) as [es [y|]]; [by intros ?|by split]. }
  skips "LLEN"%string. skips "LRANGE"%string. by intros _.
Qed.

#[export] Instance streams_failing : Upholds failing streams_run.
Proof.
  intros env command args s. unfold streams_run. claimed_as "XADD"%string.
  - unfold refuses. destruct args as [|key [|id fs]]; [apply failing_says..|].
    destruct (_ && _); [|apply failing_says]. unfold run_xadd.
    destruct (match text id with Some _ => _ | None => _ end) as [r|]; [|apply failing_says]. intros _.
    pose proof (xadd_refused (clock env) (now env) key r (pairs_of fs) s) as Hx.
    destruct (xadd _ _ _ _ _ _) as [[s1 woken] [n|e]]; [by intros ?|]. intros _.
    by destruct (Hx _ _ _ eq_refl) as [-> ?].
  - skips "XRANGE"%string. skips "XREAD"%string. by intros _.
Qed.

Lemma failing_zadd env command args key members s : failing env command args s (replies (zadd (now env) key members s) (typed count)).
Proof.
  apply failing_replies; [|done]. intros E. pose proof (zadd_refused (now env) key members s) as Hr.
  destruct (zadd _ _ _ _) as [s1 r]. cbn in E. subst r. by eapply Hr.
Qed.

#[export] Instance sorted_sets_failing : Upholds failing sorted_sets_run.
Proof.
  intros env command args s. unfold sorted_sets_run. claimed_as "ZADD"%string.
  { destruct args as [|key [|x xs]]; [apply failing_says..|]. unfold run_zadd.
    destruct (parse_members _); [apply failing_zadd|apply failing_says]. }
  skips "ZRANK"%string. claimed_as "ZREM"%string.
  { destruct args as [|key [|x xs]]; [apply failing_says..|]. apply failing_replies; [|done].
    intros E. pose proof (zrem_refused (now env) key (x :: xs) s) as Hr.
    destruct (zrem _ _ _ _) as [s1 r]. cbn in E. subst r. by eapply Hr. }
  skips "ZSCORE"%string. skips "ZCARD"%string. skips "ZRANGE"%string. by intros _.
Qed.

#[export] Instance geo_failing : Upholds failing geo_run.
Proof.
  intros env command args s. unfold geo_run. claimed_as "GEOADD"%string.
  { destruct args as [|key located]; [apply failing_says|]. unfold geoadd.
    destruct (_ <=? _)%nat; [|apply failing_says]. destruct (negb _); [apply failing_says|]. destruct (collect_results _ _); [apply failing_zadd|apply failing_says]. }
  skips "GEOPOS"%string. skips "GEODIST"%string. skips "GEOSEARCH"%string. by intros _.
Qed.

#[export] Instance keys_failing : Upholds failing keys_run.
Proof. intros env command args s. unfold keys_run. skips "TYPE"%string. skips "KEYS"%string. by intros _. Qed.

#[export] Instance store_run_failing : Upholds failing store_run.
Proof. unfold store_run. apply _. Qed.

End Failing.


(** ** Accounting for what happened *)
Section Accounts.
Context `{UnicodeTables} `{Trig} `{PasswordHash}.

(** What the clock reads at the latest. *)
Context (until : Z).

(** Elements handed over to clients who waited for them at a key. *)
Abbreviation Handed_over := (list (Bytes * Bytes)).

Definition handed_at (arguments : list Bytes) (elements : list Bytes) : Handed_over :=
  match arguments with key :: _ => map (pair key) elements | [] => [] end.

(** What a word does where it stands: run then, it works, and leaves these entries,
    and hands these elements over.  Run at any time, it waits for nobody. *)
Definition tells (env : Env) (v : Value) (s s' : State) (over : Handed_over) : Prop :=
  exists c t ev x, parse_command v = Ok c
  /\ store_run env (uppercased c) (args c) s = Some (t, ev, Replied x) /\ is_error x = false
  /\ entries t = entries s' /\ over = handed_at (args c) (handed ev)
  /\ forall env' s' t' ev' on, store_run env' (uppercased c) (args c) s' <> Some (t', ev', Blocks on).

Definition LPOP_of (key : Bytes) : Value := Array [BulkString (lit "LPOP"); BulkString key].

(** From one store to another, with what had been handed over by clients who had yet to
    tell of it, at the one time and the other. *)
Inductive accounted : State -> Handed_over -> list Value -> State -> Handed_over -> Prop :=
| accounted_end s over : accounted s over [] s over
| accounted_silence now s over s1 vs s2 over2 :
    now <= until -> lapses now (entries s) (entries s1) -> accounted s1 over vs s2 over2 -> accounted s over vs s2 over2
| accounted_word env v s over s1 more vs s2 over2 :
    tells env v s s1 more -> accounted s1 (over ++ more) vs s2 over2 -> accounted s over (v :: vs) s2 over2
| accounted_told key x s over1 over3 vs s2 over2 :
    accounted s (over1 ++ over3) vs s2 over2 ->
    accounted s (over1 ++ (key, x) :: over3) (LPOP_of key :: vs) s2 over2.

(** ** What happens *)

(** What a client that had to wait is answered in the end, and what of that had been
    handed over to it. *)
Inductive comes_late (c : Command) : Value -> Handed_over -> Handed_over -> Prop :=
| late_element key timeout x over1 over2 :
    uppercased c = lit "BLPOP" -> args c = [key; timeout] ->
    comes_late c (resume_element key (Some x)) (over1 ++ (key, x) :: over2) (over1 ++ over2)
| late_in_vain over : uppercased c = lit "BLPOP" -> comes_late c NullArray over over
| late_other reply over : one_of ["XREAD"; "WAIT"]%string (uppercased c) = true -> comes_late c reply over over.

(** A history: commands of any clients in any order, those that had to wait answering
    whenever they do; [EXEC] and [WATCH] looking at versions, a woken [XREAD] looking
    again; and whatever leaves the entries, the record and its files alone.  What is
    recorded gets into the file, though pushing it through to the disk may fail. *)
Inductive history : World -> Handed_over -> World -> Handed_over -> Prop :=
| history_start w over : history w over w over
| history_dispatch m fault c cl w cl' w' heard out over w2 over2 :
    now (env m) <= until -> fit c -> append m = Appended fault -> dispatch m c cl w = (cl', w', heard, out) ->
    history w' (over ++ handed_at (args c) (handed_out heard)) w2 over2 -> history w over w2 over2
| history_resumed m fault c reply w over over1 w2 over2 :
    fit c -> append m = Appended fault -> comes_late c reply over over1 ->
    history (finish m c reply w).1 over1 w2 over2 -> history w over w2 over2
| history_steered now c t w t' s todo over w2 over2 :
    now <= until -> steer now c t (store w) = Some (t', s, todo) ->
    history (with_store w s) over w2 over2 -> history w over w2 over2
| history_read_again env reads deadline w over w2 over2 :
    now env <= until -> history (with_store w (resume_entries env reads deadline (store w)).1.1) over w2 over2 ->
    history w over w2 over2
| history_elsewhere w w1 over w2 over2 :
    store w1 = store w -> files w1 = files w -> aof (server w1) = aof (server w) ->
    history w1 over w2 over2 -> history w over w2 over2.

(** ** One after the other *)

(** A [BLPOP] that finds an element leaves what an [LPOP] would. *)
Lemma blpop_as_lpop env arguments s s1 ev v :
  store_run env (lit "BLPOP") arguments s = Some (s1, ev, Replied v) -> is_error v = false ->
  exists key timeout x t, arguments = [key; timeout] /\ v = resume_element key (Some x) /\ ev = []
  /\ store_run env (lit "LPOP") [key] s = Some (t, [], Replied (BulkString x)) /\ entries t = entries s1.
Proof.
  change (store_run env (lit "BLPOP") arguments s) with
    (match (match arguments with [key; timeout] => run_blpop env key timeout s | _ => refuses s "blpop" end)
     with Some r => Some r | None => keys_run env (lit "BLPOP") arguments s end).
  destruct arguments as [|key [|timeout [|]]]; try (by intros [= <- <- <-]).
  unfold run_blpop. destruct (parse_timeout timeout) as [d|e] eqn:Ep.
  2: { apply parse_timeout_refuses in Ep. intros [= <- <- <-]. congruence. }
  unfold blpop, next_version. cbn [with_entries entries].
  destruct (drop_if_expired (now env) (entries s) key !! key) as [[[|l| |] x v0]|] eqn:Es; try (by intros [= <- <- <-]).
  unfold pop_first. rewrite Es. cbn [data]. destruct l as [|y l]; [done|]. intros [= <- <- <-] _.
  eexists key, timeout, y, _. split_and!; [done..| |].
  - change (store_run env (lit "LPOP") [key] s) with
      (replies (lpop (now env) key 1 s) (typed (fun l => or_null (head l)))).
    unfold replies, lpop, next_version. cbn [with_entries entries]. rewrite Es. cbn [data].
    rewrite len_cons, Z.min_l by (pose proof (len_nonneg l); lia). reflexivity.
  - cbn. change (Z.to_nat 1) with 1%nat. cbn [drop]. rewrite drop_0. by destruct (bool_decide (l = [])).
Qed.

Lemma write_waits_not c env s t ev on :
  one_of WRITES (uppercased c) = true -> (uppercased c =b? lit "BLPOP") = false ->
  store_run env (uppercased c) (args c) s <> Some (t, ev, Blocks on).
Proof.
  intros Hw Hb E. pose proof (upholds (law := waiting) env (uppercased c) (args c) s) as Hl.
  unfold waiting in Hl. rewrite E in Hl. unfold waits_for in Hl. rewrite Hl in Hw, Hb. by destruct on.
Qed.

(** What can be put before an account of what follows. *)
Definition opens (s : State) (over : Handed_over) (vs : list Value) (s1 : State) (over1 : Handed_over) : Prop :=
  forall ws s2 over2, accounted s1 over1 ws s2 over2 -> accounted s over (vs ++ ws) s2 over2.

Lemma opens_silence now s s1 over over1 :
  now <= until -> lapses now (entries s) (entries s1) -> over1 = over -> opens s over [] s1 over1.
Proof. intros Hn Hl -> ws s2 over2 Ha. by eapply accounted_silence. Qed.

Lemma write_opens m c cl w cl' w1 heard out over :
  now (env m) <= until -> fit c -> one_of WRITES (uppercased c) = true -> run_against m c cl w = (cl', w1, heard, out) ->
  opens (store w) over (match out with Replied reply => written_by c reply | _ => [] end)
    (store w1) (over ++ handed_at (args c) (handed_out heard)).
Proof.
  intros Hn Hfit Hw. rewrite run_against_write by done.
  assert (Hnone : forall elements, elements = [] -> over ++ handed_at (args c) elements = over).
  { intros ? ->. destruct (args c); cbn; by rewrite app_nil_r. }
  destruct (store_run (Dispatch.env m) _ _ _) as [[[s1 ev] o]|] eqn:E; intros [= <- <- <- <-]; cbn [store with_store].
  2: { by apply (opens_silence (now (env m))); [done|reflexivity|apply Hnone]. }
  rewrite handed_out_store.
  pose proof (upholds (law := failing) (Dispatch.env m) _ (args c) (store w) Hw) as Hf. rewrite E in Hf.
  destruct o as [v| |]; [|destruct Hf as [Hl Hh]; eapply opens_silence; [exact Hn|exact Hl|by apply Hnone]..].
  unfold written_by. destruct (is_error v) eqn:Ev.
  { destruct (Hf eq_refl) as [Hl Hh]. eapply opens_silence; [exact Hn|exact Hl|by apply Hnone]. }
  destruct (uppercased c =b? lit "BLPOP") eqn:Eb.
  - apply beq_true in Eb. rewrite Eb in E.
    destruct (blpop_as_lpop _ _ _ _ _ _ E Ev) as (key & timeout & x & t & Ea & -> & -> & El & Et).
    unfold written_down. rewrite Eb, Ea. cbn. rewrite app_nil_r. intros ws s2 over2 Ha.
    eapply (accounted_word (Dispatch.env m)); [|cbn; by rewrite app_nil_r].
    exists {| uppercased := lit "LPOP"; name := lit "LPOP"; args := [key] |}, t, [], (BulkString x).
    by split_and!.
  - assert (written_down c v = Some (as_sent c)) as ->.
    { unfold written_down. revert Hw. unfold one_of, WRITES. cbn [existsb].
      rewrite Eb. cbn [orb]. rewrite !orb_false_r. by intros ->. }
    intros ws s2 over2 Ha. eapply (accounted_word (Dispatch.env m)); [|exact Ha].
    exists c, s1, ev, v. split_and!; [apply Hfit|done..|]. intros. by apply write_waits_not.
Qed.

Lemma dispatch_opens m c cl w cl' w' heard out over :
  now (env m) <= until -> fit c -> dispatch m c cl w = (cl', w', heard, out) ->
  opens (store w) over (written_in m c cl w) (store w') (over ++ handed_at (args c) (handed_out heard)).
Proof.
  intros Hn Hfit Hd. apply dispatch_store in Hd as (cl1 & w1 & out1 & E & -> & _). unfold written_in. rewrite E. cbn [snd].
  destruct (one_of WRITES (uppercased c)) eqn:Ew; [by eapply write_opens|].
  destruct (question_kept m c cl w cl1 w1 heard out1 Ew E) as [Hl Hh].
  assert (match out1 with Replied reply => written_by c reply | _ => [] end = []) as ->.
  { destruct out1 as [reply| |]; try done. unfold written_by.
    destruct (is_error reply); [done|]. by rewrite question_not_written. }
  eapply opens_silence; [exact Hn|exact Hl|]. rewrite Hh. destruct (args c); cbn; by rewrite app_nil_r.
Qed.

Lemma late_opens c reply s over over1 :
  comes_late c reply over over1 -> opens s over (written_by c reply) s over1.
Proof.
  intros Hl ws s2 over2 Ha. destruct Hl as [key timeout x over3 over4 Hc Ea|over Hc|reply over Hc].
  - unfold written_by, written_down. rewrite Hc, Ea. by apply accounted_told.
  - unfold written_by, written_down. rewrite Hc. cbn. by destruct (args c).
  - unfold written_by. destruct (is_error reply); [done|]. rewrite question_not_written; [done|].
    revert Hc. unfold one_of at 1. cbn [existsb]. rewrite !orb_true_iff, !beq_true. by intros [-> |[-> |?]].
Qed.

Lemma history_record w over w' over' a bytes :
  history w over w' over' -> aof (server w) = Some a -> files w !! path a = Some bytes ->
  exists vs, Forall fit_request vs /\ files w' !! path a = Some (bytes ++ flat_map encode vs)
  /\ accounted (store w) over vs (store w') over'.
Proof.
  intros Hh. revert bytes. induction Hh as [w over|m fault c cl w cl1 w1 heard out over w2 over2 Hn Hc Hm Hd _ IH
    |m fault c reply w over over1 w2 over2 Hc Hm Hl _ IH|now c t w t' s todo over w2 over2 Hn Hs _ IH
    |env reads deadline w over w2 over2 Hn _ IH|w w1 over w2 over2 He Hf Ha1 _ IH]; intros bytes Ha Hb.
  - exists []. rewrite app_nil_r. split_and!; [apply Forall_nil_2|done|constructor].
  - destruct (dispatch_records _ _ _ _ _ _ _ _ _ _ _ Hm Ha Hb Hd) as [Ha1 Hb1].
    destruct (IH _ Ha1 Hb1) as (vs & Hvs & -> & Hacc). exists (written_in m c cl w ++ vs).
    rewrite flat_map_app, app_assoc. split_and!; [|done|by eapply dispatch_opens].
    apply Forall_app. split; [|done]. unfold written_in.
    destruct (run_against m c cl w).2; [by apply written_by_fit|apply Forall_nil_2..].
  - destruct (finish_records m c reply w a bytes fault Hm Ha Hb) as [Ha1 Hb1].
    destruct (IH _ Ha1 Hb1) as (vs & Hvs & -> & Hacc). exists (written_by c reply ++ vs).
    rewrite flat_map_app, app_assoc. split_and!; [|done|].
    + apply Forall_app. split; [by apply written_by_fit|done].
    + rewrite finish_store in Hacc. by eapply late_opens.
  - destruct (IH bytes Ha Hb) as (vs & Hvs & -> & Hacc). exists vs. split_and!; [done..|].
    eapply accounted_silence; [exact Hn|by eapply steer_lapses|exact Hacc].
  - destruct (IH bytes Ha Hb) as (vs & Hvs & -> & Hacc). exists vs. split_and!; [done..|].
    eapply accounted_silence; [exact Hn| |exact Hacc]. cbn [with_store store].
    pose proof (wait_kept env reads deadline (store w)) as Hk. unfold resume_entries.
    destruct (wait_for_entries _ _ _ _) as [[s1 ev] out]. apply Hk.
  - destruct (IH bytes ltac:(by rewrite Ha1) ltac:(by rewrite Hf)) as (vs & Hvs & -> & Hacc).
    exists vs. split_and!; [done..|]. by rewrite <- He.
Qed.

End Accounts.

(** C5. The record is the history of the writes: whichever clients send whatever
    commands in whatever order, each finished and recorded before the next, waits that
    end late included, what a server starting up over the record reads is what was
    recorded before and then words that account for all that has become of the data.
    One after the other, each is a command that waits for nobody and that, run where it
    stands, works, hands over what was handed over there and leaves the very entries
    that were left; or it is the [LPOP] of an element that had been handed over to a
    client who waited for it and now tells.  Between two words, and so by any command
    that failed or only asked, nothing has changed but that some of what was to expire
    has gone.  (A command that works is among them even where it found nothing to
    change.) *)
Theorem record_is_history `{UnicodeTables} `{Trig} `{PasswordHash} until faults w over w' over' a old :
  history until w over w' over' -> aof (server w) = Some a ->
  files w !! path a = Some (flat_map encode old) -> Forall (wire MAX_DEPTH) old ->
  faults (ReadFile (path a)) = None ->
  exists vs, recorded faults (files w') a = Ok (old ++ vs) /\ accounted until (store w) over vs (store w') over'.
Proof.
  intros Hh Ha Hold Hw Hf. destruct (history_record _ _ _ _ _ _ _ Hh Ha Hold) as (vs & Hvs & Hfile & Hacc).
  exists vs. split; [|done]. apply (recorded_whole _ _ _ _ []); [done| |by left|].
  - apply Forall_app. split; [done|]. by eapply Forall_impl; [exact Hvs|intros v []].
  - by rewrite Hfile, app_nil_r, flat_map_app.
Qed.

Section Trial.
#[local] Existing Instances plain_tables plain_trig plain_hash.

Definition recording_world : World :=
  {| store := empty_state; server := trial_server; files := {[ lit "f" := [] ]} |}.
Definition handing_world : World :=
  after ["ZREM"; "z"; "a"] (after ["ZADD"; "z"; "1"; "a"; "2"; "b"]
    (after ["RPUSH"; "l"; "a"; "b"] (after ["BLPOP"; "l"; "0"] recording_world))).
Definition handed_world : World := after_telling ["BLPOP"; "l"; "0"] "a" handing_world.

Lemma history_after words over over1 w w2 over2 :
  fit (command_of words) ->
  over ++ handed_at (args (command_of words))
    (handed_out (dispatch_ trial_moment (command_of words) insider w).1.2) = over1 ->
  history 7 (after words w) over1 w2 over2 -> history 7 w over w2 over2.
Proof.
  intros Hfit <-. unfold after.
  destruct (dispatch_ trial_moment (command_of words) insider w) as [[[cl1 w1] heard] out] eqn:E.
  intros Hh. by apply (history_dispatch 7 trial_moment None (command_of words) insider w cl1 w1 heard out).
Qed.

Lemma history_telling words element key timeout over1 over2 w w2 over3 :
  fit (command_of words) -> uppercased (command_of words) = lit "BLPOP" ->
  args (command_of words) = [key; timeout] ->
  history 7 (after_telling words element w) (over1 ++ over2) w2 over3 ->
  history 7 w (over1 ++ (key, lit element) :: over2) w2 over3.
Proof.
  unfold after_telling. intros Hfit Hc Ea. rewrite Ea. cbn [head default from_option Datatypes.id].
  apply (history_resumed 7 trial_moment None (command_of words)); [exact Hfit|done|]. by apply (late_element _ key timeout).
Qed.

Lemma history_trial : history 7 recording_world [] handed_world [].
Proof.
  unfold handed_world, handing_world.
  apply (history_after ["BLPOP"; "l"; "0"]%string [] []); [by apply fit_words|by vm_compute|].
  apply (history_after ["RPUSH"; "l"; "a"; "b"]%string [] [(lit "l", lit "a")]); [by apply fit_words|by vm_compute|].
  apply (history_after ["ZADD"; "z"; "1"; "a"; "2"; "b"]%string _ [(lit "l", lit "a")]); [by apply fit_words|by vm_compute|].
  apply (history_after ["ZREM"; "z"; "a"]%string _ [(lit "l", lit "a")]); [by apply fit_words|by vm_compute|].
  apply (history_telling ["BLPOP"; "l"; "0"]%string "a" (lit "l") (lit "0") [] []);
    [by apply fit_words|done|done|apply history_start].
Qed.

End Trial.

Lemma record_is_history_witness :
  exists vs, recorded no_faults (files handed_world) {| path := lit "f"; durable := false |} = Ok vs
  /\ vs = [request_of ["RPUSH"; "l"; "a"; "b"]; request_of ["ZADD"; "z"; "1"; "a"; "2"; "b"];
           request_of ["ZREM"; "z"; "a"]; request_of ["LPOP"; "l"]]
  /\ @accounted plain_tables plain_trig 7 empty_state [] vs (store handed_world) [].
Proof.
  destruct (@record_is_history plain_tables plain_trig plain_hash 7 no_faults recording_world [] handed_world []
    {| path := lit "f"; durable := false |} [] history_trial eq_refl eq_refl (Forall_nil_2 _) eq_refl)
    as (vs & E & Hacc).
  exists vs. split_and!; [exact E| |exact Hacc].
  assert (recorded no_faults (files handed_world) {| path := lit "f"; durable := false |}
    = Ok [request_of ["RPUSH"; "l"; "a"; "b"]; request_of ["ZADD"; "z"; "1"; "a"; "2"; "b"];
          request_of ["ZREM"; "z"; "a"]; request_of ["LPOP"; "l"]]) as Hv by (vm_compute; reflexivity).
  rewrite E in Hv. by injection Hv.
Defined.
