(* ===== verification/Durability.v ===== *)
(** * What is recorded is what is restored

    A server that plays its record back ends up with the data the server that
    wrote the record had, under every key one can be sure of: [restart_restores].  It
    holds of the [act]s of any clients ([Histories]), one finished and recorded before
    the next; [Sessions] and [Interleaving] show what becomes of the rest.  All
    along the way the one store is [behind] the other by what was handed to blocked
    clients who had yet to tell of it ([Owing]), and so [alike] when there is none. *)
From S2P Require Import Prelude Text Resp F64 Store StoreStrings StoreLists StoreStreams.
From S2P Require Import StoreSortedSets StoreSteps Command StoreCommands Geo Families Alike Twins Owing Users.
From S2P Require Import Channels Config Replicas Transactions Aof Rdb Dispatch Replies Sessions Startup Histories.
Open Scope Z_scope.

(** ** Histories and their replay *)
Section Restoring.
Context `{UnicodeTables} `{Trig} `{PasswordHash}.
Context (sure : Bytes -> bool) (until : Z).

(** A history: what clients do, in any order, and whatever leaves the entries of the
    store, the record and its files alone (clients that come, wait no longer and go,
    for one).  With what is owed and what is left for the record. *)
Inductive lasting : World -> Owed -> list Value -> World -> Owed -> Prop :=
| lasting_start w owed : lasting w owed [] w owed
| lasting_act w owed asked vs w1 owed1 ws w2 owed2 :
    act sure until (fun m => append m = Appended None) w owed asked vs w1 owed1 ->
    lasting w1 owed1 ws w2 owed2 -> lasting w owed (vs ++ ws) w2 owed2
| lasting_elsewhere w owed w1 ws w2 owed2 :
    entries (store w1) = entries (store w) -> files w1 = files w -> aof (server w1) = aof (server w) ->
    lasting w1 owed ws w2 owed2 -> lasting w owed ws w2 owed2.

Lemma run_again moments v c u l t ev x :
  parse_command v = Ok c -> one_of WRITES (uppercased c) = true ->
  store_run (Dispatch.env (moments O)) (uppercased c) (args c) (store u) = Some (t, ev, Replied x) ->
  aof (server u) = None \/ append (moments O) = Appended None ->
  exists u' heard, run moments v (replayer l) u = (replayer l, u', heard, Answers (Reply x))
  /\ store u' = t /\ aof (server u') = aof (server u).
Proof.
  intros Hp Hw Hs Ha.
  assert (Hc : steers_a_transaction (uppercased c) = false /\ (uppercased c =b? lit "PSYNC") = false
               /\ forall now tr s, steer now c tr s = None).
  { revert Hw. unfold one_of, WRITES. cbn [existsb]. rewrite !orb_true_iff, !beq_true. unfold steer.
    intros [-> |[-> |[-> |[-> |[-> |[-> |[-> |[-> |[-> |[-> |?]]]]]]]]]]; [by split_and!..|done]. }
  destruct Hc as (Hst & Hpsync & Hsteer). unfold run, dispatch, answer_to.
  rewrite Hp, Hst, Hsteer, Hpsync. cbn [replayer identity trusted authenticated subscriptions
    subscriptions_of listening on negb andb transaction no_transaction queued].
  rewrite run_against_write, Hs by done. unfold finish.
  destruct (is_error x) eqn:Hx; [by eexists _, _|].
  destruct (written_down c x) as [written|]; [|by eexists _, _].
  cbn [with_store server]. destruct (aof (server u)) as [a|] eqn:Ea.
  - destruct Ha as [Ha|Ha]; [done|]. rewrite Ha. cbn [record].
    destruct (replicaof _); eexists _, _; (split; [done|by split]).
  - destruct (replicaof _); eexists _, _; (split; [done|by split]).
Qed.

Lemma done_again_run moments n vs rest k u l t done :
  done_again (Dispatch.env (moments n O)) vs (store u) t done -> aof (server u) = None ->
  exists u', replay moments n (vs ++ rest) (replayer l) u k
             = replay moments (n + length vs) rest (replayer l) u' (k + done)
  /\ store u' = t /\ aof (server u') = None.
Proof.
  destruct vs as [|v [|]]; [| |by intros []].
  - intros [-> ->] Ha. exists u. by rewrite !Nat.add_0_r.
  - intros (c & ev & x & Hp & Hw & Hs & ->) Ha.
    destruct (run_again (moments n) v c u l t ev x Hp Hw Hs (or_introl Ha)) as (u' & heard & Hr & Hu & Ha').
    exists u'. cbn [app replay length]. rewrite Hr. cbn [waits_left sit_out]. rewrite Nat.add_1_r, Ha', Ha.
    destruct (is_error x); rewrite ?Nat.add_0_r, ?Nat.add_1_r; by split_and!.
Qed.

(** Playing a history back over a store behind by what was owed at its beginning
    leaves one behind by what is owed at its end. *)
Lemma replay_lasting moments w owed vs w' owed' l :
  lasting w owed vs w' owed' -> (forall n, now (Dispatch.env (moments n O)) <= until) ->
  forall n k u, behind sure owed (store w) (store u) -> aof (server u) = None ->
  exists u' done, replay moments n vs (replayer l) u k = (u', Some (k + done)%nat, true)
  /\ (done <= length vs)%nat /\ ((forall key, sure key = true) -> done = length vs)
  /\ behind sure owed' (store w') (store u') /\ aof (server u') = None.
Proof.
  intros Hh Hin. induction Hh as [w owed|w owed asked vs w1 owed1 ws w2 owed2 Ha _ IH|w owed w1 ws w2 owed2 He Hf Ha _ IH];
    intros n k u Hb Hu.
  - exists u, O. rewrite Nat.add_0_r. by split_and!.
  - destruct (act_again _ _ _ (Dispatch.env (moments n O)) _ _ _ _ _ _ _ (Hin n) Ha Hb) as (t & d & Hdone & Hall & Hb').
    destruct (done_again_run moments n _ ws k u l t d Hdone Hu) as (u1 & -> & <- & Hu1).
    destruct (IH (n + length vs)%nat (k + d)%nat u1 Hb' Hu1) as (u2 & d2 & -> & Hle & Hall2 & H2).
    apply done_again_length in Hdone.
    exists u2, (d + d2)%nat. rewrite length_app. split_and!; [do 2 f_equal; f_equal; lia|lia|
      intros Hs; rewrite (Hall Hs), (Hall2 Hs); lia|apply H2..].
  - apply IH; [|done]. apply (behind_abides sure owed (store w)); [done|by rewrite He].
Qed.

Lemma lasting_record w owed vs w' owed' a bytes :
  lasting w owed vs w' owed' -> aof (server w) = Some a -> files w !! path a = Some bytes ->
  Forall fit_request vs /\ files w' !! path a = Some (bytes ++ flat_map encode vs).
Proof.
  intros Hh. revert bytes. induction Hh as [w owed|w owed asked vs w1 owed1 ws w2 owed2 Hact _ IH
    |w owed w1 ws w2 owed2 He Hf Ha1 _ IH]; intros bytes Ha Hb.
  - rewrite app_nil_r. by split; [apply Forall_nil_2|].
  - destruct (act_records _ _ _ _ _ _ _ _ _ a bytes (fun m Hm => Hm) Hact Ha Hb) as [Ha1 Hb1].
    destruct (IH _ Ha1 Hb1) as (Hvs & ->). rewrite flat_map_app, app_assoc.
    split; [|done]. apply Forall_app. split; [by eapply act_fit|done].
  - apply IH; congruence.
Qed.

End Restoring.


(** A server that has started afresh; clients that write to it, and one that waits
    for an element and is handed one. *)
Definition fresh_files : Files := (prepare no_faults trial_config ∅).1.
Definition fresh_aof : Aof := {| path := lit "d/aof/a.1.incr.aof"; durable := false |}.
Definition fresh_world : World :=
  {| store := empty_state;
     server := {| config := trial_config; replication := replication trial_server; channels := ∅;
                  aof := Some fresh_aof; users := [] |};
     files := <[path fresh_aof := []]> fresh_files |}.
Section Trial.
#[local] Existing Instances plain_tables plain_trig plain_hash.

Definition served_world : World :=
  after ["RPUSH"; "l"; "a"; "b"] (after ["BLPOP"; "l"; "0"] (after ["INCR"; "n"] fresh_world)).
Definition told_world : World :=
  after ["XADD"; "s"; "*"; "f"; "v"]
    (after_telling ["BLPOP"; "l"; "0"] "a" (after ["ZADD"; "z"; "1"; "a"] served_world)).

Definition trial_record : list Value :=
  [request_of ["INCR"; "n"]; request_of ["RPUSH"; "l"; "a"; "b"]; request_of ["ZADD"; "z"; "1"; "a"];
   request_of ["LPOP"; "l"]; request_of ["XADD"; "s"; "*"; "f"; "v"]].

Lemma lasting_trial : lasting all_but_s 7 fresh_world ∅ trial_record told_world ∅.
Proof.
  set (owed := {[ lit "l" := [lit "a"] ]} : Owed). unfold told_world.
  apply (lasting_act _ _ fresh_world ∅ [] [request_of ["INCR"; "n"]] (after ["INCR"; "n"] fresh_world) ∅
    (drop 1 trial_record)); [sends ["INCR"; "n"]%string|].
  eapply (lasting_act _ _ _ ∅ [] [] (after ["BLPOP"; "l"; "0"] (after ["INCR"; "n"] fresh_world)) ∅
    (drop 1 trial_record)); [sends ["BLPOP"; "l"; "0"]%string|].
  eapply (lasting_act _ _ _ ∅ [] [request_of ["RPUSH"; "l"; "a"; "b"]] served_world owed (drop 2 trial_record));
    [sends ["RPUSH"; "l"; "a"; "b"]%string|].
  eapply (lasting_act _ _ _ owed [] [request_of ["ZADD"; "z"; "1"; "a"]] (after ["ZADD"; "z"; "1"; "a"] served_world)
    owed (drop 3 trial_record)); [sends ["ZADD"; "z"; "1"; "a"]%string|].
  eapply (lasting_act _ _ _ owed [] [request_of ["LPOP"; "l"]]
    (after_telling ["BLPOP"; "l"; "0"] "a" (after ["ZADD"; "z"; "1"; "a"] served_world)) ∅ (drop 4 trial_record)).
  { eapply (act_told_of _ _ _ _ (lit "l") (lit "0")); [done|by apply fit_words|done|done|vm_compute; reflexivity..]. }
  eapply (lasting_act _ _ _ ∅ [] (drop 4 trial_record) _ ∅ []);
    [sends ["XADD"; "s"; "*"; "f"; "v"]%string|]. apply lasting_start.
Qed.

End Trial.

