(* ===== verification/Interleaving.v ===== *)
(** * Connections side by side

    Each connection is a task of its own, and between the lock of the store, that
    of the record and that of the replicas any other may come in.  [Dispatch]
    takes a command from one end to the other; here the task is taken apart into the
    stages between its locks ([Stage]): it has a command to run, waits, has words to
    note in the record, has them to pass on, has answered.  [go_on] takes it from one
    to the next, as [dispatch] does in the source, and a task that nobody comes between
    does what [dispatch] of [Dispatch] does ([alone_dispatches]).

    Whatever the order in which any number of tasks go on, the words of every command
    that worked get into the record once, and to every replica once if its client is
    answered that it worked ([interleavings_lose_nothing]).  What is not kept is the
    order: two writes may be noted the other way round than they were made, and
    playing the record back then ends elsewhere ([record_may_cross]). *)
From S2P Require Import Prelude Text Resp F64 Store StoreStrings StoreLists StoreStreams.
From S2P Require Import StoreSortedSets StoreSteps Command StoreCommands Geo Families StoreSafety Alike Owing Users.
From S2P Require Import Channels Config Replicas Transactions Aof Dispatch Replies Sessions Startup Histories Durability.
Open Scope Z_scope.

(** How far a task has got with a command: nothing yet; it is to run; it waits; it has
    answered so, and these words are to be noted, or noted already and to be passed on;
    it is through, and having answered this at first its client is told that; or it has
    come down. *)
Inductive Stage : Type :=
| Resting
| Asked (c : Command)
| Held (c : Command) (on : Pending)
| Noting (c : Command) (first written : Value)
| Passing (c : Command) (first written : Value)
| Answered (c : Command) (first reply : Value)
| Broken (c : Command).

(** The two halves of what [dispatch] does once a command has answered. *)
Definition note_down (m : Moment) (v : Value) (w : World) : World * result unit Failure :=
  match aof (server w) with
  | None => (w, Ok tt)
  | Some a =>
      let '(fs, r) := record (append m) a v (files w) in
      ({| store := store w; server := server w; files := fs |}, r)
  end.
Definition send_on (m : Moment) (v : Value) (w : World) : World :=
  match replicaof (config (server w)) with
  | None => with_replication w (pass_on (ended m) v (replication (server w)))
  | Some _ => w
  end.

Section Tasks.
Context `{UnicodeTables} `{Trig} `{PasswordHash}.

(** [dispatch] once the command has answered: what there is to write down. *)
Definition settle (c : Command) (first : Value) : Stage :=
  if is_error first then Answered c first first
  else match written_down c first with
       | None => Answered c first first
       | Some written => Noting c first written
       end.

(** [dispatch], up to the next lock. *)
Definition go_on (m : Moment) (cl : Client) (st : Stage) (w : World)
  : option (Client * World * list Heard * Stage) :=
  match st with
  | Asked c =>
      let '(cl, w, heard, out) := run_against m c cl w in
      Some (cl, w, heard,
            match out with Replied first => settle c first | Blocks on => Held c on | Panics => Broken c end)
  | Noting c first written =>
      let '(w, recorded) := note_down m written w in
      Some (cl, w, [],
            match recorded with Ok _ => Passing c first written | Err _ => Answered c first unrecorded end)
  | Passing c first written => Some (cl, send_on m written w, [], Answered c first first)
  | _ => None
  end.

(** A task left to itself. *)
Fixpoint alone (m : Moment) (fuel : nat) (cl : Client) (st : Stage) (w : World)
  : Client * World * list Heard * Stage :=
  match fuel, go_on m cl st w with
  | S fuel, Some (cl, w, heard, st) =>
      let '(cl, w, heard', st) := alone m fuel cl st w in (cl, w, heard ++ heard', st)
  | _, _ => (cl, w, [], st)
  end.

(** What it came to. *)
Definition outcome_of (st : Stage) : option Outcome :=
  match st with
  | Answered _ _ reply => Some (Replied reply)
  | Held _ on => Some (Blocks on)
  | Broken _ => Some Panics
  | _ => None
  end.

Lemma alone_finishes m fuel cl c first w :
  (2 <= fuel)%nat ->
  alone m fuel cl (settle c first) w
  = let '(w, reply) := finish m c first w in (cl, w, [], Answered c first reply).
Proof.
  intros Hf. destruct fuel as [|[|fuel]]; [lia..|]. unfold finish, settle.
  destruct (is_error first); [done|]. destruct (written_down c first) as [v|]; [|done].
  cbn [alone go_on]. unfold note_down.
  destruct (aof (server w)) as [a|]; cbn [server].
  - destruct (record (append m) a v (files w)) as [fs [[]|e]]; cbn [alone go_on app]; unfold send_on; cbn [server].
    + destruct (replicaof _); destruct fuel; done.
    + done.
  - cbn [alone go_on app]. unfold send_on. destruct (replicaof _); destruct fuel; done.
Qed.

Lemma alone_dispatches m cl c w :
  let '(cl1, w1, heard, st) := alone m 3 cl (Asked c) w in
  outcome_of st = Some (dispatch m c cl w).2 /\ dispatch m c cl w = (cl1, w1, heard, (dispatch m c cl w).2).
Proof.
  unfold dispatch. change 3%nat with (S 2). cbn [alone go_on].
  destruct (run_against m c cl w) as [[[cl1 w1] heard] [first|on|]]; cbn [alone go_on];
    [|by rewrite app_nil_r..].
  pose proof (alone_finishes m 2 cl1 c first w1 (le_n 2)) as Ha. cbn [alone] in Ha. rewrite Ha.
  destruct (finish m c first w1) as [w2 reply]. by rewrite app_nil_r.
Qed.

(** ** Any number of tasks *)
Record System := { world : World; tasks : list (Client * Stage) }.

Definition at_rest (st : Stage) : bool := match st with Resting | Answered _ _ _ => true | _ => false end.

(** What is asked of the replicas as a task advances. *)
Definition asked_in (st : Stage) (w : World) : list Value :=
  match st with Asked c => asked_by c (replication (server w)) | _ => [] end.

(** What is seen of a step: what was asked of the replicas, and the stage a task was in
    and the one it is in now. *)
Definition Label : Type := list Value * Stage * Stage.

(** One task goes on, while the others stay where they are; recording may fail at any
    point.  [stays] are the replicas that are there throughout. *)
Inductive sys_step (stays : nat -> Prop) : System -> Label -> System -> Prop :=
| sys_goes i m cl st w ts cl' w' heard st' :
    0 <= clock (env m) <= U64_MAX -> changes (store w) < U64_MAX ->
    (forall r, stays r -> ended m r = false) ->
    ts !! i = Some (cl, st) -> go_on m cl st w = Some (cl', w', heard, st') ->
    sys_step stays {| world := w; tasks := ts |} (asked_in st w, st, st')
      {| world := w'; tasks := <[i := (cl', st')]> ts |}
| sys_asks i cl st c w ts :
    ts !! i = Some (cl, st) -> at_rest st = true ->
    sys_step stays {| world := w; tasks := ts |} ([], st, Asked c)
      {| world := w; tasks := <[i := (cl, Asked c)]> ts |}
| sys_comes i cl c on first w ts :
    ts !! i = Some (cl, Held c on) -> comes_to on first ->
    sys_step stays {| world := w; tasks := ts |} ([], Held c on, settle c first)
      {| world := w; tasks := <[i := (cl, settle c first)]> ts |}
| sys_steers i cl st now c t s todo w ts :
    ts !! i = Some (cl, st) -> at_rest st = true ->
    steer now c (transaction cl) (store w) = Some (t, s, todo) ->
    sys_step stays {| world := w; tasks := ts |} ([], st, st)
      {| world := with_store w s; tasks := <[i := (with_transaction cl t, st)]> ts |}
| sys_reads_again i env cl c reads waker deadline w ts :
    ts !! i = Some (cl, Held c (AwaitEntries reads waker deadline)) ->
    sys_step stays {| world := w; tasks := ts |}
      ([], Held c (AwaitEntries reads waker deadline), Held c (AwaitEntries reads waker deadline))
      {| world := with_store w (resume_entries env reads deadline (store w)).1.1; tasks := ts |}.

Inductive sys_run (stays : nat -> Prop) : System -> list Label -> System -> Prop :=
| sys_start x : sys_run stays x [] x
| sys_next x a y trace z :
    sys_step stays x a y -> sys_run stays y trace z -> sys_run stays x (a :: trace) z.

(** ** What a trace tells *)

(** The commands that have come to an end: what they answered, and what their clients
    were told. *)
Definition ending (a : Label) : list (Command * Value * Value) :=
  match a with
  | (_, st, Answered c first reply) => if at_rest st then [] else [(c, first, reply)]
  | _ => []
  end.
Definition endings (trace : list Label) : list (Command * Value * Value) := flat_map ending trace.

(** The words of one that worked: and was recorded, so that its client is told so; or was
    not. *)
Definition words_told (e : Command * Value * Value) : list Value :=
  if is_error e.2 then [] else written_by e.1.1 e.1.2.
Definition words_cut (e : Command * Value * Value) : list Value :=
  if is_error e.2 then written_by e.1.1 e.1.2 else [].

(** What the record has of a word: all of it, or so many bytes. *)
Definition entire (v : Value) : Value * Bytes := (v, encode v).
Definition cut_off (p : Value * Bytes) : Prop := exists n, p.2 = take n (encode p.1).

(** The words that are in the record and yet to be passed on. *)
Definition unpassed (t : Client * Stage) : list Value :=
  match t.2 with Passing _ _ written => [written] | _ => [] end.

(** All a replica is sent: what is asked of it, and the words. *)
Definition sent_by (a : Label) : list Value := a.1.1 ++ flat_map words_told (ending a).
Definition sent (trace : list Label) : list Value := flat_map sent_by trace.

End Tasks.

Definition queue_of (i : nat) (rs : list Replica) : option (list Bytes) :=
  queue <$> List.find (fun r => Nat.eqb (replica_id r) i) rs.

(** ** Facts *)
Lemma queue_of_following ended i rs :
  ended i = false -> queue_of i (following ended rs) = queue_of i rs.
Proof.
  intros Hi. unfold queue_of, following. induction rs as [|r rs IH]; [done|]. cbn.
  destruct (Nat.eqb (replica_id r) i) eqn:E.
  - rewrite (proj1 (Nat.eqb_eq _ _) E), Hi. cbn. by rewrite E.
  - destruct (ended (replica_id r)); [exact IH|]. cbn. by rewrite E.
Qed.

Lemma queue_of_enqueue bytes i rs :
  queue_of i (map (enqueue bytes) rs) = (fun q => q ++ [bytes]) <$> queue_of i rs.
Proof.
  unfold queue_of. induction rs as [|r rs IH]; [done|]. cbn.
  by destruct (Nat.eqb (replica_id r) i).
Qed.

Lemma pass_on_queue ended i v r :
  ended i = false ->
  queue_of i (replicas (pass_on ended v r)) = (fun q => q ++ [encode v]) <$> queue_of i (replicas r).
Proof.
  intros Hi. unfold pass_on. rewrite send_to_replicas_spec. unfold advance. cbn [with_replicas replicas].
  by rewrite queue_of_enqueue, queue_of_following.
Qed.

Section Facts.
Context `{UnicodeTables} `{Trig} `{PasswordHash}.

Lemma replication_run_queue ended i now c r r' out :
  ended i = false -> replication_run ended now (uppercased c) (args c) r = Some (r', out) ->
  queue_of i (replicas r')
  = (fun q => q ++ map encode (asked_by c r)) <$> queue_of i (replicas r).
Proof.
  intros Hi. assert (Hsame : queue_of i (replicas r) = (fun q => q ++ []) <$> queue_of i (replicas r)).
  { destruct (queue_of i (replicas r)); cbn; [by rewrite app_nil_r|done]. }
  unfold replication_run, asked_by. destruct (uppercased c =b? lit "REPLCONF") eqn:Er.
  { apply beq_true in Er as ->. by intros [= <- _]. }
  destruct (uppercased c =b? lit "PSYNC") eqn:Ep.
  { apply beq_true in Ep as ->. by intros [= <- _]. }
  destruct (uppercased c =b? lit "WAIT"); [|done].
  destruct (args c) as [|wanted [|timeout [|]]]; try by intros [= <- _].
  destruct (number_i64 wanted), (number_i64 timeout) as [t|]; try by intros [= <- _].
  destruct (t <? 0); [by intros [= <- _]|]. cbn [orb]. unfold wait, wait_round, count_replicas, caught_up_to.
  destruct (offset r =? 0); intros [= <- _]; cbn [with_replicas replicas].
  - by rewrite queue_of_following.
  - by rewrite queue_of_following, pass_on_queue.
Qed.

(** Only what is asked of the replicas touches what is kept of them. *)
Lemma run_against_replicates m c cl w cl' w' heard out :
  run_against m c cl w = (cl', w', heard, out) ->
  (replication (server w') = replication (server w) /\ asked_by c (replication (server w)) = [])
  \/ exists o, replication_run (ended m) (now (env m)) (uppercased c) (args c) (replication (server w))
               = Some (replication (server w'), o).
Proof.
  destruct (uppercased c =b? lit "WAIT") eqn:Ew.
  - apply beq_true in Ew. unfold run_against.
    assert (exists r o, replication_run (ended m) (now (env m)) (uppercased c) (args c)
              (replication (server w)) = Some (r, o)) as (r & o & Er).
    { unfold replication_run. rewrite Ew. eexists _, _. refine (f_equal Some (surjective_pairing _)). }
    rewrite Er, Ew. intros [= <- <- <- <-]. right. by exists o.
  - assert (asked_by c (replication (server w)) = []) as Ha by (unfold asked_by; by rewrite Ew).
    unfold run_against.
    destruct (transactions_run _ _ _) as [[t reply]|]; [intros [= <- <- <- <-]; by left|].
    destruct (pubsub_run _ _ _ _) as [[[[subs tally] told] reply]|]; [intros [= <- <- <- <-]; by left|].
    destruct (store_run _ _ _ _) as [[[s events] o]|]; [intros [= <- <- <- <-]; by left|].
    destruct (acl_run _ _ _ _) as [[[us who] reply]|]; [intros [= <- <- <- <-]; by left|].
    destruct (info_run _ _ _ _); [intros [= <- <- <- <-]; by left|].
    destruct (settings_run _ _ _); [intros [= <- <- <- <-]; by left|].
    destruct (replication_run _ _ _ _ _) as [[r o]|] eqn:Er; [|intros [= <- <- <- <-]; by left].
    intros [= <- <- <- <-]. right. by exists o.
Qed.

Lemma run_against_queue m c cl w cl' w' heard out i :
  ended m i = false -> run_against m c cl w = (cl', w', heard, out) ->
  queue_of i (replicas (replication (server w')))
  = (fun q => q ++ map encode (asked_by c (replication (server w))))
    <$> queue_of i (replicas (replication (server w))).
Proof.
  intros Hi [[-> ->]|[o Er]]%run_against_replicates.
  - destruct (queue_of i _); cbn; [by rewrite app_nil_r|done].
  - by apply (replication_run_queue (ended m) i (now (env m)) c _ _ o).
Qed.

(** ** The offset

    While somebody follows, it moves by the length of what is sent. *)
Lemma queue_of_nonempty ended i rs :
  ended i = false -> is_Some (queue_of i rs) -> following ended rs <> [].
Proof. intros Hi Hq E. rewrite <- (queue_of_following ended) in Hq by done. rewrite E in Hq. by destruct Hq. Qed.

Lemma pass_on_offset ended i v r :
  ended i = false -> is_Some (queue_of i (replicas r)) ->
  offset (pass_on ended v r) = wrap_u64 (offset r + len (encode v)).
Proof.
  intros Hi Hq. pose proof (queue_of_nonempty ended i _ Hi Hq). unfold pass_on.
  rewrite send_to_replicas_spec. cbn. by destruct (following ended (replicas r)).
Qed.

Definition in_range_u64 (n : Z) : Prop := 0 <= n <= U64_MAX.
Lemma wrap_u64_id n : in_range_u64 n -> wrap_u64 n = n.
Proof. unfold in_range_u64, wrap_u64, U64_MAX. intros. by apply Z.mod_small; lia. Qed.
Lemma wrap_u64_in n : in_range_u64 (wrap_u64 n).
Proof.
  pose proof (Z.mod_pos_bound n 18446744073709551616 ltac:(lia)). unfold in_range_u64, wrap_u64, U64_MAX. lia.
Qed.

Lemma replication_run_offset ended i now c r r' out :
  ended i = false -> is_Some (queue_of i (replicas r)) -> in_range_u64 (offset r) ->
  replication_run ended now (uppercased c) (args c) r = Some (r', out) ->
  offset r' = wrap_u64 (offset r + len (flat_map encode (asked_by c r))).
Proof.
  intros Hi Hq Ho. assert (Hsame : offset r = wrap_u64 (offset r + len (flat_map encode []))).
  { cbn [flat_map]. by rewrite len_nil, Z.add_0_r, wrap_u64_id. }
  unfold replication_run, asked_by. destruct (uppercased c =b? lit "REPLCONF") eqn:Er.
  { apply beq_true in Er as ->. by intros [= <- _]. }
  destruct (uppercased c =b? lit "PSYNC") eqn:Ep.
  { apply beq_true in Ep as ->. by intros [= <- _]. }
  destruct (uppercased c =b? lit "WAIT"); [|done].
  destruct (args c) as [|wanted [|timeout [|]]]; try by intros [= <- _].
  destruct (number_i64 wanted), (number_i64 timeout) as [t|]; try by intros [= <- _].
  destruct (t <? 0); [by intros [= <- _]|]. cbn [orb]. unfold wait, wait_round, count_replicas, caught_up_to.
  destruct (offset r =? 0); intros [= <- _]; [done|]. cbn [with_replicas offset].
  rewrite (pass_on_offset ended i) by done. cbn [flat_map]. by rewrite app_nil_r.
Qed.

Lemma run_against_offset m c cl w cl' w' heard out i :
  ended m i = false -> is_Some (queue_of i (replicas (replication (server w)))) ->
  in_range_u64 (offset (replication (server w))) ->
  run_against m c cl w = (cl', w', heard, out) ->
  offset (replication (server w'))
  = wrap_u64 (offset (replication (server w))
              + len (flat_map encode (asked_by c (replication (server w))))).
Proof.
  intros Hi Hq Ho [[-> ->]|[o Er]]%run_against_replicates.
  - cbn [flat_map]. by rewrite len_nil, Z.add_0_r, wrap_u64_id.
  - by apply (replication_run_offset (ended m) i (now (env m)) c _ _ o).
Qed.

Lemma run_against_steps m c cl w cl' w' heard out :
  0 <= clock (env m) <= U64_MAX -> changes (store w) < U64_MAX ->
  run_against m c cl w = (cl', w', heard, out) -> rtc step (store w) (store w').
Proof.
  intros Hclock Hc [[-> _]|(events & E & _)]%run_against_store; [apply rtc_refl|].
  by eapply store_run_steps.
Qed.

Lemma steer_steps now c t s t' s' todo : steer now c t s = Some (t', s', todo) -> rtc step s s'.
Proof.
  intros E. assert (s' = s \/ (exists ks, s' = (versions now ks s).1)
                    \/ exists ws, s' = (unchanged now ws s).1) as [->|[[ks ->]|[ws ->]]].
  { revert E. unfold steer. repeat (case_match; try done); intros [= _ <- _]; auto; right;
      match goal with E : _ = (?s1, ?x) |- _ => change s1 with (s1, x).1; rewrite <- E; eauto end. }
  - apply rtc_refl.
  - apply rtc_once, step_versions.
  - apply rtc_once, step_unchanged.
Qed.

End Facts.

(** Words that are noted or to be are those of a command that worked. *)
Definition well_staged `{UnicodeTables} (st : Stage) : Prop :=
  match st with
  | Noting c first v | Passing c first v => is_error first = false /\ written_by c first = [v]
  | _ => True
  end.
Definition staged `{UnicodeTables} (x : System) : Prop := Forall (fun t : Client * Stage => well_staged t.2) (tasks x).

(** What some steps keep. *)
Record Kept `{UnicodeTables} (stays : nat -> Prop) (x : System) (trace : list Label) (y : System) : Prop := {
  kept_steps : rtc step (store (world x)) (store (world y));
  kept_aof : aof (server (world y)) = aof (server (world x));
  kept_config : config (server (world y)) = config (server (world x));
  kept_staged : staged y;
  kept_file a bytes : aof (server (world x)) = Some a -> files (world x) !! path a = Some bytes ->
    exists ps cut, files (world y) !! path a = Some (bytes ++ flat_map snd ps)
    /\ ps ++ map entire (flat_map unpassed (tasks x))
       ≡ₚ map entire (flat_map words_told (endings trace)) ++ cut ++ map entire (flat_map unpassed (tasks y))
    /\ map fst cut = flat_map words_cut (endings trace) /\ Forall cut_off cut;
  kept_queue i q : replicaof (config (server (world x))) = None -> stays i ->
    queue_of i (replicas (replication (server (world x)))) = Some q ->
    queue_of i (replicas (replication (server (world y)))) = Some (q ++ map encode (sent trace));
}.

Lemma flat_map_insert {A B} (f : A -> list B) i t t' ts :
  ts !! i = Some t -> flat_map f (<[i := t']> ts) ++ f t ≡ₚ flat_map f ts ++ f t'.
Proof.
  revert i; induction ts as [|u ts IH]; intros [|i]; cbn; [done..| |].
  - intros [= ->]. rewrite <- !app_assoc, (Permutation_app_comm (flat_map f ts) (f t)).
    by rewrite (Permutation_app_comm (flat_map f ts) (f t')), Permutation_app_swap_app.
  - intros Hi. by rewrite <- !app_assoc, (IH i Hi).
Qed.

(** One task has gone on: what it noted stands for the change of what is noted and yet to
    be passed on. *)
Lemma tasks_balance ts i cl cl' st st' (ps qs : list (Value * Bytes)) :
  ts !! i = Some (cl, st) ->
  ps ++ map entire (unpassed (cl, st)) ≡ₚ qs ++ map entire (unpassed (cl', st')) ->
  ps ++ map entire (flat_map unpassed ts) ≡ₚ qs ++ map entire (flat_map unpassed (<[i := (cl', st')]> ts)).
Proof.
  intros Hi Hv. pose proof (flat_map_insert unpassed i _ (cl', st') ts Hi) as Ht.
  apply (Permutation_map entire) in Ht. rewrite !map_app in Ht.
  apply (Permutation_app_inv_r (map entire (unpassed (cl', st')))). rewrite <- !app_assoc, <- Ht.
  rewrite (Permutation_app_comm (map entire (flat_map unpassed (<[i:=_]> ts))) (map entire (unpassed (cl', st')))).
  rewrite (Permutation_app_comm (map entire (flat_map unpassed (<[i:=_]> ts))) (map entire (unpassed (cl, st)))).
  by rewrite !app_assoc, Hv.
Qed.

Section Promise.
Context `{UnicodeTables} `{Trig} `{PasswordHash}.

Lemma settle_staged c first : well_staged (settle c first).
Proof.
  unfold settle, well_staged, written_by. destruct (is_error first) eqn:E; [done|].
  destruct (written_down c first) as [v|] eqn:Ew; [|done]. by rewrite E, Ew.
Qed.

(** Where there is nothing to note, the end has come, and there were no words. *)
Lemma settle_ends asked st c first :
  at_rest st = false -> flat_map words_cut (ending (asked, st, settle c first)) = []
  /\ flat_map words_told (ending (asked, st, settle c first)) = [] /\ forall cl, unpassed (cl, settle c first) = [].
Proof.
  intros Hr. unfold settle, ending, words_told, words_cut, written_by.
  destruct (is_error first) eqn:E; [by rewrite Hr; cbn; rewrite E|].
  destruct (written_down c first) as [v|] eqn:Ew; [done|]. rewrite Hr. cbn. by rewrite E, Ew.
Qed.

Lemma Kept_refl stays x : staged x -> Kept stays x [] x.
Proof.
  intros Hs. split; try done.
  - intros a bytes _ ->. exists [], []. rewrite app_nil_r. by split_and!.
  - intros i q _ _ ->. by rewrite app_nil_r.
Qed.

Lemma Kept_trans stays x a y trace z : Kept stays x [a] y -> Kept stays y trace z -> Kept stays x (a :: trace) z.
Proof.
  intros [S1 A1 C1 G1 F1 Q1] [S2 A2 C2 G2 F2 Q2]. change (a :: trace) with ([a] ++ trace). split.
  - by etrans.
  - by rewrite A2.
  - by rewrite C2.
  - done.
  - intros b bytes Hb Hf. destruct (F1 b bytes Hb Hf) as (ps1 & cut1 & Hf1 & P1 & E1 & O1). rewrite <- A1 in Hb.
    destruct (F2 b _ Hb Hf1) as (ps2 & cut2 & Hf2 & P2 & E2 & O2). exists (ps1 ++ ps2), (cut1 ++ cut2).
    rewrite Hf2, flat_map_app, app_assoc. unfold endings in *. rewrite !flat_map_app, !map_app, E1, E2.
    split_and!; [done| |done|by apply Forall_app].
    rewrite (Permutation_app_comm ps1 ps2), <- app_assoc, P1.
    rewrite !(Permutation_app_swap_app ps2), P2. rewrite <- !app_assoc.
    apply Permutation_app_head. by rewrite (Permutation_app_swap_app cut1).
  - intros i q Hr Hi Hq. specialize (Q1 i q Hr Hi Hq). rewrite <- C1 in Hr. rewrite (Q2 i _ Hr Hi Q1).
    unfold sent. by rewrite flat_map_app, map_app, app_assoc.
Qed.

(** A step that leaves the record and the replicas alone, of a task that has no words
    under way before or after. *)
Lemma Kept_quiet stays i cl cl' st st' w s ts :
  ts !! i = Some (cl, st) -> staged {| world := w; tasks := ts |} -> rtc step (store w) s ->
  well_staged st' -> flat_map words_cut (ending ([], st, st')) = [] -> flat_map words_told (ending ([], st, st')) = [] ->
  unpassed (cl, st) = unpassed (cl', st') ->
  Kept stays {| world := w; tasks := ts |} [([], st, st')]
    {| world := with_store w s; tasks := <[i := (cl', st')]> ts |}.
Proof.
  intros Hi Hg Hs Hst Hw Ht Hu. split; cbn [world tasks with_store store server files]; try done.
  - by apply Forall_insert.
  - intros a bytes _ Hf. exists [], []. unfold endings. cbn [flat_map]. rewrite !app_nil_r, Hw, Ht.
    split_and!; [done| |done|apply Forall_nil_2].
    apply (tasks_balance ts i cl cl' st st' [] []); [done|by rewrite Hu].
  - intros r q _ _ Hq. unfold sent. cbn [flat_map]. unfold sent_by. rewrite Ht. cbn. by rewrite app_nil_r.
Qed.

Lemma note_down_spec m v w w' r :
  note_down m v w = (w', r) ->
  store w' = store w /\ server w' = server w
  /\ forall a bytes, aof (server w) = Some a -> files w !! path a = Some bytes ->
     exists p, files w' !! path a = Some (bytes ++ p)
     /\ match r with Ok _ => p = encode v | Err _ => exists n, p = take n (encode v) end.
Proof.
  unfold note_down. destruct (aof (server w)) as [a|]; [|by intros [= <- <-]; split_and!].
  intros E. assert (exists p, w' = {| store := store w; server := server w;
      files := <[path a := default [] (files w !! path a) ++ p]> (files w) |}
    /\ match r with Ok _ => p = encode v | Err _ => exists n, p = take n (encode v) end) as (p & -> & Hp).
  { revert E. destruct (append m) as [[said|]|n flushing said]; cbn [record].
    - destruct (durable a); intros [= <- <-]; exists (encode v); (split; [done|]); [|done].
      exists (length (encode v)). by rewrite firstn_all.
    - intros [= <- <-]. by exists (encode v).
    - intros [= <- <-]. exists (take n (encode v)). split; [done|by exists n]. }
  split_and!; [done..|]. intros a' bytes [= <-] Hf. exists p. cbn. by rewrite lookup_insert_eq, Hf.
Qed.

Lemma sys_step_kept stays x a y : sys_step stays x a y -> staged x -> Kept stays x [a] y.
Proof.
  destruct 1 as [i m cl st w ts cl1 w1 heard st1 Hclock Hc Hs Hi E|i cl st c w ts Hi Hr
    |i cl c on first w ts Hi Hv|i cl st now c t s todo w ts Hi Hr E|i env cl c reads waker deadline w ts Hi]; intros Hg.
  - assert (well_staged st) as Hst by (exact (Forall_lookup_1 _ _ _ _ Hg Hi)).
    destruct st as [|c|c on|c first v|c first v|c first reply|c]; try discriminate E; cbn [go_on] in E.
    + destruct (run_against m c cl w) as [[[cl2 w2] h2] out] eqn:Er. injection E as <- <- <- <-.
      destruct (run_against_keeps _ _ _ _ _ _ _ _ Er) as (Hf & Ha & Hcfg).
      set (st1 := match out with Replied first => settle c first | Blocks on => Held c on | Panics => Broken c end).
      assert (well_staged st1 /\ flat_map words_cut (ending (asked_in (Asked c) w, Asked c, st1)) = []
              /\ flat_map words_told (ending (asked_in (Asked c) w, Asked c, st1)) = []
              /\ unpassed (cl, Asked c) = unpassed (cl2, st1)) as (Hg1 & Hw & Ht & Hu).
      { subst st1. destruct out as [first| |]; [|by split_and!..].
        destruct (settle_ends (asked_in (Asked c) w) (Asked c) c first eq_refl) as (? & ? & Hu).
        split_and!; [apply settle_staged|done..|by rewrite Hu]. }
      split; cbn [world tasks].
      * by eapply run_against_steps.
      * done.
      * done.
      * by apply Forall_insert.
      * intros b bytes _ Hb. exists [], []. unfold endings. cbn [flat_map]. rewrite !app_nil_r, Hf, Hw, Ht.
        split_and!; [done| |done|apply Forall_nil_2].
        apply (tasks_balance ts i cl cl2 (Asked c) st1 [] []); [done|by rewrite Hu].
      * intros r q _ Hr Hq. rewrite (run_against_queue _ _ _ _ _ _ _ _ r (Hs r Hr) Er), Hq.
        unfold sent. cbn [flat_map]. unfold sent_by. rewrite Ht. cbn. by rewrite !app_nil_r.
    + destruct (note_down m v w) as [w2 r] eqn:En. injection E as <- <- <- <-.
      destruct (note_down_spec _ _ _ _ _ En) as (Es & Esv & Hf). destruct Hst as [He Hwb].
      assert (unpassed (cl, Noting c first v) = []) as Hu by done.
      set (st1 := match r with Ok _ => Passing c first v | Err _ => Answered c first unrecorded end).
      split; cbn [world tasks]; rewrite ?Es, ?Esv; try done.
      * apply Forall_insert; [done|]. subst st1. by destruct r.
      * intros b bytes Hb Hb'. destruct (Hf b bytes Hb Hb') as (p & Hp & Hr).
        exists [(v, p)], (match r with Ok _ => [] | Err _ => [(v, p)] end). rewrite Hp. cbn [flat_map snd].
        rewrite app_nil_r. subst st1.
        assert (Hbal : forall st1 qs, [(v, p)] ≡ₚ qs ++ map entire (unpassed (cl, st1)) ->
          [(v, p)] ++ map entire (flat_map unpassed ts) ≡ₚ qs ++ map entire (flat_map unpassed (<[i:=(cl, st1)]> ts))).
        { intros st1 qs Hq. by apply (tasks_balance ts i cl cl (Noting c first v) st1). }
        destruct r as [[]|e]; unfold endings, words_told, words_cut; cbn.
        -- subst p. split_and!; [done| |done|apply Forall_nil_2]. by apply (Hbal (Passing c first v) []).
        -- rewrite Hwb. split_and!; [done| |done|].
           ++ by apply (Hbal (Answered c first unrecorded) [(v, p)]).
           ++ apply Forall_cons; split; [exact Hr|apply Forall_nil_2].
      * intros j q _ _ Hq. rewrite Hq. unfold sent. cbn. subst st1. destruct r; cbn; by rewrite app_nil_r.
    + injection E as <- <- <- <-. destruct Hst as [He Hwb].
      assert (forall w2, w2 = send_on m v w -> store w2 = store w /\ files w2 = files w
              /\ aof (server w2) = aof (server w) /\ config (server w2) = config (server w)) as Hsame.
      { intros w2 ->. unfold send_on. by destruct (replicaof _). }
      destruct (Hsame _ eq_refl) as (Es & Ef & Ea & Ec). split; cbn [world tasks]; rewrite ?Es, ?Ef, ?Ea, ?Ec; try done.
      * by apply Forall_insert.
      * intros b bytes _ Hb. exists [], []. unfold endings, words_told, words_cut. cbn. rewrite He, Hwb, app_nil_r.
        split_and!; [done| |done|apply Forall_nil_2].
        by apply (tasks_balance ts i cl cl (Passing c first v) (Answered c first first) []).
      * intros j q Hr Hj Hq. unfold send_on. rewrite Hr. cbn.
        rewrite pass_on_queue, Hq by auto. unfold sent, sent_by, words_told. cbn. rewrite He. cbn.
        rewrite Hwb. done.
  - pose proof (Kept_quiet stays i cl cl st (Asked c) w (store w) ts Hi Hg (rtc_refl _ _) I eq_refl eq_refl) as Hk.
    destruct w. apply Hk. by destruct st.
  - destruct (settle_ends [] (Held c on) c first eq_refl) as (Hw & Ht & Hu).
    pose proof (Kept_quiet stays i cl cl (Held c on) (settle c first) w (store w) ts Hi Hg (rtc_refl _ _)
      (settle_staged c first) Hw Ht) as Hk.
    destruct w. apply Hk. by rewrite Hu.
  - apply (Kept_quiet stays i cl (with_transaction cl t)); [done|done|by eapply steer_steps|by destruct st|..|by destruct st].
    all: destruct st; try done; cbn; done.
  - rewrite <- (list_insert_id ts i _ Hi) at 2.
    apply (Kept_quiet stays i cl cl); try done. apply wait_stepped.
Qed.

Lemma sys_run_kept stays x trace y : sys_run stays x trace y -> staged x -> Kept stays x trace y.
Proof.
  induction 1 as [x|x a y trace z Hs _ IH]; intros Hg; [by apply Kept_refl|].
  pose proof (sys_step_kept _ _ _ _ Hs Hg) as Hk. eapply Kept_trans; [exact Hk|apply IH, Hk].
Qed.

Lemma resting_staged x : Forall (fun t : Client * Stage => at_rest t.2 = true) (tasks x) -> staged x.
Proof. intros Hr. eapply Forall_impl; [exact Hr|]. by intros [cl []]. Qed.

Lemma resting_unpassed (ts : list (Client * Stage)) :
  Forall (fun t => at_rest t.2 = true) ts -> flat_map unpassed ts = [].
Proof. induction 1 as [|[cl st] ts Ht _ IH]; [done|]. cbn. rewrite IH. by destruct st. Qed.

End Promise.

(** C11. Whatever comes between whatever, no write is lost, made up or told twice.  Left
    alone, a task takes a command from its asking to its end as [dispatch] does, and from
    what a wait came to as [resume] does ([finish]).  And take any number of such tasks,
    from when they are all at rest: whichever of them goes on to its next lock at each
    moment, whatever they are asked, whatever their waits come to, and whether or not
    recording works, the store has only ever taken its own steps and is well formed; the
    record has had put after it, in some order, whole and once, the words of each command
    whose client was answered that it worked and of those that are being passed on,
    some bytes, it may be all, of each that worked and whose client was told it could not be
    recorded, and nothing else; and a replica there all along has been queued, in the order
    in which they came to their ends, the words of each command whose client was answered
    that it worked, once, with what it was asked in between, and nothing else. *)
Theorem interleavings_lose_nothing `{UnicodeTables} `{Trig} `{PasswordHash} stays x trace y a bytes :
  sys_run stays x trace y -> Forall (fun t : Client * Stage => at_rest t.2 = true) (tasks x) ->
  Wf (store (world x)) ->
  aof (server (world x)) = Some a -> files (world x) !! path a = Some bytes ->
  rtc step (store (world x)) (store (world y)) /\ Wf (store (world y))
  /\ (exists ps cut, files (world y) !! path a = Some (bytes ++ flat_map snd ps)
      /\ ps ≡ₚ map entire (flat_map words_told (endings trace)) ++ cut ++ map entire (flat_map unpassed (tasks y))
      /\ map fst cut = flat_map words_cut (endings trace) /\ Forall cut_off cut)
  /\ (replicaof (config (server (world x))) = None -> forall i q, stays i ->
      queue_of i (replicas (replication (server (world x)))) = Some q ->
      queue_of i (replicas (replication (server (world y)))) = Some (q ++ map encode (sent trace)))
  /\ (forall m cl c w, let '(cl1, w1, heard, st) := alone m 3 cl (Asked c) w in
      exists out, outcome_of st = Some out /\ dispatch m c cl w = (cl1, w1, heard, out))
  /\ (forall m cl c first w, let '(cl1, w1, heard, st) := alone m 2 cl (settle c first) w in
      exists reply, st = Answered c first reply /\ finish m c first w = (w1, reply) /\ cl1 = cl /\ heard = []).
Proof.
  intros Hr Hrest W Ha Hf. destruct (sys_run_kept _ _ _ _ Hr (resting_staged _ Hrest)) as [Hs _ _ _ Hfile Hq].
  split_and!; [done|by apply (steps_good (store (world x)))| | | |].
  - destruct (Hfile a bytes Ha Hf) as (ps & cut & Hv & Hp & Hcut). exists ps, cut. split; [exact Hv|].
    by rewrite (resting_unpassed _ Hrest), app_nil_r in Hp.
  - intros Hm i q. by apply Hq.
  - intros m cl c w. pose proof (alone_dispatches m cl c w) as Hd.
    destruct (alone m 3 cl (Asked c) w) as [[[cl1 w1] heard] st]. by eexists.
  - intros m cl c first w. rewrite alone_finishes by lia. destruct (finish m c first w) as [w1 reply].
    by exists reply.
Qed.

(** ** Two writes that cross

    Two clients set one key; the second finds the lock of the record first. *)
Definition crossing_start : System :=
  {| world := {| store := empty_state; server := trial_server; files := {[ lit "f" := [] ]} |};
     tasks := [(insider, Resting); (insider, Resting)] |}.
Definition one : list string := ["SET"; "k"; "1"].
Definition two : list string := ["SET"; "k"; "2"].

Section Trial.
#[local] Existing Instances plain_tables plain_trig plain_hash.

Definition asks (i : nat) (words : list string) (x : System) : System * Label :=
  match tasks x !! i with
  | Some (cl, st) =>
      ({| world := world x; tasks := <[i := (cl, Asked (command_of words))]> (tasks x) |},
       ([], st, Asked (command_of words)))
  | None => (x, ([], Resting, Resting))
  end.
Definition goes (i : nat) (x : System) : System * Label :=
  match tasks x !! i with
  | Some (cl, st) =>
      match go_on trial_moment cl st (world x) with
      | Some (cl', w', _, st') =>
          ({| world := w'; tasks := <[i := (cl', st')]> (tasks x) |}, (asked_in st (world x), st, st'))
      | None => (x, ([], Resting, Resting))
      end
  | None => (x, ([], Resting, Resting))
  end.

Lemma run_asks stays i words x trace z :
  match tasks x !! i with Some (_, st) => at_rest st | None => false end = true ->
  sys_run stays (asks i words x).1 trace z -> sys_run stays x ((asks i words x).2 :: trace) z.
Proof.
  unfold asks. destruct x as [w ts]. cbn [tasks world]. destruct (ts !! i) as [[cl st]|] eqn:E; [|done].
  intros Hr Hz. eapply sys_next; [|exact Hz]. by apply (sys_asks stays i).
Qed.

Lemma run_goes stays i x trace z :
  changes (store (world x)) < U64_MAX ->
  match tasks x !! i with Some (_, st) => match st with Asked _ | Noting _ _ _ | Passing _ _ _ => true | _ => false end
                        | None => false end = true ->
  sys_run stays (goes i x).1 trace z -> sys_run stays x ((goes i x).2 :: trace) z.
Proof.
  unfold goes. destruct x as [w ts]. cbn [tasks world]. intros Hc. destruct (ts !! i) as [[cl st]|] eqn:E; [|done].
  intros Hst. destruct (go_on trial_moment cl st w) as [[[[cl1 w1] h] st1]|] eqn:Ea.
  - intros Hz. eapply sys_next; [|exact Hz].
    by apply (sys_goes stays i trial_moment cl st w ts cl1 w1 h st1).
  - exfalso. destruct st; try discriminate Hst; cbn [go_on] in Ea;
      [destruct (run_against _ _ _ _) as [[[? ?] ?] ?]|destruct (note_down _ _ _)|]; discriminate Ea.
Qed.

(** The one and the other run; the second is recorded before the first, and passed on
    after it. *)
Definition crossing_moves : list (System -> System * Label) :=
  [asks 0 one; asks 1 two; goes 0; goes 1; goes 1; goes 0; goes 0; goes 1].
Fixpoint moved (moves : list (System -> System * Label)) (x : System) : System * list Label :=
  match moves with
  | [] => (x, [])
  | move :: moves => let '(x, a) := move x in let '(x, trace) := moved moves x in (x, a :: trace)
  end.
Definition crossing_end : System := (moved crossing_moves crossing_start).1.
Definition crossing_trace : list Label := (moved crossing_moves crossing_start).2.

End Trial.

Ltac goes_on := apply run_goes; [vm_compute; reflexivity|vm_compute; reflexivity|].

Lemma crossing_runs stays :
  @sys_run plain_tables plain_trig plain_hash stays crossing_start crossing_trace crossing_end.
Proof.
  change crossing_trace with
    (let x1 := asks 0 one crossing_start in let x2 := asks 1 two x1.1 in let x3 := goes 0 x2.1 in
     let x4 := goes 1 x3.1 in let x5 := goes 1 x4.1 in let x6 := goes 0 x5.1 in let x7 := goes 0 x6.1 in
     let x8 := goes 1 x7.1 in [x1.2; x2.2; x3.2; x4.2; x5.2; x6.2; x7.2; x8.2]). cbv zeta.
  do 2 (apply run_asks; [vm_compute; reflexivity|]). do 6 goes_on. apply sys_start.
Qed.

Lemma interleavings_lose_nothing_witness :
  let y := crossing_end in
  Wf (store (world y)) /\ files (world y) !! lit "f" = Some (encode (request_of two) ++ encode (request_of one))
  /\ queue_of 1 (replicas (replication (server (world y))))
     = Some [encode (request_of one); encode (request_of two)].
Proof.
  intros y.
  destruct (@interleavings_lose_nothing plain_tables plain_trig plain_hash (fun _ => True)
    crossing_start crossing_trace y {| path := lit "f"; durable := false |} []
    (crossing_runs _) ltac:(repeat apply Forall_cons_2; [done..|apply Forall_nil_2]) Wf_empty eq_refl eq_refl)
    as (_ & W & _ & Hq & _).
  split; [exact W|split; [vm_compute; reflexivity|]]. rewrite (Hq eq_refl 1%nat [] I eq_refl). vm_compute. reflexivity.
Defined.

(** What is played back of the record a server leaves. *)
Definition played_back (w : World) : World :=
  match recorded no_faults (files w) {| path := lit "f"; durable := false |} with
  | Ok commands =>
      (@replay plain_tables plain_trig plain_hash (fun _ _ => trial_moment) 0 commands (replayer 0)
         {| store := empty_state; server := new_server trial_config 1 2; files := files w |} 0).1.1
  | Err _ => w
  end.

(** The order is not kept: with every command finished, the server holds the
    second client's value, its replica has been told of it last, and a server that
    plays the record back holds the first's. *)
Theorem record_may_cross :
  @sys_run plain_tables plain_trig plain_hash (fun _ => True) crossing_start crossing_trace crossing_end
  /\ Forall (fun t : Client * Stage => at_rest t.2 = true) (tasks crossing_end)
  /\ (get 9 (lit "k") (store (world crossing_end))).2 = Ok (Some (lit "2"))
  /\ (get 9 (lit "k") (store (played_back (world crossing_end)))).2 = Ok (Some (lit "1")).
Proof.
  split; [apply crossing_runs|]. split; [|vm_compute; split_and!; reflexivity].
  vm_compute. repeat apply Forall_cons_2; [reflexivity..|apply Forall_nil_2].
Qed.

Definition ran_in (words : list string) (w : World) : World :=
  (@run_against plain_tables plain_trig plain_hash trial_moment (command_of words) insider w).1.1.2.

(** A watched key can change under a transaction all the same: between the look
    [EXEC] takes at it and the commands it runs, another connection may come in. *)
Theorem watch_may_be_overtaken :
  let w0 := ran_in ["SET"; "k"; "5"] (world crossing_start) in
  let watching := (run_ (fun _ => trial_moment) (request_of ["WATCH"; "k"]) insider w0).1.1.1 in
  let queueing := (run_ (fun _ => trial_moment) (request_of ["INCR"; "k"])
                     (run_ (fun _ => trial_moment) (request_of ["MULTI"]) watching w0).1.1.1 w0).1.1.1 in
  match steer 7 (command_of ["EXEC"]) (transaction queueing) (store w0) with
  | Some (_, s, Execute commands) =>
      let w1 := ran_in ["SET"; "k"; "41"] (with_store w0 s) in
      let '(_, w2, _, e) := @execute plain_tables plain_trig plain_hash (fun _ => trial_moment) 0
                              commands [] insider w1 in
      e = Executed [Integer 42] /\ (get 9 (lit "k") (store w2)).2 = Ok (Some (lit "42"))
  | _ => False
  end.
Proof. vm_compute. split; reflexivity. Qed.

(** An element handed to a client that waited is told of only when that client's
    connection goes on, as the [LPOP] of whatever is first in the list by then: what
    another client put there in the meantime.  Server and record (and every replica
    with it) hold different lists from then on. *)
Theorem handed_over_told_late :
  let told words w := (dispatch_ trial_moment (command_of words) insider w).1.1.2 in
  let w0 := world crossing_start in
  let '(_, w1, _, blocked) := dispatch_ trial_moment (command_of ["BLPOP"; "k"; "0"]) insider w0 in
  let '(_, w2, handed, _) := dispatch_ trial_moment (command_of ["RPUSH"; "k"; "a"]) insider w1 in
  let w3 := told ["LPUSH"; "k"; "b"] w2 in
  let w4 := (finish trial_moment (command_of ["BLPOP"; "k"; "0"])
               (resume_element (lit "k") (Some (lit "a"))) w3).1 in
  blocked = Blocks (AwaitElement (lit "k") 0 None) /\ handed = [FromStore (Handed 0 (lit "a"))]
  /\ (lrange 9 (lit "k") 0 (-1) (store w4)).2 = Ok [lit "b"]
  /\ (lrange 9 (lit "k") 0 (-1) (store (played_back w4))).2 = Ok [lit "a"].
Proof. vm_compute. split_and!; reflexivity. Qed.
