(* ===== verification/Reference.v ===== *)
(** * What the parameters stand for

    The hash of passwords and the trigonometry of distances are parameters
    everywhere else, since they are not of this program.  Here is one concrete
    function for each, so that what the source's own tests say of them can be
    evaluated: SHA-256 as FIPS 180-4 lays it out, and a sine, a cosine and an arc
    sine worked out in fixed point to 120 bits and rounded to a double, which is
    within the last place of any platform's. *)
From S2P Require Import Prelude Text F64 Users Geo.
From Stdlib Require Import Floats.SpecFloat.
Open Scope Z_scope.

(** ** SHA-256 *)
Module Sha256.

Definition word (z : Z) : Z := Z.land z (Z.ones 32).
Definition add32 (a b : Z) : Z := word (a + b).
Definition rotr (n x : Z) : Z := Z.lor (Z.shiftr x n) (word (Z.shiftl x (32 - n))).

Definition PRIMES : list Z :=
  [2; 3; 5; 7; 11; 13; 17; 19; 23; 29; 31; 37; 41; 43; 47; 53; 59; 61; 67; 71; 73; 79; 83; 89; 97;
   101; 103; 107; 109; 113; 127; 131; 137; 139; 149; 151; 157; 163; 167; 173; 179; 181; 191; 193;
   197; 199; 211; 223; 227; 229; 233; 239; 241; 251; 257; 263; 269; 271; 277; 281; 283; 293; 307;
   311].

(** The largest number whose cube is no larger than [z], found bit by bit. *)
Fixpoint cube_root (bits : nat) (root z : Z) : Z :=
  match bits with
  | O => root
  | S bits =>
      let tried := root + 2 ^ Z.of_nat bits in
      cube_root bits (if tried * tried * tried <=? z then tried else root) z
  end.

(** The first 32 bits of the fractional parts of the roots of the primes. *)
Definition K : list Z := map (fun p => word (cube_root 40 0 (p * 2 ^ 96))) PRIMES.
Definition START : list Z := map (fun p => word (Z.sqrt (p * 2 ^ 64))) (take 8 PRIMES).

(** The message, a one bit, and its length at the end of a block of 64 bytes. *)
Definition be_bytes (n : nat) (z : Z) : Bytes :=
  rev (map (fun i => byte_of (Z.shiftr z (8 * Z.of_nat i))) (seq 0 n)).
Definition padded (message : Bytes) : Bytes :=
  let zeros := Z.to_nat ((55 - len message) mod 64) in
  message ++ x80 :: replicate zeros x00 ++ be_bytes 8 (8 * len message).

Fixpoint words_of (s : Bytes) : list Z :=
  match s with
  | a :: b :: c :: d :: s =>
      (u8 a * 16777216 + u8 b * 65536 + u8 c * 256 + u8 d) :: words_of s
  | _ => []
  end.

(** The sixteen words of a block spun out to sixty-four, the latest first. *)
Fixpoint schedule (n : nat) (w : list Z) : list Z :=
  match n with
  | O => w
  | S n =>
      let at_ i := nth i w 0 in
      let s0 := Z.lxor (Z.lxor (rotr 7 (at_ 14%nat)) (rotr 18 (at_ 14%nat))) (Z.shiftr (at_ 14%nat) 3) in
      let s1 := Z.lxor (Z.lxor (rotr 17 (at_ 1%nat)) (rotr 19 (at_ 1%nat))) (Z.shiftr (at_ 1%nat) 10) in
      schedule n (word (at_ 15%nat + s0 + at_ 6%nat + s1) :: w)
  end.

Definition round (st : list Z) (kw : Z * Z) : list Z :=
  match st with
  | [a; b; c; d; e; f; g; h] =>
      let s1 := Z.lxor (Z.lxor (rotr 6 e) (rotr 11 e)) (rotr 25 e) in
      let ch := Z.lxor (Z.land e f) (Z.land (Z.lxor e (Z.ones 32)) g) in
      let t1 := h + s1 + ch + fst kw + snd kw in
      let s0 := Z.lxor (Z.lxor (rotr 2 a) (rotr 13 a)) (rotr 22 a) in
      let maj := Z.lxor (Z.lxor (Z.land a b) (Z.land a c)) (Z.land b c) in
      [word (t1 + s0 + maj); a; b; c; add32 d t1; e; f; g]
  | _ => st
  end.

Definition block (st : list Z) (words : list Z) : list Z :=
  zip_with add32 st (fold_left round (combine K (rev (schedule 48 (rev words)))) st).

Fixpoint blocks (n : nat) (st : list Z) (words : list Z) : list Z :=
  match n with
  | O => st
  | S n => blocks n (block st (take 16 words)) (drop 16 words)
  end.

Definition HEX_DIGITS : Bytes := lit "0123456789abcdef".
Definition hex (s : Bytes) : Bytes :=
  flat_map (fun c => [nth (Z.to_nat (Z.shiftr (u8 c) 4)) HEX_DIGITS x00;
                      nth (Z.to_nat (Z.land (u8 c) 15)) HEX_DIGITS x00]) s.

Definition sha256 (message : Bytes) : Bytes :=
  let s := padded message in
  hex (flat_map (be_bytes 4) (blocks (length s / 64) START (words_of s))).

End Sha256.

Definition sha256 : PasswordHash := Sha256.sha256.

(** ** Sines *)
Module Fixed.

(** Numbers are held as integers, [2 ^ PLACES] to one. *)
Definition PLACES : Z := 120.
Definition ONE : Z := 2 ^ PLACES.
Definition mul (x y : Z) : Z := Z.shiftr (x * y) PLACES.
Definition PI : Z := 4175892906503776358826876457663557747.

Definition of_f64 (x : f64) : Z :=
  match x with
  | S754_finite s m e => let z := Z.shiftl (Z.pos m) (e + PLACES) in if s then - z else z
  | _ => 0
  end.
Definition to_f64 (z : Z) : f64 := binary_normalize PREC EMAX z (- PLACES) false.

(** The series of the sine and of the arc sine, a term from the one before it. *)
Fixpoint sin_terms (terms : nat) (n x2 term sum : Z) : Z :=
  match terms with
  | O => sum
  | S terms =>
      let term := - (mul term x2) / ((n + 1) * (n + 2)) in
      sin_terms terms (n + 2) x2 term (sum + term)
  end.
Definition sine (x : Z) : Z := sin_terms 30 1 (mul x x) x x.

Fixpoint asin_terms (terms : nat) (n x2 power sum : Z) : Z :=
  match terms with
  | O => sum
  | S terms =>
      let power := mul power x2 * n / (n + 1) in
      asin_terms terms (n + 2) x2 power (sum + power / (n + 2))
  end.
Definition asin_small (x : Z) : Z := asin_terms 64 1 (mul x x) x x.
Definition root (x : Z) : Z := Z.sqrt (Z.shiftl x PLACES).
Definition arc_sine (x : Z) : Z :=
  if 2 * x <=? ONE then asin_small x
  else PI / 2 - 2 * asin_small (root ((ONE - x) / 2)).

End Fixed.

(** Angles of a few turns, and the arc sine of numbers from nought to one: what
    [apart] asks for. *)
Definition reference_trig : Trig :=
  {| sin := fun x => Fixed.to_f64 (Fixed.sine (Fixed.of_f64 x));
     cos := fun x => Fixed.to_f64 (Fixed.sine (Fixed.PI / 2 - Fixed.of_f64 x));
     asin := fun x => Fixed.to_f64 (Fixed.arc_sine (Fixed.of_f64 x)) |}.

Example sha256_empty :
  sha256 (lit "") = lit "e3b0c44298fc1c149afbf4c8996fb92427ae41e4649b934ca495991b7852b855".
Proof. vm_compute. reflexivity. Qed.

Example sines :
  map (@sin reference_trig) [read_f64 "1"; read_f64 "-0.5"; read_f64 "3"]
  = [read_f64 "0.8414709848078965"; read_f64 "-0.479425538604203"; read_f64 "0.1411200080598672"]
  /\ map (@cos reference_trig) [read_f64 "1"; read_f64 "-0.5"]
     = [read_f64 "0.5403023058681398"; read_f64 "0.8775825618903728"]
  /\ map (@asin reference_trig) [read_f64 "0.1"; read_f64 "0.9"; read_f64 "1"]
     = [read_f64 "0.1001674211615598"; read_f64 "1.1197695149986342"; read_f64 "1.5707963267948966"].
Proof. vm_compute. split_and!; reflexivity. Qed.
