(* ===== verification/Testing.v ===== *)
(** * What the tests of the source are written with

    The source carries unit tests in its modules.  They are translated, one
    definition each under its own name, in the [Tests] files: a test is the
    conjunction of what it asserts ([bool]), [assert_eq!] is [assert_eq], and each
    file ends with the lemma that all of its tests pass on the definitions of this
    development.  A store is passed from one call to the next, and the clock stands
    still. *)
From S2P Require Import Prelude Text Resp F64 Store StoreStrings Command StoreCommands.
Open Scope Z_scope.

(** ** Equality, decided *)
#[export] Instance value_eq_decision : EqDecision Value.
Proof.
  refine (fix go (x y : Value) {struct x} : Decision (x = y) :=
    let all := fix all (l k : list Value) {struct l} : Decision (l = k) :=
      match l, k with
      | [], [] => left eq_refl
      | v :: l, u :: k =>
          match go v u with
          | left E1 => match all l k with left E2 => left _ | right E2 => right _ end
          | right E1 => right _
          end
      | _, _ => right _
      end in
    match x, y with
    | SimpleString s, SimpleString t => match decide (s = t) with left E => left _ | right E => right _ end
    | Error s, Error t => match decide (s = t) with left E => left _ | right E => right _ end
    | Integer n, Integer m => match decide (n = m) with left E => left _ | right E => right _ end
    | BulkString s, BulkString t => match decide (s = t) with left E => left _ | right E => right _ end
    | Array l, Array k => match all l k with left E => left _ | right E => right _ end
    | Null, Null => left eq_refl
    | NullArray, NullArray => left eq_refl
    | File s, File t => match decide (s = t) with left E => left _ | right E => right _ end
    | Sequence l, Sequence k => match all l k with left E => left _ | right E => right _ end
    | _, _ => right _
    end); try congruence.
  Unshelve. all: congruence.
Defined.
#[export] Instance result_eq_decision {A E} `{EqDecision A, EqDecision E} : EqDecision (result A E).
Proof. solve_decision. Defined.
#[export] Instance wrong_type_eq_decision : EqDecision WrongType_t.
Proof. solve_decision. Defined.

#[export] Instance utf8_error_eq_decision : EqDecision Utf8Error.
Proof. solve_decision. Defined.
#[export] Instance int_error_eq_decision : EqDecision IntErrorKind.
Proof. solve_decision. Defined.
#[export] Instance parse_error_eq_decision : EqDecision ParseError.
Proof. solve_decision. Defined.

Definition assert_eq {A} `{EqDecision A} (x y : A) : bool := bool_decide (x = y).
Definition all_of {A} (l : list A) (test : A -> bool) : bool := forallb test l.

Definition is_ok {A E} (r : result A E) : bool := match r with Ok _ => true | Err _ => false end.
Definition is_err {A E} (r : result A E) : bool := negb (is_ok r).
Definition is_some {A} (o : option A) : bool := match o with Some _ => true | None => false end.
Definition is_none {A} (o : option A) : bool := negb (is_some o).

(** ** What a test goes by *)
Definition words (l : list string) : list Bytes := map lit l.
Definition bulk (s : string) : Value := BulkString (lit s).

(** Bytes with carriage returns and newlines in them are written out line by
    line, as [b"a\r\nb\r\n"] is. *)
Definition on_lines (l : list string) : Bytes := flat_map (fun s => lit s ++ CRLF) l.

(** No character but the ASCII ones has a case. *)
#[export] Instance ascii_tables : UnicodeTables :=
  {| unicode_upper := map ascii_upper; unicode_lower := map ascii_lower |}.

(** The clock stands still, and whoever is waited on is there. *)
Definition still : Env :=
  {| now := 0; clock := 0; open := fun _ => true; closed := fun _ => false;
     held := fun _ => true; new_waiter := 0; new_watcher := 0 |}.

(** What a command of one of the modules leaves and answers; a test has it that
    the command is of that module. *)
Definition answered (r : option Ran) (s : State) : State * Value :=
  match r with
  | Some (s, _, Replied v) => (s, v)
  | _ => (s, Null)
  end.

(** All of a file's tests at once. *)
Definition all_pass (tests : list bool) : bool := forallb (fun test => test) tests.
Ltac passes := vm_compute; reflexivity.
