(* ===== verification/TestsResp.v ===== *)
(** * The tests of src/src/resp.rs *)
From S2P Require Import Prelude Text Resp Testing.
Open Scope Z_scope.

Definition array (items : list string) : Value := Array (map bulk items).

Definition parses_a_command : bool :=
  let input := on_lines ["*2"; "$4"; "ECHO"; "$3"; "hey"] in
  assert_eq (parse input) (Ok (Some (array ["ECHO"; "hey"], len input))).

Definition reports_how_much_it_consumed_so_pipelined_commands_are_not_lost : bool :=
  let input := on_lines ["*1"; "$4"; "PING"; "*1"; "$4"; "PING"] in
  match parse input with
  | Ok (Some (_, consumed)) =>
      assert_eq consumed (len input / 2)
      && assert_eq (parse (drop (Z.to_nat consumed) input)) (Ok (Some (array ["PING"], consumed)))
  | _ => false
  end.

Definition waits_for_the_rest_of_a_split_command : bool :=
  assert_eq (parse (on_lines ["*2"; "$4"; "ECHO"; "$3"] ++ lit "h")) (Ok None).

Definition refuses_values_nested_deeper_than_anything_real : bool :=
  is_err (parse (concat (replicate 1000 (on_lines ["*1"])))).

Definition parses_the_nesting_that_does_come_up : bool :=
  match parse (on_lines ["*1"; "*2"; "$6"; "stream"; "*1"; "*2"; "$3"; "1-1"; "*2"; "$1"; "a"; "$1"; "b"]) with
  | Ok (Some _) => true
  | _ => false
  end.

Definition refuses_a_bulk_length_it_could_never_hold : bool :=
  is_err (parse (on_lines ["$18446744073709551615"])).

Definition carries_bytes_that_are_not_text : bool :=
  let input := on_lines ["*1"; "$3"] ++ [xff; x00; xfe] ++ CRLF in
  assert_eq (parse input) (Ok (Some (Array [BulkString [xff; x00; xfe]], len input))).

Definition encodes_a_file_without_the_crlf_a_bulk_string_ends_in : bool :=
  assert_eq (encode (File [x00; x01])) (on_lines ["$2"] ++ [x00; x01]).

Definition encodes_a_sequence_as_one_value_after_another : bool :=
  assert_eq (encode (Sequence [SimpleString (lit "FIRST"); SimpleString (lit "SECOND")]))
    (on_lines ["+FIRST"; "+SECOND"]).

Definition encodes_a_bulk_string_verbatim : bool :=
  assert_eq (encode (BulkString [xff; x00])) (on_lines ["$2"] ++ [xff; x00] ++ CRLF).

Lemma resp_tests_pass :
  all_pass
    [parses_a_command; reports_how_much_it_consumed_so_pipelined_commands_are_not_lost;
     waits_for_the_rest_of_a_split_command; refuses_values_nested_deeper_than_anything_real;
     parses_the_nesting_that_does_come_up; refuses_a_bulk_length_it_could_never_hold;
     carries_bytes_that_are_not_text; encodes_a_file_without_the_crlf_a_bulk_string_ends_in;
     encodes_a_sequence_as_one_value_after_another; encodes_a_bulk_string_verbatim] = true.
Proof. passes. Qed.
