(* ===== verification/TestsGlob.v ===== *)
(** * The tests of src/src/glob.rs *)
From S2P Require Import Prelude Glob Testing.

(** [matches] of the tests: the pattern read and matched. *)
Definition fits (pattern key : string) : bool := matches (parse_pattern (lit pattern)) (lit key).

Definition a_run_stands_for_every_key_there_is : bool :=
  all_of [""; "foo"; "a much longer key"] (fun key => fits "*" key).

Definition a_pattern_of_bytes_stands_for_itself_alone : bool :=
  fits "foo" "foo" && negb (fits "foo" "bar") && negb (fits "foo" "foobar") && negb (fits "foo" "fo").

Definition a_run_stands_for_nothing_at_all_as_readily_as_for_something : bool :=
  fits "foo*" "foo" && fits "*foo" "foo" && fits "*foo*" "foo" && fits "f*o" "fo".

Definition a_run_reaches_as_far_as_it_has_to : bool :=
  fits "foo*" "foobar" && fits "*bar" "foobar" && fits "f*r" "foobar" && fits "*oob*" "foobar"
  && negb (fits "foo*" "barfoo").

Definition several_runs_pick_out_the_pieces_between_them : bool :=
  fits "*a*b*c*" "xxaxxbxxcxx" && negb (fits "*a*b*c*" "xxaxxcxxbxx").

Definition a_run_backs_up_when_what_follows_it_falls_short : bool :=
  fits "*abc" "abxabc" && fits "*ab*" "xxxab".

Definition several_runs_in_a_row_say_no_more_than_one_does : bool :=
  fits "**" "foo" && fits "f***o" "foo" && negb (fits "f***o" "bar").

Definition a_question_mark_stands_for_one_byte_and_no_fewer : bool :=
  fits "f?o" "foo" && fits "???" "foo" && negb (fits "f?o" "fo") && negb (fits "???" "foobar").

Definition a_set_stands_for_any_one_of_the_bytes_in_it : bool :=
  fits "f[ao]o" "foo" && fits "f[ao]o" "fao" && negb (fits "f[ao]o" "fio").

Definition a_set_can_name_a_stretch_of_bytes_at_once : bool :=
  fits "key:[0-9]" "key:7" && negb (fits "key:[0-9]" "key:x")
  && fits "[a-c][a-c]" "ba" && negb (fits "[a-c][a-c]" "bd").

Definition a_set_can_be_turned_on_its_head : bool :=
  fits "f[^a]o" "foo" && negb (fits "f[^a]o" "fao") && fits "[^0-9]" "a" && negb (fits "[^0-9]" "5").

Definition a_dash_at_the_end_of_a_set_is_a_byte_like_any_other : bool :=
  fits "[a-]" "-" && fits "[a-]" "a" && negb (fits "[a-]" "b").

Definition a_backslash_makes_a_byte_of_what_would_otherwise_stand_for_more : bool :=
  fits "f\*o" "f*o" && negb (fits "f\*o" "foo") && fits "\?" "?" && negb (fits "\?" "x")
  && fits "\[a]" "[a]".

Definition a_pattern_of_nothing_stands_for_a_key_of_nothing : bool :=
  fits "" "" && negb (fits "" "foo").

Definition an_opening_never_closed_runs_to_the_end_of_the_pattern : bool :=
  fits "[abc" "a" && negb (fits "[abc" "d").

(** A key of 2000 bytes in the source. *)
Definition keeps_its_footing_against_a_key_built_to_make_it_stumble : bool :=
  negb (matches (parse_pattern (lit "*a*a*a*a*a*a*a*a*a*a*a*a*a*a*a*a*a*a*a*a*b"))
          (replicate 2000 "a"%byte)).

Lemma glob_tests_pass :
  all_pass
    [a_run_stands_for_every_key_there_is; a_pattern_of_bytes_stands_for_itself_alone;
     a_run_stands_for_nothing_at_all_as_readily_as_for_something; a_run_reaches_as_far_as_it_has_to;
     several_runs_pick_out_the_pieces_between_them; a_run_backs_up_when_what_follows_it_falls_short;
     several_runs_in_a_row_say_no_more_than_one_does;
     a_question_mark_stands_for_one_byte_and_no_fewer; a_set_stands_for_any_one_of_the_bytes_in_it;
     a_set_can_name_a_stretch_of_bytes_at_once; a_set_can_be_turned_on_its_head;
     a_dash_at_the_end_of_a_set_is_a_byte_like_any_other;
     a_backslash_makes_a_byte_of_what_would_otherwise_stand_for_more;
     a_pattern_of_nothing_stands_for_a_key_of_nothing;
     an_opening_never_closed_runs_to_the_end_of_the_pattern;
     keeps_its_footing_against_a_key_built_to_make_it_stumble] = true.
Proof. passes. Qed.
