(* ===== verification/TestsChannels.v ===== *)
(** * The tests of src/src/channels.rs

    A client's receiving end is what it has been handed: [heard] of an [Air], in
    the order it was sent.  [gone] are the clients whose receiving end has been
    dropped.  Left out is [is_one_listing_however_many_hands_hold_it], which is about
    two handles on the one tally: here there is only the tally. *)
From S2P Require Import Prelude Channels Testing.
Open Scope Z_scope.

Record Air := { tally : Channels; handed : list (listener * Bytes); gone : list listener }.

(** [Channels::default()]. *)
Definition quiet : Air := {| tally := ∅; handed := []; gone := [] |}.

Definition join (channel : string) (l : listener) (a : Air) : Air :=
  {| tally := joined (lit channel) l (tally a); handed := handed a; gone := gone a |}.
Definition leave (channel : string) (l : listener) (a : Air) : Air :=
  {| tally := parted (lit channel) l (tally a); handed := handed a; gone := gone a |}.
Definition drop_end (l : listener) (a : Air) : Air :=
  {| tally := tally a; handed := handed a; gone := l :: gone a |}.

(** [channels.send], with how many it reached. *)
Definition sends (channel message : string) (a : Air) : Air * Z :=
  let '(t, reached) := send (fun l => negb (bool_decide (l ∈ gone a))) (lit channel) (tally a) in
  ({| tally := t; handed := handed a ++ map (fun l => (l, lit message)) reached; gone := gone a |},
   len reached).
Definition heard (l : listener) (a : Air) : list Bytes :=
  map snd (List.filter (fun lm => Nat.eqb lm.1 l) (handed a)).

Definition reaches_nobody_on_a_channel_nobody_has_asked_for : bool :=
  assert_eq (sends "foo" "hello" quiet).2 0.

Definition reaches_the_client_listening_on_the_channel : bool :=
  let '(a, n) := sends "foo" "hello" (join "foo" 1 quiet) in
  assert_eq n 1 && assert_eq (heard 1 a) (words ["hello"]).

Definition reaches_every_client_listening_on_the_channel : bool :=
  let '(a, n) := sends "foo" "hello" (join "foo" 2 (join "foo" 1 quiet)) in
  assert_eq n 2 && assert_eq (heard 1 a) (words ["hello"]) && assert_eq (heard 2 a) (words ["hello"]).

Definition reaches_only_the_channel_it_was_sent_to : bool :=
  let '(a, n) := sends "foo" "hello" (join "bar" 2 (join "foo" 1 quiet)) in
  assert_eq n 1 && assert_eq (heard 1 a) (words ["hello"]) && assert_eq (heard 2 a) [].

Definition reaches_one_client_on_each_of_the_channels_it_listens_on : bool :=
  let '(a, n) := sends "foo" "one" (join "bar" 1 (join "foo" 1 quiet)) in
  let '(a, m) := sends "bar" "two" a in
  assert_eq n 1 && assert_eq m 1 && assert_eq (heard 1 a) (words ["one"; "two"]).

Definition keeps_the_messages_in_the_order_they_were_sent : bool :=
  let a := fold_left (fun a text => (sends "foo" text a).1) ["one"; "two"; "three"]
             (join "foo" 1 quiet) in
  assert_eq (heard 1 a) (words ["one"; "two"; "three"]).

Definition stops_reaching_a_client_that_has_left_the_channel : bool :=
  let '(a, n) := sends "foo" "hello" (leave "foo" 2 (join "foo" 2 (join "foo" 1 quiet))) in
  assert_eq n 1 && assert_eq (heard 2 a) [].

Definition lets_one_client_go_and_leaves_the_others_where_they_were : bool :=
  assert_eq
    (sends "foo" "hello" (leave "foo" 1 (leave "foo" 1 (join "foo" 2 (join "foo" 1 quiet))))).2 1.

Definition thinks_nothing_of_a_client_leaving_a_channel_it_was_never_on : bool :=
  assert_eq (sends "foo" "hello" (leave "foo" 1 quiet)).2 0.

Definition stops_reaching_a_client_that_has_gone : bool :=
  assert_eq (sends "foo" "hello" (drop_end 2 (join "foo" 2 (join "foo" 1 quiet)))).2 1.

Lemma channels_tests_pass :
  all_pass
    [reaches_nobody_on_a_channel_nobody_has_asked_for; reaches_the_client_listening_on_the_channel;
     reaches_every_client_listening_on_the_channel; reaches_only_the_channel_it_was_sent_to;
     reaches_one_client_on_each_of_the_channels_it_listens_on;
     keeps_the_messages_in_the_order_they_were_sent;
     stops_reaching_a_client_that_has_left_the_channel;
     lets_one_client_go_and_leaves_the_others_where_they_were;
     thinks_nothing_of_a_client_leaving_a_channel_it_was_never_on;
     stops_reaching_a_client_that_has_gone] = true.
Proof. passes. Qed.
