(* ===== verification/TestsServer.v ===== *)
(** * The tests of src/src/server.rs

    [new_id] is given what it reads off the clock and the process: the source's
    hundred ids, made one after the other, are made at a hundred moments here. *)
From S2P Require Import Prelude Text Config Replicas Dispatch Startup Testing.
Open Scope Z_scope.

Definition an_id : Bytes := new_id 1700000000123456789 4242.

Definition makes_an_id_of_the_length_redis_uses : bool := assert_eq (len an_id) 40.

(** [char::is_ascii_hexdigit]. *)
Definition is_ascii_hexdigit (c : byte) : bool :=
  let z := u8 c in
  ((0x30 <=? z) && (z <=? 0x39)) || ((0x61 <=? z) && (z <=? 0x66)) || ((0x41 <=? z) && (z <=? 0x46)).
Definition makes_an_id_of_hexadecimal_characters : bool := all_of an_id is_ascii_hexdigit.

Definition makes_a_different_id_each_time : bool :=
  let ids := map (fun n => new_id (1700000000123456789 + Z.of_nat n) 4242) (seq 0 100) in
  assert_eq (size (list_to_set ids : gset Bytes)) (length ids).

Definition a_server := new_server (default_config None) 1 2.

Definition starts_a_master_at_the_beginning_of_its_history : bool :=
  assert_eq (offset (replication a_server)) 0.

Definition counts_the_history_it_hands_out : bool :=
  assert_eq (offset (advance 14 (advance 29 (replication a_server)))) 43.

Lemma server_tests_pass :
  all_pass
    [makes_an_id_of_the_length_redis_uses; makes_an_id_of_hexadecimal_characters;
     makes_a_different_id_each_time; starts_a_master_at_the_beginning_of_its_history;
     counts_the_history_it_hands_out] = true.
Proof. passes. Qed.
