(* ===== verification/TestsUsers.v ===== *)
(** * The tests of src/src/users.rs

    Left out is [is_one_set_of_passwords_however_many_hands_hold_it], which is about
    two handles on the one set of passwords. *)
From S2P Require Import Prelude Users Reference Testing.

#[local] Existing Instance sha256.

(** The hash of the password the tests set. *)
Definition MY_PASSWORD : Bytes :=
  lit "89e01536ac207279409d4de1e5253e01f4a1769e696db0d6062ca9b8f56767c8".

Definition hashes_a_password_the_way_redis_hashes_one : bool :=
  assert_eq (hashed (lit "mypassword")) MY_PASSWORD
  && assert_eq (hashed (lit ""))
       (lit "e3b0c44298fc1c149afbf4c8996fb92427ae41e4649b934ca495991b7852b855").

Definition wants_no_password_until_it_is_given_one : bool :=
  wants_no_password [] && assert_eq (hashed_passwords []) []
  && negb (wants_no_password (add_password (lit "mypassword") [])).

Definition keeps_the_password_hashed_rather_than_as_it_was_given : bool :=
  assert_eq (hashed_passwords (add_password (lit "mypassword") [])) [MY_PASSWORD].

Definition keeps_every_password_it_is_given_in_the_order_it_was_given : bool :=
  assert_eq (hashed_passwords (add_password (lit "second") (add_password (lit "first") [])))
    [hashed (lit "first"); hashed (lit "second")].

Definition keeps_one_password_once_however_often_it_is_given : bool :=
  assert_eq (length (hashed_passwords (add_password (lit "mypassword")
                                         (add_password (lit "mypassword") [])))) 1%nat.

Definition takes_a_password_that_is_not_text : bool :=
  let password := [xff; x00; x0d; x0a] in
  assert_eq (hashed_passwords (add_password password [])) [hashed password].

Lemma users_tests_pass :
  all_pass
    [hashes_a_password_the_way_redis_hashes_one; wants_no_password_until_it_is_given_one;
     keeps_the_password_hashed_rather_than_as_it_was_given;
     keeps_every_password_it_is_given_in_the_order_it_was_given;
     keeps_one_password_once_however_often_it_is_given; takes_a_password_that_is_not_text] = true.
Proof. passes. Qed.
