(* ===== verification/TestsStrings.v ===== *)
(** * The tests of src/src/store/strings.rs *)
From S2P Require Import Prelude Text StoreStrings Testing.
Open Scope Z_scope.

Definition reads_the_numbers_redis_would_read : bool :=
  all_of (words ["0"; "1"; "42"; "-1"; "9223372036854775807"])
    (fun value => assert_eq (as_number value) (ok (parse_i64 value))
                  && is_some (as_number value)).

Definition turns_down_values_that_only_look_numeric : bool :=
  all_of (words [""; "xyz"; "+1"; "007"; "-0"; " 1"; "1 "; "1.0"; "1e3"; "0x1"; "9223372036854775808"]
          ++ [[xef; xbf; xbd]])
    (fun value => assert_eq (as_number value) None)
  && assert_eq (as_number [xff]) None.

Lemma strings_tests_pass :
  all_pass [reads_the_numbers_redis_would_read; turns_down_values_that_only_look_numeric] = true.
Proof. passes. Qed.
