(* ===== verification/TestsCommands.v ===== *)
(** * The tests of src/src/commands/mod.rs *)
From S2P Require Import Prelude Text Resp Command Testing.

(** A command of bulk strings. *)
Definition command (l : list string) : Command :=
  match parse_command (Array (map bulk l)) with
  | Ok c => c
  | Err _ => {| uppercased := []; name := []; args := [] |}
  end.

(** The words a command is written down as, given what it answered; nothing in
    place of a word that is not a bulk string. *)
Definition written (l : list string) (reply : Value) : option (list (option Bytes)) :=
  match written_down (command l) reply with
  | Some (Array parts) =>
      Some (map (fun part => match part with BulkString word => Some word | _ => None end) parts)
  | Some _ => Some []
  | None => None
  end.
Definition said (l : list string) : option (list (option Bytes)) := Some (map Some (words l)).

Definition writes_a_write_down_as_it_came_in : bool :=
  all_of [["SET"; "foo"; "bar"]; ["INCR"; "counter"]; ["RPUSH"; "list"; "a"]; ["LPOP"; "list"];
          ["ZADD"; "racers"; "8.0"; "Sam"]]
    (fun l => assert_eq (written l (SimpleString (lit "OK"))) (said l)).

Definition writes_a_write_down_under_the_name_the_client_spelled : bool :=
  assert_eq (written ["set"; "foo"; "bar"] (SimpleString (lit "OK"))) (said ["set"; "foo"; "bar"]).

Definition writes_nothing_down_for_a_command_that_changes_nothing : bool :=
  all_of [["GET"; "foo"]; ["PING"]; ["TYPE"; "foo"]; ["LRANGE"; "list"; "0"; "-1"];
          ["SUBSCRIBE"; "channel"]]
    (fun l => assert_eq (written l Null) None).

Definition writes_a_blpop_down_as_the_lpop_it_amounted_to : bool :=
  assert_eq (written ["BLPOP"; "list"; "0"] (Array [bulk "list"; bulk "a"])) (said ["LPOP"; "list"]).

Definition writes_nothing_down_for_a_blpop_that_waited_and_took_nothing : bool :=
  assert_eq (written ["BLPOP"; "list"; "0.1"] NullArray) None.

Lemma commands_tests_pass :
  all_pass
    [writes_a_write_down_as_it_came_in; writes_a_write_down_under_the_name_the_client_spelled;
     writes_nothing_down_for_a_command_that_changes_nothing;
     writes_a_blpop_down_as_the_lpop_it_amounted_to;
     writes_nothing_down_for_a_blpop_that_waited_and_took_nothing] = true.
Proof. passes. Qed.
