(* ===== verification/TestsConfig.v ===== *)
(** * The tests of src/src/config.rs

    The working directory, which the tests take from the system, is one here. *)
From S2P Require Import Prelude Text Config Testing.
Open Scope Z_scope.

Definition CURRENT_DIR : Bytes := lit "/srv/redis".
Definition parse (args : list string) : result Config Bytes :=
  parse_config (Some CURRENT_DIR) (words args).

(** What a test asserts of the settings the arguments are read as. *)
Definition parsed (args : list string) (test : Config -> bool) : bool :=
  match parse args with Ok c => test c | Err _ => false end.

Definition listens_on_the_usual_port_when_not_told_otherwise : bool :=
  parsed [] (fun c => assert_eq (port c) 6379).

Definition takes_the_port_it_is_given : bool :=
  parsed ["--port"; "6380"] (fun c => assert_eq (port c) 6380).

Definition takes_the_last_of_a_repeated_flag : bool :=
  parsed ["--port"; "6380"; "--port"; "6381"] (fun c => assert_eq (port c) 6381).

#[local] Instance master_eq_decision : EqDecision Master.
Proof. solve_decision. Defined.

Definition follows_no_master_unless_told_to : bool :=
  parsed [] (fun c => assert_eq (replicaof c) None).

Definition takes_the_master_to_follow_as_one_argument : bool :=
  parsed ["--replicaof"; "localhost 6379"]
    (fun c => assert_eq (replicaof c) (Some {| host := lit "localhost"; master_port := 6379 |})).

Definition takes_the_master_alongside_the_port_to_listen_on : bool :=
  parsed ["--port"; "6380"; "--replicaof"; "127.0.0.1 6379"]
    (fun c => assert_eq (port c) 6380 && assert_eq (master_port <$> replicaof c) (Some 6379)).

(** [Path::is_absolute]. *)
Definition keeps_its_dataset_where_redis_does_unless_told_otherwise : bool :=
  parsed [] (fun c => assert_eq (dir c) CURRENT_DIR && assert_eq (head (dir c)) (Some "/"%byte)
                      && assert_eq (dbfilename c) (lit "dump.rdb")).

Definition writes_nothing_down_as_it_goes_unless_told_otherwise : bool :=
  parsed [] (fun c => negb (appendonly c) && assert_eq (appenddirname c) (lit "appendonlydir")
                      && assert_eq (appendfilename c) (lit "appendonly.aof")
                      && assert_eq (appendfsync c) (lit "everysec")).

Definition takes_the_settings_the_append_only_file_is_to_be_kept_under : bool :=
  parsed ["--appendonly"; "yes"; "--appenddirname"; "aof"; "--appendfilename"; "writes.aof";
          "--appendfsync"; "always"]
    (fun c => appendonly c && assert_eq (appenddirname c) (lit "aof")
              && assert_eq (appendfilename c) (lit "writes.aof")
              && assert_eq (appendfsync c) (lit "always")).

Definition takes_each_of_the_ways_of_pushing_writes_through_to_the_disk : bool :=
  all_of ["always"; "everysec"; "no"; "ALWAYS"; "EverySec"]
    (fun spelling =>
       parsed ["--appendfsync"; spelling] (fun c => assert_eq (appendfsync c) (lit spelling))).

Definition refuses_a_way_of_pushing_writes_through_that_it_has_never_heard_of : bool :=
  all_of ["alway"; "always "; "sometimes"; "yes"; ""]
    (fun spelling => is_err (parse ["--appendfsync"; spelling])).

Definition keeps_the_defaults_for_the_append_only_settings_it_was_not_given : bool :=
  parsed ["--appendonly"; "yes"]
    (fun c => appendonly c && assert_eq (appenddirname c) (lit "appendonlydir")
              && assert_eq (appendfilename c) (lit "appendonly.aof")
              && assert_eq (appendfsync c) (lit "everysec")).

Definition takes_the_append_only_settings_alongside_the_dataset_ones : bool :=
  parsed ["--dir"; "/tmp/redis-files"; "--appendonly"; "yes"]
    (fun c => assert_eq (dir c) (lit "/tmp/redis-files") && appendonly c).

Definition takes_a_yes_or_a_no_however_it_is_spelled : bool :=
  all_of ["yes"; "YES"; "Yes"] (fun value => parsed ["--appendonly"; value] appendonly)
  && all_of ["no"; "NO"; "No"]
       (fun value => parsed ["--appendonly"; value] (fun c => negb (appendonly c))).

Definition refuses_an_append_only_setting_that_is_neither_a_yes_nor_a_no : bool :=
  all_of ["ye"; "true"; "1"; ""] (fun value => is_err (parse ["--appendonly"; value])).

(** [config.setting] says this of a setting. *)
Definition has (c : Config) (nm : string) (expected : option (string * string)) : bool :=
  assert_eq (setting c (lit nm)) ((fun '(known, value) => (known, lit value)) <$> expected).

Definition hands_back_the_settings_the_append_only_file_is_kept_under : bool :=
  parsed [] (fun c => has c "appendonly" (Some ("appendonly", "no"))
                      && has c "appenddirname" (Some ("appenddirname", "appendonlydir"))
                      && has c "appendfilename" (Some ("appendfilename", "appendonly.aof"))
                      && has c "appendfsync" (Some ("appendfsync", "everysec")))%string.

Definition says_in_words_whether_it_writes_as_it_goes : bool :=
  parsed [] (fun c => has c "APPENDONLY" (Some ("appendonly", "no"))
                      && has (with_appendonly c true) "appendonly" (Some ("appendonly", "yes")))%string.

Definition takes_the_dataset_to_keep_and_where_to_keep_it : bool :=
  parsed ["--dir"; "/tmp/redis-files"; "--dbfilename"; "dump.rdb"]
    (fun c => assert_eq (dir c) (lit "/tmp/redis-files") && assert_eq (dbfilename c) (lit "dump.rdb")).

Definition hands_back_the_settings_it_was_given : bool :=
  parsed ["--dir"; "/tmp/redis-files"; "--dbfilename"; "rdbfile"]
    (fun c => has c "dir" (Some ("dir", "/tmp/redis-files"))
              && has c "dbfilename" (Some ("dbfilename", "rdbfile")))%string.

Definition hands_back_a_setting_whichever_way_it_is_spelled : bool :=
  parsed ["--dir"; "/tmp"]
    (fun c => has c "DIR" (Some ("dir", "/tmp")) && has c "Dir" (Some ("dir", "/tmp")))%string.

Definition has_no_setting_it_was_never_given : bool :=
  parsed [] (fun c => has c "port" None && has c "maxmemory" None && has c "" None).

Definition refuses_a_master_it_cannot_make_sense_of : bool :=
  all_of ["localhost"; "localhost 6379 extra"; ""; "localhost http"]
    (fun value => is_err (parse ["--replicaof"; value])).

Definition refuses_arguments_it_cannot_make_sense_of : bool :=
  all_of [["--colour"; "red"]; ["--port"]; ["6380"]; ["--port"; "http"]; ["--port"; "65536"];
          ["--port"; "-1"]]
    (fun args => is_err (parse args)).

Lemma config_tests_pass :
  all_pass
    [listens_on_the_usual_port_when_not_told_otherwise; takes_the_port_it_is_given;
     takes_the_last_of_a_repeated_flag; follows_no_master_unless_told_to;
     takes_the_master_to_follow_as_one_argument; takes_the_master_alongside_the_port_to_listen_on;
     keeps_its_dataset_where_redis_does_unless_told_otherwise;
     writes_nothing_down_as_it_goes_unless_told_otherwise;
     takes_the_settings_the_append_only_file_is_to_be_kept_under;
     takes_each_of_the_ways_of_pushing_writes_through_to_the_disk;
     refuses_a_way_of_pushing_writes_through_that_it_has_never_heard_of;
     keeps_the_defaults_for_the_append_only_settings_it_was_not_given;
     takes_the_append_only_settings_alongside_the_dataset_ones;
     takes_a_yes_or_a_no_however_it_is_spelled;
     refuses_an_append_only_setting_that_is_neither_a_yes_nor_a_no;
     hands_back_the_settings_the_append_only_file_is_kept_under;
     says_in_words_whether_it_writes_as_it_goes; takes_the_dataset_to_keep_and_where_to_keep_it;
     hands_back_the_settings_it_was_given; hands_back_a_setting_whichever_way_it_is_spelled;
     has_no_setting_it_was_never_given; refuses_a_master_it_cannot_make_sense_of;
     refuses_arguments_it_cannot_make_sense_of] = true.
Proof. passes. Qed.
