(* ===== verification/TestsReplica.v ===== *)
(** * The tests of src/src/replica.rs *)
From S2P Require Import Prelude Text Resp Replicas ReplicaSide Testing.
Open Scope Z_scope.

Definition lays_out_a_command_as_clients_send_them : bool :=
  assert_eq (encode (as_command (words ["PING"]))) (on_lines ["*1"; "$4"; "PING"]).

Definition knows_when_it_is_being_asked_how_far_it_has_got : bool :=
  asks_how_far (as_command (words ["REPLCONF"; "GETACK"; "*"]))
  && asks_how_far (as_command (words ["replconf"; "getack"; "*"])).

Definition knows_the_rest_is_to_be_carried_out_rather_than_answered : bool :=
  all_of [["REPLCONF"; "listening-port"; "6380"]; ["SET"; "key"; "value"]; ["PING"]; ["REPLCONF"]]
    (fun command => negb (asks_how_far (as_command (words command)))).

Definition answers_file_header (heard : Bytes) (expected : option (Z * Z)) : bool :=
  match file_header heard with Ok found => assert_eq found expected | Err _ => false end.

Definition reads_the_length_off_the_front_of_a_file : bool :=
  answers_file_header (on_lines ["$18"] ++ lit "REDIS") (Some (18, 5)).

Definition waits_for_the_whole_of_a_file_length : bool :=
  answers_file_header (lit "$1") None && answers_file_header (lit "$18" ++ [x0d]) None.

Definition turns_down_what_is_not_a_file_at_all : bool := is_err (file_header (on_lines ["+OK"])).

Definition lays_out_a_command_with_arguments : bool :=
  assert_eq (encode (as_command (words ["REPLCONF"; "capa"; "psync2"])))
    (on_lines ["*3"; "$8"; "REPLCONF"; "$4"; "capa"; "$6"; "psync2"]).

Lemma replica_tests_pass :
  all_pass
    [lays_out_a_command_as_clients_send_them; knows_when_it_is_being_asked_how_far_it_has_got;
     knows_the_rest_is_to_be_carried_out_rather_than_answered;
     reads_the_length_off_the_front_of_a_file; waits_for_the_whole_of_a_file_length;
     turns_down_what_is_not_a_file_at_all; lays_out_a_command_with_arguments] = true.
Proof. passes. Qed.
