(* ===== verification/TestsAof.v ===== *)
(** * The tests of src/src/aof.rs

    The directory a test works in is [SOMEWHERE].  The file system of the
    development keeps files and not directories: that a directory is there is told
    by a file in it, and a test that puts a file where a directory belongs, or the
    other way round, has the system fault the access it stands in the way of. *)
From S2P Require Import Prelude Text Resp Config Aof Testing.
Open Scope Z_scope.

Definition SOMEWHERE : Bytes := lit "/tmp/redis-aof-4242-0".
Definition under (l : list string) : Bytes := fold_left (fun p part => join p (lit part)) l SOMEWHERE.

(** [Somewhere::config]. *)
Definition config_here (on : bool) : Config := with_appendonly (with_dir (default_config None) SOMEWHERE) on.
Definition renamed : Config :=
  with_appendfilename (with_appenddirname (config_here true) (lit "my-writes")) (lit "writes.aof").

Definition RECORD : Bytes := under ["appendonlydir"; "appendonly.aof.1.incr.aof"].
Definition MANIFEST : Bytes := under ["appendonlydir"; "appendonly.aof.manifest"].
Definition LISTING : Bytes := lit "file appendonly.aof.1.incr.aof seq 1 type i" ++ [x0a].

(** [prepare], and what a test asserts of the files it leaves and what it made. *)
Definition prepared (c : Config) (before : Files) (test : Files -> Aof -> bool) : bool :=
  match prepare no_faults c before with
  | (files, Ok (Some a)) => test files a
  | _ => false
  end.
(** [made]. *)
Definition made (c : Config) (before : Files) (file : Bytes) : bool :=
  prepared c before (fun _ a => assert_eq (path a) file).

Definition makes_somewhere_to_write_when_it_is_to_write_as_it_goes : bool :=
  prepared (config_here true) ∅ (fun files a =>
    assert_eq (path a) RECORD && is_some (files !! path a)).

Definition leaves_the_file_it_makes_empty : bool :=
  prepared (config_here true) ∅ (fun files a => assert_eq (files !! path a) (Some [])).

Definition makes_them_under_the_names_it_was_given : bool :=
  prepared renamed ∅ (fun files a =>
    assert_eq (path a) (under ["my-writes"; "writes.aof.1.incr.aof"]) && is_some (files !! path a)).

Definition writes_a_manifest_naming_the_file_it_made : bool :=
  prepared (config_here true) ∅ (fun files _ => assert_eq (files !! MANIFEST) (Some LISTING)).

Definition names_the_file_in_the_manifest_without_the_way_to_it : bool :=
  prepared renamed ∅ (fun files _ =>
    assert_eq (files !! under ["my-writes"; "writes.aof.manifest"])
      (Some (lit "file writes.aof.1.incr.aof seq 1 type i" ++ [x0a]))).

(** [left_behind]: a manifest of these lines, each ended by a newline. *)
Definition newlines (l : list string) : Bytes := flat_map (fun s => lit s ++ [x0a]) l.
Definition left_behind (l : list string) : Files := {[ MANIFEST := newlines l ]}.

Definition records_in_the_file_the_manifest_it_finds_names : bool :=
  made (config_here true) (left_behind ["file elsewhere.aof.1.incr.aof seq 1 type i"])
    (under ["appendonlydir"; "elsewhere.aof.1.incr.aof"]).

Definition leaves_a_manifest_it_finds_as_it_found_it : bool :=
  let listing := ["file elsewhere.aof.1.incr.aof seq 4 type i"] in
  prepared (config_here true) (left_behind listing) (fun files _ =>
    assert_eq (files !! MANIFEST) (Some (newlines listing))).

Definition records_in_the_last_of_the_files_a_manifest_lists : bool :=
  made (config_here true)
    (left_behind ["file base.aof.1.base.rdb seq 1 type b"; "file writes.aof.1.incr.aof seq 1 type i";
                  "file writes.aof.2.incr.aof seq 2 type i"])
    (under ["appendonlydir"; "writes.aof.2.incr.aof"]).

Definition passes_over_what_a_manifest_says_that_it_has_no_use_for : bool :=
  made (config_here true)
    (left_behind ["seq 7 type i file elsewhere.aof.7.incr.aof startoffset 12345"])
    (under ["appendonlydir"; "elsewhere.aof.7.incr.aof"]).

Definition writes_a_manifest_of_its_own_when_it_finds_none_it_can_follow : bool :=
  prepared (config_here true) (left_behind [""; "# nothing to go on"; "file lonely.aof"])
    (fun files a => assert_eq (path a) RECORD && assert_eq (files !! MANIFEST) (Some LISTING)).

Definition makes_nothing_when_it_is_to_write_nothing : bool :=
  match prepare no_faults (config_here false) ∅ with
  | (files, Ok None) => bool_decide (files = ∅)
  | _ => false
  end.

Definition is_content_to_find_the_directory_already_there : bool :=
  let kept := under ["appendonlydir"; "kept"] in
  prepared (config_here true) ∅ (fun files _ =>
    prepared (config_here true) (<[kept := lit "kept"]> files) (fun files _ => is_some (files !! kept))).

Definition keeps_what_was_written_down_the_last_time_it_ran : bool :=
  let ping := on_lines ["*1"; "$4"; "PING"] in
  prepared (config_here true) ∅ (fun files a =>
    prepared (config_here true) (<[path a := ping]> files) (fun files _ =>
      assert_eq (files !! path a) (Some ping))).

(** [sent], and recording one command after another. *)
Definition sent (l : list string) : Value := Array (map bulk l).
Definition recording_all (a : Aof) (commands : list Value) (files : Files) : option Files :=
  fold_left (fun files command =>
    match files with
    | Some files => match record (Appended None) a command files with
                    | (files, Ok _) => Some files
                    | _ => None
                    end
    | None => None
    end) commands (Some files).
Definition records (c : Config) (before : Files) (commands : list Value) (bytes : Bytes) : bool :=
  prepared c before (fun files a =>
    match recording_all a commands files with
    | Some files => assert_eq (files !! path a) (Some bytes)
    | None => false
    end).

Definition SET_FOO_1 : list string := ["*3"; "$3"; "SET"; "$3"; "foo"; "$1"; "1"].
Definition SET_BAR_2 : list string := ["*3"; "$3"; "SET"; "$3"; "bar"; "$1"; "2"].

Definition records_a_command_as_the_client_sent_it : bool :=
  records (config_here true) ∅ [sent ["SET"; "foo"; "100"]]
    (on_lines ["*3"; "$3"; "SET"; "$3"; "foo"; "$3"; "100"]).

Definition records_one_command_after_another : bool :=
  records (config_here true) ∅ [sent ["SET"; "foo"; "1"]; sent ["SET"; "bar"; "2"]]
    (on_lines (SET_FOO_1 ++ SET_BAR_2)).

Definition records_on_the_end_of_what_was_written_before : bool :=
  prepared (config_here true) ∅ (fun files a =>
    match recording_all a [sent ["SET"; "foo"; "1"]] files with
    | Some files => records (config_here true) files [sent ["SET"; "bar"; "2"]]
                      (on_lines (SET_FOO_1 ++ SET_BAR_2))
    | None => false
    end).

Definition records_a_value_that_is_not_text : bool :=
  let value := CRLF ++ [x00; xff] in
  records (config_here true) ∅ [Array [bulk "SET"; bulk "k"; BulkString value]]
    (on_lines ["*3"; "$3"; "SET"; "$1"; "k"; "$4"] ++ value ++ CRLF).

(** [over]: what a server set up over these bytes reads back. *)
Definition over (bytes : Bytes) : result (list Value) Failure :=
  match prepare no_faults (config_here true) {[ RECORD := bytes ]} with
  | (files, Ok (Some a)) => recorded no_faults files a
  | (_, Ok None) => Err []
  | (_, Err e) => Err e
  end.
Definition reads_back (bytes : Bytes) (commands : list Value) : bool :=
  assert_eq (over bytes) (Ok commands).

Definition reads_back_nothing_from_a_record_with_nothing_in_it : bool := reads_back [] [].

Definition reads_back_the_one_command_a_record_holds : bool :=
  reads_back (on_lines ["*3"; "$3"; "SET"; "$3"; "foo"; "$3"; "123"]) [sent ["SET"; "foo"; "123"]].

Definition reads_back_the_commands_in_the_order_they_were_recorded : bool :=
  reads_back (on_lines (SET_FOO_1 ++ ["*2"; "$4"; "INCR"; "$3"; "foo"] ++ SET_BAR_2))
    [sent ["SET"; "foo"; "1"]; sent ["INCR"; "foo"]; sent ["SET"; "bar"; "2"]].

Definition leaves_off_a_command_the_record_stops_in_the_middle_of : bool :=
  reads_back (on_lines (SET_FOO_1 ++ ["*3"; "$3"; "SET"; "$3"]) ++ lit "ba") [sent ["SET"; "foo"; "1"]].

Definition says_so_when_a_record_cannot_be_read_through : bool :=
  is_err (over (on_lines ["*3"; "$3"; "SET"; "nonsense"])).

Definition reads_back_what_it_has_just_recorded : bool :=
  let commands := [sent ["SET"; "foo"; "1"]; sent ["SET"; "bar"; "2"]] in
  prepared (config_here true) ∅ (fun files a =>
    match recording_all a commands files with
    | Some files => assert_eq (recorded no_faults files a) (Ok commands)
    | None => false
    end).

Definition pushes_a_write_through_to_the_disk_when_told_to : bool :=
  let c := with_appendfsync (config_here true) (lit "always") in
  prepared c ∅ (fun _ a => durable a)
  && records c ∅ [sent ["SET"; "foo"; "1"]] (on_lines SET_FOO_1).

(** The server is set up again over the same files for every spelling. *)
Fixpoint durable_as (spellings : list string) (expected : bool) (files : Files) : option Files :=
  match spellings with
  | [] => Some files
  | spelling :: spellings =>
      match prepare no_faults (with_appendfsync (config_here true) (lit spelling)) files with
      | (files, Ok (Some a)) =>
          if eqb (durable a) expected then durable_as spellings expected files else None
      | _ => None
      end
  end.
Definition takes_how_often_to_push_through_to_the_disk_however_it_is_spelled : bool :=
  match durable_as ["always"; "ALWAYS"; "Always"] true ∅ with
  | Some files => is_some (durable_as ["everysec"; "no"] false files)
  | None => false
  end.

Definition makes_the_directory_the_dataset_is_kept_in_too_if_it_has_to : bool :=
  prepared (with_dir (config_here true) (under ["data"])) ∅ (fun files _ =>
    is_some (files !! under ["data"; "appendonlydir"; "appendonly.aof.1.incr.aof"])).

Definition in_the_way (said : string) : option Fault :=
  Some {| fault_said := lit said; fault_reached := None |}.

Definition says_so_when_it_cannot_make_somewhere_to_write : bool :=
  let faults access :=
    match access with
    | CreateDirs p => if bool_decide (p = under ["appendonlydir"]) then in_the_way "File exists (os error 17)" else None
    | _ => None
    end in
  is_err (prepare faults (config_here true) ∅).2.

Definition says_so_when_it_cannot_make_the_file_to_write_in : bool :=
  let faults access :=
    match access with
    | OpenAppend p => if bool_decide (p = RECORD) then in_the_way "Is a directory (os error 21)" else None
    | _ => None
    end in
  is_err (prepare faults (config_here true) ∅).2.

Lemma aof_tests_pass :
  all_pass
    [makes_somewhere_to_write_when_it_is_to_write_as_it_goes; leaves_the_file_it_makes_empty;
     makes_them_under_the_names_it_was_given; writes_a_manifest_naming_the_file_it_made;
     names_the_file_in_the_manifest_without_the_way_to_it;
     records_in_the_file_the_manifest_it_finds_names; leaves_a_manifest_it_finds_as_it_found_it;
     records_in_the_last_of_the_files_a_manifest_lists;
     passes_over_what_a_manifest_says_that_it_has_no_use_for;
     writes_a_manifest_of_its_own_when_it_finds_none_it_can_follow;
     makes_nothing_when_it_is_to_write_nothing; is_content_to_find_the_directory_already_there;
     keeps_what_was_written_down_the_last_time_it_ran; records_a_command_as_the_client_sent_it;
     records_one_command_after_another; records_on_the_end_of_what_was_written_before;
     records_a_value_that_is_not_text; reads_back_nothing_from_a_record_with_nothing_in_it;
     reads_back_the_one_command_a_record_holds;
     reads_back_the_commands_in_the_order_they_were_recorded;
     leaves_off_a_command_the_record_stops_in_the_middle_of;
     says_so_when_a_record_cannot_be_read_through; reads_back_what_it_has_just_recorded;
     pushes_a_write_through_to_the_disk_when_told_to;
     takes_how_often_to_push_through_to_the_disk_however_it_is_spelled;
     makes_the_directory_the_dataset_is_kept_in_too_if_it_has_to;
     says_so_when_it_cannot_make_somewhere_to_write;
     says_so_when_it_cannot_make_the_file_to_write_in] = true.
Proof. passes. Qed.
