(* ===== verification/TestsRdb.v ===== *)
(** * The tests of src/src/rdb.rs *)
From S2P Require Import Prelude Text Store Config Aof Rdb Testing.
Open Scope Z_scope.

(** Bytes by their values, as [&[0, 3, ..]] is. *)
Definition b (values : list Z) : Bytes := map byte_of values.
Definition OPENING : Bytes := lit "REDIS0011".
Definition CLOSING : Bytes := b [END; 0; 0; 0; 0; 0; 0; 0; 0].

(** [saved]: a dataset holding these keys. *)
Definition counted (s : string) : Bytes := byte_of (len (lit s)) :: lit s.
Definition saved_as (entries : list (string * string)) : Bytes :=
  OPENING ++ b [DATABASE; 0; RESIZE; len entries; 0]
  ++ flat_map (fun '(key, value) => byte_of STRING :: counted key ++ counted value) entries
  ++ CLOSING.

(** [records]. *)
Definition records (file : Bytes) : option (list Saved) :=
  match dataset file 0 with Got (Some records) _ => Some records | _ => None end.
Definition refused (file : Bytes) : bool :=
  match dataset file 0 with Refused _ => true | _ => false end.
Definition holds_keys (file : Bytes) (keys : list Bytes) : bool :=
  assert_eq (map saved_key <$> records file) (Some keys).
Definition record_at (i : nat) (file : Bytes) (test : Saved -> bool) : bool :=
  match records file with
  | Some records => match records !! i with Some r => test r | None => false end
  | None => false
  end.

Definition reads_the_one_key_a_dataset_holds : bool :=
  holds_keys (saved_as [("foo", "bar")%string]) (words ["foo"]).

Definition reads_every_key_a_dataset_holds : bool :=
  holds_keys (saved_as [("foo", "bar"); ("baz", "qux")]%string) (words ["foo"; "baz"]).

Definition reads_what_the_keys_hold : bool :=
  record_at 0 (saved_as [("foo", "bar")%string]) (fun r =>
    assert_eq (saved_value r) (lit "bar") && assert_eq (saved_until r) None).

Definition reads_a_dataset_with_nothing_in_it : bool := holds_keys (saved_as []) [].

Definition reads_past_the_facts_about_the_server_that_saved_it : bool :=
  holds_keys
    (OPENING
     ++ flat_map (fun '(nm, value) => byte_of AUXILIARY :: counted nm ++ counted value)
          [("redis-ver", "7.2.0"); ("redis-bits", "64")]%string
     ++ b [DATABASE; 0; STRING; 3] ++ lit "foo" ++ b [3] ++ lit "bar" ++ CLOSING)
    (words ["foo"]).

(** [STRING, 1, b'a', 1, b'b'], for letters. *)
Definition key_and_value (key value : byte) : Bytes :=
  [byte_of STRING; x01; key; x01; value].

Definition reads_a_dataset_saved_without_the_sizes_in_it : bool :=
  holds_keys (OPENING ++ b [DATABASE; 0] ++ key_and_value "a" "b" ++ CLOSING) (words ["a"]).

Definition reads_the_time_a_key_is_to_go_at : bool :=
  record_at 0
    (OPENING ++ b [DATABASE; 0; EXPIRES_AT_MILLISECONDS] ++ to_le 8 2000000000000
     ++ key_and_value "a" "b" ++ CLOSING)
    (fun r => assert_eq (saved_until r) (Some (2000000000000 * 1000000))).

Definition reads_the_time_a_key_is_to_go_at_in_whole_seconds : bool :=
  record_at 0
    (OPENING ++ b [DATABASE; 0; EXPIRES_AT_SECONDS] ++ to_le 4 2000000000
     ++ key_and_value "a" "b" ++ CLOSING)
    (fun r => assert_eq (saved_until r) (Some (2000000000 * 1000000000))).

Definition leaves_the_next_key_without_the_time_the_one_before_it_carried : bool :=
  let file :=
    OPENING ++ b [DATABASE; 0; EXPIRES_AT_SECONDS] ++ to_le 4 2000000000
    ++ key_and_value "a" "b" ++ key_and_value "c" "d" ++ CLOSING in
  record_at 0 file (fun r => is_some (saved_until r))
  && record_at 1 file (fun r => assert_eq (saved_until r) None).

Definition keeps_only_the_first_of_several_databases : bool :=
  holds_keys
    (OPENING ++ b [DATABASE; 0] ++ key_and_value "a" "b" ++ b [DATABASE; 1]
     ++ key_and_value "c" "d" ++ CLOSING)
    (words ["a"]).

Definition reads_a_key_longer_than_six_bits_can_count : bool :=
  let key := replicate 300 "k"%byte in
  holds_keys
    (OPENING ++ b [DATABASE; 0; STRING] ++ b [Z.lor 0x40 (Z.shiftr 300 8); Z.land 300 0xff] ++ key
     ++ [x01; "b"%byte] ++ CLOSING)
    [key].

Definition reads_a_value_kept_as_the_number_it_spells : bool :=
  let file :=
    OPENING ++ b [DATABASE; 0; STRING; 1] ++ lit "a" ++ b [0xC0; 42]
    ++ b [STRING; 1] ++ lit "b" ++ b [0xC1] ++ to_le 2 1000
    ++ b [STRING; 1] ++ lit "c" ++ b [0xC2] ++ to_le 4 ((-100000) mod 2 ^ 32) ++ CLOSING in
  assert_eq (map saved_value <$> records file) (Some (words ["42"; "1000"; "-100000"])).

Definition turns_down_what_is_not_a_dataset : bool :=
  all_of [[]; lit "REDIS"; lit "REDIS001"; lit "NOTIT0011" ++ CLOSING] refused.

Definition turns_down_a_dataset_that_stops_part_way : bool :=
  refused (OPENING ++ b [DATABASE; 0; STRING; 3] ++ lit "fo").

Definition turns_down_a_dataset_that_never_ends : bool := refused (OPENING ++ b [DATABASE; 0]).

Definition turns_down_a_kind_of_value_it_cannot_read : bool :=
  refused (OPENING ++ b [DATABASE; 0; 0x10; 1] ++ lit "a").

(** [unsqueeze], of bytes it lets out or not. *)
Definition let_out (squeezed : Bytes) (unpacked : Z) : option Bytes :=
  match unsqueeze squeezed unpacked with Done (Ok out) => Some out | _ => None end.
Definition turned_down (squeezed : Bytes) (unpacked : Z) : bool :=
  match unsqueeze squeezed unpacked with Done (Err _) => true | _ => false end.
Definition TWENTY_AS : Bytes := b [0x00; 0x61; 0xE0; 0x0A; 0x00].

Definition lets_a_squeezed_string_out_again : bool :=
  assert_eq (let_out TWENTY_AS 20) (Some (replicate 20 "a"%byte)).

Definition lets_a_squeezed_string_of_its_own_bytes_out_again : bool :=
  assert_eq (let_out (b [0x02] ++ lit "abc") 3) (Some (lit "abc")).

Definition reads_a_value_that_was_squeezed_down : bool :=
  record_at 0
    (OPENING ++ b [DATABASE; 0; STRING; 1] ++ lit "a" ++ b [0xC3; 5; 20] ++ TWENTY_AS ++ CLOSING)
    (fun r => assert_eq (saved_value r) (replicate 20 "a"%byte)).

Definition turns_down_a_squeezed_string_that_does_not_add_up : bool :=
  turned_down (b [0x05; 0x61]) 6 && turned_down (b [0x20; 0x05]) 2 && turned_down (b [0x00; 0x61]) 20.

(** Nothing under the name a dataset would have. *)
Definition treats_a_dataset_that_was_never_saved_as_one_holding_nothing : bool :=
  match load no_faults ∅ (default_config None) 0 (fun _ => 0) empty_state with
  | Done (Ok (_, loaded)) => assert_eq loaded 0%nat
  | _ => false
  end.

Lemma rdb_tests_pass :
  all_pass
    [reads_the_one_key_a_dataset_holds; reads_every_key_a_dataset_holds; reads_what_the_keys_hold;
     reads_a_dataset_with_nothing_in_it; reads_past_the_facts_about_the_server_that_saved_it;
     reads_a_dataset_saved_without_the_sizes_in_it; reads_the_time_a_key_is_to_go_at;
     reads_the_time_a_key_is_to_go_at_in_whole_seconds;
     leaves_the_next_key_without_the_time_the_one_before_it_carried;
     keeps_only_the_first_of_several_databases; reads_a_key_longer_than_six_bits_can_count;
     reads_a_value_kept_as_the_number_it_spells; turns_down_what_is_not_a_dataset;
     turns_down_a_dataset_that_stops_part_way; turns_down_a_dataset_that_never_ends;
     turns_down_a_kind_of_value_it_cannot_read; lets_a_squeezed_string_out_again;
     lets_a_squeezed_string_of_its_own_bytes_out_again; reads_a_value_that_was_squeezed_down;
     turns_down_a_squeezed_string_that_does_not_add_up;
     treats_a_dataset_that_was_never_saved_as_one_holding_nothing] = true.
Proof. passes. Qed.
