(* ===== verification/TestsSortedSets.v ===== *)
(** * The tests of src/src/store/sorted_sets.rs *)
From S2P Require Import Prelude Text F64 Store StoreStrings StoreSortedSets Testing.
Open Scope Z_scope.

(** ** The set *)

(** [in_order]: what the set holds is this.  Scores compare as doubles do. *)
Definition in_order (set : list Member) (expected : list (string * string)) : bool :=
  Nat.eqb (length set) (length expected)
  && forallb (fun '(m, (sc, nm)) => f_eq (score m) (read_f64 sc) && (name m =b? lit nm))
       (combine set expected).

(** One [add] after another, with what each answered. *)
Fixpoint add_each (members : list (string * string)) (set : list Member) : list Member * list bool :=
  match members with
  | [] => (set, [])
  | (sc, nm) :: members =>
      let '(set, new) := add (read_f64 sc) (lit nm) set in
      let '(set, news) := add_each members set in
      (set, new :: news)
  end.
Definition added (members : list (string * string)) (news : list bool)
  (expected : list (string * string)) : bool :=
  let '(set, answered) := add_each members [] in
  assert_eq answered news && in_order set expected.

Open Scope string_scope.

Definition holds_the_one_member_it_is_given : bool :=
  added [("8.0", "Sam")] [true] [("8.0", "Sam")].

Definition holds_its_members_in_the_order_of_their_scores : bool :=
  added [("14.5", "Prickett"); ("6.1", "Ford"); ("8.2", "Royce")] [true; true; true]
    [("6.1", "Ford"); ("8.2", "Royce"); ("14.5", "Prickett")].

Definition settles_a_tie_on_score_by_the_name : bool :=
  added [("8.2", "Sam-Bodden"); ("8.2", "Royce"); ("8.2", "Castilla")] [true; true; true]
    [("8.2", "Castilla"); ("8.2", "Royce"); ("8.2", "Sam-Bodden")].

Definition holds_a_name_once_however_often_it_is_added : bool :=
  added [("1.0", "Sam"); ("1.0", "Sam")] [true; false] [("1.0", "Sam")].

Definition moves_a_member_whose_score_has_changed : bool :=
  added [("1.0", "first"); ("2.0", "second"); ("3.0", "third"); ("9.0", "first")]
    [true; true; true; false] [("2.0", "second"); ("3.0", "third"); ("9.0", "first")].

Definition holds_the_members_whose_scores_are_beyond_counting : bool :=
  added [("0.0", "nought"); ("inf", "most"); ("-inf", "least")] [true; true; true]
    [("-inf", "least"); ("0.0", "nought"); ("inf", "most")].

(** ** The store *)
Definition key_ : Bytes := lit "racers".
Definition scored (members : list (string * string)) : list (f64 * Bytes) :=
  map (fun '(sc, nm) => (read_f64 sc, lit nm)) members.

(** The clock stands still at nought throughout. *)
Definition zadd_at (key : string) (members : list (string * string)) (s : State) :=
  zadd 0 (lit key) (scored members) s.
Definition store_with (l : list (string * list (string * string))) : State :=
  fold_left (fun s '(key, members) => (zadd_at key members s).1) l empty_state.
Definition holding_a_string : State :=
  match StoreStrings.set 0 key_ (lit "a string") None empty_state with Done s => s | Panic => empty_state end.

Definition makes_a_set_for_a_key_that_had_none : bool :=
  assert_eq (zadd_at "racers" [("8.0", "Sam")] empty_state).2 (Ok 1%Z).

Definition adds_to_the_set_a_key_already_holds : bool :=
  let s := store_with [("racers", [("8.0", "Sam")])] in
  assert_eq (zadd_at "racers" [("6.1", "Ford")] s).2 (Ok 1%Z).

Definition counts_only_the_members_the_set_had_never_held : bool :=
  let s := store_with [("racers", [("8.0", "Sam")])] in
  assert_eq (zadd_at "racers" [("9.0", "Sam"); ("6.1", "Ford")] s).2 (Ok 1%Z).

Definition keeps_the_sets_at_two_keys_apart : bool :=
  let s := store_with [("racers", [("8.0", "Sam")])] in
  let '(s, r) := zadd_at "riders" [("8.0", "Sam")] s in
  let '(s, n) := zcard 0 (lit "racers") s in
  let '(s, m) := zcard 0 (lit "riders") s in
  assert_eq r (Ok 1%Z) && assert_eq n (Ok 1%Z) && assert_eq m (Ok 1%Z).

Definition counts_the_members_added_in_one_go : bool :=
  assert_eq (zadd_at "racers" [("1.0", "a"); ("2.0", "b"); ("3.0", "c")] empty_state).2 (Ok 3%Z).

Definition will_not_add_to_a_key_holding_something_else : bool :=
  assert_eq (zadd_at "racers" [("8.0", "Sam")] holding_a_string).2 (Err WrongType).

Definition ranks (s : State) (l : list (string * option nat)) : bool :=
  (fix go s l :=
     match l with
     | [] => true
     | (nm, place) :: l =>
         let '(s, r) := zrank 0 key_ (lit nm) s in
         assert_eq r (Ok place) && go s l
     end) s l.

Definition says_where_each_member_falls_in_the_order : bool :=
  ranks (store_with [("racers", [("14.5", "Prickett"); ("6.1", "Ford"); ("8.2", "Royce")])])
    [("Ford", Some 0%nat); ("Royce", Some 1%nat); ("Prickett", Some 2%nat)].

Definition says_where_a_member_falls_once_its_score_has_moved : bool :=
  ranks (store_with [("racers", [("1.0", "first"); ("2.0", "second")]); ("racers", [("9.0", "first")])])
    [("second", Some 0%nat); ("first", Some 1%nat)].

Definition says_nothing_of_a_member_the_set_does_not_hold : bool :=
  ranks (store_with [("racers", [("8.0", "Sam")])]) [("nobody", None)].

Definition says_nothing_of_a_member_of_a_set_that_is_not_there : bool :=
  assert_eq (zrank 0 (lit "nothing") (lit "Sam") empty_state).2 (Ok None).

(** [racers]: a set holding four members. *)
Definition racers : State :=
  store_with [("racers", [("8.1", "Sam-Bodden"); ("10.2", "Royce"); ("6.0", "Ford"); ("14.1", "Prickett")])].

(** [listed]: the names [zrange] hands back. *)
Definition listed (start stop : Z) (s : State) (names : list string) : bool :=
  assert_eq (zrange 0 key_ start stop s).2 (Ok (words names)).
Definition lists (start stop : Z) (names : list string) : bool := listed start stop racers names.

Definition lists_the_members_between_two_places_in_the_order : bool :=
  lists 0 2 ["Ford"; "Sam-Bodden"; "Royce"].

Definition lists_the_one_member_a_window_of_one_holds : bool := lists 1 1 ["Sam-Bodden"].

Definition lists_as_far_as_the_set_goes_when_the_window_reaches_past_it : bool :=
  lists 2 99 ["Royce"; "Prickett"].

Definition lists_nothing_when_the_window_starts_past_the_set : bool := lists 4 9 [] && lists 99 99 [].

Definition lists_nothing_when_the_window_ends_before_it_starts : bool := lists 2 1 [].

Definition lists_nothing_of_a_set_that_is_not_there : bool :=
  assert_eq (zrange 0 (lit "nothing") 0 9 empty_state).2 (Ok []).

Definition lists_the_members_in_the_order_their_scores_put_them : bool :=
  lists 0 9 ["Ford"; "Sam-Bodden"; "Royce"; "Prickett"].

Definition zrem_all (names : list string) := zrem 0 key_ (words names) racers.

Definition takes_out_the_member_it_is_given : bool :=
  let '(s, r) := zrem_all ["Royce"] in
  assert_eq r (Ok 1%Z) && listed 0 (-1) s ["Ford"; "Sam-Bodden"; "Prickett"].

Definition counts_each_of_the_members_it_takes_out : bool :=
  let '(s, r) := zrem_all ["Royce"; "Ford"; "nobody"] in
  assert_eq r (Ok 2%Z) && assert_eq (zcard 0 key_ s).2 (Ok 2%Z).

Definition counts_nothing_for_a_member_the_set_was_never_holding : bool :=
  let '(s, r) := zrem_all ["nobody"] in
  assert_eq r (Ok 0%Z) && assert_eq (zcard 0 key_ s).2 (Ok 4%Z).

Definition counts_nothing_taken_out_of_a_set_that_is_not_there : bool :=
  assert_eq (zrem 0 (lit "nothing") (words ["Sam"]) empty_state).2 (Ok 0%Z).

Definition lets_go_of_a_key_whose_set_it_has_emptied : bool :=
  let '(s, r) := zrem_all ["Ford"; "Sam-Bodden"; "Royce"; "Prickett"] in
  assert_eq r (Ok 4%Z) && assert_eq (keys 0 (fun _ => true) s).2 [].

Definition will_not_take_a_member_out_of_a_key_holding_something_else : bool :=
  assert_eq (zrem 0 key_ (words ["Sam"]) holding_a_string).2 (Err WrongType).

Definition counts_the_members_a_set_holds : bool := assert_eq (zcard 0 key_ racers).2 (Ok 4%Z).

Definition counts_no_more_for_a_member_whose_score_has_moved : bool :=
  assert_eq (zcard 0 key_ (zadd_at "racers" [("99.0", "Ford")] racers).1).2 (Ok 4%Z).

Definition counts_nothing_in_a_set_that_is_not_there : bool :=
  assert_eq (zcard 0 (lit "nothing") empty_state).2 (Ok 0%Z).

Definition will_not_count_the_members_of_a_key_holding_something_else : bool :=
  assert_eq (zcard 0 key_ holding_a_string).2 (Err WrongType).

Definition counts_a_place_back_from_the_end_when_it_is_given_one : bool :=
  lists (-2) (-1) ["Royce"; "Prickett"] && lists (-1) (-1) ["Prickett"]
  && lists 0 (-3) ["Ford"; "Sam-Bodden"].

Definition starts_at_the_first_member_when_it_is_told_to_count_back_past_it : bool :=
  lists (-99) (-1) ["Ford"; "Sam-Bodden"; "Royce"; "Prickett"]
  && lists (-99) 1 ["Ford"; "Sam-Bodden"].

Definition lists_nothing_when_a_place_counted_back_ends_before_it_starts : bool :=
  lists (-1) (-2) [] && lists 3 (-2) [].

Definition will_not_list_the_members_of_a_key_holding_something_else : bool :=
  assert_eq (zrange 0 key_ 0 9 holding_a_string).2 (Err WrongType).

Definition will_not_place_a_member_of_a_key_holding_something_else : bool :=
  assert_eq (zrank 0 key_ (lit "Sam") holding_a_string).2 (Err WrongType).

Lemma sorted_sets_tests_pass :
  all_pass
    [holds_the_one_member_it_is_given; holds_its_members_in_the_order_of_their_scores;
     settles_a_tie_on_score_by_the_name; holds_a_name_once_however_often_it_is_added;
     moves_a_member_whose_score_has_changed; holds_the_members_whose_scores_are_beyond_counting;
     makes_a_set_for_a_key_that_had_none; adds_to_the_set_a_key_already_holds;
     counts_only_the_members_the_set_had_never_held; keeps_the_sets_at_two_keys_apart;
     counts_the_members_added_in_one_go; will_not_add_to_a_key_holding_something_else;
     says_where_each_member_falls_in_the_order; says_where_a_member_falls_once_its_score_has_moved;
     says_nothing_of_a_member_the_set_does_not_hold;
     says_nothing_of_a_member_of_a_set_that_is_not_there;
     lists_the_members_between_two_places_in_the_order; lists_the_one_member_a_window_of_one_holds;
     lists_as_far_as_the_set_goes_when_the_window_reaches_past_it;
     lists_nothing_when_the_window_starts_past_the_set;
     lists_nothing_when_the_window_ends_before_it_starts; lists_nothing_of_a_set_that_is_not_there;
     lists_the_members_in_the_order_their_scores_put_them; takes_out_the_member_it_is_given;
     counts_each_of_the_members_it_takes_out; counts_nothing_for_a_member_the_set_was_never_holding;
     counts_nothing_taken_out_of_a_set_that_is_not_there; lets_go_of_a_key_whose_set_it_has_emptied;
     will_not_take_a_member_out_of_a_key_holding_something_else; counts_the_members_a_set_holds;
     counts_no_more_for_a_member_whose_score_has_moved; counts_nothing_in_a_set_that_is_not_there;
     will_not_count_the_members_of_a_key_holding_something_else;
     counts_a_place_back_from_the_end_when_it_is_given_one;
     starts_at_the_first_member_when_it_is_told_to_count_back_past_it;
     lists_nothing_when_a_place_counted_back_ends_before_it_starts;
     will_not_list_the_members_of_a_key_holding_something_else;
     will_not_place_a_member_of_a_key_holding_something_else] = true.
Proof. passes. Qed.
