(* ===== verification/TestsZCommands.v ===== *)
(** * The tests of src/src/commands/sorted_sets.rs *)
From S2P Require Import Prelude Text Resp F64 Store StoreSortedSets Command StoreCommands Testing.
Open Scope Z_scope.

(** A command of this module, given to a store: what it leaves and answers. *)
Definition asks (command : string) (args : list string) (s : State) : State * Value :=
  answered (sorted_sets_run still (lit command) (words args) s) s.
Definition zadd_ := asks "ZADD".
Definition zrank_ := asks "ZRANK".
Definition zscore_ := asks "ZSCORE".

Definition holding_a_string : State :=
  match StoreStrings.set 0 (lit "racers") (lit "a string") None empty_state with
  | Done s => s
  | Panic => empty_state
  end.

Definition counts_the_member_it_adds : bool :=
  assert_eq (zadd_ ["racers"; "8.0"; "Sam"] empty_state).2 (Integer 1).

Definition counts_nothing_for_a_member_the_set_already_held : bool :=
  let s := (zadd_ ["racers"; "8.0"; "Sam"] empty_state).1 in
  assert_eq (zadd_ ["racers"; "9.0"; "Sam"] s).2 (Integer 0).

Definition counts_each_of_the_members_it_adds_in_one_go : bool :=
  assert_eq (zadd_ ["racers"; "6.1"; "Ford"; "8.2"; "Royce"] empty_state).2 (Integer 2).

(** The doubles meant are given by their parts: [8.0] is [8 * 2 ^ 0]. *)
Definition reads_the_scores_redis_reads : bool :=
  all_of [("8", f_of_Z 8); ("8.0", f_of_Z 8); ("-1.5", f_div (f_of_Z (-3)) (f_of_Z 2)); ("0", f_of_Z 0);
          ("1e3", f_of_Z 1000); ("inf", S754_infinity false); ("+inf", S754_infinity false);
          ("-inf", S754_infinity true); ("infinity", S754_infinity false)]%string
    (fun '(spelled, meant) =>
       match parse_score (lit spelled) with Ok x => f_eq x meant | Err _ => false end).

Definition turns_down_a_score_that_is_not_a_number : bool :=
  all_of (words [""; "eight"; "8.0.0"; "8 "; " 8"; "nan"; "-nan"] ++ [[xff]])
    (fun spelled => assert_eq (parse_score spelled) (Err not_a_float)).

Definition refuses_a_zadd_that_is_missing_a_score_or_a_member : bool :=
  assert_eq (zadd_ ["racers"] empty_state).2 (wrong_arity "zadd")
  && assert_eq (zadd_ ["racers"; "8.0"] empty_state).2 syntax_error
  && assert_eq (zadd_ [] empty_state).2 (wrong_arity "zadd").

Definition adds_nothing_at_all_when_one_of_the_scores_will_not_read : bool :=
  let '(s, reply) := zadd_ ["racers"; "8.0"; "Sam"; "later"; "Ford"] empty_state in
  let '(s, none) := zadd 0 (lit "racers") [] s in
  assert_eq reply not_a_float && assert_eq none (Ok 0)
  && assert_eq (zadd_ ["racers"; "8.0"; "Sam"] s).2 (Integer 1).

Definition will_not_add_to_a_key_holding_something_else : bool :=
  assert_eq (zadd_ ["racers"; "8.0"; "Sam"] holding_a_string).2 wrong_type.

Definition says_where_a_member_falls_in_the_order : bool :=
  let s := (zadd_ ["racers"; "1.0"; "one"; "2.0"; "two"] empty_state).1 in
  let '(s, one) := zrank_ ["racers"; "one"] s in
  assert_eq one (Integer 0) && assert_eq (zrank_ ["racers"; "two"] s).2 (Integer 1).

Definition says_nothing_of_a_member_or_a_set_that_is_not_there : bool :=
  let s := (zadd_ ["racers"; "1.0"; "one"] empty_state).1 in
  let '(s, nobody) := zrank_ ["racers"; "nobody"] s in
  assert_eq nobody Null && assert_eq (zrank_ ["nothing"; "one"] s).2 Null.

Definition refuses_a_zrank_that_names_no_member : bool :=
  all_of [[]; ["racers"]; ["racers"; "one"; "extra"]]%string
    (fun command => assert_eq (zrank_ command empty_state).2 (wrong_arity "zrank")).

Definition will_not_place_a_member_of_a_key_holding_something_else : bool :=
  assert_eq (zrank_ ["racers"; "Sam"] holding_a_string).2 wrong_type.

Definition writes_a_score_back_out_the_way_redis_writes_one : bool :=
  all_of [("30.1", "30.1"); ("100.99", "100.99"); ("-1.5", "-1.5"); ("0.0043", "0.0043");
          ("20.0", "20"); ("0.0", "0"); ("inf", "inf"); ("-inf", "-inf")]%string
    (fun '(score, spelled) => assert_eq (show_f64 (read_f64 score)) (lit spelled)).

Definition says_the_score_a_member_was_given : bool :=
  let s := (zadd_ ["racers"; "24.34"; "one"; "90.34"; "two"] empty_state).1 in
  assert_eq (zscore_ ["racers"; "one"] s).2 (bulk "24.34").

Definition says_the_score_a_member_has_now : bool :=
  let s := (zadd_ ["racers"; "24.34"; "one"] empty_state).1 in
  let s := (zadd_ ["racers"; "100.99"; "one"] s).1 in
  assert_eq (zscore_ ["racers"; "one"] s).2 (bulk "100.99").

Definition says_nothing_of_the_score_of_a_member_or_a_set_that_is_not_there : bool :=
  let s := (zadd_ ["racers"; "1.0"; "one"] empty_state).1 in
  let '(s, nobody) := zscore_ ["racers"; "nobody"] s in
  assert_eq nobody Null && assert_eq (zscore_ ["nothing"; "one"] s).2 Null.

Definition refuses_a_zscore_that_names_no_member : bool :=
  all_of [[]; ["racers"]; ["racers"; "one"; "extra"]]%string
    (fun command => assert_eq (zscore_ command empty_state).2 (wrong_arity "zscore")).

Definition will_not_score_a_member_of_a_key_holding_something_else : bool :=
  assert_eq (zscore_ ["racers"; "Sam"] holding_a_string).2 wrong_type.

Definition leaves_alone_the_commands_that_are_not_its_own : bool :=
  is_none (sorted_sets_run still (lit "GET") [] empty_state).

Lemma z_commands_tests_pass :
  all_pass
    [counts_the_member_it_adds; counts_nothing_for_a_member_the_set_already_held;
     counts_each_of_the_members_it_adds_in_one_go; reads_the_scores_redis_reads;
     turns_down_a_score_that_is_not_a_number; refuses_a_zadd_that_is_missing_a_score_or_a_member;
     adds_nothing_at_all_when_one_of_the_scores_will_not_read;
     will_not_add_to_a_key_holding_something_else; says_where_a_member_falls_in_the_order;
     says_nothing_of_a_member_or_a_set_that_is_not_there; refuses_a_zrank_that_names_no_member;
     will_not_place_a_member_of_a_key_holding_something_else;
     writes_a_score_back_out_the_way_redis_writes_one; says_the_score_a_member_was_given;
     says_the_score_a_member_has_now;
     says_nothing_of_the_score_of_a_member_or_a_set_that_is_not_there;
     refuses_a_zscore_that_names_no_member; will_not_score_a_member_of_a_key_holding_something_else;
     leaves_alone_the_commands_that_are_not_its_own] = true.
Proof. passes. Qed.
