(* ===== verification/TestsAcl.v ===== *)
(** * The tests of src/src/commands/acl.rs *)
From S2P Require Import Prelude Text Resp Command Users Reference Testing.
Open Scope Z_scope.

#[local] Existing Instance sha256.

(** A command of this module: what becomes of the passwords and of the client, and
    the reply. *)
Definition asks (command : string) (args : list string) (users : list Bytes) (who : Identity)
  : list Bytes * Identity * Value :=
  match acl_run (lit command) (words args) users who with
  | Some r => r
  | None => (users, who, Null)
  end.
(** [acl_of], [acl] and [auth]. *)
Definition acl_of (args : list string) (users : list Bytes) : list Bytes * Value :=
  let '(users, _, reply) := asks "ACL" args users trusted in (users, reply).
Definition acl (args : list string) : Value := (acl_of args []).2.
Definition auth_as (args : list string) (users : list Bytes) (who : Identity) : Identity * Value :=
  let '(_, who, reply) := asks "AUTH" args users who in (who, reply).
Definition auth (args : list string) (users : list Bytes) : Value :=
  (auth_as args users (new_identity users)).2.

Definition says_who_the_client_is : bool := assert_eq (acl ["WHOAMI"]) (bulk "default").

Definition takes_the_word_after_it_however_it_is_spelled : bool :=
  all_of ["WHOAMI"; "whoami"; "WhoAmI"] (fun spelling => assert_eq (acl [spelling]) (bulk "default")).

Definition NOPASS_USER : Bytes :=
  on_lines ["*4"; "$5"; "flags"; "*1"; "$6"; "nopass"; "$9"; "passwords"; "*0"].

Definition says_what_it_has_to_say_of_the_user_every_client_is : bool :=
  assert_eq (encode (acl ["GETUSER"; "default"])) NOPASS_USER.

Definition says_nothing_of_a_user_it_has_never_heard_of : bool :=
  assert_eq (acl ["GETUSER"; "alice"]) NullArray && assert_eq (acl ["GETUSER"; ""]) NullArray.

Definition takes_the_word_before_the_user_however_it_is_spelled : bool :=
  all_of ["GETUSER"; "getuser"; "GetUser"]
    (fun spelling => assert_eq (encode (acl [spelling; "default"])) NOPASS_USER).

Definition MY_PASSWORD : string := "89e01536ac207279409d4de1e5253e01f4a1769e696db0d6062ca9b8f56767c8".
Definition with_password : list Bytes := (acl_of ["SETUSER"; "default"; ">mypassword"] []).1.

Definition takes_a_password_for_the_user_and_says_it_has : bool :=
  assert_eq (acl_of ["SETUSER"; "default"; ">mypassword"] []).2 OK.

Definition lets_the_flag_go_once_the_user_has_a_password_to_check : bool :=
  assert_eq (encode (acl_of ["GETUSER"; "default"] with_password).2)
    (on_lines ["*4"; "$5"; "flags"; "*0"; "$9"; "passwords"; "*1"; "$64"; MY_PASSWORD]).

Definition takes_the_word_before_the_rules_however_it_is_spelled : bool :=
  all_of ["SETUSER"; "setuser"; "SetUser"] (fun spelling =>
    assert_eq (hashed_passwords (acl_of [spelling; "default"; ">mypassword"] []).1) [lit MY_PASSWORD]).

Definition with_two : list Bytes := (acl_of ["SETUSER"; "default"; ">first"; ">second"] []).1.

Definition takes_every_password_a_command_gives_the_user : bool :=
  assert_eq (length (hashed_passwords with_two)) 2%nat.

Definition takes_nothing_at_all_from_a_command_with_a_rule_it_cannot_follow : bool :=
  let '(users, reply) := acl_of ["SETUSER"; "default"; ">mypassword"; "allkeys"] [] in
  assert_eq reply (bad_rule (lit "allkeys")) && wants_no_password users.

Definition refuses_a_rule_it_cannot_follow : bool :=
  all_of ["on"; "off"; "~*"; "+@all"; "<mypassword"; "nopass"; ">"; ""] (fun rule =>
    assert_eq (acl_of ["SETUSER"; "default"; rule] []).2 (bad_rule (lit rule))).

Definition refuses_to_make_a_user_it_was_never_started_with : bool :=
  match acl_of ["SETUSER"; "alice"; ">mypassword"] [] with
  | (users, Error said) => starts_with (lit "ERR ") said && wants_no_password users
  | _ => false
  end.

Definition lets_in_a_client_that_knows_the_password : bool :=
  assert_eq (auth ["default"; "mypassword"] with_password) OK.

Definition turns_away_a_client_that_does_not : bool :=
  all_of ["wrongpassword"; ""; "MYPASSWORD"] (fun password =>
    assert_eq (auth ["default"; password] with_password) wrong_password).

Definition lets_in_a_client_that_knows_any_of_the_passwords : bool :=
  all_of ["first"; "second"] (fun password => assert_eq (auth ["default"; password] with_two) OK).

Definition turns_away_a_client_naming_a_user_this_server_does_not_have : bool :=
  assert_eq (auth ["alice"; "mypassword"] with_password) wrong_password.

Definition lets_anyone_in_while_the_user_wants_no_password : bool :=
  assert_eq (auth ["default"; "anything at all"] []) OK.

Definition takes_a_password_given_without_a_user : bool :=
  assert_eq (auth ["mypassword"] with_password) OK
  && assert_eq (auth ["wrongpassword"] with_password) wrong_password.

Definition says_so_when_a_password_is_given_where_none_was_ever_set : bool :=
  match auth ["mypassword"] [] with
  | Error said => starts_with (lit "ERR Client sent AUTH") said
  | _ => false
  end.

Definition lets_a_new_connection_in_while_the_user_wants_no_password : bool :=
  authenticated (new_identity []).

Definition shuts_out_a_new_connection_once_the_user_has_a_password : bool :=
  negb (authenticated (new_identity with_password)).

Definition leaves_a_connection_already_inside_where_it_is : bool :=
  let '(_, inside, _) := asks "ACL" ["SETUSER"; "default"; ">mypassword"] [] (new_identity []) in
  authenticated inside.

Definition holds_a_connection_to_the_password_it_gave : bool :=
  let identity := new_identity with_password in
  let wrong := (auth_as ["default"; "wrongpassword"] with_password identity).1 in
  let right := (auth_as ["default"; "mypassword"] with_password wrong).1 in
  negb (authenticated identity) && negb (authenticated wrong) && authenticated right.

Definition leaves_open_the_commands_a_client_needs_to_get_in : bool :=
  all_of (words ["AUTH"; "HELLO"; "QUIT"; "RESET"]) allowed_while_out.

Definition closes_off_the_commands_that_are_work : bool :=
  all_of (words ["GET"; "SET"; "ACL"; "PING"; "SUBSCRIBE"; "MULTI"])
    (fun command => negb (allowed_while_out command)).

Definition refuses_an_auth_that_says_nothing : bool :=
  assert_eq (auth [] []) (wrong_arity "auth")
  && assert_eq (auth ["default"; "a"; "b"] []) (wrong_arity "auth").

Definition refuses_a_setuser_that_names_no_user_or_no_rule : bool :=
  assert_eq (acl ["SETUSER"]) (unknown_acl_action (lit "SETUSER"))
  && assert_eq (acl ["SETUSER"; "default"]) (unknown_acl_action (lit "SETUSER")).

Definition refuses_a_getuser_that_names_no_user_or_more_than_one : bool :=
  assert_eq (acl ["GETUSER"]) (unknown_acl_action (lit "GETUSER"))
  && assert_eq (acl ["GETUSER"; "default"; "extra"]) (unknown_acl_action (lit "GETUSER")).

Definition refuses_an_acl_that_says_nothing : bool := assert_eq (acl []) (wrong_arity "acl").

Definition refuses_a_word_it_has_no_answer_for : bool :=
  assert_eq (acl ["NONSENSE"]) (unknown_acl_action (lit "NONSENSE"))
  && assert_eq (acl ["WHOAMI"; "extra"]) (unknown_acl_action (lit "WHOAMI")).

Definition leaves_alone_the_commands_that_are_not_its_own : bool :=
  is_none (acl_run (lit "GET") [] [] trusted).

Lemma acl_tests_pass :
  all_pass
    [says_who_the_client_is; takes_the_word_after_it_however_it_is_spelled;
     says_what_it_has_to_say_of_the_user_every_client_is;
     says_nothing_of_a_user_it_has_never_heard_of;
     takes_the_word_before_the_user_however_it_is_spelled;
     takes_a_password_for_the_user_and_says_it_has;
     lets_the_flag_go_once_the_user_has_a_password_to_check;
     takes_the_word_before_the_rules_however_it_is_spelled;
     takes_every_password_a_command_gives_the_user;
     takes_nothing_at_all_from_a_command_with_a_rule_it_cannot_follow;
     refuses_a_rule_it_cannot_follow; refuses_to_make_a_user_it_was_never_started_with;
     lets_in_a_client_that_knows_the_password; turns_away_a_client_that_does_not;
     lets_in_a_client_that_knows_any_of_the_passwords;
     turns_away_a_client_naming_a_user_this_server_does_not_have;
     lets_anyone_in_while_the_user_wants_no_password; takes_a_password_given_without_a_user;
     says_so_when_a_password_is_given_where_none_was_ever_set;
     lets_a_new_connection_in_while_the_user_wants_no_password;
     shuts_out_a_new_connection_once_the_user_has_a_password;
     leaves_a_connection_already_inside_where_it_is; holds_a_connection_to_the_password_it_gave;
     leaves_open_the_commands_a_client_needs_to_get_in; closes_off_the_commands_that_are_work;
     refuses_an_auth_that_says_nothing; refuses_a_setuser_that_names_no_user_or_no_rule;
     refuses_a_getuser_that_names_no_user_or_more_than_one; refuses_an_acl_that_says_nothing;
     refuses_a_word_it_has_no_answer_for; leaves_alone_the_commands_that_are_not_its_own] = true.
Proof. passes. Qed.
