(* ===== verification/TestsPubsub.v ===== *)
(** * The tests of src/src/commands/pubsub.rs

    A client is its subscriptions, and the tally is passed from one call to the
    next.  [Subscriptions::default()] is a client with a tally of its own: [alone].
    What a client has heard is what was handed to it by the calls that publish. *)
From S2P Require Import Prelude Text Resp Command Channels Testing.
Open Scope Z_scope.

Definition everyone (l : listener) : bool := true.

(** A command of this module: what becomes of the client and of the tally, who is
    handed what, and the reply. *)
Definition asks (alive : listener -> bool) (command : string) (args : list string)
  (st : Subscriptions * Channels) : Subscriptions * Channels * list (listener * Bytes) * Value :=
  match pubsub_run alive (lit command) (words args) st with
  | Some r => r
  | None => (st, [], Null)
  end.
Definition subscribe_ (channels : list string) (st : Subscriptions * Channels)
  : Subscriptions * Channels * Value :=
  let '(st, _, reply) := asks everyone "SUBSCRIBE" channels st in (st, reply).
Definition unsubscribe_ (channels : list string) (st : Subscriptions * Channels)
  : Subscriptions * Channels * Value :=
  let '(st, _, reply) := asks everyone "UNSUBSCRIBE" channels st in (st, reply).
Definition publish_to (alive : listener -> bool) (channel : string) (tally : Channels)
  : Channels * list (listener * Bytes) * Value :=
  let '(_, tally, handed, reply) := asks alive "PUBLISH" [channel; "hello"%string] (subscriptions_of 0, tally) in
  (tally, handed, reply).
Definition publish_ := publish_to everyone.

Definition alone : Subscriptions * Channels := (subscriptions_of 0, ∅).
Definition client_of (l : listener) (tally : Channels) : Subscriptions * Channels :=
  (subscriptions_of l, tally).

Open Scope string_scope.

(** What [confirm] encodes to. *)
Definition subscribed (channel : string) (n : string) : list string :=
  ["*3"; "$9"; "subscribe"; "$3"; channel; n].
Definition unsubscribed (channel : string) (n : string) : list string :=
  ["*3"; "$11"; "unsubscribe"; "$3"; channel; n].
Definition says (r : Subscriptions * Channels * Value) (lines : list string) : bool :=
  assert_eq (encode r.2) (on_lines lines).

Definition confirms_the_channel_it_was_given : bool :=
  says (subscribe_ ["foo"] alone) (subscribed "foo" ":1").

Definition counts_the_channels_as_they_are_taken_on : bool :=
  says (subscribe_ ["bar"] (subscribe_ ["foo"] alone).1) (subscribed "bar" ":2").

Definition confirms_each_of_the_channels_it_was_given_in_turn : bool :=
  says (subscribe_ ["foo"; "bar"] alone) (subscribed "foo" ":1" ++ subscribed "bar" ":2").

Definition leaves_the_count_where_it_was_on_a_channel_it_is_already_on : bool :=
  says (subscribe_ ["foo"] (subscribe_ ["foo"] alone).1) (subscribed "foo" ":1").

Definition counts_the_channels_of_one_client_and_not_another : bool :=
  let mine := (subscribe_ ["bar"] (subscribe_ ["foo"] alone).1).1 in
  says (subscribe_ ["baz"] alone) (subscribed "baz" ":1").

Definition refuses_a_subscribe_that_names_no_channel : bool :=
  assert_eq (subscribe_ [] alone).2
    (Error (lit "ERR wrong number of arguments for 'subscribe' command")).

Definition confirms_the_channel_it_gives_up : bool :=
  says (unsubscribe_ ["foo"] (subscribe_ ["foo"] alone).1) (unsubscribed "foo" ":0").

Definition on_both : Subscriptions * Channels := (subscribe_ ["foo"; "bar"] alone).1.

Definition counts_the_channels_left_as_they_are_given_up : bool :=
  let r := unsubscribe_ ["foo"] on_both in
  says r (unsubscribed "foo" ":1") && says (unsubscribe_ ["bar"] r.1) (unsubscribed "bar" ":0").

Definition confirms_a_channel_it_was_never_on_and_leaves_the_count_alone : bool :=
  says (unsubscribe_ ["bar"] (subscribe_ ["foo"] alone).1) (unsubscribed "bar" ":1").

Definition confirms_each_of_the_channels_it_gives_up_in_turn : bool :=
  says (unsubscribe_ ["foo"; "bar"] on_both) (unsubscribed "foo" ":1" ++ unsubscribed "bar" ":0").

Definition gives_up_every_channel_when_it_names_none : bool :=
  let r := unsubscribe_ [] on_both in
  says r (unsubscribed "foo" ":1" ++ unsubscribed "bar" ":0") && negb (listening r.1.1).

Definition says_so_once_when_it_names_none_and_is_on_none : bool :=
  says (unsubscribe_ [] alone) ["*3"; "$11"; "unsubscribe"; "$-1"; ":0"].

Definition stops_listening_once_it_has_given_up_its_last_channel : bool :=
  let one := (unsubscribe_ ["foo"] on_both).1 in
  let none := (unsubscribe_ ["bar"] one).1 in
  listening on_both.1 && listening one.1 && negb (listening none.1).

(** A message on a channel of three letters, as a listening client hears it. *)
Definition message_on (channel : string) : Bytes :=
  on_lines ["*3"; "$7"; "message"; "$3"; channel; "$5"; "hello"].

Definition carries_nothing_to_a_client_that_has_given_the_channel_up : bool :=
  let tally := (unsubscribe_ ["foo"] (subscribe_ ["foo"] (client_of 1 ∅)).1).1.2 in
  let '(_, heard, reply) := publish_ "foo" tally in
  assert_eq reply (Integer 0) && assert_eq heard [].

Definition goes_on_carrying_to_a_client_on_the_channels_it_kept : bool :=
  let tally := (unsubscribe_ ["foo"] (subscribe_ ["foo"; "bar"] (client_of 1 ∅)).1).1.2 in
  let '(tally, on_foo, none) := publish_ "foo" tally in
  let '(_, on_bar, one) := publish_ "bar" tally in
  assert_eq none (Integer 0) && assert_eq one (Integer 1)
  && assert_eq (on_foo ++ on_bar)%list [(1%nat, message_on "bar")].

Definition lays_a_message_out_the_way_a_listening_client_hears_it : bool :=
  assert_eq (delivery (lit "foo") (lit "hello")) (message_on "foo").

Definition lays_out_a_message_that_is_not_text : bool :=
  assert_eq (delivery (lit "foo") (CRLF ++ [x00])%list)
    (on_lines ["*3"; "$7"; "message"; "$3"; "foo"; "$3"] ++ CRLF ++ [x00] ++ CRLF)%list.

Definition carries_the_message_to_the_client_listening_for_it : bool :=
  let '(_, heard, _) := publish_ "foo" (subscribe_ ["foo"] (client_of 1 ∅)).1.2 in
  assert_eq heard [(1%nat, message_on "foo")].

Definition carries_nothing_to_a_client_listening_elsewhere : bool :=
  let '(_, heard, _) := publish_ "foo" (subscribe_ ["bar"] (client_of 1 ∅)).1.2 in assert_eq heard [].

Definition tells_a_publisher_how_many_are_listening : bool :=
  let '(tally, _, none) := publish_ "foo" ∅ in
  let tally := (subscribe_ ["foo"] (client_of 1 tally)).1.2 in
  let '(tally, _, one) := publish_ "foo" tally in
  let tally := (subscribe_ ["foo"] (client_of 2 tally)).1.2 in
  let '(_, _, two) := publish_ "foo" tally in
  assert_eq none (Integer 0) && assert_eq one (Integer 1) && assert_eq two (Integer 2).

Definition counts_only_those_listening_on_the_channel_published_to : bool :=
  let tally := (subscribe_ ["foo"; "bar"] (client_of 1 ∅)).1.2 in
  let '(tally, _, on_foo) := publish_ "foo" tally in
  let '(tally, _, on_bar) := publish_ "bar" tally in
  let '(_, _, on_baz) := publish_ "baz" tally in
  assert_eq on_foo (Integer 1) && assert_eq on_bar (Integer 1) && assert_eq on_baz (Integer 0).

Definition counts_a_client_on_a_channel_once_however_often_it_asked : bool :=
  let tally := (subscribe_ ["foo"] (subscribe_ ["foo"] (client_of 1 ∅)).1).1.2 in
  assert_eq (publish_ "foo" tally).2 (Integer 1).

(** The client that leaves, numbered 2, is dropped with its receiving end. *)
Definition stops_counting_a_client_that_has_gone : bool :=
  let tally := (subscribe_ ["foo"] (client_of 1 ∅)).1.2 in
  let '(leaving, tally, _) := subscribe_ ["foo"] (client_of 2 tally) in
  let '(tally, _, two) := publish_ "foo" tally in
  let tally := drop_subscriptions leaving tally in
  assert_eq two (Integer 2)
  && assert_eq (publish_to (fun l => negb (Nat.eqb l 2)) "foo" tally).2 (Integer 1).

Definition refuses_a_publish_that_is_missing_a_channel_or_a_message : bool :=
  all_of [[]; ["foo"]; ["a"; "b"; "c"]] (fun args =>
    assert_eq (snd <$> pubsub_run everyone (lit "PUBLISH") (words args) alone)
      (Some (Error (lit "ERR wrong number of arguments for 'publish' command")))).

Definition leaves_a_ping_from_a_client_that_is_not_listening_to_another_module : bool :=
  is_none (pubsub_run everyone (lit "PING") [] alone).

Definition answers_a_ping_from_a_listening_client_the_way_it_hears_everything_else : bool :=
  match pubsub_run everyone (lit "PING") [] (subscribe_ ["foo"] alone).1 with
  | Some (_, _, reply) => assert_eq (encode reply) (on_lines ["*2"; "$4"; "pong"; "$0"; ""])
  | None => false
  end.

Definition is_listening_to_nothing_until_it_is_asked_to_listen : bool :=
  negb (listening alone.1) && listening (subscribe_ ["foo"] alone).1.1.

Definition leaves_open_the_commands_that_steer_the_listening : bool :=
  all_of (words ["SUBSCRIBE"; "UNSUBSCRIBE"; "PSUBSCRIBE"; "PUNSUBSCRIBE"; "PING"; "QUIT"; "RESET"])
    allowed_while_listening.

Definition closes_off_the_commands_that_ask_the_server_something : bool :=
  all_of (words ["GET"; "SET"; "ECHO"; "MULTI"; "EXEC"; "KEYS"; "PUBLISH"])
    (fun command => negb (allowed_while_listening command)).

Definition ends_with (p s : Bytes) : bool := starts_with (rev p) (rev s).
Definition names_the_command_it_will_not_run_the_way_redis_names_it : bool :=
  match out_of_context (lit "ECHO") with
  | Error said => starts_with (lit "ERR Can't execute 'echo': ") said
                  && ends_with (lit "are allowed in this context") said
  | _ => false
  end.

Definition leaves_alone_the_commands_that_are_not_its_own : bool :=
  is_none (pubsub_run everyone (lit "GET") [] alone).

Lemma pubsub_tests_pass :
  all_pass
    [confirms_the_channel_it_was_given; counts_the_channels_as_they_are_taken_on;
     confirms_each_of_the_channels_it_was_given_in_turn;
     leaves_the_count_where_it_was_on_a_channel_it_is_already_on;
     counts_the_channels_of_one_client_and_not_another; refuses_a_subscribe_that_names_no_channel;
     confirms_the_channel_it_gives_up; counts_the_channels_left_as_they_are_given_up;
     confirms_a_channel_it_was_never_on_and_leaves_the_count_alone;
     confirms_each_of_the_channels_it_gives_up_in_turn; gives_up_every_channel_when_it_names_none;
     says_so_once_when_it_names_none_and_is_on_none;
     stops_listening_once_it_has_given_up_its_last_channel;
     carries_nothing_to_a_client_that_has_given_the_channel_up;
     goes_on_carrying_to_a_client_on_the_channels_it_kept;
     lays_a_message_out_the_way_a_listening_client_hears_it; lays_out_a_message_that_is_not_text;
     carries_the_message_to_the_client_listening_for_it;
     carries_nothing_to_a_client_listening_elsewhere; tells_a_publisher_how_many_are_listening;
     counts_only_those_listening_on_the_channel_published_to;
     counts_a_client_on_a_channel_once_however_often_it_asked;
     stops_counting_a_client_that_has_gone;
     refuses_a_publish_that_is_missing_a_channel_or_a_message;
     leaves_a_ping_from_a_client_that_is_not_listening_to_another_module;
     answers_a_ping_from_a_listening_client_the_way_it_hears_everything_else;
     is_listening_to_nothing_until_it_is_asked_to_listen;
     leaves_open_the_commands_that_steer_the_listening;
     closes_off_the_commands_that_ask_the_server_something;
     names_the_command_it_will_not_run_the_way_redis_names_it;
     leaves_alone_the_commands_that_are_not_its_own] = true.
Proof. passes. Qed.
