(* ===== verification/TestsGeo.v ===== *)
(** * The tests of src/src/commands/geo.rs

    Sines are those of [Reference].  Coordinates in the source are literals of
    doubles, which are read as [read_f64] reads them. *)
From S2P Require Import Prelude Text Resp F64 Store StoreStrings StoreSortedSets Command.
From S2P Require Import StoreCommands Geo Reference Testing.
Open Scope Z_scope.

#[local] Existing Instance reference_trig.

(** ** What the tests ask with *)

(** A command of this module, given to a store: what it leaves and answers. *)
Definition asks (command : string) (args : list string) (s : State) : State * Value :=
  answered (geo_run still (lit command) (words args) s) s.
Definition geoadd_to := asks "GEOADD".
Definition geopos_ := asks "GEOPOS".
Definition geodist_ := asks "GEODIST".
Definition geosearch_ := asks "GEOSEARCH".
Definition geoadd_ (args : list string) : Value := (geoadd_to args empty_state).2.
Definition located (args : list string) : State := (geoadd_to args empty_state).1.

Definition read (longitude latitude : string) : result Point Value :=
  point (lit longitude) (lit latitude).

(** [scored]: the score of a place, which is this whole number or not. *)
Definition scored (longitude latitude : string) : f64 :=
  place_score {| longitude := read_f64 longitude; latitude := read_f64 latitude |}.
Definition scores (longitude latitude : string) (expected : Z) : bool :=
  f_eq (scored longitude latitude) (f_of_Z expected).

Definition holding_a_string : State :=
  match StoreStrings.set 0 (lit "places") (lit "a string") None empty_state with
  | Done s => s
  | Panic => empty_state
  end.

Open Scope string_scope.

Definition LONDON : list string := ["-0.0884948"; "51.5006479"; "London"].
Definition PARIS : list string := ["2.2944692"; "48.8584625"; "Paris"].

(** ** Adding places *)
Definition counts_the_location_it_is_given : bool :=
  assert_eq (geoadd_ ("places" :: LONDON)) (Integer 1).

Definition counts_each_of_the_locations_named_in_one_go : bool :=
  assert_eq (geoadd_ ("places" :: LONDON ++ ["11.5030378"; "48.1642710"; "Munich"])) (Integer 2).

Definition scores_a_place_the_way_redis_scores_it : bool :=
  scores "2.2944692" "48.8584625" 3663832614298053
  && scores "-0.1277583" "51.5073509" 2163557714754256.

Definition scores_the_places_of_the_world : bool :=
  all_of
    [("100.5252", "13.7220", 3962257306574459%Z); ("116.3972", "39.9075", 4069885364908765%Z);
     ("13.4105", "52.5244", 3673983964876493%Z); ("12.5655", "55.6759", 3685973395504349%Z);
     ("77.2167", "28.6667", 3631527070936756%Z); ("85.3206", "27.7017", 3639507404773204%Z);
     ("-0.1278", "51.5074", 2163557714755072%Z); ("-74.0060", "40.7128", 1791873974549446%Z);
     ("2.3488", "48.8534", 3663832752681684%Z); ("151.2093", "-33.8688", 3252046221964352%Z);
     ("139.6917", "35.6895", 4171231230197045%Z); ("16.3731", "48.2085", 3673109837763887%Z)]
    (fun '(longitude, latitude, expected) => scores longitude latitude expected).

Definition scores_a_place_at_a_number_a_double_holds_whole : bool :=
  all_of [("179.9999", "85.0511"); ("-180.0", "-85.05112878"); ("0.0", "0.0"); ("2.2944692", "48.8584625")]
    (fun '(longitude, latitude) =>
       let score := scored longitude latitude in
       f_eq score (f_of_Z (f_trunc score)) && f_lt score (f_of_Z (2 ^ 53))).

Definition counts_the_far_edge_of_the_world_as_one_square_past_the_end : bool :=
  scores "180.0" "85.05112878" (3 * 2 ^ 52).

Definition scores_places_further_east_and_north_the_higher : bool :=
  f_lt (scored "0.0" "0.0") (scored "1.0" "0.0") && f_lt (scored "0.0" "0.0") (scored "0.0" "1.0")
  && f_lt (scored "-180.0" "0.0") (scored "180.0" "0.0").

Definition keeps_the_location_as_a_member_of_a_sorted_set : bool :=
  let s := located ("places" :: PARIS) in
  assert_eq (zrank 0 (lit "places") (lit "Paris") s).2 (Ok (Some 0%nat))
  && assert_eq (zcard 0 (lit "places") s).2 (Ok 1%Z).

Definition counts_nothing_for_a_place_the_key_already_held : bool :=
  let '(s, reply) := geoadd_to ["places"; "11.5030378"; "48.1642721"; "Paris"] (located ("places" :: PARIS)) in
  assert_eq reply (Integer 0) && assert_eq (zcard 0 (lit "places") s).2 (Ok 1%Z).

Definition MUNICH_AND_NOWHERE : list string :=
  ["places"; "11.5"; "48.1"; "Munich"; "181"; "0.3"; "nowhere"].

Definition keeps_nothing_when_one_of_the_locations_will_not_read : bool :=
  assert_eq (zcard 0 (lit "places") (located MUNICH_AND_NOWHERE)).2 (Ok 0%Z).

Definition will_not_keep_a_location_under_a_key_holding_something_else : bool :=
  assert_eq (geoadd_to ("places" :: PARIS) holding_a_string).2 wrong_type.

(** ** Saying where places are *)
Definition writes_a_coordinate_back_out_the_way_redis_writes_one : bool :=
  all_of [("0.0", "0"); ("100.0", "100"); ("-0.5", "-0.5"); ("0.25", "0.25");
          ("51.5073509", "51.50735089999999872")]
    (fun '(coordinate, spelled) => assert_eq (written_coordinate (read_f64 coordinate)) (lit spelled)).

Definition within_a_square (r : Range) : f64 :=
  f_div (f_sub (range_end r) (range_start r)) (f_of_Z (2 ^ BITS)).
Definition CLOSE_ENOUGH : f64 := read_f64 "0.000001".
Definition off_by (x y : f64) : f64 := f_abs (f_sub x y).

Definition reads_a_place_back_out_of_its_score : bool :=
  all_of
    [(3663832614298053%Z, "2.29447156190872", "48.85846255040141");
     (3876464048901851%Z, "49.12499874830245", "72.99100027813946");
     (3468915414364476%Z, "10.08720070123672", "34.50260034107078");
     (3781709020344510%Z, "41.12499922513961", "73.99100100464303")]
    (fun '(score, lon, lat) =>
       let point := decode (f_of_Z score) in
       f_lt (off_by (longitude point) (read_f64 lon)) CLOSE_ENOUGH
       && f_lt (off_by (latitude point) (read_f64 lat)) CLOSE_ENOUGH).

Definition reads_a_place_back_out_to_where_it_went_in : bool :=
  all_of
    [("2.2944692", "48.8584625"); ("-0.1277583", "51.5073509"); ("139.6917", "35.6895");
     ("-74.0060", "40.7128"); ("151.2093", "-33.8688"); ("0.0", "0.0"); ("-180.0", "-85.05112878")]
    (fun '(lon, lat) =>
       let read_back := decode (scored lon lat) in
       f_le (off_by (longitude read_back) (read_f64 lon)) (within_a_square LONGITUDES)
       && f_le (off_by (latitude read_back) (read_f64 lat)) (within_a_square LATITUDES)).

Definition gathers_up_what_it_spread_out : bool :=
  all_of [0; 1; 2; 3; 42; 2 ^ 25; 2 ^ 26 - 1; U32_MAX]%Z
    (fun value => assert_eq (gather (spread value)) value).

Definition gathers_each_of_the_two_numbers_woven_together : bool :=
  let woven := Z.lor (spread 12345) (wrap_u64 (Z.shiftl (spread 54321) 1)) in
  assert_eq (gather woven) 12345%Z && assert_eq (gather (Z.shiftr woven 1)) 54321%Z.

Definition LONDON_AND_MUNICH : State :=
  located ("places" :: LONDON ++ ["11.5030378"; "48.1642721"; "Munich"]).
Definition a_pair (answer : Value) : bool :=
  match answer with Array [_; _] => true | _ => false end.

Definition says_where_each_of_the_places_asked_after_is : bool :=
  match (geopos_ ["places"; "London"; "Munich"] LONDON_AND_MUNICH).2 with
  | Array answers => Nat.eqb (length answers) 2 && forallb a_pair answers
  | _ => false
  end.

Definition says_a_place_is_where_it_was_put : bool :=
  assert_eq (encode (geopos_ ["places"; "Paris"] (located ("places" :: PARIS))).2)
    (on_lines ["*1"; "*2"; "$19"; "2.29447156190872192"; "$20"; "48.85846255040141273"]).

Definition says_nothing_of_a_place_the_key_does_not_hold : bool :=
  assert_eq (encode (geopos_ ["places"; "nowhere"] (located ("places" :: LONDON))).2)
    (on_lines ["*1"; "*-1"]).

Definition answers_for_a_place_it_does_not_hold_beside_one_it_does : bool :=
  let answered := encode (geopos_ ["places"; "London"; "nowhere"] (located ("places" :: LONDON))).2 in
  starts_with (on_lines ["*2"; "*2"]) answered && starts_with (rev (on_lines ["*-1"])) (rev answered).

Definition answers_for_every_place_asked_after_of_a_key_that_is_not_there : bool :=
  assert_eq (encode (geopos_ ["nothing"; "London"; "Munich"] empty_state).2)
    (on_lines ["*2"; "*-1"; "*-1"]).

(** ** Measuring *)
Definition munich_and_paris : State :=
  located ("places" :: ["11.5030378"; "48.164271"; "Munich"] ++ PARIS).

Definition says_how_far_apart_two_places_are : bool :=
  assert_eq (geodist_ ["places"; "Munich"; "Paris"] munich_and_paris).2 (bulk "682477.7582").

Definition measures_the_same_distance_whichever_way_round_it_is_asked : bool :=
  assert_eq (geodist_ ["places"; "Paris"; "Munich"] munich_and_paris).2
    (geodist_ ["places"; "Munich"; "Paris"] munich_and_paris).2.

Definition measures_no_distance_at_all_from_a_place_to_itself : bool :=
  assert_eq (geodist_ ["places"; "Munich"; "Munich"] munich_and_paris).2 (bulk "0.0000").

Definition measures_in_the_unit_it_was_asked_for : bool :=
  all_of [("m", "682477.7582"); ("M", "682477.7582"); ("km", "682.4778"); ("mi", "424.0731");
          ("ft", "2239100.2564")]
    (fun '(unit, expected) =>
       assert_eq (geodist_ ["places"; "Munich"; "Paris"; unit] munich_and_paris).2 (bulk expected)).

Definition refuses_a_unit_it_cannot_measure_in : bool :=
  assert_eq (geodist_ ["places"; "Munich"; "Paris"; "leagues"] munich_and_paris).2 unsupported_unit.

Definition says_nothing_of_the_distance_to_a_place_that_is_not_there : bool :=
  all_of [["places"; "Munich"; "nowhere"]; ["places"; "nowhere"; "Paris"]; ["nothing"; "Munich"; "Paris"]]
    (fun args => assert_eq (geodist_ args munich_and_paris).2 Null).

(** ** Searching *)
Definition three_places : State :=
  located ("places" :: ["11.5030378"; "48.164271"; "Munich"] ++ PARIS ++ LONDON).
Definition searches (args : list string) : Value := (geosearch_ args three_places).2.

(** [names]: the names a search turned up, in any order where a test sorts them. *)
Definition named (found : Value) (names : list string) : bool :=
  assert_eq found (Array (map bulk names)).
Definition named_in_some_order (found : Value) (names : list string) : bool :=
  match found with
  | Array l => Nat.eqb (length l) (length names) && forallb (fun nm => bool_decide (bulk nm ∈ l)) names
  | _ => false
  end.

Definition finds_the_places_within_the_way_it_was_given : bool :=
  named (searches ["places"; "FROMLONLAT"; "2"; "48"; "BYRADIUS"; "100000"; "m"]) ["Paris"].

Definition finds_every_place_within_a_wider_way : bool :=
  named_in_some_order (searches ["places"; "FROMLONLAT"; "2"; "48"; "BYRADIUS"; "500000"; "m"])
    ["London"; "Paris"].

Definition finds_the_places_near_another_spot : bool :=
  named (searches ["places"; "FROMLONLAT"; "11"; "50"; "BYRADIUS"; "300000"; "m"]) ["Munich"].

Definition finds_nothing_where_there_is_nothing_to_find : bool :=
  named (searches ["places"; "FROMLONLAT"; "-160"; "0"; "BYRADIUS"; "1000"; "m"]) []
  && named (searches ["nothing"; "FROMLONLAT"; "2"; "48"; "BYRADIUS"; "500000"; "m"]) [].

Definition measures_the_way_in_the_unit_it_was_given : bool :=
  named (searches ["places"; "FROMLONLAT"; "2"; "48"; "BYRADIUS"; "100"; "km"]) ["Paris"].

Definition takes_the_terms_of_a_search_in_either_order : bool :=
  named (searches ["places"; "BYRADIUS"; "100000"; "m"; "FROMLONLAT"; "2"; "48"]) ["Paris"].

Definition refuses_a_search_it_cannot_make_sense_of : bool :=
  all_of
    [["places"; "FROMLONLAT"; "2"; "48"]; ["places"; "BYRADIUS"; "100"; "m"];
     ["places"; "FROMLONLAT"; "2"; "48"; "BYRADIUS"; "100"]; ["places"; "FROMLONLAT"; "2"];
     ["places"; "FROMMEMBER"; "Paris"; "BYRADIUS"; "100"; "m"];
     ["places"; "FROMLONLAT"; "2"; "48"; "BYBOX"; "1"; "1"; "m"]]
    (fun terms => assert_eq (searches terms) syntax_error).

Definition refuses_a_search_whose_numbers_are_not_numbers : bool :=
  assert_eq (searches ["places"; "FROMLONLAT"; "2"; "BYRADIUS"; "100"; "m"]) not_a_float
  && assert_eq (searches ["places"; "FROMLONLAT"; "2"; "48"; "BYRADIUS"; "far"; "m"]) not_a_float.

Definition refuses_a_search_out_to_a_distance_it_cannot_measure : bool :=
  assert_eq (searches ["places"; "FROMLONLAT"; "2"; "48"; "BYRADIUS"; "100"; "leagues"])
    unsupported_unit.

Definition refuses_a_search_around_a_spot_that_is_nowhere_on_the_earth : bool :=
  assert_eq (searches ["places"; "FROMLONLAT"; "200"; "100"; "BYRADIUS"; "100"; "m"])
    (out_of_range (read_f64 "200.0") (read_f64 "100.0")).

Definition refuses_a_geosearch_that_says_what_to_search_but_not_where : bool :=
  assert_eq (geosearch_ [] empty_state).2 (wrong_arity "geosearch")
  && assert_eq (geosearch_ ["places"] empty_state).2 (wrong_arity "geosearch").

Definition will_not_search_a_key_holding_something_else : bool :=
  assert_eq
    (geosearch_ ["places"; "FROMLONLAT"; "2"; "48"; "BYRADIUS"; "100"; "m"] holding_a_string).2 wrong_type.

(** ** Refusals *)
Definition refuses_a_geodist_that_names_fewer_than_two_places : bool :=
  all_of [[]; ["places"]; ["places"; "Munich"]; ["places"; "Munich"; "Paris"; "km"; "extra"]]
    (fun command => assert_eq (geodist_ command empty_state).2 (wrong_arity "geodist")).

Definition will_not_measure_between_places_of_a_key_holding_something_else : bool :=
  assert_eq (geodist_ ["places"; "Munich"; "Paris"] holding_a_string).2 wrong_type.

Definition refuses_a_geopos_that_names_no_place : bool :=
  assert_eq (geopos_ [] empty_state).2 (wrong_arity "geopos")
  && assert_eq (geopos_ ["places"] empty_state).2 (wrong_arity "geopos").

Definition will_not_place_a_member_of_a_key_holding_something_else : bool :=
  assert_eq (geopos_ ["places"; "London"] holding_a_string).2 wrong_type.

Definition reads_a_place_on_the_earth : bool :=
  match read "11.5030378" "48.1642721" with
  | Ok p => f_eq (longitude p) (read_f64 "11.5030378") && f_eq (latitude p) (read_f64 "48.1642721")
  | Err _ => false
  end.

Definition takes_a_place_on_the_very_edge_of_the_world : bool :=
  all_of [("-180", "-85.05112878"); ("180", "85.05112878"); ("-180", "85.05112878");
          ("180", "-85.05112878"); ("0", "0")]
    (fun '(lon, lat) => is_ok (read lon lat)).

Definition turns_down_a_place_past_the_edge_of_the_world : bool :=
  all_of [("180.1", "0"); ("-180.1", "0"); ("0", "85.05112879"); ("0", "-85.05112879"); ("0", "90");
          ("0", "-90")]
    (fun '(lon, lat) => is_err (read lon lat)).

(** Said word for word, it opens with [ERR] and names both. *)
Definition names_both_numbers_when_it_turns_a_place_down : bool :=
  match read "181" "0.3" with
  | Err (Error said) =>
      assert_eq said (lit "ERR invalid longitude,latitude pair 181.000000,0.300000")
  | _ => false
  end.

Definition turns_down_numbers_that_are_not_numbers : bool :=
  all_of [("east", "0"); ("0", "north"); ("", "0"); ("nan", "0")]
    (fun '(lon, lat) =>
       match read lon lat with Err e => assert_eq e not_a_float | Ok _ => false end).

Definition turns_down_a_location_naming_no_place_on_the_earth : bool :=
  assert_eq (geoadd_ ["places"; "180"; "90"; "test1"])
    (out_of_range (read_f64 "180.0") (read_f64 "90.0")).

Definition counts_nothing_when_one_of_the_locations_will_not_read : bool :=
  assert_eq (geoadd_ MUNICH_AND_NOWHERE) (out_of_range (read_f64 "181.0") (read_f64 "0.3")).

Definition refuses_a_geoadd_short_of_one_whole_location : bool :=
  all_of [[]; ["places"]; ["places"; "11.5"]; ["places"; "11.5"; "48.1"]]
    (fun command => assert_eq (geoadd_ command) (wrong_arity "geoadd")).

Definition refuses_locations_that_do_not_pair_up : bool :=
  all_of [["places"; "11.5"; "48.1"; "Munich"; "0.0"]; ["places"; "11.5"; "48.1"; "Munich"; "0.0"; "51.5"]]
    (fun command => assert_eq (geoadd_ command) syntax_error).

Definition leaves_alone_the_commands_that_are_not_its_own : bool :=
  is_none (geo_run still (lit "GET") [] empty_state).

Lemma geo_tests_pass :
  all_pass
    [counts_the_location_it_is_given; counts_each_of_the_locations_named_in_one_go;
     scores_a_place_the_way_redis_scores_it; scores_the_places_of_the_world;
     scores_a_place_at_a_number_a_double_holds_whole;
     counts_the_far_edge_of_the_world_as_one_square_past_the_end;
     scores_places_further_east_and_north_the_higher;
     keeps_the_location_as_a_member_of_a_sorted_set;
     counts_nothing_for_a_place_the_key_already_held;
     keeps_nothing_when_one_of_the_locations_will_not_read;
     will_not_keep_a_location_under_a_key_holding_something_else;
     writes_a_coordinate_back_out_the_way_redis_writes_one; reads_a_place_back_out_of_its_score;
     reads_a_place_back_out_to_where_it_went_in; gathers_up_what_it_spread_out;
     gathers_each_of_the_two_numbers_woven_together;
     says_where_each_of_the_places_asked_after_is; says_a_place_is_where_it_was_put;
     says_nothing_of_a_place_the_key_does_not_hold;
     answers_for_a_place_it_does_not_hold_beside_one_it_does;
     answers_for_every_place_asked_after_of_a_key_that_is_not_there] = true.
Proof. passes. Qed.

Lemma geo_measuring_tests_pass :
  all_pass
    [says_how_far_apart_two_places_are; measures_the_same_distance_whichever_way_round_it_is_asked;
     measures_no_distance_at_all_from_a_place_to_itself; measures_in_the_unit_it_was_asked_for;
     refuses_a_unit_it_cannot_measure_in;
     says_nothing_of_the_distance_to_a_place_that_is_not_there;
     finds_the_places_within_the_way_it_was_given; finds_every_place_within_a_wider_way;
     finds_the_places_near_another_spot; finds_nothing_where_there_is_nothing_to_find;
     measures_the_way_in_the_unit_it_was_given; takes_the_terms_of_a_search_in_either_order;
     refuses_a_search_it_cannot_make_sense_of; refuses_a_search_whose_numbers_are_not_numbers;
     refuses_a_search_out_to_a_distance_it_cannot_measure;
     refuses_a_search_around_a_spot_that_is_nowhere_on_the_earth;
     refuses_a_geosearch_that_says_what_to_search_but_not_where;
     will_not_search_a_key_holding_something_else] = true.
Proof. passes. Qed.

Lemma geo_refusal_tests_pass :
  all_pass
    [refuses_a_geodist_that_names_fewer_than_two_places;
     will_not_measure_between_places_of_a_key_holding_something_else;
     refuses_a_geopos_that_names_no_place; will_not_place_a_member_of_a_key_holding_something_else;
     reads_a_place_on_the_earth; takes_a_place_on_the_very_edge_of_the_world;
     turns_down_a_place_past_the_edge_of_the_world;
     names_both_numbers_when_it_turns_a_place_down; turns_down_numbers_that_are_not_numbers;
     turns_down_a_location_naming_no_place_on_the_earth;
     counts_nothing_when_one_of_the_locations_will_not_read;
     refuses_a_geoadd_short_of_one_whole_location; refuses_locations_that_do_not_pair_up;
     leaves_alone_the_commands_that_are_not_its_own] = true.
Proof. passes. Qed.
