(* ===== verification/Playing.v ===== *)
(** * The server, played from end to end

    The source's tests under src/tests/ start a server, connect clients to it and
    say what each sends and must hear.  A test is a list of [Act]s here, and
    [plays] carries it out on the definitions of this development put together:
    what a client sends is read by its connection ([Connection.read]), a command
    that waits leaves its connection waiting and is taken up again by what it was
    waiting for, messages are handed on to the listeners they are for, and changes
    are written to the replicas they are queued for.

    There is no hurry: everything there is to do is done before the next act, and
    the clock moves only where a test sleeps, or hears nothing until something
    that has been waiting gives up. *)
From S2P Require Import Prelude Text Resp Store Command StoreCommands Geo Users Channels Config.
From S2P Require Import Replicas Transactions Aof Dispatch Connection ReplicaSide Startup Reference Testing.
Open Scope Z_scope.

#[local] Existing Instance sha256.
#[local] Existing Instance reference_trig.

(** ** The server and who is connected to it *)

(** A client's end and the server's end of one connection: how many of the bytes
    written to it the client has read, what the server has heard of it as a replica
    and not made sense of, and when the command it waits on gives up. *)
Record Peer := {
  conn : Connection;
  taken : nat;
  unheard_ : Bytes;
  gives_up : option Z;
}.

Record Sim := { world : World; clock_ : Z; peers : list Peer }.

(** The clock of the system when the server's stood at nought, in milliseconds. *)
Definition EPOCH : Z := 1700000000000.

Definition element_waited_for (w : nat) (p : Peer) : bool :=
  match standing (conn p) with
  | Waiting (AwaitElement _ me _) _ _ => Nat.eqb me w
  | _ => false
  end.
Definition entries_waited_for (w : nat) (p : Peer) : bool :=
  match standing (conn p) with
  | Waiting (AwaitEntries _ waker _) _ _ => Nat.eqb waker w
  | _ => false
  end.
Definition is_gone (p : Peer) : bool :=
  match standing (conn p) with HungUp | Lost => true | _ => false end.
Definition peer_is (test : Peer -> bool) (i : nat) (ps : list Peer) : bool :=
  match ps !! i with Some p => test p | None => false end.

(** What is to be found out at a moment: whoever waits is there, and nobody else. *)
Definition moment (s : Sim) (i n k : nat) : Moment :=
  let ps := peers s in
  let known := ((i * 100 + n) * 100 + k)%nat in
  {| env := {| now := clock_ s; clock := EPOCH + clock_ s / 1000000;
               open := fun w => existsb (element_waited_for w) ps;
               closed := fun w => negb (existsb (element_waited_for w) ps);
               held := fun w => existsb (entries_waited_for w) ps;
               new_waiter := known; new_watcher := known |};
     alive := fun l => peer_is (fun p => negb (is_gone p)) l ps;
     ended := fun r => peer_is is_gone r ps;
     append := Appended None |}.

Definition with_world (s : Sim) (w : World) : Sim :=
  {| world := w; clock_ := clock_ s; peers := peers s |}.
Definition with_peer (s : Sim) (i : nat) (p : Peer) : Sim :=
  {| world := world s; clock_ := clock_ s; peers := <[i := p]> (peers s) |}.
Definition with_conn (p : Peer) (c : Connection) (until : option Z) : Peer :=
  {| conn := c; taken := taken p; unheard_ := unheard_ p; gives_up := until |}.

(** When what a connection waits on gives up, having started to wait now. *)
Definition until_of (now : Z) (c : Connection) : option Z :=
  match standing c with
  | Waiting (AwaitElement _ _ timeout) _ _ => (fun d => now + d) <$> timeout
  | Waiting (AwaitEntries _ _ deadline) _ _ => deadline
  | Waiting (AwaitReplicas _ _ deadline) _ _ => deadline
  | _ => None
  end.

(** A connection whose command has come to something: it is served again, or waits
    again, or is gone. *)
Definition gone_on (c : Connection) (cl : Client) (p : Progress) : Connection :=
  let leave standing written :=
    {| buf := buf c; client := cl; ran := S (ran c); written := written; standing := standing |} in
  match p with
  | Answers (Reply reply) => leave Serving (written c ++ [encode reply])
  | Answers (ReplicaFrom reply) => leave Following (written c ++ [encode reply])
  | WaitsOn p asked part_of => leave (Waiting p asked part_of) (written c)
  | Crashes => leave Lost (written c)
  end.

(** ** What goes on by itself *)

(** A connection reads what it has been sent, which may be nothing new; one that
    has just become a replica's is taken on as one, and what was left over from its
    request made sense of first. *)
Definition take_on (i : nat) (p : Peer) (w : World) : World * Peer :=
  match standing (conn p) with
  | Following =>
      let r := replication (server w) in
      if existsb (fun f => Nat.eqb (replica_id f) i) (replicas r)
      then (w, p)
      else
        let rs := add_replica (fun _ => false) i (replicas r) in
        match replica_says i [] (buf (conn p)) rs with
        | Ok (rest, rs) =>
            (with_replication w (with_replicas r rs),
             {| conn := with_buf (conn p) []; taken := taken p; unheard_ := rest; gives_up := gives_up p |})
        | Err _ => (with_replication w (with_replicas r rs), p)
        end
  | _ => (w, p)
  end.
Definition reads (i : nat) (bytes : Bytes) (s : Sim) : Sim * list Heard :=
  match peers s !! i with
  | None => (s, [])
  | Some p =>
      let '(c, w, heard) := read (fun n k => moment s i n k) bytes (conn p) (world s) in
      let p := with_conn p c (match standing (conn p) with
                              | Serving => until_of (clock_ s) c
                              | _ => gives_up p
                              end) in
      let '(w, p) := take_on i p w in
      (with_peer (with_world s w) i p, heard)
  end.

(** What a connection waited for has come, and is answered with this. *)
Definition answers_with (i : nat) (reply : Value) (s : Sim) : Sim * list Heard :=
  match peers s !! i with
  | Some p =>
      match standing (conn p) with
      | Waiting _ asked part_of =>
          let c := conn p in
          let '(cl, w, heard, pr) := resume (fun k => moment s i (ran c) k) asked part_of reply
                                       (client c) (world s) in
          let c := gone_on c cl pr in
          let s := with_peer (with_world s w) i (with_conn p c (until_of (clock_ s) c)) in
          let '(s, heard') := reads i [] s in (s, heard ++ heard')
      | _ => (s, [])
      end
  | None => (s, [])
  end.

(** The stream a client waits on has grown. *)
Definition woken (i : nat) (s : Sim) : Sim * list Heard :=
  match peers s !! i with
  | Some p =>
      match standing (conn p) with
      | Waiting (AwaitEntries entries waker deadline) _ _ =>
          let m := moment s i (ran (conn p)) 0 in
          let e := env m in
          let e := {| now := now e; clock := clock e; open := open e; closed := closed e;
                      held := held e; new_waiter := new_waiter e; new_watcher := waker |} in
          match resume_entries e entries deadline (store (world s)) with
          | (st, events, Replied reply) =>
              let '(s, heard) := answers_with i reply (with_world s (with_store (world s) st)) in
              (s, map FromStore events ++ heard)
          | (st, events, _) => (with_world s (with_store (world s) st), map FromStore events)
          end
      | _ => (s, [])
      end
  | None => (s, [])
  end.

Fixpoint find_peer (test : Peer -> bool) (i : nat) (ps : list Peer) : option nat :=
  match ps with
  | [] => None
  | p :: ps => if test p then Some i else find_peer test (S i) ps
  end.

(** Everything heard of is passed to whom it is for, and what comes of that. *)
Fixpoint hand_round (fuel : nat) (todo : list Heard) (s : Sim) : Sim :=
  match fuel, todo with
  | S fuel, h :: todo =>
      let '(s, more) :=
        match h with
        | Message l bytes =>
            match peers s !! l with
            | Some p => (with_peer s l (with_conn p (deliver bytes (conn p)) (gives_up p)), [])
            | None => (s, [])
            end
        | FromStore (Handed w element) =>
            match find_peer (element_waited_for w) 0 (peers s) with
            | Some i =>
                match peers s !! i with
                | Some p =>
                    match standing (conn p) with
                    | Waiting (AwaitElement key _ _) _ _ =>
                        answers_with i (resume_element key (Some element)) s
                    | _ => (s, [])
                    end
                | None => (s, [])
                end
            | None => (s, [])
            end
        | FromStore (Woken w) =>
            match find_peer (entries_waited_for w) 0 (peers s) with
            | Some i => woken i s
            | None => (s, [])
            end
        end in
      hand_round fuel (todo ++ more) s
  | _, _ => s
  end.

(** Changes are written to the replica they are queued for. *)
Fixpoint write_changes (fuel i : nat) (s : Sim) : Sim :=
  match fuel with
  | O => s
  | S fuel =>
      match next_change i (replicas (replication (server (world s)))), peers s !! i with
      | Some (change, rs), Some p =>
          let w := with_replication (world s) (with_replicas (replication (server (world s))) rs) in
          write_changes fuel i (with_peer (with_world s w) i
                                  (with_conn p (deliver change (conn p)) (gives_up p)))
      | _, _ => s
      end
  end.
Definition FUEL : nat := 100.
Definition settle (sh : Sim * list Heard) : Sim :=
  let s := hand_round FUEL sh.2 sh.1 in
  fold_left (fun s i => write_changes FUEL i s) (seq 0 (length (peers s))) s.

(** Those waiting for replicas look again once one has said how far it has got. *)
Definition look_again (i : nat) (s : Sim) : Sim :=
  match peers s !! i with
  | Some p =>
      match standing (conn p) with
      | Waiting (AwaitReplicas target wanted deadline) _ _ =>
          match wait_round (ended (moment s i 0 0)) target wanted deadline (replication (server (world s))) with
          | (r, Replied reply) => settle (answers_with i reply (with_world s (with_replication (world s) r)))
          | (r, _) => with_world s (with_replication (world s) r)
          end
      | _ => s
      end
  | None => s
  end.
Definition stirred (s : Sim) : Sim := fold_left (fun s i => look_again i s) (seq 0 (length (peers s))) s.

(** A connection gives up waiting. *)
Definition times_out (i : nat) (s : Sim) : Sim :=
  match peers s !! i with
  | Some p =>
      match standing (conn p) with
      | Waiting (AwaitElement key _ _) _ _ => settle (answers_with i (resume_element key None) s)
      | Waiting (AwaitEntries _ _ _) _ _ => settle (answers_with i NullArray s)
      | Waiting (AwaitReplicas target _ _) _ _ =>
          let '(r, reply) := wait_over (ended (moment s i 0 0)) target (replication (server (world s))) in
          settle (answers_with i reply (with_world s (with_replication (world s) r)))
      | _ => s
      end
  | None => s
  end.

(** Whoever gives up first, of those still to give up by a time if there is one. *)
Fixpoint first_to_give_up (by_ : option Z) (i : nat) (ps : list Peer) (best : option (nat * Z))
  : option (nat * Z) :=
  match ps with
  | [] => best
  | p :: ps =>
      first_to_give_up by_ (S i) ps
        (match gives_up p, best with
         | Some t, Some (_, t') => if t <? t' then Some (i, t) else best
         | Some t, None => if match by_ with Some b => t <=? b | None => true end then Some (i, t) else None
         | None, _ => best
         end)
  end.
Definition at_time (s : Sim) (t : Z) : Sim := {| world := world s; clock_ := t; peers := peers s |}.
Definition forget_to_give_up (i : nat) (s : Sim) : Sim :=
  match peers s !! i with
  | Some p => with_peer s i (with_conn p (conn p) None)
  | None => s
  end.
Definition give_up_next (by_ : option Z) (s : Sim) : option Sim :=
  match first_to_give_up by_ 0 (peers s) None with
  | Some (i, t) => Some (times_out i (forget_to_give_up i (at_time s (Z.max t (clock_ s)))))
  | None => None
  end.
Fixpoint pass_time (fuel : nat) (by_ : Z) (s : Sim) : Sim :=
  match fuel with
  | O => at_time s by_
  | S fuel =>
      match give_up_next (Some by_) s with
      | Some s => pass_time fuel by_ s
      | None => at_time s by_
      end
  end.

(** ** What a test does *)
Inductive Act : Type :=
| Connects
| Sends (i : nat) (bytes : Bytes)
| Hears (i : nat) (bytes : Bytes)
| HearsLine (i : nat) (start : Bytes)
| HearsReply (i : nat)
| HearsFile (i : nat)
| HearsNothing (i : nat)
| HearsThat (i : nat) (so : Value -> bool)
| KeepsUp (i : nat)
| Sleeps (milliseconds : Z)
| Leaves (i : nat)
| Checks (that : Sim -> bool)
| LeavesFile (path bytes : Bytes)
| Restarts (args : list string).

Definition sends_to (i : nat) (bytes : Bytes) (s : Sim) : Sim :=
  match peers s !! i with
  | Some p =>
      match standing (conn p) with
      | Following =>
          let r := replication (server (world s)) in
          match replica_says i bytes (buf (conn p) ++ unheard_ p) (replicas r) with
          | Ok (rest, rs) =>
              let c := with_buf (conn p) [] in
              let p := {| conn := c; taken := taken p; unheard_ := rest; gives_up := gives_up p |} in
              stirred (with_peer (with_world s (with_replication (world s) (with_replicas r rs))) i p)
          | Err _ => s
          end
      | _ => settle (reads i bytes s)
      end
  | None => s
  end.

(** What has been written to a client and it has not read. *)
Definition waiting_to_be_read (p : Peer) : Bytes := drop (taken p) (concat (written (conn p))).
Definition takes (i : nat) (n : nat) (s : Sim) : Sim :=
  match peers s !! i with
  | Some p => with_peer s i {| conn := conn p; taken := taken p + n; unheard_ := unheard_ p;
                               gives_up := gives_up p |}
  | None => s
  end.

(** A client that waits to hear has time pass until it does: [found] says how many
    bytes it is to take, if what it is after is there yet. *)
Fixpoint hears (fuel : nat) (i : nat) (found : Bytes -> option nat) (s : Sim) : option Sim :=
  match peers s !! i with
  | None => None
  | Some p =>
      match found (waiting_to_be_read p), fuel with
      | Some n, _ => Some (takes i n s)
      | None, S fuel =>
          match give_up_next None s with
          | Some s => hears fuel i found s
          | None => None
          end
      | None, O => None
      end
  end.

Definition these (bytes there : Bytes) : option nat :=
  if starts_with bytes there then Some (length bytes) else None.
Definition a_line (start there : Bytes) : option nat :=
  match line there with
  | Some (before, _) => if starts_with start before then Some (length before + 2)%nat else None
  | None => None
  end.
Definition a_reply (there : Bytes) : option nat :=
  match parse there with Ok (Some (_, n)) => Some (Z.to_nat n) | _ => a_line [] there end.
Definition a_file (there : Bytes) : option nat :=
  match file_header there with
  | Ok (Some (length, header)) =>
      if header + length <=? len there then Some (Z.to_nat (header + length)) else None
  | _ => None
  end.

Fixpoint has_in_it (part there : Bytes) : bool :=
  starts_with part there || match there with [] => false | _ :: there => has_in_it part there end.

(** [common::keep_up], the thread of a [FakeReplica]: it takes in what the master has
    sent and answers each asking with how far it had got.  Where it started is in
    the line they agreed on, and what it has taken in since is what it has read
    after the file. *)
Fixpoint started_from (fuel : nat) (written : Bytes) (before : nat) : option (Z * nat) :=
  match fuel, line written with
  | S fuel, Some (said, rest) =>
      let after := (before + length said + 2)%nat in
      match strip_prefix (lit "+FULLRESYNC ") said with
      | Some agreement =>
          match split_once " "%byte agreement, a_file rest with
          | Some (_, from), Some n =>
              match parse_u64 from with Ok from => Some (from, (after + n)%nat) | Err _ => None end
          | _, _ => None
          end
      | None => started_from fuel rest after
      end
  | _, _ => None
  end.
Fixpoint keeps_up (fuel i : nat) (s : Sim) : option Sim :=
  match fuel, peers s !! i with
  | S fuel, Some p =>
      match a_reply (waiting_to_be_read p), started_from FUEL (concat (written (conn p))) O with
      | Some n, Some (from, start) =>
          let taken_in := from + Z.of_nat (taken p) - Z.of_nat start in
          let asked := has_in_it (lit "GETACK") (map ascii_upper (take n (waiting_to_be_read p))) in
          let s := takes i n s in
          keeps_up fuel i
            (if asked then sends_to i (encode (as_command [lit "REPLCONF"; lit "ACK"; show taken_in])) s
             else s)
      | None, Some _ => Some s
      | _, None => None
      end
  | _, _ => None
  end.

(** A server started with these arguments over these files, at this time. *)
Definition server_over (fs : Files) (now : Z) (args : list string) : option World :=
  match parse_config (Some (lit "/srv")) (words args) with
  | Ok c =>
      match start no_faults c fs (EPOCH * 1000000 + now) (fun _ => now) 1 2
              (fun n k => moment {| world := {| store := empty_state; server := new_server c 1 2; files := fs |};
                                    clock_ := now; peers := [] |} 0 n k) 0 with
      | Started w _ _ => Some w
      | _ => None
      end
  | Err _ => None
  end.

Definition act (a : Act) (s : Sim) : option Sim :=
  match a with
  | Connects =>
      let p := {| conn := arrive (length (peers s)) (world s); taken := O; unheard_ := [];
                  gives_up := None |} in
      Some {| world := world s; clock_ := clock_ s; peers := peers s ++ [p] |}
  | Sends i bytes => Some (sends_to i bytes s)
  | Hears i bytes => hears FUEL i (these bytes) s
  | HearsLine i start => hears FUEL i (a_line start) s
  | HearsReply i => hears FUEL i a_reply s
  | HearsFile i => hears FUEL i a_file s
  | HearsNothing i =>
      let s := pass_time FUEL (clock_ s + 300 * 1000000) s in
      if peer_is (fun p => waiting_to_be_read p =b? []) i (peers s) then Some s else None
  | HearsThat i so =>
      match hears FUEL i a_reply s with
      | Some s' =>
          match peers s !! i with
          | Some p =>
              match parse (drop (taken p) (match peers s' !! i with
                                           | Some p' => concat (written (conn p'))
                                           | None => []
                                           end)) with
              | Ok (Some (v, _)) => if so v then Some s' else None
              | _ => None
              end
          | None => None
          end
      | None => None
      end
  | KeepsUp i => keeps_up FUEL i s
  | Sleeps ms => Some (pass_time FUEL (clock_ s + ms * 1000000) s)
  | Leaves i =>
      match peers s !! i with
      | Some p =>
          let c := conn p in
          let c' := {| buf := []; client := client c; ran := ran c; written := written c;
                       standing := HungUp |} in
          Some (with_peer (with_world s (close c (world s))) i (with_conn p c' None))
      | None => None
      end
  | Checks that => if that s then Some s else None
  | LeavesFile path bytes =>
      let w := world s in
      Some (with_world s {| store := store w; server := server w; files := <[path := bytes]> (files w) |})
  | Restarts args =>
      match server_over (files (world s)) (clock_ s) args with
      | Some w => Some {| world := w; clock_ := clock_ s; peers := [] |}
      | None => None
      end
  end.

(** The acts a test gets through before one that fails. *)
Fixpoint carried_out (acts : list Act) (n : nat) (s : Sim) : nat * option Sim :=
  match acts with
  | [] => (n, Some s)
  | a :: acts => match act a s with Some s => carried_out acts (S n) s | None => (n, None) end
  end.

(** A server started with these arguments, over these files or none. *)
Definition plays_over (fs : list (Bytes * Bytes)) (args : list string) (acts : list Act) : bool :=
  match server_over (list_to_map fs) 0 args with
  | Some w => is_some (carried_out acts 0 {| world := w; clock_ := 0; peers := [] |}).2
  | None => false
  end.
Definition plays_with : list string -> list Act -> bool := plays_over [].
Definition plays : list Act -> bool := plays_with [].

(** [client.send], and [client.expect_reply] of replies written line by line. *)
Definition send (i : nat) (l : list string) : Act := Sends i (encode (Array (map bulk l))).
Definition expect (i : nat) (l : list string) : Act := Hears i (on_lines l).

Example plays_blocking :
  plays
    [Connects; Connects; send 0 ["BLPOP"; "list_key"; "0"]; Sleeps 100;
     send 1 ["RPUSH"; "list_key"; "foo"]; expect 1 [":1"];
     expect 0 ["*2"; "$8"; "list_key"; "$3"; "foo"];
     send 1 ["BLPOP"; "list_key"; "0.1"]; expect 1 ["*-1"]] = true.
Proof. passes. Qed.
