(* ===== verification/ScenariosStore.v ===== *)
(** * Scenarios: what clients keep in the store

    The tests of src/tests/strings.rs, src/tests/incr.rs, src/tests/keys.rs,
    src/tests/expiry.rs, src/tests/push.rs, src/tests/range.rs, src/tests/pop.rs,
    src/tests/blocking.rs, translated under their own names and played on the
    definitions of this development ([Playing]): what clients keep in the store:
    strings, numbers, lists and keys that expire. Each starts a server of its own,
    and is what its clients send and what they are to hear; a loop in a test is
    written out. *)
From S2P Require Import Prelude Text Resp Testing Playing.
Open Scope Z_scope.
Open Scope nat_scope.

(** ** tests/strings.rs *)
Definition echoes_its_argument : bool :=
  plays
    [Connects; send 0 ["ECHO"; "hey"]; expect 0 ["$3"; "hey"]].
Definition accepts_any_casing_of_the_command_name : bool :=
  plays
    [Connects; send 0 ["ECHO"; "hey"]; expect 0 ["$3"; "hey"]; send 0 ["echo"; "hey"];
     expect 0 ["$3"; "hey"]; send 0 ["EcHo"; "hey"]; expect 0 ["$3"; "hey"]].
Definition sets_then_gets_a_key : bool :=
  plays
    [Connects; send 0 ["SET"; "foo"; "bar"]; expect 0 ["+OK"]; send 0 ["GET"; "foo"];
     expect 0 ["$3"; "bar"]].
Definition overwrites_an_existing_key : bool :=
  plays
    [Connects; send 0 ["SET"; "foo"; "bar"]; expect 0 ["+OK"]; send 0 ["SET"; "foo"; "baz"];
     expect 0 ["+OK"]; send 0 ["GET"; "foo"]; expect 0 ["$3"; "baz"]].
Definition returns_a_null_bulk_string_for_a_missing_key : bool :=
  plays
    [Connects; send 0 ["GET"; "missing"]; expect 0 ["$-1"]].
Definition stores_a_value_that_is_not_text : bool :=
  plays
    [Connects;
     Sends 0 (encode (Array [BulkString (lit "SET"); BulkString (lit "picture");
        BulkString ([x89] ++ on_lines ["PNG"] ++ [x1a; x0a; x00; xff; xfe])]));
     expect 0 ["+OK"]; send 0 ["GET"; "picture"];
     Hears 0 (on_lines ["$11"] ++ [x89] ++ on_lines ["PNG"] ++ [x1a; x0a; x00; xff; xfe; x0d; x0a])].
Definition stores_a_key_that_is_not_text : bool :=
  plays
    [Connects;
     Sends 0 (encode (Array [BulkString (lit "SET"); BulkString ([xff; x00] ++ lit "key");
        BulkString (lit "value")]));
     expect 0 ["+OK"];
     Sends 0 (encode (Array [BulkString (lit "GET"); BulkString ([xff; x00] ++ lit "key")]));
     expect 0 ["$5"; "value"];
     Sends 0 (encode (Array [BulkString (lit "GET"); BulkString ([xfd; x00] ++ lit "key")]));
     expect 0 ["$-1"]].
Definition echoes_bytes_that_are_not_text : bool :=
  plays
    [Connects; Sends 0 (encode (Array [BulkString (lit "ECHO"); BulkString ([x00; xff])]));
     Hears 0 (on_lines ["$2"] ++ [x00; xff; x0d; x0a])].
Definition shares_keys_across_connections : bool :=
  plays
    [Connects; Connects; send 0 ["SET"; "foo"; "bar"]; expect 0 ["+OK"]; send 1 ["GET"; "foo"];
     expect 1 ["$3"; "bar"]].

(** ** tests/incr.rs *)
Definition adds_one_to_a_number : bool :=
  plays
    [Connects; send 0 ["SET"; "foo"; "41"]; expect 0 ["+OK"]; send 0 ["INCR"; "foo"];
     expect 0 [":42"]; send 0 ["INCR"; "foo"]; expect 0 [":43"]].
Definition leaves_the_new_number_behind_for_a_later_get : bool :=
  plays
    [Connects; send 0 ["SET"; "counter"; "9"]; expect 0 ["+OK"]; send 0 ["INCR"; "counter"];
     expect 0 [":10"]; send 0 ["GET"; "counter"]; expect 0 ["$2"; "10"]].
Definition starts_a_missing_key_at_one : bool :=
  plays
    [Connects; send 0 ["INCR"; "foo"]; expect 0 [":1"]; send 0 ["INCR"; "bar"]; expect 0 [":1"];
     send 0 ["GET"; "foo"]; expect 0 ["$1"; "1"]; send 0 ["TYPE"; "foo"]; expect 0 ["+string"]].
Definition starts_over_from_one_after_the_key_expires : bool :=
  plays
    [Connects; send 0 ["SET"; "foo"; "41"; "PX"; "100"]; expect 0 ["+OK"]; Sleeps 200;
     send 0 ["INCR"; "foo"]; expect 0 [":1"]].
Definition counts_up_from_a_negative_number : bool :=
  plays
    [Connects; send 0 ["SET"; "foo"; "-1"]; expect 0 ["+OK"]; send 0 ["INCR"; "foo"];
     expect 0 [":0"]].
Definition keeps_the_expiry_the_key_already_had : bool :=
  plays
    [Connects; send 0 ["SET"; "foo"; "1"; "PX"; "100"]; expect 0 ["+OK"]; send 0 ["INCR"; "foo"];
     expect 0 [":2"]; Sleeps 200; send 0 ["GET"; "foo"]; expect 0 ["$-1"]].
Definition refuses_to_count_past_the_largest_number : bool :=
  plays
    [Connects; send 0 ["SET"; "foo"; "9223372036854775807"]; expect 0 ["+OK"];
     send 0 ["INCR"; "foo"]; expect 0 ["-ERR increment or decrement would overflow"]].
Definition rejects_a_value_that_is_not_a_number : bool :=
  plays
    [Connects; send 0 ["SET"; "foo"; "xyz"]; expect 0 ["+OK"]; send 0 ["INCR"; "foo"];
     expect 0 ["-ERR value is not an integer or out of range"]; send 0 ["GET"; "foo"];
     expect 0 ["$3"; "xyz"]].
Definition rejects_values_that_only_look_numeric : bool :=
  plays
    [Connects; send 0 ["SET"; "foo"; ""]; expect 0 ["+OK"]; send 0 ["INCR"; "foo"];
     expect 0 ["-ERR value is not an integer or out of range"]; send 0 ["SET"; "foo"; "+1"];
     expect 0 ["+OK"]; send 0 ["INCR"; "foo"];
     expect 0 ["-ERR value is not an integer or out of range"]; send 0 ["SET"; "foo"; "007"];
     expect 0 ["+OK"]; send 0 ["INCR"; "foo"];
     expect 0 ["-ERR value is not an integer or out of range"]; send 0 ["SET"; "foo"; "-0"];
     expect 0 ["+OK"]; send 0 ["INCR"; "foo"];
     expect 0 ["-ERR value is not an integer or out of range"]; send 0 ["SET"; "foo"; " 1"];
     expect 0 ["+OK"]; send 0 ["INCR"; "foo"];
     expect 0 ["-ERR value is not an integer or out of range"]; send 0 ["SET"; "foo"; "1.0"];
     expect 0 ["+OK"]; send 0 ["INCR"; "foo"];
     expect 0 ["-ERR value is not an integer or out of range"]; send 0 ["SET"; "foo"; "1e3"];
     expect 0 ["+OK"]; send 0 ["INCR"; "foo"];
     expect 0 ["-ERR value is not an integer or out of range"]].
Definition rejects_an_incr_of_a_list : bool :=
  plays
    [Connects; send 0 ["RPUSH"; "list_key"; "element"]; expect 0 [":1"];
     send 0 ["INCR"; "list_key"];
     expect 0 ["-WRONGTYPE Operation against a key holding the wrong kind of value"]].
Definition rejects_an_incr_without_exactly_one_key : bool :=
  plays
    [Connects; send 0 ["INCR"]; expect 0 ["-ERR wrong number of arguments for 'incr' command"];
     send 0 ["INCR"; "foo"; "bar"]; expect 0 ["-ERR wrong number of arguments for 'incr' command"]].

(** ** tests/keys.rs *)
Definition reports_the_type_of_a_string : bool :=
  plays
    [Connects; send 0 ["SET"; "some_key"; "foo"]; expect 0 ["+OK"]; send 0 ["TYPE"; "some_key"];
     expect 0 ["+string"]].
Definition reports_none_for_a_missing_key : bool :=
  plays
    [Connects; send 0 ["TYPE"; "missing_key"]; expect 0 ["+none"]].
Definition reports_the_type_of_a_list : bool :=
  plays
    [Connects; send 0 ["RPUSH"; "list_key"; "element"]; expect 0 [":1"];
     send 0 ["TYPE"; "list_key"]; expect 0 ["+list"]].
Definition reports_none_once_a_key_has_expired : bool :=
  plays
    [Connects; send 0 ["SET"; "some_key"; "foo"; "PX"; "100"]; expect 0 ["+OK"];
     send 0 ["TYPE"; "some_key"]; expect 0 ["+string"]; Sleeps 200; send 0 ["TYPE"; "some_key"];
     expect 0 ["+none"]].
Definition rejects_a_type_query_without_a_key : bool :=
  plays
    [Connects; send 0 ["TYPE"]; expect 0 ["-ERR wrong number of arguments for 'type' command"]].

(** ** tests/expiry.rs *)
Definition keeps_a_key_until_its_expiry_passes : bool :=
  plays
    [Connects; send 0 ["SET"; "foo"; "bar"; "PX"; "100"]; expect 0 ["+OK"]; send 0 ["GET"; "foo"];
     expect 0 ["$3"; "bar"]; Sleeps 200; send 0 ["GET"; "foo"]; expect 0 ["$-1"]].
Definition accepts_seconds_and_any_casing_of_the_option : bool :=
  plays
    [Connects; send 0 ["SET"; "foo"; "bar"; "EX"; "10"]; expect 0 ["+OK"]; send 0 ["GET"; "foo"];
     expect 0 ["$3"; "bar"]; send 0 ["SET"; "foo"; "bar"; "ex"; "10"]; expect 0 ["+OK"];
     send 0 ["GET"; "foo"]; expect 0 ["$3"; "bar"]; send 0 ["SET"; "foo"; "bar"; "Ex"; "10"];
     expect 0 ["+OK"]; send 0 ["GET"; "foo"]; expect 0 ["$3"; "bar"]].
Definition keeps_a_key_forever_without_an_expiry_option : bool :=
  plays
    [Connects; send 0 ["SET"; "foo"; "bar"]; expect 0 ["+OK"]; Sleeps 200; send 0 ["GET"; "foo"];
     expect 0 ["$3"; "bar"]].
Definition rejects_a_malformed_expiry : bool :=
  plays
    [Connects; send 0 ["SET"; "foo"; "bar"; "PX"; "soon"];
     expect 0 ["-ERR value is not an integer or out of range"];
     send 0 ["SET"; "foo"; "bar"; "ZZ"; "100"]; expect 0 ["-ERR syntax error"]].

(** ** tests/push.rs *)
Definition creates_a_list_on_the_first_push : bool :=
  plays
    [Connects; send 0 ["RPUSH"; "list_key"; "element"]; expect 0 [":1"]].
Definition creates_a_list_with_several_elements_at_once : bool :=
  plays
    [Connects; send 0 ["RPUSH"; "another_list"; "bar"; "baz"]; expect 0 [":2"];
     send 0 ["RPUSH"; "another_list"; "foo"; "bar"; "baz"]; expect 0 [":5"]].
Definition keeps_a_list_per_key : bool :=
  plays
    [Connects; send 0 ["RPUSH"; "one"; "element"]; expect 0 [":1"];
     send 0 ["RPUSH"; "other"; "element"]; expect 0 [":1"]].
Definition prepends_elements_in_reverse_order : bool :=
  plays
    [Connects; send 0 ["LPUSH"; "list_key"; "c"]; expect 0 [":1"];
     send 0 ["LPUSH"; "list_key"; "b"; "a"]; expect 0 [":3"];
     send 0 ["LRANGE"; "list_key"; "0"; "-1"]; expect 0 ["*3"; "$1"; "a"; "$1"; "b"; "$1"; "c"]].
Definition prepends_onto_a_list_built_from_the_right : bool :=
  plays
    [Connects; send 0 ["RPUSH"; "list_key"; "b"; "c"]; expect 0 [":2"];
     send 0 ["LPUSH"; "list_key"; "a"]; expect 0 [":3"]; send 0 ["LRANGE"; "list_key"; "0"; "-1"];
     expect 0 ["*3"; "$1"; "a"; "$1"; "b"; "$1"; "c"]].
Definition holds_list_elements_that_are_not_text : bool :=
  plays
    [Connects;
     Sends 0 (encode (Array [BulkString (lit "RPUSH"); BulkString (lit "list_key");
        BulkString ([x00; x01]); BulkString ([xff])]));
     expect 0 [":2"]; send 0 ["LRANGE"; "list_key"; "0"; "-1"];
     Hears 0 (on_lines ["*2"; "$2"] ++ [x00; x01; x0d; x0a] ++ on_lines ["$1"] ++ [xff; x0d; x0a])].
Definition rejects_a_push_without_elements : bool :=
  plays
    [Connects; send 0 ["RPUSH"; "list_key"];
     expect 0 ["-ERR wrong number of arguments for 'rpush' command"]; send 0 ["LPUSH"; "list_key"];
     expect 0 ["-ERR wrong number of arguments for 'lpush' command"]].
Definition rejects_a_push_onto_a_string : bool :=
  plays
    [Connects; send 0 ["SET"; "foo"; "bar"]; expect 0 ["+OK"]; send 0 ["RPUSH"; "foo"; "element"];
     expect 0 ["-WRONGTYPE Operation against a key holding the wrong kind of value"];
     send 0 ["LPUSH"; "foo"; "element"];
     expect 0 ["-WRONGTYPE Operation against a key holding the wrong kind of value"]].
Definition rejects_a_get_of_a_list : bool :=
  plays
    [Connects; send 0 ["RPUSH"; "list_key"; "element"]; expect 0 [":1"]; send 0 ["GET"; "list_key"];
     expect 0 ["-WRONGTYPE Operation against a key holding the wrong kind of value"]].

(** ** tests/range.rs *)
Definition lists_a_range_of_elements : bool :=
  plays
    [Connects; send 0 ["RPUSH"; "list_key"; "a"; "b"; "c"; "d"; "e"]; expect 0 [":5"];
     send 0 ["LRANGE"; "list_key"; "0"; "1"]; expect 0 ["*2"; "$1"; "a"; "$1"; "b"];
     send 0 ["LRANGE"; "list_key"; "2"; "4"]; expect 0 ["*3"; "$1"; "c"; "$1"; "d"; "$1"; "e"]].
Definition counts_negative_indexes_from_the_end : bool :=
  plays
    [Connects; send 0 ["RPUSH"; "list_key"; "a"; "b"; "c"; "d"; "e"]; expect 0 [":5"];
     send 0 ["LRANGE"; "list_key"; "-2"; "-1"]; expect 0 ["*2"; "$1"; "d"; "$1"; "e"];
     send 0 ["LRANGE"; "list_key"; "0"; "-3"]; expect 0 ["*3"; "$1"; "a"; "$1"; "b"; "$1"; "c"];
     send 0 ["LRANGE"; "list_key"; "2"; "-1"]; expect 0 ["*3"; "$1"; "c"; "$1"; "d"; "$1"; "e"]].
Definition clamps_a_negative_index_reaching_past_the_start : bool :=
  plays
    [Connects; send 0 ["RPUSH"; "list_key"; "a"; "b"; "c"; "d"; "e"]; expect 0 [":5"];
     send 0 ["LRANGE"; "list_key"; "-6"; "-4"]; expect 0 ["*2"; "$1"; "a"; "$1"; "b"]].
Definition treats_a_stop_past_the_end_as_the_last_element : bool :=
  plays
    [Connects; send 0 ["RPUSH"; "list_key"; "a"; "b"; "c"; "d"; "e"]; expect 0 [":5"];
     send 0 ["LRANGE"; "list_key"; "3"; "100"]; expect 0 ["*2"; "$1"; "d"; "$1"; "e"]].
Definition returns_an_empty_array_when_the_range_yields_nothing : bool :=
  plays
    [Connects; send 0 ["RPUSH"; "list_key"; "a"; "b"; "c"; "d"; "e"]; expect 0 [":5"];
     send 0 ["LRANGE"; "list_key"; "5"; "9"]; expect 0 ["*0"];
     send 0 ["LRANGE"; "list_key"; "3"; "1"]; expect 0 ["*0"];
     send 0 ["LRANGE"; "missing"; "0"; "9"]; expect 0 ["*0"]].
Definition rejects_a_range_with_non_numeric_bounds : bool :=
  plays
    [Connects; send 0 ["RPUSH"; "list_key"; "a"; "b"; "c"; "d"; "e"]; expect 0 [":5"];
     send 0 ["LRANGE"; "list_key"; "0"; "last"];
     expect 0 ["-ERR value is not an integer or out of range"]].
Definition rejects_a_range_over_a_string : bool :=
  plays
    [Connects; send 0 ["SET"; "foo"; "bar"]; expect 0 ["+OK"]; send 0 ["LRANGE"; "foo"; "0"; "1"];
     expect 0 ["-WRONGTYPE Operation against a key holding the wrong kind of value"]].
Definition reports_the_length_of_a_list : bool :=
  plays
    [Connects; send 0 ["RPUSH"; "list_key"; "a"; "b"; "c"; "d"; "e"]; expect 0 [":5"];
     send 0 ["LLEN"; "list_key"]; expect 0 [":5"]].
Definition reports_zero_for_a_missing_list : bool :=
  plays
    [Connects; send 0 ["LLEN"; "missing_list_key"]; expect 0 [":0"]].
Definition rejects_a_length_query_on_a_string : bool :=
  plays
    [Connects; send 0 ["SET"; "foo"; "bar"]; expect 0 ["+OK"]; send 0 ["LLEN"; "foo"];
     expect 0 ["-WRONGTYPE Operation against a key holding the wrong kind of value"]].

(** ** tests/pop.rs *)
Definition pops_the_first_element : bool :=
  plays
    [Connects; send 0 ["RPUSH"; "list_key"; "one"; "two"; "three"; "four"; "five"]; expect 0 [":5"];
     send 0 ["LPOP"; "list_key"]; expect 0 ["$3"; "one"]; send 0 ["LRANGE"; "list_key"; "0"; "-1"];
     expect 0 ["*4"; "$3"; "two"; "$5"; "three"; "$4"; "four"; "$4"; "five"]].
Definition pops_several_elements_at_once : bool :=
  plays
    [Connects; send 0 ["RPUSH"; "list_key"; "one"; "two"; "three"; "four"; "five"]; expect 0 [":5"];
     send 0 ["LPOP"; "list_key"; "2"]; expect 0 ["*2"; "$3"; "one"; "$3"; "two"];
     send 0 ["LRANGE"; "list_key"; "0"; "-1"];
     expect 0 ["*3"; "$5"; "three"; "$4"; "four"; "$4"; "five"]].
Definition pops_the_whole_list_when_the_count_is_too_large : bool :=
  plays
    [Connects; send 0 ["RPUSH"; "list_key"; "a"; "b"]; expect 0 [":2"];
     send 0 ["LPOP"; "list_key"; "10"]; expect 0 ["*2"; "$1"; "a"; "$1"; "b"];
     send 0 ["LLEN"; "list_key"]; expect 0 [":0"]].
Definition returns_an_empty_array_for_a_count_that_removes_nothing : bool :=
  plays
    [Connects; send 0 ["RPUSH"; "list_key"; "a"]; expect 0 [":1"]; send 0 ["LPOP"; "list_key"; "0"];
     expect 0 ["*0"]; send 0 ["LPOP"; "missing_list_key"; "3"]; expect 0 ["*0"]].
Definition returns_null_when_popping_a_missing_list : bool :=
  plays
    [Connects; send 0 ["LPOP"; "missing_list_key"]; expect 0 ["$-1"]].
Definition drops_the_key_once_the_list_runs_empty : bool :=
  plays
    [Connects; send 0 ["RPUSH"; "list_key"; "only"]; expect 0 [":1"]; send 0 ["LPOP"; "list_key"];
     expect 0 ["$4"; "only"]; send 0 ["LLEN"; "list_key"]; expect 0 [":0"];
     send 0 ["LPOP"; "list_key"]; expect 0 ["$-1"]].
Definition rejects_a_negative_count : bool :=
  plays
    [Connects; send 0 ["LPOP"; "list_key"; "-1"];
     expect 0 ["-ERR value is out of range, must be positive"]; send 0 ["LPOP"; "list_key"; "many"];
     expect 0 ["-ERR value is not an integer or out of range"]].
Definition rejects_a_pop_on_a_string : bool :=
  plays
    [Connects; send 0 ["SET"; "foo"; "bar"]; expect 0 ["+OK"]; send 0 ["LPOP"; "foo"];
     expect 0 ["-WRONGTYPE Operation against a key holding the wrong kind of value"]].

(** ** tests/blocking.rs *)
Definition pops_without_waiting_when_an_element_is_already_there : bool :=
  plays
    [Connects; send 0 ["RPUSH"; "list_key"; "foo"]; expect 0 [":1"];
     send 0 ["BLPOP"; "list_key"; "0"]; expect 0 ["*2"; "$8"; "list_key"; "$3"; "foo"]].
Definition waits_until_another_client_pushes : bool :=
  plays
    [Connects; Connects; send 0 ["BLPOP"; "list_key"; "0"]; Sleeps 100;
     send 1 ["RPUSH"; "list_key"; "foo"]; expect 1 [":1"];
     expect 0 ["*2"; "$8"; "list_key"; "$3"; "foo"]].
Definition serves_the_client_that_has_waited_the_longest : bool :=
  plays
    [Connects; Connects; Connects; send 0 ["BLPOP"; "another_list_key"; "0"]; Sleeps 100;
     send 1 ["BLPOP"; "another_list_key"; "0"]; Sleeps 100;
     send 2 ["RPUSH"; "another_list_key"; "one"]; expect 2 [":1"];
     expect 0 ["*2"; "$16"; "another_list_key"; "$3"; "one"];
     send 2 ["RPUSH"; "another_list_key"; "two"]; expect 2 [":1"];
     expect 1 ["*2"; "$16"; "another_list_key"; "$3"; "two"]].
Definition hands_a_single_push_to_only_one_waiting_client : bool :=
  plays
    [Connects; Connects; send 0 ["BLPOP"; "list_key"; "0"]; Sleeps 100;
     send 1 ["RPUSH"; "list_key"; "foo"]; expect 1 [":1"];
     expect 0 ["*2"; "$8"; "list_key"; "$3"; "foo"]; send 1 ["LLEN"; "list_key"]; expect 1 [":0"]].
Definition leaves_the_extra_elements_of_a_multi_element_push : bool :=
  plays
    [Connects; Connects; send 0 ["BLPOP"; "list_key"; "0"]; Sleeps 100;
     send 1 ["RPUSH"; "list_key"; "a"; "b"; "c"]; expect 1 [":3"];
     expect 0 ["*2"; "$8"; "list_key"; "$1"; "a"]; send 1 ["LRANGE"; "list_key"; "0"; "-1"];
     expect 1 ["*2"; "$1"; "b"; "$1"; "c"]].
Definition gives_up_once_the_timeout_passes : bool :=
  plays
    [Connects; send 0 ["BLPOP"; "list_key"; "0.1"]; expect 0 ["*-1"]].
Definition unblocks_when_an_element_arrives_before_the_timeout : bool :=
  plays
    [Connects; Connects; send 0 ["BLPOP"; "list_key"; "5"]; Sleeps 100;
     send 1 ["RPUSH"; "list_key"; "foo"]; expect 1 [":1"];
     expect 0 ["*2"; "$8"; "list_key"; "$3"; "foo"]].
Definition keeps_the_element_when_the_waiting_client_has_already_given_up : bool :=
  plays
    [Connects; Connects; send 0 ["BLPOP"; "list_key"; "0.1"]; expect 0 ["*-1"]; Sleeps 100;
     send 1 ["RPUSH"; "list_key"; "foo"]; expect 1 [":1"]; send 1 ["LRANGE"; "list_key"; "0"; "-1"];
     expect 1 ["*1"; "$3"; "foo"]].
Definition rejects_a_blocking_pop_on_a_string : bool :=
  plays
    [Connects; send 0 ["SET"; "foo"; "bar"]; expect 0 ["+OK"]; send 0 ["BLPOP"; "foo"; "0"];
     expect 0 ["-WRONGTYPE Operation against a key holding the wrong kind of value"]].
Definition rejects_a_malformed_timeout : bool :=
  plays
    [Connects; send 0 ["BLPOP"; "list_key"; "soon"];
     expect 0 ["-ERR timeout is not a float or out of range"]; send 0 ["BLPOP"; "list_key"; "-1"];
     expect 0 ["-ERR timeout is negative"]].

Lemma scenarios_store_pass :
  all_pass
    [echoes_its_argument; accepts_any_casing_of_the_command_name; sets_then_gets_a_key;
     overwrites_an_existing_key; returns_a_null_bulk_string_for_a_missing_key;
     stores_a_value_that_is_not_text; stores_a_key_that_is_not_text; echoes_bytes_that_are_not_text;
     shares_keys_across_connections; adds_one_to_a_number;
     leaves_the_new_number_behind_for_a_later_get; starts_a_missing_key_at_one;
     starts_over_from_one_after_the_key_expires; counts_up_from_a_negative_number;
     keeps_the_expiry_the_key_already_had; refuses_to_count_past_the_largest_number;
     rejects_a_value_that_is_not_a_number; rejects_values_that_only_look_numeric;
     rejects_an_incr_of_a_list; rejects_an_incr_without_exactly_one_key;
     reports_the_type_of_a_string; reports_none_for_a_missing_key; reports_the_type_of_a_list;
     reports_none_once_a_key_has_expired; rejects_a_type_query_without_a_key;
     keeps_a_key_until_its_expiry_passes; accepts_seconds_and_any_casing_of_the_option;
     keeps_a_key_forever_without_an_expiry_option; rejects_a_malformed_expiry;
     creates_a_list_on_the_first_push; creates_a_list_with_several_elements_at_once;
     keeps_a_list_per_key; prepends_elements_in_reverse_order;
     prepends_onto_a_list_built_from_the_right; holds_list_elements_that_are_not_text;
     rejects_a_push_without_elements; rejects_a_push_onto_a_string; rejects_a_get_of_a_list;
     lists_a_range_of_elements; counts_negative_indexes_from_the_end;
     clamps_a_negative_index_reaching_past_the_start;
     treats_a_stop_past_the_end_as_the_last_element;
     returns_an_empty_array_when_the_range_yields_nothing; rejects_a_range_with_non_numeric_bounds;
     rejects_a_range_over_a_string; reports_the_length_of_a_list; reports_zero_for_a_missing_list;
     rejects_a_length_query_on_a_string; pops_the_first_element; pops_several_elements_at_once;
     pops_the_whole_list_when_the_count_is_too_large;
     returns_an_empty_array_for_a_count_that_removes_nothing;
     returns_null_when_popping_a_missing_list; drops_the_key_once_the_list_runs_empty;
     rejects_a_negative_count; rejects_a_pop_on_a_string;
     pops_without_waiting_when_an_element_is_already_there; waits_until_another_client_pushes;
     serves_the_client_that_has_waited_the_longest; hands_a_single_push_to_only_one_waiting_client;
     leaves_the_extra_elements_of_a_multi_element_push; gives_up_once_the_timeout_passes;
     unblocks_when_an_element_arrives_before_the_timeout;
     keeps_the_element_when_the_waiting_client_has_already_given_up;
     rejects_a_blocking_pop_on_a_string; rejects_a_malformed_timeout] = true.
Proof. passes. Qed.
