(* ===== verification/ScenariosStreams.v ===== *)
(** * Scenarios: streams

    The tests of src/tests/xadd.rs, src/tests/xrange.rs, src/tests/xread.rs,
    translated under their own names and played on the definitions of this
    development ([Playing]): streams: entries appended, ranges of them read, and
    entries waited for. Each starts a server of its own, and is what its clients
    send and what they are to hear; a loop in a test is written out. *)
From S2P Require Import Prelude Text Resp Testing Playing.
Open Scope Z_scope.
Open Scope nat_scope.

(** ** tests/xadd.rs *)
Definition creates_a_stream_and_returns_the_entry_id : bool :=
  plays
    [Connects; send 0 ["XADD"; "stream_key"; "0-1"; "foo"; "bar"]; expect 0 ["$3"; "0-1"];
     send 0 ["TYPE"; "stream_key"]; expect 0 ["+stream"]].
Definition appends_to_an_existing_stream : bool :=
  plays
    [Connects; send 0 ["XADD"; "stream_key"; "1526919030474-0"; "temperature"; "36"];
     expect 0 ["$15"; "1526919030474-0"];
     send 0 ["XADD"; "stream_key"; "1526919030474-1"; "temperature"; "37"];
     expect 0 ["$15"; "1526919030474-1"]].
Definition accepts_several_field_value_pairs : bool :=
  plays
    [Connects; send 0 ["XADD"; "stream_key"; "0-1"; "temperature"; "36"; "humidity"; "95"];
     expect 0 ["$3"; "0-1"]].
Definition rejects_an_id_that_does_not_beat_the_last_one : bool :=
  plays
    [Connects; send 0 ["XADD"; "stream_key"; "1-1"; "foo"; "bar"]; expect 0 ["$3"; "1-1"];
     send 0 ["XADD"; "stream_key"; "1-1"; "bar"; "baz"];
     expect 0 ["-ERR The ID specified in XADD is equal or smaller than the target stream top item"];
     send 0 ["XADD"; "stream_key"; "0-2"; "bar"; "baz"];
     expect 0 ["-ERR The ID specified in XADD is equal or smaller than the target stream top item"]].
Definition accepts_an_id_that_grows_in_either_half : bool :=
  plays
    [Connects; send 0 ["XADD"; "stream_key"; "1-1"; "foo"; "bar"]; expect 0 ["$3"; "1-1"];
     send 0 ["XADD"; "stream_key"; "1-2"; "foo"; "bar"]; expect 0 ["$3"; "1-2"];
     send 0 ["XADD"; "stream_key"; "2-0"; "foo"; "bar"]; expect 0 ["$3"; "2-0"]].
Definition rejects_the_zero_id_and_accepts_the_one_above_it : bool :=
  plays
    [Connects; send 0 ["XADD"; "stream_key"; "0-0"; "baz"; "foo"];
     expect 0 ["-ERR The ID specified in XADD must be greater than 0-0"];
     send 0 ["XADD"; "stream_key"; "0-1"; "baz"; "foo"]; expect 0 ["$3"; "0-1"]].
Definition refuses_the_zero_id_even_on_a_string_key : bool :=
  plays
    [Connects; send 0 ["SET"; "foo"; "bar"]; expect 0 ["+OK"];
     send 0 ["XADD"; "foo"; "0-0"; "field"; "value"];
     expect 0 ["-ERR The ID specified in XADD must be greater than 0-0"]].
Definition generates_a_sequence_number_starting_at_zero : bool :=
  plays
    [Connects; send 0 ["XADD"; "stream_key"; "5-*"; "foo"; "bar"]; expect 0 ["$3"; "5-0"];
     send 0 ["XADD"; "stream_key"; "5-*"; "bar"; "baz"]; expect 0 ["$3"; "5-1"]].
Definition generates_a_sequence_number_starting_at_one_for_time_zero : bool :=
  plays
    [Connects; send 0 ["XADD"; "stream_key"; "0-*"; "foo"; "bar"]; expect 0 ["$3"; "0-1"];
     send 0 ["XADD"; "stream_key"; "0-*"; "bar"; "baz"]; expect 0 ["$3"; "0-2"]].
Definition continues_the_sequence_of_an_explicit_entry : bool :=
  plays
    [Connects; send 0 ["XADD"; "stream_key"; "5-3"; "foo"; "bar"]; expect 0 ["$3"; "5-3"];
     send 0 ["XADD"; "stream_key"; "5-*"; "bar"; "baz"]; expect 0 ["$3"; "5-4"]].
Definition restarts_the_sequence_for_a_later_millisecond : bool :=
  plays
    [Connects; send 0 ["XADD"; "stream_key"; "5-*"; "foo"; "bar"]; expect 0 ["$3"; "5-0"];
     send 0 ["XADD"; "stream_key"; "6-*"; "bar"; "baz"]; expect 0 ["$3"; "6-0"]].
Definition rejects_a_generated_id_that_lands_below_the_top : bool :=
  plays
    [Connects; send 0 ["XADD"; "stream_key"; "5-0"; "foo"; "bar"]; expect 0 ["$3"; "5-0"];
     send 0 ["XADD"; "stream_key"; "1-*"; "bar"; "baz"];
     expect 0 ["-ERR The ID specified in XADD is equal or smaller than the target stream top item"]].
Definition rejects_a_malformed_entry_id : bool :=
  plays
    [Connects; send 0 ["XADD"; "stream_key"; "one"; "foo"; "bar"];
     expect 0 ["-ERR Invalid stream ID specified as stream command argument"];
     send 0 ["XADD"; "stream_key"; "0-x"; "foo"; "bar"];
     expect 0 ["-ERR Invalid stream ID specified as stream command argument"]].
Definition rejects_fields_that_do_not_pair_up : bool :=
  plays
    [Connects; send 0 ["XADD"; "stream_key"; "0-1"];
     expect 0 ["-ERR wrong number of arguments for 'xadd' command"];
     send 0 ["XADD"; "stream_key"; "0-1"; "foo"];
     expect 0 ["-ERR wrong number of arguments for 'xadd' command"]].
Definition rejects_an_append_onto_a_string : bool :=
  plays
    [Connects; send 0 ["SET"; "foo"; "bar"]; expect 0 ["+OK"];
     send 0 ["XADD"; "foo"; "0-1"; "field"; "value"];
     expect 0 ["-WRONGTYPE Operation against a key holding the wrong kind of value"]].
Definition rejects_a_get_of_a_stream : bool :=
  plays
    [Connects; send 0 ["XADD"; "stream_key"; "0-1"; "foo"; "bar"]; expect 0 ["$3"; "0-1"];
     send 0 ["GET"; "stream_key"];
     expect 0 ["-WRONGTYPE Operation against a key holding the wrong kind of value"]].

(** ** tests/xrange.rs *)
Definition queries_a_range_of_entries : bool :=
  plays
    [Connects; send 0 ["XADD"; "stream_key"; "0-1"; "foo"; "bar"]; expect 0 ["$3"; "0-1"];
     send 0 ["XADD"; "stream_key"; "0-2"; "bar"; "baz"]; expect 0 ["$3"; "0-2"];
     send 0 ["XADD"; "stream_key"; "0-3"; "baz"; "foo"]; expect 0 ["$3"; "0-3"];
     send 0 ["XRANGE"; "stream_key"; "0-2"; "0-3"];
     expect 0 ["*2"; "*2"; "$3"; "0-2"; "*2"; "$3"; "bar"; "$3"; "baz"; "*2"; "$3"; "0-3"; "*2";
        "$3"; "baz"; "$3"; "foo"]].
Definition includes_the_entries_sitting_on_both_bounds : bool :=
  plays
    [Connects; send 0 ["XADD"; "stream_key"; "0-1"; "foo"; "bar"]; expect 0 ["$3"; "0-1"];
     send 0 ["XADD"; "stream_key"; "0-2"; "bar"; "baz"]; expect 0 ["$3"; "0-2"];
     send 0 ["XADD"; "stream_key"; "0-3"; "baz"; "foo"]; expect 0 ["$3"; "0-3"];
     send 0 ["XRANGE"; "stream_key"; "0-1"; "0-1"];
     expect 0 ["*1"; "*2"; "$3"; "0-1"; "*2"; "$3"; "foo"; "$3"; "bar"]].
Definition fills_in_a_missing_sequence_number_on_each_bound : bool :=
  plays
    [Connects; send 0 ["XADD"; "stream_key"; "1-1"; "a"; "1"]; expect 0 ["$3"; "1-1"];
     send 0 ["XADD"; "stream_key"; "2-1"; "b"; "2"]; expect 0 ["$3"; "2-1"];
     send 0 ["XADD"; "stream_key"; "3-1"; "c"; "3"]; expect 0 ["$3"; "3-1"];
     send 0 ["XRANGE"; "stream_key"; "2"; "2"];
     expect 0 ["*1"; "*2"; "$3"; "2-1"; "*2"; "$1"; "b"; "$1"; "2"]].
Definition replies_with_several_field_value_pairs_in_order : bool :=
  plays
    [Connects;
     send 0 ["XADD"; "stream_key"; "1526985054069-0"; "temperature"; "36"; "humidity"; "95"];
     expect 0 ["$15"; "1526985054069-0"];
     send 0 ["XRANGE"; "stream_key"; "1526985054069"; "1526985054069"];
     expect 0 ["*1"; "*2"; "$15"; "1526985054069-0"; "*4"; "$11"; "temperature"; "$2"; "36"; "$8";
        "humidity"; "$2"; "95"]].
Definition queries_from_the_start_of_the_stream_with_a_dash : bool :=
  plays
    [Connects; send 0 ["XADD"; "stream_key"; "0-1"; "foo"; "bar"]; expect 0 ["$3"; "0-1"];
     send 0 ["XADD"; "stream_key"; "0-2"; "bar"; "baz"]; expect 0 ["$3"; "0-2"];
     send 0 ["XADD"; "stream_key"; "0-3"; "baz"; "foo"]; expect 0 ["$3"; "0-3"];
     send 0 ["XRANGE"; "stream_key"; "-"; "0-2"];
     expect 0 ["*2"; "*2"; "$3"; "0-1"; "*2"; "$3"; "foo"; "$3"; "bar"; "*2"; "$3"; "0-2"; "*2";
        "$3"; "bar"; "$3"; "baz"]].
Definition queries_to_the_end_of_the_stream_with_a_plus : bool :=
  plays
    [Connects; send 0 ["XADD"; "stream_key"; "0-1"; "foo"; "bar"]; expect 0 ["$3"; "0-1"];
     send 0 ["XADD"; "stream_key"; "0-2"; "bar"; "baz"]; expect 0 ["$3"; "0-2"];
     send 0 ["XADD"; "stream_key"; "0-3"; "baz"; "foo"]; expect 0 ["$3"; "0-3"];
     send 0 ["XRANGE"; "stream_key"; "0-2"; "+"];
     expect 0 ["*2"; "*2"; "$3"; "0-2"; "*2"; "$3"; "bar"; "$3"; "baz"; "*2"; "$3"; "0-3"; "*2";
        "$3"; "baz"; "$3"; "foo"]].
Definition queries_the_whole_stream_with_both_ends : bool :=
  plays
    [Connects; send 0 ["XADD"; "stream_key"; "0-1"; "foo"; "bar"]; expect 0 ["$3"; "0-1"];
     send 0 ["XADD"; "stream_key"; "0-2"; "bar"; "baz"]; expect 0 ["$3"; "0-2"];
     send 0 ["XADD"; "stream_key"; "0-3"; "baz"; "foo"]; expect 0 ["$3"; "0-3"];
     send 0 ["XRANGE"; "stream_key"; "-"; "+"];
     expect 0 ["*3"; "*2"; "$3"; "0-1"; "*2"; "$3"; "foo"; "$3"; "bar"; "*2"; "$3"; "0-2"; "*2";
        "$3"; "bar"; "$3"; "baz"; "*2"; "$3"; "0-3"; "*2"; "$3"; "baz"; "$3"; "foo"]].
Definition returns_an_empty_array_when_nothing_is_in_range : bool :=
  plays
    [Connects; send 0 ["XADD"; "stream_key"; "0-1"; "foo"; "bar"]; expect 0 ["$3"; "0-1"];
     send 0 ["XADD"; "stream_key"; "0-2"; "bar"; "baz"]; expect 0 ["$3"; "0-2"];
     send 0 ["XADD"; "stream_key"; "0-3"; "baz"; "foo"]; expect 0 ["$3"; "0-3"];
     send 0 ["XRANGE"; "stream_key"; "0-4"; "0-9"]; expect 0 ["*0"];
     send 0 ["XRANGE"; "missing_stream"; "0-1"; "0-9"]; expect 0 ["*0"]].
Definition holds_stream_fields_that_are_not_text : bool :=
  plays
    [Connects;
     Sends 0 (encode (Array [BulkString (lit "XADD"); BulkString (lit "stream_key");
        BulkString (lit "0-1"); BulkString ([xff]); BulkString ([x00; x01])]));
     expect 0 ["$3"; "0-1"]; send 0 ["XRANGE"; "stream_key"; "-"; "+"];
     Hears 0 (on_lines ["*1"; "*2"; "$3"; "0-1"; "*2"; "$1"] ++ [xff; x0d;
        x0a] ++ on_lines ["$2"] ++ [x00; x01; x0d; x0a])].
Definition rejects_a_range_with_a_malformed_bound : bool :=
  plays
    [Connects; send 0 ["XADD"; "stream_key"; "0-1"; "foo"; "bar"]; expect 0 ["$3"; "0-1"];
     send 0 ["XADD"; "stream_key"; "0-2"; "bar"; "baz"]; expect 0 ["$3"; "0-2"];
     send 0 ["XADD"; "stream_key"; "0-3"; "baz"; "foo"]; expect 0 ["$3"; "0-3"];
     send 0 ["XRANGE"; "stream_key"; "0-1"; "later"];
     expect 0 ["-ERR Invalid stream ID specified as stream command argument"]].
Definition rejects_a_stream_range_over_a_list : bool :=
  plays
    [Connects; send 0 ["RPUSH"; "list_key"; "element"]; expect 0 [":1"];
     send 0 ["XRANGE"; "list_key"; "0-1"; "0-9"];
     expect 0 ["-WRONGTYPE Operation against a key holding the wrong kind of value"]].

(** ** tests/xread.rs *)
Definition reads_the_entries_recorded_after_an_id : bool :=
  plays
    [Connects; send 0 ["XADD"; "stream_key"; "0-1"; "temperature"; "96"]; expect 0 ["$3"; "0-1"];
     send 0 ["XREAD"; "STREAMS"; "stream_key"; "0-0"];
     expect 0 ["*1"; "*2"; "$10"; "stream_key"; "*1"; "*2"; "$3"; "0-1"; "*2"; "$11"; "temperature";
        "$2"; "96"]].
Definition leaves_out_the_entry_carrying_the_given_id : bool :=
  plays
    [Connects; send 0 ["XADD"; "stream_key"; "0-1"; "foo"; "bar"]; expect 0 ["$3"; "0-1"];
     send 0 ["XADD"; "stream_key"; "0-2"; "bar"; "baz"]; expect 0 ["$3"; "0-2"];
     send 0 ["XADD"; "stream_key"; "0-3"; "baz"; "foo"]; expect 0 ["$3"; "0-3"];
     send 0 ["XREAD"; "STREAMS"; "stream_key"; "0-2"];
     expect 0 ["*1"; "*2"; "$10"; "stream_key"; "*1"; "*2"; "$3"; "0-3"; "*2"; "$3"; "baz"; "$3";
        "foo"]].
Definition replies_with_nothing_when_no_entry_is_newer : bool :=
  plays
    [Connects; send 0 ["XADD"; "stream_key"; "0-1"; "foo"; "bar"]; expect 0 ["$3"; "0-1"];
     send 0 ["XADD"; "stream_key"; "0-2"; "bar"; "baz"]; expect 0 ["$3"; "0-2"];
     send 0 ["XADD"; "stream_key"; "0-3"; "baz"; "foo"]; expect 0 ["$3"; "0-3"];
     send 0 ["XREAD"; "STREAMS"; "stream_key"; "0-3"]; expect 0 ["*-1"];
     send 0 ["XREAD"; "STREAMS"; "missing_stream"; "0-0"]; expect 0 ["*-1"]].
Definition accepts_any_casing_of_the_streams_keyword : bool :=
  plays
    [Connects; send 0 ["XADD"; "stream_key"; "0-1"; "foo"; "bar"]; expect 0 ["$3"; "0-1"];
     send 0 ["XADD"; "stream_key"; "0-2"; "bar"; "baz"]; expect 0 ["$3"; "0-2"];
     send 0 ["XADD"; "stream_key"; "0-3"; "baz"; "foo"]; expect 0 ["$3"; "0-3"];
     send 0 ["XREAD"; "streams"; "stream_key"; "0-2"];
     expect 0 ["*1"; "*2"; "$10"; "stream_key"; "*1"; "*2"; "$3"; "0-3"; "*2"; "$3"; "baz"; "$3";
        "foo"]].
Definition rejects_a_read_without_the_streams_keyword : bool :=
  plays
    [Connects; send 0 ["XADD"; "stream_key"; "0-1"; "foo"; "bar"]; expect 0 ["$3"; "0-1"];
     send 0 ["XADD"; "stream_key"; "0-2"; "bar"; "baz"]; expect 0 ["$3"; "0-2"];
     send 0 ["XADD"; "stream_key"; "0-3"; "baz"; "foo"]; expect 0 ["$3"; "0-3"];
     send 0 ["XREAD"; "COUNT"; "stream_key"; "0-0"]; expect 0 ["-ERR syntax error"];
     send 0 ["XREAD"]; expect 0 ["-ERR wrong number of arguments for 'xread' command"]].
Definition rejects_a_read_whose_keys_and_ids_do_not_pair_up : bool :=
  plays
    [Connects; send 0 ["XADD"; "stream_key"; "0-1"; "foo"; "bar"]; expect 0 ["$3"; "0-1"];
     send 0 ["XADD"; "stream_key"; "0-2"; "bar"; "baz"]; expect 0 ["$3"; "0-2"];
     send 0 ["XADD"; "stream_key"; "0-3"; "baz"; "foo"]; expect 0 ["$3"; "0-3"];
     send 0 ["XREAD"; "STREAMS"; "stream_key"];
     expect 0 ["-ERR Unbalanced XREAD list of streams: for each stream key an ID or '$' must be specified."];
     send 0 ["XREAD"; "STREAMS"; "stream_key"; "other_key"; "0-0"];
     expect 0 ["-ERR Unbalanced XREAD list of streams: for each stream key an ID or '$' must be specified."];
     send 0 ["XREAD"; "STREAMS"];
     expect 0 ["-ERR Unbalanced XREAD list of streams: for each stream key an ID or '$' must be specified."]].
Definition reads_several_streams_in_the_order_they_were_asked_for : bool :=
  plays
    [Connects; send 0 ["XADD"; "stream_key"; "0-1"; "temperature"; "95"]; expect 0 ["$3"; "0-1"];
     send 0 ["XADD"; "other_stream_key"; "0-2"; "humidity"; "97"]; expect 0 ["$3"; "0-2"];
     send 0 ["XREAD"; "STREAMS"; "stream_key"; "other_stream_key"; "0-0"; "0-1"];
     expect 0 ["*2"; "*2"; "$10"; "stream_key"; "*1"; "*2"; "$3"; "0-1"; "*2"; "$11"; "temperature";
        "$2"; "95"; "*2"; "$16"; "other_stream_key"; "*1"; "*2"; "$3"; "0-2"; "*2"; "$8";
        "humidity"; "$2"; "97"]].
Definition leaves_out_the_streams_with_nothing_new : bool :=
  plays
    [Connects; send 0 ["XADD"; "quiet_stream"; "0-1"; "a"; "1"]; expect 0 ["$3"; "0-1"];
     send 0 ["XADD"; "busy_stream"; "0-1"; "b"; "2"]; expect 0 ["$3"; "0-1"];
     send 0 ["XREAD"; "STREAMS"; "quiet_stream"; "busy_stream"; "0-1"; "0-0"];
     expect 0 ["*1"; "*2"; "$11"; "busy_stream"; "*1"; "*2"; "$3"; "0-1"; "*2"; "$1"; "b"; "$1";
        "2"]].
Definition rejects_a_stream_read_over_a_list : bool :=
  plays
    [Connects; send 0 ["RPUSH"; "list_key"; "element"]; expect 0 [":1"];
     send 0 ["XREAD"; "STREAMS"; "list_key"; "0-0"];
     expect 0 ["-WRONGTYPE Operation against a key holding the wrong kind of value"]].
Definition a_blocking_read_returns_what_is_already_there : bool :=
  plays
    [Connects; send 0 ["XADD"; "stream_key"; "0-1"; "foo"; "bar"]; expect 0 ["$3"; "0-1"];
     send 0 ["XADD"; "stream_key"; "0-2"; "bar"; "baz"]; expect 0 ["$3"; "0-2"];
     send 0 ["XADD"; "stream_key"; "0-3"; "baz"; "foo"]; expect 0 ["$3"; "0-3"];
     send 0 ["XREAD"; "BLOCK"; "1000"; "STREAMS"; "stream_key"; "0-2"];
     expect 0 ["*1"; "*2"; "$10"; "stream_key"; "*1"; "*2"; "$3"; "0-3"; "*2"; "$3"; "baz"; "$3";
        "foo"]].
Definition a_blocking_read_waits_for_an_entry_to_arrive : bool :=
  plays
    [Connects; Connects; send 1 ["XADD"; "stream_key"; "0-1"; "temperature"; "96"];
     expect 1 ["$3"; "0-1"]; send 0 ["XREAD"; "BLOCK"; "1000"; "STREAMS"; "stream_key"; "0-1"];
     Sleeps 100; send 1 ["XADD"; "stream_key"; "0-2"; "temperature"; "95"]; expect 1 ["$3"; "0-2"];
     expect 0 ["*1"; "*2"; "$10"; "stream_key"; "*1"; "*2"; "$3"; "0-2"; "*2"; "$11"; "temperature";
        "$2"; "95"]].
Definition a_zero_timeout_waits_for_as_long_as_it_takes : bool :=
  plays
    [Connects; Connects; send 1 ["XADD"; "stream_key"; "0-1"; "temperature"; "96"];
     expect 1 ["$3"; "0-1"]; send 0 ["XREAD"; "BLOCK"; "0"; "STREAMS"; "stream_key"; "0-1"];
     Sleeps 500; send 1 ["XADD"; "stream_key"; "0-2"; "temperature"; "95"]; expect 1 ["$3"; "0-2"];
     expect 0 ["*1"; "*2"; "$10"; "stream_key"; "*1"; "*2"; "$3"; "0-2"; "*2"; "$11"; "temperature";
        "$2"; "95"]].
Definition a_dollar_reads_only_what_arrives_after_the_command : bool :=
  plays
    [Connects; Connects; send 1 ["XADD"; "stream_key"; "0-1"; "temperature"; "96"];
     expect 1 ["$3"; "0-1"]; send 0 ["XREAD"; "BLOCK"; "0"; "STREAMS"; "stream_key"; "$"];
     Sleeps 100; send 1 ["XADD"; "stream_key"; "0-2"; "temperature"; "95"]; expect 1 ["$3"; "0-2"];
     expect 0 ["*1"; "*2"; "$10"; "stream_key"; "*1"; "*2"; "$3"; "0-2"; "*2"; "$11"; "temperature";
        "$2"; "95"]].
Definition a_dollar_times_out_when_nothing_new_arrives : bool :=
  plays
    [Connects; send 0 ["XADD"; "stream_key"; "0-1"; "foo"; "bar"]; expect 0 ["$3"; "0-1"];
     send 0 ["XADD"; "stream_key"; "0-2"; "bar"; "baz"]; expect 0 ["$3"; "0-2"];
     send 0 ["XADD"; "stream_key"; "0-3"; "baz"; "foo"]; expect 0 ["$3"; "0-3"];
     send 0 ["XREAD"; "BLOCK"; "100"; "STREAMS"; "stream_key"; "$"]; expect 0 ["*-1"]].
Definition a_dollar_on_a_stream_that_does_not_exist_yet_waits_for_its_first_entry : bool :=
  plays
    [Connects; Connects; send 0 ["XREAD"; "BLOCK"; "0"; "STREAMS"; "new_stream"; "$"]; Sleeps 100;
     send 1 ["XADD"; "new_stream"; "0-1"; "a"; "1"]; expect 1 ["$3"; "0-1"];
     expect 0 ["*1"; "*2"; "$10"; "new_stream"; "*1"; "*2"; "$3"; "0-1"; "*2"; "$1"; "a"; "$1"; "1"]].
Definition a_blocking_read_gives_up_once_the_timeout_passes : bool :=
  plays
    [Connects; send 0 ["XADD"; "stream_key"; "0-1"; "foo"; "bar"]; expect 0 ["$3"; "0-1"];
     send 0 ["XADD"; "stream_key"; "0-2"; "bar"; "baz"]; expect 0 ["$3"; "0-2"];
     send 0 ["XADD"; "stream_key"; "0-3"; "baz"; "foo"]; expect 0 ["$3"; "0-3"];
     send 0 ["XREAD"; "BLOCK"; "100"; "STREAMS"; "stream_key"; "0-3"]; expect 0 ["*-1"]].
Definition one_entry_wakes_every_blocked_reader : bool :=
  plays
    [Connects; Connects; Connects;
     send 0 ["XREAD"; "BLOCK"; "1000"; "STREAMS"; "stream_key"; "0-0"];
     send 1 ["XREAD"; "BLOCK"; "1000"; "STREAMS"; "stream_key"; "0-0"]; Sleeps 100;
     send 2 ["XADD"; "stream_key"; "0-1"; "a"; "1"]; expect 2 ["$3"; "0-1"];
     expect 0 ["*1"; "*2"; "$10"; "stream_key"; "*1"; "*2"; "$3"; "0-1"; "*2"; "$1"; "a"; "$1";
        "1"];
     expect 1 ["*1"; "*2"; "$10"; "stream_key"; "*1"; "*2"; "$3"; "0-1"; "*2"; "$1"; "a"; "$1"; "1"]].
Definition a_blocking_read_wakes_on_whichever_stream_grows : bool :=
  plays
    [Connects; Connects;
     send 0 ["XREAD"; "BLOCK"; "1000"; "STREAMS"; "first_stream"; "second_stream"; "0-0"; "0-0"];
     Sleeps 100; send 1 ["XADD"; "second_stream"; "0-1"; "b"; "2"]; expect 1 ["$3"; "0-1"];
     expect 0 ["*1"; "*2"; "$13"; "second_stream"; "*1"; "*2"; "$3"; "0-1"; "*2"; "$1"; "b"; "$1";
        "2"]].

Lemma scenarios_streams_pass :
  all_pass
    [creates_a_stream_and_returns_the_entry_id; appends_to_an_existing_stream;
     accepts_several_field_value_pairs; rejects_an_id_that_does_not_beat_the_last_one;
     accepts_an_id_that_grows_in_either_half; rejects_the_zero_id_and_accepts_the_one_above_it;
     refuses_the_zero_id_even_on_a_string_key; generates_a_sequence_number_starting_at_zero;
     generates_a_sequence_number_starting_at_one_for_time_zero;
     continues_the_sequence_of_an_explicit_entry; restarts_the_sequence_for_a_later_millisecond;
     rejects_a_generated_id_that_lands_below_the_top; rejects_a_malformed_entry_id;
     rejects_fields_that_do_not_pair_up; rejects_an_append_onto_a_string; rejects_a_get_of_a_stream;
     queries_a_range_of_entries; includes_the_entries_sitting_on_both_bounds;
     fills_in_a_missing_sequence_number_on_each_bound;
     replies_with_several_field_value_pairs_in_order;
     queries_from_the_start_of_the_stream_with_a_dash; queries_to_the_end_of_the_stream_with_a_plus;
     queries_the_whole_stream_with_both_ends; returns_an_empty_array_when_nothing_is_in_range;
     holds_stream_fields_that_are_not_text; rejects_a_range_with_a_malformed_bound;
     rejects_a_stream_range_over_a_list; reads_the_entries_recorded_after_an_id;
     leaves_out_the_entry_carrying_the_given_id; replies_with_nothing_when_no_entry_is_newer;
     accepts_any_casing_of_the_streams_keyword; rejects_a_read_without_the_streams_keyword;
     rejects_a_read_whose_keys_and_ids_do_not_pair_up;
     reads_several_streams_in_the_order_they_were_asked_for;
     leaves_out_the_streams_with_nothing_new; rejects_a_stream_read_over_a_list;
     a_blocking_read_returns_what_is_already_there; a_blocking_read_waits_for_an_entry_to_arrive;
     a_zero_timeout_waits_for_as_long_as_it_takes;
     a_dollar_reads_only_what_arrives_after_the_command;
     a_dollar_times_out_when_nothing_new_arrives;
     a_dollar_on_a_stream_that_does_not_exist_yet_waits_for_its_first_entry;
     a_blocking_read_gives_up_once_the_timeout_passes; one_entry_wakes_every_blocked_reader;
     a_blocking_read_wakes_on_whichever_stream_grows] = true.
Proof. passes. Qed.
