(* ===== verification/ScenariosSorted.v ===== *)
(** * Scenarios: sorted sets and the places kept in them

    The tests of src/tests/sorted_sets.rs, src/tests/geo.rs, translated under their
    own names and played on the definitions of this development ([Playing]): sorted
    sets and the places kept in them. Each starts a server of its own, and is what
    its clients send and what they are to hear; a loop in a test is written out. *)
From S2P Require Import Prelude Text Resp Testing Playing.
Open Scope Z_scope.
Open Scope nat_scope.

(** ** tests/sorted_sets.rs *)
Definition takes_a_member_named_in_bytes_that_are_not_text : bool :=
  plays
    [Connects;
     Sends 0 (on_lines ["*4"; "$4"; "ZADD"; "$6"; "racers"; "$3"; "8.0"; "$4"] ++ [xff; x00; x0d;
        x0a; x0d; x0a]);
     expect 0 [":1"]].
Definition refuses_to_add_to_a_key_holding_something_else : bool :=
  plays
    [Connects; send 0 ["SET"; "racers"; "a string"]; expect 0 ["+OK"];
     send 0 ["ZADD"; "racers"; "8.0"; "Sam"];
     expect 0 ["-WRONGTYPE Operation against a key holding the wrong kind of value"]].
Definition says_where_each_member_falls_in_the_order : bool :=
  plays
    [Connects; send 0 ["ZADD"; "zset_key"; "100.0"; "foo"]; expect 0 [":1"];
     send 0 ["ZADD"; "zset_key"; "100.0"; "bar"]; expect 0 [":1"];
     send 0 ["ZADD"; "zset_key"; "20.0"; "baz"]; expect 0 [":1"];
     send 0 ["ZADD"; "zset_key"; "30.1"; "caz"]; expect 0 [":1"];
     send 0 ["ZADD"; "zset_key"; "40.2"; "paz"]; expect 0 [":1"];
     send 0 ["ZRANK"; "zset_key"; "baz"]; expect 0 [":0"]; send 0 ["ZRANK"; "zset_key"; "caz"];
     expect 0 [":1"]; send 0 ["ZRANK"; "zset_key"; "paz"]; expect 0 [":2"];
     send 0 ["ZRANK"; "zset_key"; "bar"]; expect 0 [":3"]; send 0 ["ZRANK"; "zset_key"; "foo"];
     expect 0 [":4"]].
Definition says_nothing_of_a_member_or_a_set_that_is_not_there : bool :=
  plays
    [Connects; send 0 ["ZADD"; "zset_key"; "1.0"; "member"]; expect 0 [":1"];
     send 0 ["ZRANK"; "zset_key"; "missing_member"]; expect 0 ["$-1"];
     send 0 ["ZRANK"; "missing_key"; "member"]; expect 0 ["$-1"]].
Definition lists_the_members_between_two_places_in_the_order : bool :=
  plays
    [Connects; send 0 ["ZADD"; "zset_key"; "100.0"; "foo"]; expect 0 [":1"];
     send 0 ["ZADD"; "zset_key"; "100.0"; "bar"]; expect 0 [":1"];
     send 0 ["ZADD"; "zset_key"; "20.0"; "baz"]; expect 0 [":1"];
     send 0 ["ZADD"; "zset_key"; "30.1"; "caz"]; expect 0 [":1"];
     send 0 ["ZADD"; "zset_key"; "40.2"; "paz"]; expect 0 [":1"];
     send 0 ["ZRANGE"; "zset_key"; "2"; "4"];
     expect 0 ["*3"; "$3"; "paz"; "$3"; "bar"; "$3"; "foo"];
     send 0 ["ZRANGE"; "zset_key"; "0"; "1"]; expect 0 ["*2"; "$3"; "baz"; "$3"; "caz"];
     send 0 ["ZRANGE"; "zset_key"; "-2"; "-1"]; expect 0 ["*2"; "$3"; "bar"; "$3"; "foo"]].
Definition lists_nothing_of_a_set_that_is_not_there : bool :=
  plays
    [Connects; send 0 ["ZRANGE"; "missing_key"; "0"; "9"]; expect 0 ["*0"]].
Definition refuses_a_window_that_is_not_counted_in_whole_numbers : bool :=
  plays
    [Connects; send 0 ["ZADD"; "zset_key"; "100.0"; "foo"]; expect 0 [":1"];
     send 0 ["ZADD"; "zset_key"; "100.0"; "bar"]; expect 0 [":1"];
     send 0 ["ZADD"; "zset_key"; "20.0"; "baz"]; expect 0 [":1"];
     send 0 ["ZADD"; "zset_key"; "30.1"; "caz"]; expect 0 [":1"];
     send 0 ["ZADD"; "zset_key"; "40.2"; "paz"]; expect 0 [":1"];
     send 0 ["ZRANGE"; "zset_key"; "one"; "2"];
     expect 0 ["-ERR value is not an integer or out of range"];
     send 0 ["ZRANGE"; "zset_key"; "0"; "two"];
     expect 0 ["-ERR value is not an integer or out of range"];
     send 0 ["ZRANGE"; "zset_key"; "0.5"; "2"];
     expect 0 ["-ERR value is not an integer or out of range"]].
Definition refuses_a_zrange_that_names_no_window : bool :=
  plays
    [Connects; send 0 ["ZRANGE"; "zset_key"; "0"];
     expect 0 ["-ERR wrong number of arguments for 'zrange' command"]].
Definition takes_out_the_member_it_is_given : bool :=
  plays
    [Connects; send 0 ["ZADD"; "zset_key"; "80.5"; "foo"]; expect 0 [":1"];
     send 0 ["ZADD"; "zset_key"; "50.3"; "baz"]; expect 0 [":1"];
     send 0 ["ZADD"; "zset_key"; "80.5"; "bar"]; expect 0 [":1"];
     send 0 ["ZREM"; "zset_key"; "baz"]; expect 0 [":1"]; send 0 ["ZRANGE"; "zset_key"; "0"; "-1"];
     expect 0 ["*2"; "$3"; "bar"; "$3"; "foo"]; send 0 ["ZREM"; "zset_key"; "missing_member"];
     expect 0 [":0"]].
Definition lets_go_of_a_key_whose_set_it_has_emptied : bool :=
  plays
    [Connects; send 0 ["ZADD"; "racers"; "1.0"; "only"]; expect 0 [":1"];
     send 0 ["ZREM"; "racers"; "only"]; expect 0 [":1"]; send 0 ["TYPE"; "racers"];
     expect 0 ["+none"]; send 0 ["KEYS"; "*"]; expect 0 ["*0"]; send 0 ["ZCARD"; "racers"];
     expect 0 [":0"]].
Definition refuses_a_zrem_that_names_no_member : bool :=
  plays
    [Connects; send 0 ["ZREM"]; expect 0 ["-ERR wrong number of arguments for 'zrem' command"];
     send 0 ["ZREM"; "racers"]; expect 0 ["-ERR wrong number of arguments for 'zrem' command"]].
Definition says_the_score_a_member_was_given : bool :=
  plays
    [Connects; send 0 ["ZADD"; "zset_key"; "30.1"; "zset_member"]; expect 0 [":1"];
     send 0 ["ZSCORE"; "zset_key"; "zset_member"]; expect 0 ["$4"; "30.1"];
     send 0 ["ZADD"; "zset_key"; "100.99"; "zset_member"]; expect 0 [":0"];
     send 0 ["ZSCORE"; "zset_key"; "zset_member"]; expect 0 ["$6"; "100.99"]].
Definition writes_a_score_back_out_the_way_redis_writes_one : bool :=
  plays
    [Connects; send 0 ["ZADD"; "racers"; "24.34"; "member"]; HearsReply 0;
     send 0 ["ZSCORE"; "racers"; "member"]; expect 0 ["$5"; "24.34"];
     send 0 ["ZADD"; "racers"; "0.0043"; "member"]; HearsReply 0;
     send 0 ["ZSCORE"; "racers"; "member"]; expect 0 ["$6"; "0.0043"];
     send 0 ["ZADD"; "racers"; "-1.5"; "member"]; HearsReply 0;
     send 0 ["ZSCORE"; "racers"; "member"]; expect 0 ["$4"; "-1.5"];
     send 0 ["ZADD"; "racers"; "20.0"; "member"]; HearsReply 0;
     send 0 ["ZSCORE"; "racers"; "member"]; expect 0 ["$2"; "20"];
     send 0 ["ZADD"; "racers"; "8"; "member"]; HearsReply 0; send 0 ["ZSCORE"; "racers"; "member"];
     expect 0 ["$1"; "8"]; send 0 ["ZADD"; "racers"; "1e3"; "member"]; HearsReply 0;
     send 0 ["ZSCORE"; "racers"; "member"]; expect 0 ["$4"; "1000"];
     send 0 ["ZADD"; "racers"; "inf"; "member"]; HearsReply 0;
     send 0 ["ZSCORE"; "racers"; "member"]; expect 0 ["$3"; "inf"];
     send 0 ["ZADD"; "racers"; "-inf"; "member"]; HearsReply 0;
     send 0 ["ZSCORE"; "racers"; "member"]; expect 0 ["$4"; "-inf"]].
Definition counts_the_members_a_set_holds : bool :=
  plays
    [Connects; send 0 ["ZADD"; "zset_key"; "100.0"; "foo"]; expect 0 [":1"];
     send 0 ["ZADD"; "zset_key"; "100.0"; "bar"]; expect 0 [":1"];
     send 0 ["ZADD"; "zset_key"; "20.0"; "baz"]; expect 0 [":1"];
     send 0 ["ZADD"; "zset_key"; "30.1"; "caz"]; expect 0 [":1"];
     send 0 ["ZADD"; "zset_key"; "40.2"; "paz"]; expect 0 [":1"]; send 0 ["ZCARD"; "zset_key"];
     expect 0 [":5"]; send 0 ["ZCARD"; "missing_key"]; expect 0 [":0"]].
Definition refuses_a_zcard_that_names_no_key : bool :=
  plays
    [Connects; send 0 ["ZCARD"]; expect 0 ["-ERR wrong number of arguments for 'zcard' command"];
     send 0 ["ZCARD"; "racers"; "extra"];
     expect 0 ["-ERR wrong number of arguments for 'zcard' command"]].
Definition calls_what_it_made_a_sorted_set : bool :=
  plays
    [Connects; send 0 ["ZADD"; "racers"; "8.0"; "Sam"]; HearsReply 0; send 0 ["TYPE"; "racers"];
     expect 0 ["+zset"]].
Definition lists_the_key_it_made_alongside_the_others : bool :=
  plays
    [Connects; send 0 ["ZADD"; "racers"; "8.0"; "Sam"]; HearsReply 0; send 0 ["KEYS"; "*"];
     expect 0 ["*1"; "$6"; "racers"]].
Definition accepts_any_casing_of_the_command : bool :=
  plays
    [Connects; send 0 ["ZADD"; "racers"; "8.0"; "one"]; expect 0 [":1"];
     send 0 ["zadd"; "racers"; "8.0"; "two"]; expect 0 [":1"];
     send 0 ["Zadd"; "racers"; "8.0"; "three"]; expect 0 [":1"]].

(** ** tests/geo.rs *)
Definition keeps_a_location_under_the_score_redis_keeps_it_under : bool :=
  plays
    [Connects; send 0 ["GEOADD"; "places"; "2.2944692"; "48.8584625"; "Paris"]; expect 0 [":1"];
     send 0 ["ZSCORE"; "places"; "Paris"]; expect 0 ["$16"; "3663832614298053"];
     send 0 ["GEOADD"; "places"; "-0.1277583"; "51.5073509"; "London"]; expect 0 [":1"];
     send 0 ["ZSCORE"; "places"; "London"]; expect 0 ["$16"; "2163557714754256"];
     send 0 ["GEOADD"; "places"; "100.5252"; "13.7220"; "Bangkok"]; expect 0 [":1"];
     send 0 ["ZSCORE"; "places"; "Bangkok"]; expect 0 ["$16"; "3962257306574459"];
     send 0 ["GEOADD"; "places"; "139.6917"; "35.6895"; "Tokyo"]; expect 0 [":1"];
     send 0 ["ZSCORE"; "places"; "Tokyo"]; expect 0 ["$16"; "4171231230197045"];
     send 0 ["GEOADD"; "places"; "-74.0060"; "40.7128"; "New York"]; expect 0 [":1"];
     send 0 ["ZSCORE"; "places"; "New York"]; expect 0 ["$16"; "1791873974549446"];
     send 0 ["GEOADD"; "places"; "151.2093"; "-33.8688"; "Sydney"]; expect 0 [":1"];
     send 0 ["ZSCORE"; "places"; "Sydney"]; expect 0 ["$16"; "3252046221964352"]].
Definition keeps_the_places_of_the_world_in_the_order_of_their_scores : bool :=
  plays
    [Connects; send 0 ["GEOADD"; "places"; "-74.0060"; "40.7128"; "New York"]; expect 0 [":1"];
     send 0 ["GEOADD"; "places"; "139.6917"; "35.6895"; "Tokyo"]; expect 0 [":1"];
     send 0 ["GEOADD"; "places"; "2.2944692"; "48.8584625"; "Paris"]; expect 0 [":1"];
     send 0 ["ZRANGE"; "places"; "0"; "-1"];
     expect 0 ["*3"; "$8"; "New York"; "$5"; "Paris"; "$5"; "Tokyo"]].
Definition keeps_each_of_the_locations_it_was_given : bool :=
  plays
    [Connects;
     send 0 ["GEOADD"; "places"; "-0.0884948"; "51.5006479"; "London"; "11.5030378"; "48.1642721";
        "Munich"];
     expect 0 [":2"]; send 0 ["ZCARD"; "places"]; expect 0 [":2"];
     send 0 ["ZRANGE"; "places"; "0"; "-1"]; expect 0 ["*2"; "$6"; "London"; "$6"; "Munich"]].
Definition refuses_to_keep_a_location_under_a_key_holding_something_else : bool :=
  plays
    [Connects; send 0 ["SET"; "places"; "a string"]; expect 0 ["+OK"];
     send 0 ["GEOADD"; "places"; "2.2944692"; "48.8584625"; "Paris"];
     expect 0 ["-WRONGTYPE Operation against a key holding the wrong kind of value"]].
Definition calls_what_it_made_a_sorted_set_in_geo : bool :=
  plays
    [Connects; send 0 ["GEOADD"; "places"; "2.2944692"; "48.8584625"; "Paris"]; HearsReply 0;
     send 0 ["TYPE"; "places"]; expect 0 ["+zset"]].
Definition says_how_far_apart_two_places_are : bool :=
  plays
    [Connects; send 0 ["GEOADD"; "places"; "11.5030378"; "48.164271"; "Munich"]; expect 0 [":1"];
     send 0 ["GEOADD"; "places"; "2.2944692"; "48.8584625"; "Paris"]; expect 0 [":1"];
     send 0 ["GEODIST"; "places"; "Munich"; "Paris"]; expect 0 ["$11"; "682477.7582"];
     send 0 ["GEODIST"; "places"; "Munich"; "Paris"; "km"]; expect 0 ["$8"; "682.4778"]].
Definition finds_the_places_within_the_way_it_was_given : bool :=
  plays
    [Connects; send 0 ["GEOADD"; "places"; "11.5030378"; "48.164271"; "Munich"]; expect 0 [":1"];
     send 0 ["GEOADD"; "places"; "2.2944692"; "48.8584625"; "Paris"]; expect 0 [":1"];
     send 0 ["GEOADD"; "places"; "-0.0884948"; "51.5006479"; "London"]; expect 0 [":1"];
     send 0 ["GEOSEARCH"; "places"; "FROMLONLAT"; "2"; "48"; "BYRADIUS"; "100000"; "m"];
     expect 0 ["*1"; "$5"; "Paris"]].
Definition finds_nothing_where_there_is_nothing_to_find : bool :=
  plays
    [Connects; send 0 ["GEOADD"; "places"; "11.5030378"; "48.164271"; "Munich"]; expect 0 [":1"];
     send 0 ["GEOADD"; "places"; "2.2944692"; "48.8584625"; "Paris"]; expect 0 [":1"];
     send 0 ["GEOADD"; "places"; "-0.0884948"; "51.5006479"; "London"]; expect 0 [":1"];
     send 0 ["GEOSEARCH"; "places"; "FROMLONLAT"; "-160"; "0"; "BYRADIUS"; "1000"; "m"];
     expect 0 ["*0"];
     send 0 ["GEOSEARCH"; "missing_key"; "FROMLONLAT"; "2"; "48"; "BYRADIUS"; "500000"; "m"];
     expect 0 ["*0"]].
Definition accepts_any_casing_of_the_command_in_geo : bool :=
  plays
    [Connects; send 0 ["GEOADD"; "places"; "11.5030378"; "48.1642721"; "one"]; expect 0 [":1"];
     send 0 ["geoadd"; "places"; "11.5030378"; "48.1642721"; "two"]; expect 0 [":1"];
     send 0 ["GeoAdd"; "places"; "11.5030378"; "48.1642721"; "three"]; expect 0 [":1"]].
Definition keeps_serving_the_connection_after_a_geoadd : bool :=
  plays
    [Connects; send 0 ["GEOADD"; "places"; "11.5030378"; "48.1642721"; "Munich"]; HearsReply 0;
     send 0 ["PING"]; expect 0 ["+PONG"]].

Lemma scenarios_sorted_pass :
  all_pass
    [takes_a_member_named_in_bytes_that_are_not_text;
     refuses_to_add_to_a_key_holding_something_else; says_where_each_member_falls_in_the_order;
     says_nothing_of_a_member_or_a_set_that_is_not_there;
     lists_the_members_between_two_places_in_the_order; lists_nothing_of_a_set_that_is_not_there;
     refuses_a_window_that_is_not_counted_in_whole_numbers; refuses_a_zrange_that_names_no_window;
     takes_out_the_member_it_is_given; lets_go_of_a_key_whose_set_it_has_emptied;
     refuses_a_zrem_that_names_no_member; says_the_score_a_member_was_given;
     writes_a_score_back_out_the_way_redis_writes_one; counts_the_members_a_set_holds;
     refuses_a_zcard_that_names_no_key; calls_what_it_made_a_sorted_set;
     lists_the_key_it_made_alongside_the_others; accepts_any_casing_of_the_command;
     keeps_a_location_under_the_score_redis_keeps_it_under;
     keeps_the_places_of_the_world_in_the_order_of_their_scores;
     keeps_each_of_the_locations_it_was_given;
     refuses_to_keep_a_location_under_a_key_holding_something_else;
     calls_what_it_made_a_sorted_set_in_geo; says_how_far_apart_two_places_are;
     finds_the_places_within_the_way_it_was_given; finds_nothing_where_there_is_nothing_to_find;
     accepts_any_casing_of_the_command_in_geo; keeps_serving_the_connection_after_a_geoadd] = true.
Proof. passes. Qed.
