(* ===== verification/ScenariosSessions.v ===== *)
(** * Scenarios: what a connection is

    The tests of src/tests/connection.rs, src/tests/acl.rs, src/tests/config.rs,
    src/tests/info.rs, src/tests/transactions.rs, src/tests/watch.rs,
    src/tests/pubsub.rs, translated under their own names and played on the
    definitions of this development ([Playing]): what a connection is: its users and
    their passwords, its transactions and what it watches, what it listens to, and
    the settings it asks after. Each starts a server of its own, and is what its
    clients send and what they are to hear; a loop in a test is written out. *)
From S2P Require Import Prelude Text Resp Testing Playing.
Open Scope Z_scope.
Open Scope nat_scope.

(** ** tests/connection.rs *)
Definition responds_to_ping : bool :=
  plays
    [Connects; send 0 ["PING"]; expect 0 ["+PONG"]].
Definition responds_to_multiple_pings_on_one_connection : bool :=
  plays
    [Connects; send 0 ["PING"]; expect 0 ["+PONG"]; send 0 ["PING"]; expect 0 ["+PONG"];
     send 0 ["PING"]; expect 0 ["+PONG"]].
Definition answers_every_command_arriving_in_one_read : bool :=
  plays
    [Connects; Sends 0 (on_lines ["*1"; "$4"; "PING"; "*1"; "$4"; "PING"]);
     expect 0 ["+PONG"; "+PONG"]].
Definition rejects_an_unknown_command_without_dropping_the_connection : bool :=
  plays
    [Connects; send 0 ["NOPE"]; expect 0 ["-ERR unknown command 'NOPE'"]; send 0 ["PING"];
     expect 0 ["+PONG"]].

(** ** tests/acl.rs *)
Definition says_who_the_client_is : bool :=
  plays
    [Connects; send 0 ["ACL"; "WHOAMI"]; expect 0 ["$7"; "default"]].
Definition accepts_any_casing_of_the_command_and_the_word_after_it : bool :=
  plays
    [Connects; send 0 ["ACL"; "WHOAMI"]; expect 0 ["$7"; "default"]; send 0 ["acl"; "whoami"];
     expect 0 ["$7"; "default"]; send 0 ["Acl"; "WhoAmI"]; expect 0 ["$7"; "default"];
     send 0 ["ACL"; "whoami"]; expect 0 ["$7"; "default"]].
Definition keeps_the_password_for_every_client_and_not_the_one_that_set_it : bool :=
  plays
    [Connects; send 0 ["ACL"; "SETUSER"; "default"; ">mypassword"]; expect 0 ["+OK"]; Connects;
     send 1 ["AUTH"; "default"; "mypassword"]; expect 1 ["+OK"];
     send 1 ["ACL"; "GETUSER"; "default"];
     expect 1 ["*4"; "$5"; "flags"; "*0"; "$9"; "passwords"; "*1"; "$64";
        "89e01536ac207279409d4de1e5253e01f4a1769e696db0d6062ca9b8f56767c8"]].
Definition shuts_out_a_new_connection_and_leaves_the_one_that_set_the_password_in : bool :=
  plays
    [Connects; send 0 ["ACL"; "SETUSER"; "default"; ">newpassword"]; expect 0 ["+OK"];
     send 0 ["ACL"; "WHOAMI"]; expect 0 ["$7"; "default"]; Connects; send 1 ["ACL"; "WHOAMI"];
     HearsLine 1 (lit "-NOAUTH")].
Definition shuts_a_new_connection_out_of_everything_it_might_ask_for : bool :=
  plays
    [Connects; send 0 ["ACL"; "SETUSER"; "default"; ">newpassword"]; expect 0 ["+OK"]; Connects;
     send 1 ["PING"]; HearsLine 1 (lit "-NOAUTH"); send 1 ["GET"; "foo"];
     HearsLine 1 (lit "-NOAUTH"); send 1 ["SET"; "foo"; "bar"]; HearsLine 1 (lit "-NOAUTH");
     send 1 ["ACL"; "GETUSER"; "default"]; HearsLine 1 (lit "-NOAUTH");
     send 1 ["SUBSCRIBE"; "channel"]; HearsLine 1 (lit "-NOAUTH"); send 1 ["MULTI"];
     HearsLine 1 (lit "-NOAUTH"); send 1 ["NONSENSE"]; HearsLine 1 (lit "-NOAUTH")].
Definition lets_a_client_in_for_good_once_it_has_given_the_password : bool :=
  plays
    [Connects; send 0 ["ACL"; "SETUSER"; "default"; ">newpassword"]; expect 0 ["+OK"]; Connects;
     send 1 ["PING"]; HearsLine 1 (lit "-NOAUTH"); send 1 ["AUTH"; "default"; "wrongpassword"];
     HearsLine 1 (lit "-WRONGPASS"); send 1 ["PING"]; HearsLine 1 (lit "-NOAUTH");
     send 1 ["AUTH"; "default"; "newpassword"]; expect 1 ["+OK"]; send 1 ["PING"];
     expect 1 ["+PONG"]; send 1 ["SET"; "foo"; "bar"]; expect 1 ["+OK"]; send 1 ["GET"; "foo"];
     expect 1 ["$3"; "bar"]; send 1 ["ACL"; "WHOAMI"]; expect 1 ["$7"; "default"]].
Definition leaves_the_other_clients_where_they_were_when_one_gets_in : bool :=
  plays
    [Connects; send 0 ["ACL"; "SETUSER"; "default"; ">newpassword"]; expect 0 ["+OK"]; Connects;
     Connects; send 1 ["AUTH"; "default"; "newpassword"]; expect 1 ["+OK"]; send 2 ["PING"];
     HearsLine 2 (lit "-NOAUTH")].
Definition keeps_serving_the_connection_after_an_acl : bool :=
  plays
    [Connects; send 0 ["ACL"; "WHOAMI"]; HearsReply 0; send 0 ["PING"]; expect 0 ["+PONG"]].

(** ** tests/config.rs *)
Definition reports_the_directory_it_was_given : bool :=
  plays_with ["--dir"; "/tmp/redis-files"; "--dbfilename"; "dump.rdb"]
    [Connects; send 0 ["CONFIG"; "GET"; "dir"];
     expect 0 ["*2"; "$3"; "dir"; "$16"; "/tmp/redis-files"]].
Definition reports_the_filename_it_was_given : bool :=
  plays_with ["--dir"; "/tmp/redis-files"; "--dbfilename"; "dump.rdb"]
    [Connects; send 0 ["CONFIG"; "GET"; "dbfilename"];
     expect 0 ["*2"; "$10"; "dbfilename"; "$8"; "dump.rdb"]].
Definition reports_what_it_would_write_down_as_it_goes_when_told_nothing : bool :=
  plays
    [Connects; send 0 ["CONFIG"; "GET"; "appendonly"];
     expect 0 ["*2"; "$10"; "appendonly"; "$2"; "no"]; send 0 ["CONFIG"; "GET"; "appenddirname"];
     expect 0 ["*2"; "$13"; "appenddirname"; "$13"; "appendonlydir"];
     send 0 ["CONFIG"; "GET"; "appendfilename"];
     expect 0 ["*2"; "$14"; "appendfilename"; "$14"; "appendonly.aof"];
     send 0 ["CONFIG"; "GET"; "appendfsync"];
     expect 0 ["*2"; "$11"; "appendfsync"; "$8"; "everysec"]].
Definition reports_the_append_only_settings_it_was_given : bool :=
  plays_with ["--dir"; "/tmp/redis-files"; "--appendonly"; "yes"; "--appenddirname"; "aof"; "--appendfilename"; "writes.aof"; "--appendfsync"; "always"]
    [Connects; send 0 ["CONFIG"; "GET"; "dir"];
     expect 0 ["*2"; "$3"; "dir"; "$16"; "/tmp/redis-files"];
     send 0 ["CONFIG"; "GET"; "appendonly"]; expect 0 ["*2"; "$10"; "appendonly"; "$3"; "yes"];
     send 0 ["CONFIG"; "GET"; "appenddirname"];
     expect 0 ["*2"; "$13"; "appenddirname"; "$3"; "aof"];
     send 0 ["CONFIG"; "GET"; "appendfilename"];
     expect 0 ["*2"; "$14"; "appendfilename"; "$10"; "writes.aof"];
     send 0 ["CONFIG"; "GET"; "appendfsync"]; expect 0 ["*2"; "$11"; "appendfsync"; "$6"; "always"]].
Definition reports_the_defaults_for_the_append_only_settings_it_was_not_given : bool :=
  plays_with ["--appendonly"; "yes"]
    [Connects; send 0 ["CONFIG"; "GET"; "appendonly"; "appendfilename"];
     expect 0 ["*4"; "$10"; "appendonly"; "$3"; "yes"; "$14"; "appendfilename"; "$14";
        "appendonly.aof"]].
Definition reports_the_append_only_settings_alongside_the_dataset_ones : bool :=
  plays_with ["--dir"; "/tmp/redis-files"; "--dbfilename"; "dump.rdb"]
    [Connects; send 0 ["CONFIG"; "GET"; "dbfilename"; "appendfilename"];
     expect 0 ["*4"; "$10"; "dbfilename"; "$8"; "dump.rdb"; "$14"; "appendfilename"; "$14";
        "appendonly.aof"]].
Definition accepts_any_casing_of_an_append_only_setting : bool :=
  plays
    [Connects; send 0 ["CONFIG"; "GET"; "appendfsync"];
     expect 0 ["*2"; "$11"; "appendfsync"; "$8"; "everysec"];
     send 0 ["CONFIG"; "GET"; "APPENDFSYNC"];
     expect 0 ["*2"; "$11"; "appendfsync"; "$8"; "everysec"];
     send 0 ["CONFIG"; "GET"; "AppendFsync"];
     expect 0 ["*2"; "$11"; "appendfsync"; "$8"; "everysec"]].
Definition accepts_any_casing_of_the_command_and_the_setting : bool :=
  plays_with ["--dir"; "/tmp/redis-files"; "--dbfilename"; "dump.rdb"]
    [Connects; send 0 ["CONFIG"; "GET"; "dir"];
     expect 0 ["*2"; "$3"; "dir"; "$16"; "/tmp/redis-files"]; send 0 ["config"; "get"; "DIR"];
     expect 0 ["*2"; "$3"; "dir"; "$16"; "/tmp/redis-files"]; send 0 ["Config"; "Get"; "Dir"];
     expect 0 ["*2"; "$3"; "dir"; "$16"; "/tmp/redis-files"]].
Definition reports_several_settings_at_once : bool :=
  plays_with ["--dir"; "/tmp/redis-files"; "--dbfilename"; "dump.rdb"]
    [Connects; send 0 ["CONFIG"; "GET"; "dir"; "dbfilename"];
     expect 0 ["*4"; "$3"; "dir"; "$16"; "/tmp/redis-files"; "$10"; "dbfilename"; "$8"; "dump.rdb"]].
Definition reports_nothing_for_a_setting_it_does_not_have : bool :=
  plays_with ["--dir"; "/tmp/redis-files"; "--dbfilename"; "dump.rdb"]
    [Connects; send 0 ["CONFIG"; "GET"; "maxmemory"]; expect 0 ["*0"]].
Definition leaves_out_a_setting_it_does_not_have_and_keeps_the_rest : bool :=
  plays_with ["--dir"; "/tmp/redis-files"; "--dbfilename"; "dump.rdb"]
    [Connects; send 0 ["CONFIG"; "GET"; "maxmemory"; "dir"];
     expect 0 ["*2"; "$3"; "dir"; "$16"; "/tmp/redis-files"]].
Definition refuses_a_get_that_names_no_setting : bool :=
  plays_with ["--dir"; "/tmp/redis-files"; "--dbfilename"; "dump.rdb"]
    [Connects; send 0 ["CONFIG"; "GET"];
     expect 0 ["-ERR wrong number of arguments for 'config|get' command"]].
Definition refuses_a_config_that_says_nothing : bool :=
  plays_with ["--dir"; "/tmp/redis-files"; "--dbfilename"; "dump.rdb"]
    [Connects; send 0 ["CONFIG"]; expect 0 ["-ERR wrong number of arguments for 'config' command"]].
Definition refuses_to_change_a_setting : bool :=
  plays_with ["--dir"; "/tmp/redis-files"; "--dbfilename"; "dump.rdb"]
    [Connects; send 0 ["CONFIG"; "SET"; "dir"; "/tmp"];
     HearsLine 0 (lit "-ERR Unknown CONFIG subcommand"); send 0 ["CONFIG"; "GET"; "dir"];
     expect 0 ["*2"; "$3"; "dir"; "$16"; "/tmp/redis-files"]].
Definition keeps_serving_the_connection_after_a_config : bool :=
  plays_with ["--dir"; "/tmp/redis-files"; "--dbfilename"; "dump.rdb"]
    [Connects; send 0 ["CONFIG"; "GET"; "dir"]; HearsReply 0; send 0 ["PING"]; expect 0 ["+PONG"]].
Definition queues_a_config_inside_a_transaction : bool :=
  plays_with ["--dir"; "/tmp/redis-files"; "--dbfilename"; "dump.rdb"]
    [Connects; send 0 ["MULTI"]; expect 0 ["+OK"]; send 0 ["CONFIG"; "GET"; "dir"];
     expect 0 ["+QUEUED"]; send 0 ["EXEC"];
     expect 0 ["*1"; "*2"; "$3"; "dir"; "$16"; "/tmp/redis-files"]].

(** ** tests/info.rs *)
Definition reports_nothing_for_a_section_it_does_not_have : bool :=
  plays
    [Connects; send 0 ["INFO"; "keyspace"]; expect 0 ["$0"; ""]].
Definition serves_clients_of_its_own_while_following_a_master : bool :=
  plays_with ["--replicaof"; "localhost 6379"]
    [Connects; send 0 ["SET"; "key"; "value"]; expect 0 ["+OK"]; send 0 ["GET"; "key"];
     expect 0 ["$5"; "value"]].

(** ** tests/transactions.rs *)
Definition starts_a_transaction : bool :=
  plays
    [Connects; send 0 ["MULTI"]; expect 0 ["+OK"]].
Definition accepts_any_casing_of_multi : bool :=
  plays
    [Connects; send 0 ["MULTI"]; expect 0 ["+OK"]; send 0 ["EXEC"]; expect 0 ["*0"];
     send 0 ["multi"]; expect 0 ["+OK"]; send 0 ["EXEC"]; expect 0 ["*0"]; send 0 ["MuLtI"];
     expect 0 ["+OK"]; send 0 ["EXEC"]; expect 0 ["*0"]].
Definition executes_an_empty_transaction : bool :=
  plays
    [Connects; send 0 ["MULTI"]; expect 0 ["+OK"]; send 0 ["EXEC"]; expect 0 ["*0"];
     send 0 ["EXEC"]; expect 0 ["-ERR EXEC without MULTI"]].
Definition queues_commands_instead_of_running_them : bool :=
  plays
    [Connects; Connects; send 0 ["MULTI"]; expect 0 ["+OK"]; send 0 ["SET"; "foo"; "41"];
     expect 0 ["+QUEUED"]; send 0 ["INCR"; "foo"]; expect 0 ["+QUEUED"]; send 1 ["GET"; "foo"];
     expect 1 ["$-1"]].
Definition executes_the_queued_commands_in_order : bool :=
  plays
    [Connects; send 0 ["MULTI"]; expect 0 ["+OK"]; send 0 ["SET"; "foo"; "6"]; expect 0 ["+QUEUED"];
     send 0 ["INCR"; "foo"]; expect 0 ["+QUEUED"]; send 0 ["INCR"; "bar"]; expect 0 ["+QUEUED"];
     send 0 ["GET"; "bar"]; expect 0 ["+QUEUED"]; send 0 ["EXEC"];
     expect 0 ["*4"; "+OK"; ":7"; ":1"; "$1"; "1"]].
Definition leaves_what_the_transaction_did_behind_in_the_store : bool :=
  plays
    [Connects; Connects; send 0 ["MULTI"]; expect 0 ["+OK"]; send 0 ["SET"; "foo"; "6"];
     expect 0 ["+QUEUED"]; send 0 ["INCR"; "foo"]; expect 0 ["+QUEUED"]; send 0 ["EXEC"];
     expect 0 ["*2"; "+OK"; ":7"]; send 1 ["GET"; "foo"]; expect 1 ["$1"; "7"]].
Definition gives_each_connection_its_own_queue : bool :=
  plays
    [Connects; Connects; send 0 ["MULTI"]; expect 0 ["+OK"]; send 0 ["SET"; "foo"; "41"];
     expect 0 ["+QUEUED"]; send 0 ["INCR"; "foo"]; expect 0 ["+QUEUED"]; send 1 ["MULTI"];
     expect 1 ["+OK"]; send 1 ["INCR"; "foo"]; expect 1 ["+QUEUED"]; send 0 ["EXEC"];
     expect 0 ["*2"; "+OK"; ":42"]; send 1 ["EXEC"]; expect 1 ["*1"; ":43"]].
Definition ends_one_transaction_without_touching_another : bool :=
  plays
    [Connects; Connects; send 0 ["MULTI"]; expect 0 ["+OK"]; send 0 ["SET"; "foo"; "abandoned"];
     expect 0 ["+QUEUED"]; send 1 ["MULTI"]; expect 1 ["+OK"]; send 1 ["SET"; "foo"; "carried out"];
     expect 1 ["+QUEUED"]; send 0 ["DISCARD"]; expect 0 ["+OK"]; send 1 ["EXEC"];
     expect 1 ["*1"; "+OK"]; send 0 ["GET"; "foo"]; expect 0 ["$11"; "carried out"]].
Definition carries_a_failure_back_inside_the_replies : bool :=
  plays
    [Connects; send 0 ["SET"; "foo"; "abc"]; expect 0 ["+OK"]; send 0 ["SET"; "bar"; "41"];
     expect 0 ["+OK"]; send 0 ["MULTI"]; expect 0 ["+OK"]; send 0 ["INCR"; "foo"];
     expect 0 ["+QUEUED"]; send 0 ["INCR"; "bar"]; expect 0 ["+QUEUED"]; send 0 ["EXEC"];
     expect 0 ["*2"; "-ERR value is not an integer or out of range"; ":42"]; send 0 ["GET"; "foo"];
     expect 0 ["$3"; "abc"]; send 0 ["GET"; "bar"]; expect 0 ["$2"; "42"]].
Definition runs_the_commands_that_follow_a_failure : bool :=
  plays
    [Connects; send 0 ["MULTI"]; expect 0 ["+OK"]; send 0 ["SET"; "foo"; "xyz"];
     expect 0 ["+QUEUED"]; send 0 ["INCR"; "foo"]; expect 0 ["+QUEUED"]; send 0 ["SET"; "bar"; "7"];
     expect 0 ["+QUEUED"]; send 0 ["EXEC"];
     expect 0 ["*3"; "+OK"; "-ERR value is not an integer or out of range"; "+OK"];
     send 0 ["GET"; "bar"]; expect 0 ["$1"; "7"]].
Definition carries_back_a_failure_of_the_wrong_type : bool :=
  plays
    [Connects; send 0 ["RPUSH"; "list_key"; "element"]; expect 0 [":1"]; send 0 ["MULTI"];
     expect 0 ["+OK"]; send 0 ["GET"; "list_key"]; expect 0 ["+QUEUED"];
     send 0 ["LLEN"; "list_key"]; expect 0 ["+QUEUED"]; send 0 ["EXEC"];
     expect 0 ["*2"; "-WRONGTYPE Operation against a key holding the wrong kind of value"; ":1"]].
Definition throws_away_a_transaction_on_discard : bool :=
  plays
    [Connects; send 0 ["MULTI"]; expect 0 ["+OK"]; send 0 ["SET"; "foo"; "41"];
     expect 0 ["+QUEUED"]; send 0 ["INCR"; "foo"]; expect 0 ["+QUEUED"]; send 0 ["DISCARD"];
     expect 0 ["+OK"]; send 0 ["GET"; "foo"]; expect 0 ["$-1"]; send 0 ["DISCARD"];
     expect 0 ["-ERR DISCARD without MULTI"]].
Definition refuses_to_discard_a_transaction_that_was_never_started : bool :=
  plays
    [Connects; send 0 ["DISCARD"]; expect 0 ["-ERR DISCARD without MULTI"]].
Definition leaves_the_connection_ready_for_another_transaction_after_a_discard : bool :=
  plays
    [Connects; send 0 ["MULTI"]; expect 0 ["+OK"]; send 0 ["SET"; "foo"; "41"];
     expect 0 ["+QUEUED"]; send 0 ["DISCARD"]; expect 0 ["+OK"]; send 0 ["MULTI"]; expect 0 ["+OK"];
     send 0 ["SET"; "foo"; "bar"]; expect 0 ["+QUEUED"]; send 0 ["EXEC"]; expect 0 ["*1"; "+OK"];
     send 0 ["GET"; "foo"]; expect 0 ["$3"; "bar"]].
Definition closes_the_transaction_once_it_has_run : bool :=
  plays
    [Connects; send 0 ["MULTI"]; expect 0 ["+OK"]; send 0 ["SET"; "foo"; "bar"];
     expect 0 ["+QUEUED"]; send 0 ["EXEC"]; expect 0 ["*1"; "+OK"]; send 0 ["SET"; "foo"; "baz"];
     expect 0 ["+OK"]; send 0 ["EXEC"]; expect 0 ["-ERR EXEC without MULTI"]].
Definition queues_reads_as_well_as_writes : bool :=
  plays
    [Connects; send 0 ["SET"; "foo"; "bar"]; expect 0 ["+OK"]; send 0 ["MULTI"]; expect 0 ["+OK"];
     send 0 ["GET"; "foo"]; expect 0 ["+QUEUED"]].
Definition queues_nothing_for_the_connection_outside_the_transaction : bool :=
  plays
    [Connects; Connects; send 0 ["MULTI"]; expect 0 ["+OK"]; send 0 ["SET"; "foo"; "41"];
     expect 0 ["+QUEUED"]; send 1 ["SET"; "bar"; "baz"]; expect 1 ["+OK"]; send 1 ["GET"; "bar"];
     expect 1 ["$3"; "baz"]].
Definition keeps_a_transaction_to_the_connection_that_started_it : bool :=
  plays
    [Connects; Connects; send 0 ["MULTI"]; expect 0 ["+OK"]; send 1 ["EXEC"];
     expect 1 ["-ERR EXEC without MULTI"]; send 0 ["EXEC"]; expect 0 ["*0"]].
Definition refuses_to_start_a_transaction_inside_one : bool :=
  plays
    [Connects; send 0 ["MULTI"]; expect 0 ["+OK"]; send 0 ["MULTI"];
     expect 0 ["-ERR MULTI calls can not be nested"]; send 0 ["EXEC"]; expect 0 ["*0"]].
Definition refuses_to_execute_a_transaction_that_was_never_started : bool :=
  plays
    [Connects; send 0 ["EXEC"]; expect 0 ["-ERR EXEC without MULTI"]].
Definition rejects_a_multi_with_arguments : bool :=
  plays
    [Connects; send 0 ["MULTI"; "foo"];
     expect 0 ["-ERR wrong number of arguments for 'multi' command"]; send 0 ["EXEC"; "foo"];
     expect 0 ["-ERR wrong number of arguments for 'exec' command"]].

(** ** tests/watch.rs *)
Definition watches_a_key : bool :=
  plays
    [Connects; send 0 ["WATCH"; "foo"]; expect 0 ["+OK"]].
Definition watches_several_keys_at_once : bool :=
  plays
    [Connects; send 0 ["WATCH"; "foo"; "bar"; "baz"]; expect 0 ["+OK"]].
Definition watches_a_key_that_is_not_there : bool :=
  plays
    [Connects; send 0 ["WATCH"; "missing"]; expect 0 ["+OK"]].
Definition accepts_any_casing_of_watch : bool :=
  plays
    [Connects; send 0 ["WATCH"; "foo"]; expect 0 ["+OK"]; send 0 ["watch"; "foo"]; expect 0 ["+OK"];
     send 0 ["WaTcH"; "foo"]; expect 0 ["+OK"]].
Definition rejects_a_watch_without_a_key : bool :=
  plays
    [Connects; send 0 ["WATCH"]; expect 0 ["-ERR wrong number of arguments for 'watch' command"]].
Definition keeps_serving_the_connection_after_a_watch : bool :=
  plays
    [Connects; send 0 ["WATCH"; "foo"]; expect 0 ["+OK"]; send 0 ["SET"; "foo"; "bar"];
     expect 0 ["+OK"]; send 0 ["GET"; "foo"]; expect 0 ["$3"; "bar"]].
Definition runs_a_transaction_opened_after_a_watch : bool :=
  plays
    [Connects; send 0 ["WATCH"; "counter"]; expect 0 ["+OK"]; send 0 ["MULTI"]; expect 0 ["+OK"];
     send 0 ["INCR"; "counter"]; expect 0 ["+QUEUED"]; send 0 ["EXEC"]; expect 0 ["*1"; ":1"]].
Definition refuses_to_watch_inside_a_transaction : bool :=
  plays
    [Connects; send 0 ["MULTI"]; expect 0 ["+OK"]; send 0 ["WATCH"; "key"];
     expect 0 ["-ERR WATCH inside MULTI is not allowed"]].
Definition refuses_to_watch_inside_a_transaction_that_already_has_commands : bool :=
  plays
    [Connects; send 0 ["MULTI"]; expect 0 ["+OK"]; send 0 ["SET"; "foo"; "bar"];
     expect 0 ["+QUEUED"]; send 0 ["WATCH"; "foo"];
     expect 0 ["-ERR WATCH inside MULTI is not allowed"]].
Definition refuses_a_watch_without_a_key_before_one_inside_a_transaction : bool :=
  plays
    [Connects; send 0 ["MULTI"]; expect 0 ["+OK"]; send 0 ["WATCH"];
     expect 0 ["-ERR wrong number of arguments for 'watch' command"]].
Definition leaves_the_transaction_running_after_a_refused_watch : bool :=
  plays
    [Connects; send 0 ["MULTI"]; expect 0 ["+OK"]; send 0 ["WATCH"; "key"];
     expect 0 ["-ERR WATCH inside MULTI is not allowed"]; send 0 ["SET"; "foo"; "bar"];
     expect 0 ["+QUEUED"]; send 0 ["EXEC"]; expect 0 ["*1"; "+OK"]].
Definition watches_again_once_the_transaction_is_over : bool :=
  plays
    [Connects; send 0 ["MULTI"]; expect 0 ["+OK"]; send 0 ["EXEC"]; expect 0 ["*0"];
     send 0 ["WATCH"; "key"]; expect 0 ["+OK"]].
Definition keeps_a_refused_watch_to_the_connection_that_sent_it : bool :=
  plays
    [Connects; Connects; send 0 ["MULTI"]; expect 0 ["+OK"]; send 0 ["WATCH"; "key"];
     expect 0 ["-ERR WATCH inside MULTI is not allowed"]; send 1 ["WATCH"; "key"]; expect 1 ["+OK"]].
Definition abandons_a_transaction_whose_watched_key_changed : bool :=
  plays
    [Connects; Connects; send 0 ["SET"; "foo"; "100"]; expect 0 ["+OK"];
     send 0 ["SET"; "bar"; "200"]; expect 0 ["+OK"]; send 0 ["WATCH"; "foo"]; expect 0 ["+OK"];
     send 0 ["MULTI"]; expect 0 ["+OK"]; send 0 ["SET"; "bar"; "300"]; expect 0 ["+QUEUED"];
     send 1 ["SET"; "foo"; "200"]; expect 1 ["+OK"]; send 0 ["EXEC"]; expect 0 ["*-1"];
     send 0 ["GET"; "bar"]; expect 0 ["$3"; "200"]].
Definition runs_a_transaction_when_another_key_changed : bool :=
  plays
    [Connects; Connects; send 0 ["SET"; "baz"; "100"]; expect 0 ["+OK"]; send 0 ["WATCH"; "baz"];
     expect 0 ["+OK"]; send 0 ["MULTI"]; expect 0 ["+OK"]; send 0 ["SET"; "caz"; "400"];
     expect 0 ["+QUEUED"]; send 1 ["SET"; "caz"; "300"]; expect 1 ["+OK"]; send 0 ["EXEC"];
     expect 0 ["*1"; "+OK"]; send 1 ["GET"; "caz"]; expect 1 ["$3"; "400"]].
Definition runs_a_transaction_whose_watched_key_stood_still : bool :=
  plays
    [Connects; send 0 ["SET"; "counter"; "1"]; expect 0 ["+OK"]; send 0 ["WATCH"; "counter"];
     expect 0 ["+OK"]; send 0 ["MULTI"]; expect 0 ["+OK"]; send 0 ["INCR"; "counter"];
     expect 0 ["+QUEUED"]; send 0 ["EXEC"]; expect 0 ["*1"; ":2"]].
Definition notices_every_kind_of_change_to_a_watched_key : bool :=
  plays
    [Connects; Connects; send 0 ["SET"; "string"; "1"]; expect 0 ["+OK"];
     send 0 ["WATCH"; "string"]; expect 0 ["+OK"]; send 0 ["MULTI"]; expect 0 ["+OK"];
     send 0 ["PING"]; expect 0 ["+QUEUED"]; send 1 ["SET"; "string"; "2"]; expect 1 ["+OK"];
     send 0 ["EXEC"]; expect 0 ["*-1"]; Connects; Connects; send 2 ["SET"; "counter"; "1"];
     expect 2 ["+OK"]; send 2 ["WATCH"; "counter"]; expect 2 ["+OK"]; send 2 ["MULTI"];
     expect 2 ["+OK"]; send 2 ["PING"]; expect 2 ["+QUEUED"]; send 3 ["INCR"; "counter"];
     expect 3 [":2"]; send 2 ["EXEC"]; expect 2 ["*-1"]; Connects; Connects;
     send 4 ["RPUSH"; "right"; "a"]; expect 4 [":1"]; send 4 ["WATCH"; "right"]; expect 4 ["+OK"];
     send 4 ["MULTI"]; expect 4 ["+OK"]; send 4 ["PING"]; expect 4 ["+QUEUED"];
     send 5 ["RPUSH"; "right"; "b"]; expect 5 [":2"]; send 4 ["EXEC"]; expect 4 ["*-1"]; Connects;
     Connects; send 6 ["RPUSH"; "left"; "a"]; expect 6 [":1"]; send 6 ["WATCH"; "left"];
     expect 6 ["+OK"]; send 6 ["MULTI"]; expect 6 ["+OK"]; send 6 ["PING"]; expect 6 ["+QUEUED"];
     send 7 ["LPUSH"; "left"; "b"]; expect 7 [":2"]; send 6 ["EXEC"]; expect 6 ["*-1"]; Connects;
     Connects; send 8 ["RPUSH"; "popped"; "a"; "b"]; expect 8 [":2"]; send 8 ["WATCH"; "popped"];
     expect 8 ["+OK"]; send 8 ["MULTI"]; expect 8 ["+OK"]; send 8 ["PING"]; expect 8 ["+QUEUED"];
     send 9 ["LPOP"; "popped"]; expect 9 ["$1"; "a"]; send 8 ["EXEC"]; expect 8 ["*-1"]; Connects;
     Connects; send 10 ["XADD"; "stream"; "1-1"; "f"; "v"]; expect 10 ["$3"; "1-1"];
     send 10 ["WATCH"; "stream"]; expect 10 ["+OK"]; send 10 ["MULTI"]; expect 10 ["+OK"];
     send 10 ["PING"]; expect 10 ["+QUEUED"]; send 11 ["XADD"; "stream"; "1-2"; "f"; "v"];
     expect 11 ["$3"; "1-2"]; send 10 ["EXEC"]; expect 10 ["*-1"]].
Definition notices_a_watched_key_that_was_not_there_appearing : bool :=
  plays
    [Connects; Connects; send 0 ["WATCH"; "missing"]; expect 0 ["+OK"]; send 0 ["MULTI"];
     expect 0 ["+OK"]; send 0 ["PING"]; expect 0 ["+QUEUED"]; send 1 ["SET"; "missing"; "here now"];
     expect 1 ["+OK"]; send 0 ["EXEC"]; expect 0 ["*-1"]].
Definition notices_a_watched_key_going_away : bool :=
  plays
    [Connects; Connects; send 0 ["RPUSH"; "list"; "only"]; expect 0 [":1"];
     send 0 ["WATCH"; "list"]; expect 0 ["+OK"]; send 0 ["MULTI"]; expect 0 ["+OK"];
     send 0 ["PING"]; expect 0 ["+QUEUED"]; send 1 ["LPOP"; "list"]; expect 1 ["$4"; "only"];
     send 0 ["EXEC"]; expect 0 ["*-1"]].
Definition notices_a_watched_key_written_again_with_the_same_value : bool :=
  plays
    [Connects; Connects; send 0 ["SET"; "key"; "same"]; expect 0 ["+OK"]; send 0 ["WATCH"; "key"];
     expect 0 ["+OK"]; send 0 ["MULTI"]; expect 0 ["+OK"]; send 0 ["PING"]; expect 0 ["+QUEUED"];
     send 1 ["SET"; "key"; "same"]; expect 1 ["+OK"]; send 0 ["EXEC"]; expect 0 ["*-1"]].
Definition notices_a_watched_key_that_expired : bool :=
  plays
    [Connects; send 0 ["SET"; "brief"; "here"; "PX"; "50"]; expect 0 ["+OK"];
     send 0 ["WATCH"; "brief"]; expect 0 ["+OK"]; send 0 ["MULTI"]; expect 0 ["+OK"];
     send 0 ["PING"]; expect 0 ["+QUEUED"]; Sleeps 100; send 0 ["EXEC"]; expect 0 ["*-1"]].
Definition overlooks_a_change_made_before_the_key_was_watched : bool :=
  plays
    [Connects; Connects; send 1 ["SET"; "key"; "before"]; expect 1 ["+OK"]; send 0 ["WATCH"; "key"];
     expect 0 ["+OK"]; send 0 ["MULTI"]; expect 0 ["+OK"]; send 0 ["GET"; "key"];
     expect 0 ["+QUEUED"]; send 0 ["EXEC"]; expect 0 ["*1"; "$6"; "before"]].
Definition overlooks_a_read_of_a_watched_key : bool :=
  plays
    [Connects; Connects; send 0 ["SET"; "key"; "value"]; expect 0 ["+OK"]; send 0 ["WATCH"; "key"];
     expect 0 ["+OK"]; send 0 ["MULTI"]; expect 0 ["+OK"]; send 0 ["PING"]; expect 0 ["+QUEUED"];
     send 1 ["GET"; "key"]; expect 1 ["$5"; "value"]; send 1 ["TYPE"; "key"]; expect 1 ["+string"];
     send 0 ["EXEC"]; expect 0 ["*1"; "+PONG"]].
Definition abandons_a_transaction_when_any_of_the_watched_keys_changed : bool :=
  plays
    [Connects; Connects; send 0 ["WATCH"; "first"; "second"; "third"]; expect 0 ["+OK"];
     send 0 ["MULTI"]; expect 0 ["+OK"]; send 0 ["PING"]; expect 0 ["+QUEUED"];
     send 1 ["SET"; "second"; "moved"]; expect 1 ["+OK"]; send 0 ["EXEC"]; expect 0 ["*-1"]].
Definition watches_the_key_only_for_the_connection_that_asked : bool :=
  plays
    [Connects; Connects; send 0 ["WATCH"; "key"]; expect 0 ["+OK"]; send 1 ["MULTI"];
     expect 1 ["+OK"]; send 1 ["PING"]; expect 1 ["+QUEUED"]; send 0 ["SET"; "key"; "changed"];
     expect 0 ["+OK"]; send 1 ["EXEC"]; expect 1 ["*1"; "+PONG"]].
Definition overlooks_what_the_transaction_itself_writes_to_a_watched_key : bool :=
  plays
    [Connects; send 0 ["SET"; "key"; "before"]; expect 0 ["+OK"]; send 0 ["WATCH"; "key"];
     expect 0 ["+OK"]; send 0 ["MULTI"]; expect 0 ["+OK"]; send 0 ["SET"; "key"; "after"];
     expect 0 ["+QUEUED"]; send 0 ["EXEC"]; expect 0 ["*1"; "+OK"]; send 0 ["GET"; "key"];
     expect 0 ["$5"; "after"]].
Definition starts_watching_afresh_after_a_transaction_has_run : bool :=
  plays
    [Connects; send 0 ["WATCH"; "key"]; expect 0 ["+OK"]; send 0 ["MULTI"]; expect 0 ["+OK"];
     send 0 ["SET"; "key"; "written"]; expect 0 ["+QUEUED"]; send 0 ["EXEC"];
     expect 0 ["*1"; "+OK"]; send 0 ["MULTI"]; expect 0 ["+OK"]; send 0 ["PING"];
     expect 0 ["+QUEUED"]; send 0 ["EXEC"]; expect 0 ["*1"; "+PONG"]].
Definition abandons_a_transaction_when_one_of_two_watched_keys_changed : bool :=
  plays
    [Connects; Connects; send 0 ["SET"; "foo"; "100"]; expect 0 ["+OK"];
     send 0 ["SET"; "bar"; "200"]; expect 0 ["+OK"]; send 0 ["WATCH"; "foo"; "bar"];
     expect 0 ["+OK"]; send 0 ["MULTI"]; expect 0 ["+OK"]; send 0 ["SET"; "bar"; "300"];
     expect 0 ["+QUEUED"]; send 1 ["SET"; "foo"; "200"]; expect 1 ["+OK"]; send 0 ["EXEC"];
     expect 0 ["*-1"]; send 1 ["GET"; "bar"]; expect 1 ["$3"; "200"]].
Definition runs_a_transaction_when_none_of_the_watched_keys_changed : bool :=
  plays
    [Connects; Connects; send 0 ["SET"; "foo"; "100"]; expect 0 ["+OK"];
     send 0 ["WATCH"; "foo"; "bar"; "missing"]; expect 0 ["+OK"]; send 0 ["MULTI"];
     expect 0 ["+OK"]; send 0 ["SET"; "bar"; "300"]; expect 0 ["+QUEUED"];
     send 1 ["SET"; "elsewhere"; "moved"]; expect 1 ["+OK"]; send 0 ["EXEC"]; expect 0 ["*1"; "+OK"]].
Definition abandons_a_transaction_whose_watched_key_was_created_meanwhile : bool :=
  plays
    [Connects; Connects; send 0 ["WATCH"; "foo"]; expect 0 ["+OK"]; send 1 ["SET"; "foo"; "200"];
     expect 1 ["+OK"]; send 0 ["MULTI"]; expect 0 ["+OK"]; send 0 ["SET"; "foo"; "300"];
     expect 0 ["+QUEUED"]; send 0 ["EXEC"]; expect 0 ["*-1"]; send 0 ["GET"; "foo"];
     expect 0 ["$3"; "200"]].
Definition runs_a_transaction_whose_watched_key_never_appeared : bool :=
  plays
    [Connects; send 0 ["WATCH"; "never"]; expect 0 ["+OK"]; send 0 ["MULTI"]; expect 0 ["+OK"];
     send 0 ["SET"; "elsewhere"; "written"]; expect 0 ["+QUEUED"]; send 0 ["EXEC"];
     expect 0 ["*1"; "+OK"]].
Definition notices_a_watched_key_first_seen_as_a_list : bool :=
  plays
    [Connects; Connects; send 0 ["WATCH"; "list"]; expect 0 ["+OK"];
     send 1 ["RPUSH"; "list"; "first"]; expect 1 [":1"]; send 0 ["MULTI"]; expect 0 ["+OK"];
     send 0 ["PING"]; expect 0 ["+QUEUED"]; send 0 ["EXEC"]; expect 0 ["*-1"]].
Definition stops_watching_on_unwatch : bool :=
  plays
    [Connects; Connects; send 0 ["SET"; "foo"; "100"]; expect 0 ["+OK"];
     send 0 ["SET"; "bar"; "200"]; expect 0 ["+OK"]; send 0 ["WATCH"; "foo"; "bar"];
     expect 0 ["+OK"]; send 1 ["SET"; "foo"; "200"]; expect 1 ["+OK"]; send 0 ["UNWATCH"];
     expect 0 ["+OK"]; send 0 ["MULTI"]; expect 0 ["+OK"]; send 0 ["SET"; "foo"; "400"];
     expect 0 ["+QUEUED"]; send 0 ["EXEC"]; expect 0 ["*1"; "+OK"]; send 1 ["GET"; "foo"];
     expect 1 ["$3"; "400"]].
Definition unwatches_when_nothing_was_being_watched : bool :=
  plays
    [Connects; send 0 ["UNWATCH"]; expect 0 ["+OK"]; send 0 ["UNWATCH"]; expect 0 ["+OK"]].
Definition accepts_any_casing_of_unwatch : bool :=
  plays
    [Connects; send 0 ["UNWATCH"]; expect 0 ["+OK"]; send 0 ["unwatch"]; expect 0 ["+OK"];
     send 0 ["UnWaTcH"]; expect 0 ["+OK"]].
Definition rejects_an_unwatch_with_arguments : bool :=
  plays
    [Connects; send 0 ["UNWATCH"; "key"];
     expect 0 ["-ERR wrong number of arguments for 'unwatch' command"]].
Definition watches_again_after_an_unwatch : bool :=
  plays
    [Connects; Connects; send 0 ["WATCH"; "key"]; expect 0 ["+OK"]; send 0 ["UNWATCH"];
     expect 0 ["+OK"]; send 0 ["WATCH"; "key"]; expect 0 ["+OK"]; send 1 ["SET"; "key"; "changed"];
     expect 1 ["+OK"]; send 0 ["MULTI"]; expect 0 ["+OK"]; send 0 ["PING"]; expect 0 ["+QUEUED"];
     send 0 ["EXEC"]; expect 0 ["*-1"]].
Definition unwatches_only_for_the_connection_that_asked : bool :=
  plays
    [Connects; Connects; Connects; send 0 ["WATCH"; "key"]; expect 0 ["+OK"];
     send 1 ["WATCH"; "key"]; expect 1 ["+OK"]; send 0 ["UNWATCH"]; expect 0 ["+OK"];
     send 2 ["SET"; "key"; "changed"]; expect 2 ["+OK"]; send 0 ["MULTI"]; expect 0 ["+OK"];
     send 0 ["PING"]; expect 0 ["+QUEUED"]; send 0 ["EXEC"]; expect 0 ["*1"; "+PONG"];
     send 1 ["MULTI"]; expect 1 ["+OK"]; send 1 ["PING"]; expect 1 ["+QUEUED"]; send 1 ["EXEC"];
     expect 1 ["*-1"]].
Definition queues_an_unwatch_sent_inside_a_transaction : bool :=
  plays
    [Connects; send 0 ["MULTI"]; expect 0 ["+OK"]; send 0 ["UNWATCH"]; expect 0 ["+QUEUED"];
     send 0 ["EXEC"]; expect 0 ["*1"; "+OK"]].
Definition abandons_a_transaction_that_queued_an_unwatch_too_late : bool :=
  plays
    [Connects; Connects; send 0 ["WATCH"; "key"]; expect 0 ["+OK"];
     send 1 ["SET"; "key"; "changed"]; expect 1 ["+OK"]; send 0 ["MULTI"]; expect 0 ["+OK"];
     send 0 ["UNWATCH"]; expect 0 ["+QUEUED"]; send 0 ["EXEC"]; expect 0 ["*-1"]].
Definition rejects_a_queued_unwatch_with_arguments_when_it_runs : bool :=
  plays
    [Connects; send 0 ["MULTI"]; expect 0 ["+OK"]; send 0 ["UNWATCH"; "key"]; expect 0 ["+QUEUED"];
     send 0 ["EXEC"]; expect 0 ["*1"; "-ERR wrong number of arguments for 'unwatch' command"]].
Definition stops_watching_once_a_transaction_has_been_abandoned : bool :=
  plays
    [Connects; Connects; send 0 ["SET"; "foo"; "100"]; expect 0 ["+OK"];
     send 0 ["SET"; "bar"; "200"]; expect 0 ["+OK"]; send 0 ["WATCH"; "foo"]; expect 0 ["+OK"];
     send 0 ["MULTI"]; expect 0 ["+OK"]; send 0 ["SET"; "bar"; "300"]; expect 0 ["+QUEUED"];
     send 1 ["SET"; "foo"; "200"]; expect 1 ["+OK"]; send 0 ["EXEC"]; expect 0 ["*-1"];
     send 0 ["MULTI"]; expect 0 ["+OK"]; send 0 ["SET"; "bar"; "300"]; expect 0 ["+QUEUED"];
     send 0 ["EXEC"]; expect 0 ["*1"; "+OK"]; send 1 ["GET"; "bar"]; expect 1 ["$3"; "300"]].
Definition stops_watching_a_key_that_changed_again_after_a_transaction_ran : bool :=
  plays
    [Connects; Connects; send 0 ["WATCH"; "key"]; expect 0 ["+OK"]; send 0 ["MULTI"];
     expect 0 ["+OK"]; send 0 ["PING"]; expect 0 ["+QUEUED"]; send 0 ["EXEC"];
     expect 0 ["*1"; "+PONG"]; send 1 ["SET"; "key"; "changed"]; expect 1 ["+OK"]; send 0 ["MULTI"];
     expect 0 ["+OK"]; send 0 ["PING"]; expect 0 ["+QUEUED"]; send 0 ["EXEC"];
     expect 0 ["*1"; "+PONG"]].
Definition stops_watching_after_an_empty_transaction : bool :=
  plays
    [Connects; Connects; send 0 ["WATCH"; "key"]; expect 0 ["+OK"]; send 0 ["MULTI"];
     expect 0 ["+OK"]; send 0 ["EXEC"]; expect 0 ["*0"]; send 1 ["SET"; "key"; "changed"];
     expect 1 ["+OK"]; send 0 ["MULTI"]; expect 0 ["+OK"]; send 0 ["PING"]; expect 0 ["+QUEUED"];
     send 0 ["EXEC"]; expect 0 ["*1"; "+PONG"]].
Definition stops_watching_on_discard : bool :=
  plays
    [Connects; Connects; send 0 ["SET"; "foo"; "100"]; expect 0 ["+OK"];
     send 0 ["SET"; "bar"; "200"]; expect 0 ["+OK"]; send 0 ["WATCH"; "foo"; "bar"];
     expect 0 ["+OK"]; send 0 ["MULTI"]; expect 0 ["+OK"]; send 0 ["SET"; "bar"; "300"];
     expect 0 ["+QUEUED"]; send 1 ["SET"; "foo"; "400"]; expect 1 ["+OK"]; send 0 ["DISCARD"];
     expect 0 ["+OK"]; send 0 ["MULTI"]; expect 0 ["+OK"]; send 0 ["SET"; "bar"; "300"];
     expect 0 ["+QUEUED"]; send 0 ["EXEC"]; expect 0 ["*1"; "+OK"]; send 1 ["GET"; "bar"];
     expect 1 ["$3"; "300"]].
Definition stops_watching_on_a_discard_of_an_empty_transaction : bool :=
  plays
    [Connects; Connects; send 0 ["WATCH"; "key"]; expect 0 ["+OK"]; send 0 ["MULTI"];
     expect 0 ["+OK"]; send 0 ["DISCARD"]; expect 0 ["+OK"]; send 1 ["SET"; "key"; "changed"];
     expect 1 ["+OK"]; send 0 ["MULTI"]; expect 0 ["+OK"]; send 0 ["PING"]; expect 0 ["+QUEUED"];
     send 0 ["EXEC"]; expect 0 ["*1"; "+PONG"]].
Definition keeps_watching_after_a_discard_that_was_turned_down : bool :=
  plays
    [Connects; Connects; send 0 ["WATCH"; "key"]; expect 0 ["+OK"]; send 0 ["DISCARD"];
     expect 0 ["-ERR DISCARD without MULTI"]; send 1 ["SET"; "key"; "changed"]; expect 1 ["+OK"];
     send 0 ["MULTI"]; expect 0 ["+OK"]; send 0 ["PING"]; expect 0 ["+QUEUED"]; send 0 ["EXEC"];
     expect 0 ["*-1"]].

(** ** tests/pubsub.rs *)
Definition confirms_the_channel_a_client_asks_to_listen_on : bool :=
  plays
    [Connects; send 0 ["SUBSCRIBE"; "foo"]; expect 0 ["*3"; "$9"; "subscribe"; "$3"; "foo"; ":1"]].
Definition counts_the_channels_of_one_client_and_not_another : bool :=
  plays
    [Connects; Connects; send 0 ["SUBSCRIBE"; "foo"];
     expect 0 ["*3"; "$9"; "subscribe"; "$3"; "foo"; ":1"]; send 0 ["SUBSCRIBE"; "bar"];
     expect 0 ["*3"; "$9"; "subscribe"; "$3"; "bar"; ":2"]; send 1 ["SUBSCRIBE"; "baz"];
     expect 1 ["*3"; "$9"; "subscribe"; "$3"; "baz"; ":1"]].
Definition counts_a_channel_it_is_already_on_without_losing_its_place : bool :=
  plays
    [Connects; send 0 ["SUBSCRIBE"; "foo"]; expect 0 ["*3"; "$9"; "subscribe"; "$3"; "foo"; ":1"];
     send 0 ["SUBSCRIBE"; "bar"]; expect 0 ["*3"; "$9"; "subscribe"; "$3"; "bar"; ":2"];
     send 0 ["SUBSCRIBE"; "foo"]; expect 0 ["*3"; "$9"; "subscribe"; "$3"; "foo"; ":2"];
     send 0 ["SUBSCRIBE"; "bar"]; expect 0 ["*3"; "$9"; "subscribe"; "$3"; "bar"; ":2"];
     send 0 ["SUBSCRIBE"; "baz"]; expect 0 ["*3"; "$9"; "subscribe"; "$3"; "baz"; ":3"];
     send 0 ["SUBSCRIBE"; "baz"]; expect 0 ["*3"; "$9"; "subscribe"; "$3"; "baz"; ":3"]].
Definition accepts_any_casing_of_the_command_in_pubsub : bool :=
  plays
    [Connects; send 0 ["SUBSCRIBE"; "foo"]; expect 0 ["*3"; "$9"; "subscribe"; "$3"; "foo"; ":1"];
     Connects; send 1 ["subscribe"; "foo"]; expect 1 ["*3"; "$9"; "subscribe"; "$3"; "foo"; ":1"];
     Connects; send 2 ["Subscribe"; "foo"]; expect 2 ["*3"; "$9"; "subscribe"; "$3"; "foo"; ":1"]].
Definition takes_a_channel_named_in_bytes_that_are_not_text : bool :=
  plays
    [Connects; Sends 0 (on_lines ["*2"; "$9"; "SUBSCRIBE"; "$4"] ++ [xff; x00; x0d; x0a; x0d; x0a]);
     Hears 0 (on_lines ["*3"; "$9"; "subscribe"; "$4"] ++ [xff; x00; x0d; x0a; x0d;
        x0a] ++ on_lines [":1"])].
Definition confirms_each_of_the_channels_named_in_one_go : bool :=
  plays
    [Connects; send 0 ["SUBSCRIBE"; "foo"; "bar"];
     expect 0 ["*3"; "$9"; "subscribe"; "$3"; "foo"; ":1"; "*3"; "$9"; "subscribe"; "$3"; "bar";
        ":2"]].
Definition keeps_serving_the_connection_after_a_subscribe : bool :=
  plays
    [Connects; send 0 ["SUBSCRIBE"; "foo"]; HearsReply 0; send 0 ["PING"];
     expect 0 ["*2"; "$4"; "pong"; "$0"; ""]].
Definition answers_a_ping_differently_depending_on_who_is_asking : bool :=
  plays
    [Connects; Connects; send 0 ["SUBSCRIBE"; "foo"]; HearsReply 0; send 0 ["PING"];
     expect 0 ["*2"; "$4"; "pong"; "$0"; ""]; send 1 ["PING"]; expect 1 ["+PONG"]].
Definition answers_a_ping_the_old_way_until_the_client_starts_listening : bool :=
  plays
    [Connects; send 0 ["PING"]; expect 0 ["+PONG"]; send 0 ["SUBSCRIBE"; "foo"]; HearsReply 0;
     send 0 ["PING"]; expect 0 ["*2"; "$4"; "pong"; "$0"; ""]].
Definition tells_a_publisher_how_many_are_listening_on_the_channel : bool :=
  plays
    [Connects; Connects; Connects; Connects; send 0 ["SUBSCRIBE"; "foo"]; HearsReply 0;
     send 1 ["SUBSCRIBE"; "bar"]; HearsReply 1; send 2 ["SUBSCRIBE"; "bar"]; HearsReply 2;
     send 3 ["PUBLISH"; "bar"; "msg"]; expect 3 [":2"]; send 3 ["PUBLISH"; "foo"; "msg"];
     expect 3 [":1"]].
Definition carries_a_message_to_everyone_listening_and_nobody_else : bool :=
  plays
    [Connects; Connects; Connects; Connects; send 0 ["SUBSCRIBE"; "foo"]; HearsReply 0;
     send 1 ["SUBSCRIBE"; "foo"]; HearsReply 1; send 2 ["SUBSCRIBE"; "bar"]; HearsReply 2;
     send 3 ["PUBLISH"; "foo"; "hello"]; expect 3 [":2"];
     expect 0 ["*3"; "$7"; "message"; "$3"; "foo"; "$5"; "hello"];
     expect 1 ["*3"; "$7"; "message"; "$3"; "foo"; "$5"; "hello"];
     send 3 ["PUBLISH"; "bar"; "world"]; expect 3 [":1"];
     expect 2 ["*3"; "$7"; "message"; "$3"; "bar"; "$5"; "world"]].
Definition stops_carrying_to_a_client_once_it_has_given_the_channel_up : bool :=
  plays
    [Connects; Connects; Connects; send 0 ["SUBSCRIBE"; "foo"]; HearsReply 0;
     send 0 ["SUBSCRIBE"; "baz"]; HearsReply 0; send 1 ["SUBSCRIBE"; "foo"]; HearsReply 1;
     send 1 ["SUBSCRIBE"; "bar"]; HearsReply 1; send 2 ["PUBLISH"; "foo"; "before-unsubscribe"];
     expect 2 [":2"]; expect 0 ["*3"; "$7"; "message"; "$3"; "foo"; "$18"; "before-unsubscribe"];
     expect 1 ["*3"; "$7"; "message"; "$3"; "foo"; "$18"; "before-unsubscribe"];
     send 0 ["UNSUBSCRIBE"; "foo"]; expect 0 ["*3"; "$11"; "unsubscribe"; "$3"; "foo"; ":1"];
     send 2 ["PUBLISH"; "foo"; "after-unsubscribe"]; expect 2 [":1"];
     expect 1 ["*3"; "$7"; "message"; "$3"; "foo"; "$17"; "after-unsubscribe"];
     send 2 ["PUBLISH"; "baz"; "kept"]; expect 2 [":1"];
     expect 0 ["*3"; "$7"; "message"; "$3"; "baz"; "$4"; "kept"]].
Definition lets_a_client_ask_for_anything_again_once_it_has_stopped_listening : bool :=
  plays
    [Connects; send 0 ["SUBSCRIBE"; "foo"]; HearsReply 0; send 0 ["UNSUBSCRIBE"; "foo"];
     expect 0 ["*3"; "$11"; "unsubscribe"; "$3"; "foo"; ":0"]; send 0 ["SET"; "key"; "value"];
     expect 0 ["+OK"]; send 0 ["GET"; "key"]; expect 0 ["$5"; "value"]; send 0 ["PING"];
     expect 0 ["+PONG"]].
Definition gives_up_every_channel_when_it_names_none : bool :=
  plays
    [Connects; Connects; send 0 ["SUBSCRIBE"; "foo"; "bar"]; HearsReply 0; HearsReply 0;
     send 0 ["UNSUBSCRIBE"];
     expect 0 ["*3"; "$11"; "unsubscribe"; "$3"; "foo"; ":1"; "*3"; "$11"; "unsubscribe"; "$3";
        "bar"; ":0"];
     send 1 ["PUBLISH"; "foo"; "hello"]; expect 1 [":0"]; send 1 ["PUBLISH"; "bar"; "hello"];
     expect 1 [":0"]].
Definition says_so_once_when_it_names_no_channel_and_is_on_none : bool :=
  plays
    [Connects; send 0 ["UNSUBSCRIBE"]; expect 0 ["*3"; "$11"; "unsubscribe"; "$-1"; ":0"]].
Definition carries_the_messages_in_the_order_they_were_published : bool :=
  plays
    [Connects; Connects; send 0 ["SUBSCRIBE"; "foo"]; HearsReply 0;
     send 1 ["PUBLISH"; "foo"; "one"]; expect 1 [":1"]; send 1 ["PUBLISH"; "foo"; "two"];
     expect 1 [":1"]; send 1 ["PUBLISH"; "foo"; "three"]; expect 1 [":1"];
     expect 0 ["*3"; "$7"; "message"; "$3"; "foo"; "$3"; "one"];
     expect 0 ["*3"; "$7"; "message"; "$3"; "foo"; "$3"; "two"];
     expect 0 ["*3"; "$7"; "message"; "$3"; "foo"; "$5"; "three"]].
Definition carries_a_message_on_each_of_the_channels_one_client_listens_on : bool :=
  plays
    [Connects; Connects; send 0 ["SUBSCRIBE"; "foo"; "bar"]; HearsReply 0; HearsReply 0;
     send 1 ["PUBLISH"; "foo"; "one"]; expect 1 [":1"]; send 1 ["PUBLISH"; "bar"; "two"];
     expect 1 [":1"]; expect 0 ["*3"; "$7"; "message"; "$3"; "foo"; "$3"; "one"];
     expect 0 ["*3"; "$7"; "message"; "$3"; "bar"; "$3"; "two"]].
Definition carries_a_message_that_is_not_text : bool :=
  plays
    [Connects; Connects; send 0 ["SUBSCRIBE"; "foo"]; HearsReply 0;
     Sends 1 (on_lines ["*3"; "$7"; "PUBLISH"; "$3"; "foo"; "$3"; ""] ++ [x00; x0d; x0a]);
     expect 1 [":1"];
     Hears 0 (on_lines ["*3"; "$7"; "message"; "$3"; "foo"; "$3"; ""] ++ [x00; x0d; x0a])].
Definition carries_a_message_to_a_client_that_was_listening_before_it_was_sent : bool :=
  plays
    [Connects; Connects; send 1 ["PUBLISH"; "foo"; "before"]; expect 1 [":0"];
     send 0 ["SUBSCRIBE"; "foo"]; HearsReply 0; send 1 ["PUBLISH"; "foo"; "after"]; expect 1 [":1"];
     expect 0 ["*3"; "$7"; "message"; "$3"; "foo"; "$5"; "after"]].
Definition goes_on_answering_a_listening_client_between_messages : bool :=
  plays
    [Connects; Connects; send 0 ["SUBSCRIBE"; "foo"]; HearsReply 0;
     send 1 ["PUBLISH"; "foo"; "hello"]; expect 1 [":1"];
     expect 0 ["*3"; "$7"; "message"; "$3"; "foo"; "$5"; "hello"]; send 0 ["PING"];
     expect 0 ["*2"; "$4"; "pong"; "$0"; ""]; send 0 ["SUBSCRIBE"; "bar"];
     expect 0 ["*3"; "$9"; "subscribe"; "$3"; "bar"; ":2"]].
Definition tells_a_publisher_of_nobody_on_a_channel_nobody_is_on : bool :=
  plays
    [Connects; send 0 ["PUBLISH"; "nobody"; "msg"]; expect 0 [":0"]].
Definition counts_one_client_once_on_each_of_its_channels : bool :=
  plays
    [Connects; Connects; send 0 ["SUBSCRIBE"; "foo"; "bar"]; HearsReply 0; HearsReply 0;
     send 1 ["PUBLISH"; "foo"; "msg"]; expect 1 [":1"]; send 1 ["PUBLISH"; "bar"; "msg"];
     expect 1 [":1"]].
Definition will_not_publish_for_a_client_that_is_listening : bool :=
  plays
    [Connects; send 0 ["SUBSCRIBE"; "foo"]; HearsReply 0; send 0 ["PUBLISH"; "foo"; "msg"];
     HearsLine 0 (lit "-ERR Can't execute 'publish': ")].
Definition will_not_run_a_command_for_a_client_that_is_listening : bool :=
  plays
    [Connects; send 0 ["SUBSCRIBE"; "foo"]; expect 0 ["*3"; "$9"; "subscribe"; "$3"; "foo"; ":1"];
     send 0 ["SET"; "key"; "value"]; HearsLine 0 (lit "-ERR Can't execute 'set': ");
     send 0 ["GET"; "key"]; HearsLine 0 (lit "-ERR Can't execute 'get': "); send 0 ["ECHO"; "hey"];
     HearsLine 0 (lit "-ERR Can't execute 'echo': ")].
Definition goes_on_taking_channels_from_a_client_that_is_listening : bool :=
  plays
    [Connects; send 0 ["SUBSCRIBE"; "foo"]; expect 0 ["*3"; "$9"; "subscribe"; "$3"; "foo"; ":1"];
     send 0 ["SUBSCRIBE"; "bar"]; expect 0 ["*3"; "$9"; "subscribe"; "$3"; "bar"; ":2"];
     send 0 ["PING"]; expect 0 ["*2"; "$4"; "pong"; "$0"; ""]].
Definition goes_on_serving_the_clients_that_are_not_listening : bool :=
  plays
    [Connects; Connects; send 0 ["SUBSCRIBE"; "foo"]; HearsReply 0; send 1 ["SET"; "key"; "value"];
     expect 1 ["+OK"]; send 1 ["GET"; "key"]; expect 1 ["$5"; "value"]].
Definition will_not_open_a_transaction_for_a_client_that_is_listening : bool :=
  plays
    [Connects; send 0 ["SUBSCRIBE"; "foo"]; HearsReply 0; send 0 ["MULTI"];
     HearsLine 0 (lit "-ERR Can't execute 'multi': ")].
Definition will_not_run_a_command_it_does_not_know_for_a_listening_client : bool :=
  plays
    [Connects; send 0 ["SUBSCRIBE"; "foo"]; HearsReply 0; send 0 ["NONSENSE"];
     HearsLine 0 (lit "-ERR Can't execute 'nonsense': ")].

Lemma scenarios_sessions_pass :
  all_pass
    [responds_to_ping; responds_to_multiple_pings_on_one_connection;
     answers_every_command_arriving_in_one_read;
     rejects_an_unknown_command_without_dropping_the_connection; says_who_the_client_is;
     accepts_any_casing_of_the_command_and_the_word_after_it;
     keeps_the_password_for_every_client_and_not_the_one_that_set_it;
     shuts_out_a_new_connection_and_leaves_the_one_that_set_the_password_in;
     shuts_a_new_connection_out_of_everything_it_might_ask_for;
     lets_a_client_in_for_good_once_it_has_given_the_password;
     leaves_the_other_clients_where_they_were_when_one_gets_in;
     keeps_serving_the_connection_after_an_acl; reports_the_directory_it_was_given;
     reports_the_filename_it_was_given;
     reports_what_it_would_write_down_as_it_goes_when_told_nothing;
     reports_the_append_only_settings_it_was_given;
     reports_the_defaults_for_the_append_only_settings_it_was_not_given;
     reports_the_append_only_settings_alongside_the_dataset_ones;
     accepts_any_casing_of_an_append_only_setting;
     accepts_any_casing_of_the_command_and_the_setting; reports_several_settings_at_once;
     reports_nothing_for_a_setting_it_does_not_have;
     leaves_out_a_setting_it_does_not_have_and_keeps_the_rest; refuses_a_get_that_names_no_setting;
     refuses_a_config_that_says_nothing; refuses_to_change_a_setting;
     keeps_serving_the_connection_after_a_config; queues_a_config_inside_a_transaction;
     reports_nothing_for_a_section_it_does_not_have;
     serves_clients_of_its_own_while_following_a_master; starts_a_transaction;
     accepts_any_casing_of_multi; executes_an_empty_transaction;
     queues_commands_instead_of_running_them; executes_the_queued_commands_in_order;
     leaves_what_the_transaction_did_behind_in_the_store; gives_each_connection_its_own_queue;
     ends_one_transaction_without_touching_another; carries_a_failure_back_inside_the_replies;
     runs_the_commands_that_follow_a_failure; carries_back_a_failure_of_the_wrong_type;
     throws_away_a_transaction_on_discard; refuses_to_discard_a_transaction_that_was_never_started;
     leaves_the_connection_ready_for_another_transaction_after_a_discard;
     closes_the_transaction_once_it_has_run; queues_reads_as_well_as_writes;
     queues_nothing_for_the_connection_outside_the_transaction;
     keeps_a_transaction_to_the_connection_that_started_it;
     refuses_to_start_a_transaction_inside_one;
     refuses_to_execute_a_transaction_that_was_never_started; rejects_a_multi_with_arguments;
     watches_a_key; watches_several_keys_at_once; watches_a_key_that_is_not_there;
     accepts_any_casing_of_watch; rejects_a_watch_without_a_key;
     keeps_serving_the_connection_after_a_watch; runs_a_transaction_opened_after_a_watch;
     refuses_to_watch_inside_a_transaction;
     refuses_to_watch_inside_a_transaction_that_already_has_commands;
     refuses_a_watch_without_a_key_before_one_inside_a_transaction;
     leaves_the_transaction_running_after_a_refused_watch;
     watches_again_once_the_transaction_is_over;
     keeps_a_refused_watch_to_the_connection_that_sent_it;
     abandons_a_transaction_whose_watched_key_changed; runs_a_transaction_when_another_key_changed;
     runs_a_transaction_whose_watched_key_stood_still;
     notices_every_kind_of_change_to_a_watched_key;
     notices_a_watched_key_that_was_not_there_appearing; notices_a_watched_key_going_away;
     notices_a_watched_key_written_again_with_the_same_value; notices_a_watched_key_that_expired;
     overlooks_a_change_made_before_the_key_was_watched; overlooks_a_read_of_a_watched_key;
     abandons_a_transaction_when_any_of_the_watched_keys_changed;
     watches_the_key_only_for_the_connection_that_asked;
     overlooks_what_the_transaction_itself_writes_to_a_watched_key;
     starts_watching_afresh_after_a_transaction_has_run;
     abandons_a_transaction_when_one_of_two_watched_keys_changed;
     runs_a_transaction_when_none_of_the_watched_keys_changed;
     abandons_a_transaction_whose_watched_key_was_created_meanwhile;
     runs_a_transaction_whose_watched_key_never_appeared;
     notices_a_watched_key_first_seen_as_a_list; stops_watching_on_unwatch;
     unwatches_when_nothing_was_being_watched; accepts_any_casing_of_unwatch;
     rejects_an_unwatch_with_arguments; watches_again_after_an_unwatch;
     unwatches_only_for_the_connection_that_asked; queues_an_unwatch_sent_inside_a_transaction;
     abandons_a_transaction_that_queued_an_unwatch_too_late;
     rejects_a_queued_unwatch_with_arguments_when_it_runs;
     stops_watching_once_a_transaction_has_been_abandoned;
     stops_watching_a_key_that_changed_again_after_a_transaction_ran;
     stops_watching_after_an_empty_transaction; stops_watching_on_discard;
     stops_watching_on_a_discard_of_an_empty_transaction;
     keeps_watching_after_a_discard_that_was_turned_down;
     confirms_the_channel_a_client_asks_to_listen_on;
     counts_the_channels_of_one_client_and_not_another;
     counts_a_channel_it_is_already_on_without_losing_its_place;
     accepts_any_casing_of_the_command_in_pubsub; takes_a_channel_named_in_bytes_that_are_not_text;
     confirms_each_of_the_channels_named_in_one_go; keeps_serving_the_connection_after_a_subscribe;
     answers_a_ping_differently_depending_on_who_is_asking;
     answers_a_ping_the_old_way_until_the_client_starts_listening;
     tells_a_publisher_how_many_are_listening_on_the_channel;
     carries_a_message_to_everyone_listening_and_nobody_else;
     stops_carrying_to_a_client_once_it_has_given_the_channel_up;
     lets_a_client_ask_for_anything_again_once_it_has_stopped_listening;
     gives_up_every_channel_when_it_names_none;
     says_so_once_when_it_names_no_channel_and_is_on_none;
     carries_the_messages_in_the_order_they_were_published;
     carries_a_message_on_each_of_the_channels_one_client_listens_on;
     carries_a_message_that_is_not_text;
     carries_a_message_to_a_client_that_was_listening_before_it_was_sent;
     goes_on_answering_a_listening_client_between_messages;
     tells_a_publisher_of_nobody_on_a_channel_nobody_is_on;
     counts_one_client_once_on_each_of_its_channels;
     will_not_publish_for_a_client_that_is_listening;
     will_not_run_a_command_for_a_client_that_is_listening;
     goes_on_taking_channels_from_a_client_that_is_listening;
     goes_on_serving_the_clients_that_are_not_listening;
     will_not_open_a_transaction_for_a_client_that_is_listening;
     will_not_run_a_command_it_does_not_know_for_a_listening_client] = true.
Proof. passes. Qed.
