(* ===== verification/ScenariosReplication.v ===== *)
(** * Scenarios: a master and its replicas

    The tests of src/tests/handshake.rs, src/tests/replconf.rs,
    src/tests/propagation.rs, src/tests/wait.rs, src/tests/rdb.rs, translated under
    their own names and played on the definitions of this development ([Playing]): a
    master and its replicas: the handshake, what is passed on and what is waited
    for. Each starts a server of its own, and is what its clients send and what they
    are to hear; a loop in a test is written out. *)
From S2P Require Import Prelude Text Resp Testing Playing.
Open Scope Z_scope.
Open Scope nat_scope.

(** ** tests/handshake.rs *)
Definition keeps_serving_when_the_master_cannot_be_reached : bool :=
  plays_with ["--replicaof"; "127.0.0.1 1"]
    [Connects; send 0 ["PING"]; expect 0 ["+PONG"]].

(** ** tests/replconf.rs *)
Definition takes_the_port_a_replica_says_it_listens_on : bool :=
  plays
    [Connects; send 0 ["REPLCONF"; "listening-port"; "6380"]; expect 0 ["+OK"]].
Definition takes_what_a_replica_says_it_can_do : bool :=
  plays
    [Connects; send 0 ["REPLCONF"; "capa"; "psync2"]; expect 0 ["+OK"]].
Definition takes_settings_it_has_never_heard_of : bool :=
  plays
    [Connects; send 0 ["REPLCONF"; "ip-address"; "127.0.0.1"; "capa"; "eof"]; expect 0 ["+OK"]].
Definition accepts_any_casing_of_replconf : bool :=
  plays
    [Connects; send 0 ["REPLCONF"; "capa"; "psync2"]; expect 0 ["+OK"];
     send 0 ["replconf"; "capa"; "psync2"]; expect 0 ["+OK"]; send 0 ["ReplConf"; "capa"; "psync2"];
     expect 0 ["+OK"]].
Definition rejects_a_setting_with_nothing_set_to_it : bool :=
  plays
    [Connects; send 0 ["REPLCONF"; "listening-port"];
     expect 0 ["-ERR wrong number of arguments for 'replconf' command"]].
Definition takes_a_replconf_that_says_nothing : bool :=
  plays
    [Connects; send 0 ["REPLCONF"]; expect 0 ["+OK"]].
Definition goes_on_serving_the_connection_a_replica_introduced_itself_on : bool :=
  plays
    [Connects; send 0 ["PING"]; expect 0 ["+PONG"]; send 0 ["REPLCONF"; "listening-port"; "6380"];
     expect 0 ["+OK"]; send 0 ["REPLCONF"; "capa"; "psync2"]; expect 0 ["+OK"];
     send 0 ["SET"; "key"; "value"]; expect 0 ["+OK"]].
Definition starts_a_replica_afresh_however_much_history_it_claims : bool :=
  plays
    [Connects; send 0 ["PSYNC"; "8371b4fb1155b71f4a04d3e1bc3e18c4d990aeeb"; "42"];
     HearsLine 0 (lit "+FULLRESYNC ")].
Definition rejects_a_psync_that_says_too_little : bool :=
  plays
    [Connects; send 0 ["PSYNC"; "?"];
     expect 0 ["-ERR wrong number of arguments for 'psync' command"]].
Definition sends_the_dataset_without_the_crlf_a_bulk_string_ends_in : bool :=
  plays
    [Connects; send 0 ["PSYNC"; "?"; "-1"]; HearsLine 0 []; HearsFile 0; Connects;
     send 1 ["SET"; "key"; "value"]; expect 1 ["+OK"];
     expect 0 ["*3"; "$3"; "SET"; "$3"; "key"; "$5"; "value"]].

(** ** tests/propagation.rs *)
Definition passes_a_write_on_to_the_replica : bool :=
  plays
    [Connects; send 0 ["PING"]; expect 0 ["+PONG"]; send 0 ["REPLCONF"; "listening-port"; "6380"];
     expect 0 ["+OK"]; send 0 ["REPLCONF"; "capa"; "psync2"]; expect 0 ["+OK"];
     send 0 ["PSYNC"; "?"; "-1"]; HearsLine 0 (lit "+FULLRESYNC "); HearsFile 0; Connects;
     send 1 ["SET"; "foo"; "1"]; expect 1 ["+OK"];
     expect 0 ["*3"; "$3"; "SET"; "$3"; "foo"; "$1"; "1"]].
Definition passes_writes_on_in_the_order_they_were_made : bool :=
  plays
    [Connects; send 0 ["PING"]; expect 0 ["+PONG"]; send 0 ["REPLCONF"; "listening-port"; "6380"];
     expect 0 ["+OK"]; send 0 ["REPLCONF"; "capa"; "psync2"]; expect 0 ["+OK"];
     send 0 ["PSYNC"; "?"; "-1"]; HearsLine 0 (lit "+FULLRESYNC "); HearsFile 0; Connects;
     send 1 ["SET"; "foo"; "1"]; expect 1 ["+OK"]; send 1 ["SET"; "bar"; "2"]; expect 1 ["+OK"];
     send 1 ["SET"; "baz"; "3"]; expect 1 ["+OK"];
     expect 0 ["*3"; "$3"; "SET"; "$3"; "foo"; "$1"; "1"];
     expect 0 ["*3"; "$3"; "SET"; "$3"; "bar"; "$1"; "2"];
     expect 0 ["*3"; "$3"; "SET"; "$3"; "baz"; "$1"; "3"]].
Definition passes_on_every_command_that_changes_the_store : bool :=
  plays
    [Connects; send 0 ["PING"]; expect 0 ["+PONG"]; send 0 ["REPLCONF"; "listening-port"; "6380"];
     expect 0 ["+OK"]; send 0 ["REPLCONF"; "capa"; "psync2"]; expect 0 ["+OK"];
     send 0 ["PSYNC"; "?"; "-1"]; HearsLine 0 (lit "+FULLRESYNC "); HearsFile 0; Connects;
     send 1 ["INCR"; "counter"]; expect 1 [":1"]; expect 0 ["*2"; "$4"; "INCR"; "$7"; "counter"];
     send 1 ["RPUSH"; "list"; "a"]; expect 1 [":1"];
     expect 0 ["*3"; "$5"; "RPUSH"; "$4"; "list"; "$1"; "a"]; send 1 ["LPOP"; "list"];
     expect 1 ["$1"; "a"]; expect 0 ["*2"; "$4"; "LPOP"; "$4"; "list"]].
Definition passes_a_blpop_on_as_the_lpop_it_amounted_to : bool :=
  plays
    [Connects; send 0 ["PING"]; expect 0 ["+PONG"]; send 0 ["REPLCONF"; "listening-port"; "6380"];
     expect 0 ["+OK"]; send 0 ["REPLCONF"; "capa"; "psync2"]; expect 0 ["+OK"];
     send 0 ["PSYNC"; "?"; "-1"]; HearsLine 0 (lit "+FULLRESYNC "); HearsFile 0; Connects;
     send 1 ["RPUSH"; "list"; "a"; "b"]; expect 1 [":2"];
     expect 0 ["*4"; "$5"; "RPUSH"; "$4"; "list"; "$1"; "a"; "$1"; "b"];
     send 1 ["BLPOP"; "list"; "0"]; expect 1 ["*2"; "$4"; "list"; "$1"; "a"];
     expect 0 ["*2"; "$4"; "LPOP"; "$4"; "list"]].
Definition keeps_to_itself_a_blpop_that_waited_and_took_nothing : bool :=
  plays
    [Connects; send 0 ["PING"]; expect 0 ["+PONG"]; send 0 ["REPLCONF"; "listening-port"; "6380"];
     expect 0 ["+OK"]; send 0 ["REPLCONF"; "capa"; "psync2"]; expect 0 ["+OK"];
     send 0 ["PSYNC"; "?"; "-1"]; HearsLine 0 (lit "+FULLRESYNC "); HearsFile 0; Connects;
     send 1 ["BLPOP"; "empty"; "0.1"]; expect 1 ["*-1"]; HearsNothing 0].
Definition keeps_a_write_that_was_turned_down_to_itself : bool :=
  plays
    [Connects; send 0 ["PING"]; expect 0 ["+PONG"]; send 0 ["REPLCONF"; "listening-port"; "6380"];
     expect 0 ["+OK"]; send 0 ["REPLCONF"; "capa"; "psync2"]; expect 0 ["+OK"];
     send 0 ["PSYNC"; "?"; "-1"]; HearsLine 0 (lit "+FULLRESYNC "); HearsFile 0; Connects;
     send 1 ["SET"; "key"; "value"]; expect 1 ["+OK"];
     expect 0 ["*3"; "$3"; "SET"; "$3"; "key"; "$5"; "value"]; send 1 ["INCR"; "key"];
     expect 1 ["-ERR value is not an integer or out of range"]; HearsNothing 0].
Definition passes_on_what_a_transaction_changed : bool :=
  plays
    [Connects; send 0 ["PING"]; expect 0 ["+PONG"]; send 0 ["REPLCONF"; "listening-port"; "6380"];
     expect 0 ["+OK"]; send 0 ["REPLCONF"; "capa"; "psync2"]; expect 0 ["+OK"];
     send 0 ["PSYNC"; "?"; "-1"]; HearsLine 0 (lit "+FULLRESYNC "); HearsFile 0; Connects;
     send 1 ["MULTI"]; expect 1 ["+OK"]; send 1 ["SET"; "foo"; "1"]; expect 1 ["+QUEUED"];
     send 1 ["GET"; "foo"]; expect 1 ["+QUEUED"]; send 1 ["INCR"; "foo"]; expect 1 ["+QUEUED"];
     send 1 ["EXEC"]; expect 1 ["*3"; "+OK"; "$1"; "1"; ":2"];
     expect 0 ["*3"; "$3"; "SET"; "$3"; "foo"; "$1"; "1"];
     expect 0 ["*2"; "$4"; "INCR"; "$3"; "foo"]].
Definition passes_nothing_on_when_no_replica_is_following : bool :=
  plays
    [Connects; send 0 ["SET"; "key"; "value"]; expect 0 ["+OK"]; send 0 ["GET"; "key"];
     expect 0 ["$5"; "value"]].
Definition goes_on_serving_when_a_replica_hangs_up : bool :=
  plays
    [Connects; send 0 ["PING"]; expect 0 ["+PONG"]; send 0 ["REPLCONF"; "listening-port"; "6380"];
     expect 0 ["+OK"]; send 0 ["REPLCONF"; "capa"; "psync2"]; expect 0 ["+OK"];
     send 0 ["PSYNC"; "?"; "-1"]; HearsLine 0 (lit "+FULLRESYNC "); HearsFile 0; Connects; Leaves 0;
     send 1 ["SET"; "key"; "value"]; expect 1 ["+OK"]; send 1 ["SET"; "key"; "value"];
     expect 1 ["+OK"]; send 1 ["SET"; "key"; "value"]; expect 1 ["+OK"]].
Definition tells_a_replica_only_of_what_followed_its_arrival : bool :=
  plays
    [Connects; send 0 ["PING"]; expect 0 ["+PONG"]; send 0 ["REPLCONF"; "listening-port"; "6380"];
     expect 0 ["+OK"]; send 0 ["REPLCONF"; "capa"; "psync2"]; expect 0 ["+OK"];
     send 0 ["PSYNC"; "?"; "-1"]; HearsLine 0 (lit "+FULLRESYNC "); HearsFile 0; Connects;
     send 1 ["SET"; "before"; "1"]; expect 1 ["+OK"];
     expect 0 ["*3"; "$3"; "SET"; "$6"; "before"; "$1"; "1"]; Connects; send 2 ["PING"];
     expect 2 ["+PONG"]; send 2 ["REPLCONF"; "listening-port"; "6380"]; expect 2 ["+OK"];
     send 2 ["REPLCONF"; "capa"; "psync2"]; expect 2 ["+OK"]; send 2 ["PSYNC"; "?"; "-1"];
     HearsLine 2 (lit "+FULLRESYNC "); HearsFile 2; send 1 ["SET"; "after"; "2"]; expect 1 ["+OK"];
     expect 2 ["*3"; "$3"; "SET"; "$5"; "after"; "$1"; "2"];
     expect 0 ["*3"; "$3"; "SET"; "$5"; "after"; "$1"; "2"]].
Definition goes_on_telling_the_others_when_one_replica_hangs_up : bool :=
  plays
    [Connects; send 0 ["PING"]; expect 0 ["+PONG"]; send 0 ["REPLCONF"; "listening-port"; "6380"];
     expect 0 ["+OK"]; send 0 ["REPLCONF"; "capa"; "psync2"]; expect 0 ["+OK"];
     send 0 ["PSYNC"; "?"; "-1"]; HearsLine 0 (lit "+FULLRESYNC "); HearsFile 0; Connects;
     send 1 ["PING"]; expect 1 ["+PONG"]; send 1 ["REPLCONF"; "listening-port"; "6380"];
     expect 1 ["+OK"]; send 1 ["REPLCONF"; "capa"; "psync2"]; expect 1 ["+OK"];
     send 1 ["PSYNC"; "?"; "-1"]; HearsLine 1 (lit "+FULLRESYNC "); HearsFile 1; Connects; Leaves 1;
     send 2 ["SET"; "key"; "value"]; expect 2 ["+OK"];
     expect 0 ["*3"; "$3"; "SET"; "$3"; "key"; "$5"; "value"]].

(** ** tests/wait.rs *)
Definition waits_for_no_one_when_no_replica_is_following : bool :=
  plays
    [Connects; send 0 ["WAIT"; "0"; "60000"]; expect 0 [":0"]].
Definition waits_the_time_out_for_replicas_that_are_not_there : bool :=
  plays
    [Connects; send 0 ["SET"; "key"; "value"]; expect 0 ["+OK"]; send 0 ["WAIT"; "1"; "500"];
     expect 0 [":0"]].
Definition rejects_a_wait_that_says_too_little : bool :=
  plays
    [Connects; send 0 ["WAIT"]; expect 0 ["-ERR wrong number of arguments for 'wait' command"];
     send 0 ["WAIT"; "0"]; expect 0 ["-ERR wrong number of arguments for 'wait' command"];
     send 0 ["WAIT"; "0"; "1"; "2"]; expect 0 ["-ERR wrong number of arguments for 'wait' command"]].
Definition rejects_a_wait_measured_in_something_other_than_numbers : bool :=
  plays
    [Connects; send 0 ["WAIT"; "all"; "60000"];
     expect 0 ["-ERR value is not an integer or out of range"]; send 0 ["WAIT"; "0"; "soon"];
     expect 0 ["-ERR value is not an integer or out of range"]; send 0 ["WAIT"; "1.5"; "60000"];
     expect 0 ["-ERR value is not an integer or out of range"]].
Definition rejects_a_wait_for_less_than_no_time : bool :=
  plays
    [Connects; send 0 ["WAIT"; "0"; "-1"]; expect 0 ["-ERR timeout is negative"]].
Definition accepts_any_casing_of_wait : bool :=
  plays
    [Connects; send 0 ["WAIT"; "0"; "100"]; expect 0 [":0"]; send 0 ["wait"; "0"; "100"];
     expect 0 [":0"]; send 0 ["WaIt"; "0"; "100"]; expect 0 [":0"]].

(** ** tests/rdb.rs *)
Definition starts_up_without_a_dataset_to_read : bool :=
  plays
    [Connects; send 0 ["KEYS"; "*"]; expect 0 ["*0"]].

Lemma scenarios_replication_pass :
  all_pass
    [keeps_serving_when_the_master_cannot_be_reached; takes_the_port_a_replica_says_it_listens_on;
     takes_what_a_replica_says_it_can_do; takes_settings_it_has_never_heard_of;
     accepts_any_casing_of_replconf; rejects_a_setting_with_nothing_set_to_it;
     takes_a_replconf_that_says_nothing;
     goes_on_serving_the_connection_a_replica_introduced_itself_on;
     starts_a_replica_afresh_however_much_history_it_claims; rejects_a_psync_that_says_too_little;
     sends_the_dataset_without_the_crlf_a_bulk_string_ends_in; passes_a_write_on_to_the_replica;
     passes_writes_on_in_the_order_they_were_made; passes_on_every_command_that_changes_the_store;
     passes_a_blpop_on_as_the_lpop_it_amounted_to;
     keeps_to_itself_a_blpop_that_waited_and_took_nothing;
     keeps_a_write_that_was_turned_down_to_itself; passes_on_what_a_transaction_changed;
     passes_nothing_on_when_no_replica_is_following; goes_on_serving_when_a_replica_hangs_up;
     tells_a_replica_only_of_what_followed_its_arrival;
     goes_on_telling_the_others_when_one_replica_hangs_up;
     waits_for_no_one_when_no_replica_is_following;
     waits_the_time_out_for_replicas_that_are_not_there; rejects_a_wait_that_says_too_little;
     rejects_a_wait_measured_in_something_other_than_numbers; rejects_a_wait_for_less_than_no_time;
     accepts_any_casing_of_wait; starts_up_without_a_dataset_to_read] = true.
Proof. passes. Qed.
