(* ===== verification/ScenariosRecord.v ===== *)
(** * Scenarios: what a server keeps and what it comes up with

    The tests of src/tests/aof.rs, translated under their own names and played on the
    definitions of this development ([Playing]): the record a server keeps, and what
    one started over a record holds.  The files are those of a directory of the test's
    own; a directory is there when something in it is. *)
From S2P Require Import Prelude Text Resp Store Config Aof Dispatch Startup Reference Testing Playing.
Open Scope Z_scope.
Open Scope nat_scope.

(** ** The directory, and what is in it *)
Definition dir_args : list string := ["--dir"; "/data"]%string.
Definition recording : list string := dir_args ++ ["--appendonly"; "yes"]%string.
Definition to_the_disk : list string := recording ++ ["--appendfsync"; "always"]%string.
Definition data_holds (name : string) : Bytes := join (lit "/data") (lit name).
Definition records (name : string) : Bytes := join (data_holds "appendonlydir") (lit name).
Definition left_recorded (name : string) (recorded : Bytes) : list (Bytes * Bytes) :=
  [(records name, recorded);
   (records "appendonly.aof.manifest", lit "file " ++ lit name ++ lit " seq 1 type i" ++ [x0a])].
Definition left_recording_in (name : string) : list (Bytes * Bytes) := left_recorded name [].

Definition file_is (path bytes : Bytes) : Act :=
  Checks (fun s => bool_decide (files (world s) !! path = Some bytes)).
Definition is_file (path : Bytes) : Act := Checks (fun s => is_some (files (world s) !! path)).
Definition no_file (path : Bytes) : Act := Checks (fun s => is_none (files (world s) !! path)).
Definition within (dir : Bytes) (fs : Files) : bool :=
  existsb (fun pb => starts_with (dir ++ [slash]) pb.1) (map_to_list fs).
Definition is_dir (path : Bytes) : Act := Checks (fun s => within path (files (world s))).
Definition no_dir (path : Bytes) : Act := Checks (fun s => negb (within path (files (world s)))).

Definition ITS_RECORD : Bytes := records "appendonly.aof.1.incr.aof".
Definition ELSEWHERE : Bytes := records "elsewhere.aof.1.incr.aof".

Definition ping (i : nat) : list Act := [send i ["PING"]; expect i ["+PONG"]].

(** ** tests/aof.rs *)
Definition makes_somewhere_to_record_its_writes_before_it_takes_a_client : bool :=
  plays_with recording ([is_dir (data_holds "appendonlydir"); is_file ITS_RECORD; Connects] ++ ping 0).
Definition records_under_the_names_it_was_given : bool :=
  let dir := data_holds "my_aof_dir" in
  plays_with (recording ++ ["--appenddirname"; "my_aof_dir"; "--appendfilename"; "my_writes.aof"])
    [is_dir dir; is_file (join dir (lit "my_writes.aof.1.incr.aof"));
     file_is (join dir (lit "my_writes.aof.manifest"))
       (lit "file my_writes.aof.1.incr.aof seq 1 type i" ++ [x0a]);
     no_dir (data_holds "appendonlydir")].
Definition makes_nowhere_to_record_when_it_was_not_asked_to : bool :=
  plays_with (dir_args ++ ["--appendonly"; "no"]) ([no_dir (data_holds "appendonlydir"); Connects] ++ ping 0).
Definition makes_nowhere_to_record_when_it_was_told_nothing : bool :=
  plays_with dir_args [no_dir (data_holds "appendonlydir")].
Definition starts_over_what_it_left_behind_last_time : bool :=
  let there := on_lines ["*1"; "$4"; "PING"] in
  plays_with recording
    ([LeavesFile ITS_RECORD there; Restarts recording; Connects] ++ ping 0 ++ [file_is ITS_RECORD there]).
Definition records_a_write_in_the_file_the_manifest_names : bool :=
  plays_over (left_recording_in "elsewhere.aof.1.incr.aof") to_the_disk
    [Connects; send 0 ["SET"; "foo"; "100"]; expect 0 ["+OK"];
     file_is ELSEWHERE (on_lines ["*3"; "$3"; "SET"; "$3"; "foo"; "$3"; "100"]); no_file ITS_RECORD].
Definition records_one_write_after_another_in_the_order_they_came : bool :=
  plays_over (left_recording_in "elsewhere.aof.1.incr.aof") to_the_disk
    [Connects; send 0 ["SET"; "foo"; "100"]; expect 0 ["+OK"]; send 0 ["SET"; "bar"; "200"]; expect 0 ["+OK"];
     file_is ELSEWHERE (on_lines ["*3"; "$3"; "SET"; "$3"; "foo"; "$3"; "100";
                                  "*3"; "$3"; "SET"; "$3"; "bar"; "$3"; "200"])].

(** [client.send] and [client.read_reply], one command after the other. *)
Definition each_answered (i : nat) (commands : list (list string)) : list Act :=
  flat_map (fun command => [send i command; HearsReply i]) commands.

Definition records_the_writes_out_of_a_mix_and_leaves_the_rest : bool :=
  plays_over (left_recording_in "elsewhere.aof.1.incr.aof") to_the_disk
    ([Connects] ++ each_answered 0
       [["SET"; "foo"; "1"]; ["GET"; "foo"]; ["PING"]; ["ECHO"; "hello"]; ["CONFIG"; "GET"; "appendonly"];
        ["KEYS"; "*"]; ["TYPE"; "foo"]; ["SET"; "bar"; "2"]]
     ++ [file_is ELSEWHERE (on_lines ["*3"; "$3"; "SET"; "$3"; "foo"; "$1"; "1";
                                      "*3"; "$3"; "SET"; "$3"; "bar"; "$1"; "2"])]).
Definition records_nothing_at_all_when_nothing_was_changed : bool :=
  plays_with recording
    ([Connects] ++ each_answered 0 [["GET"; "nobody"]; ["PING"]; ["ECHO"; "hello"]; ["LRANGE"; "l"; "0"; "-1"]]
     ++ [file_is ITS_RECORD []]).
Definition records_every_kind_of_write_it_knows : bool :=
  plays_with recording
    ([Connects] ++ each_answered 0 [["SET"; "n"; "1"]; ["INCR"; "n"]; ["RPUSH"; "l"; "a"]; ["LPOP"; "l"]]
     ++ [file_is ITS_RECORD
           (on_lines ["*3"; "$3"; "SET"; "$1"; "n"; "$1"; "1"; "*2"; "$4"; "INCR"; "$1"; "n";
                      "*3"; "$5"; "RPUSH"; "$1"; "l"; "$1"; "a"; "*2"; "$4"; "LPOP"; "$1"; "l"])]).
Definition records_a_blpop_as_the_lpop_it_amounted_to : bool :=
  plays_with recording
    [Connects; send 0 ["RPUSH"; "l"; "a"; "b"]; HearsReply 0; send 0 ["BLPOP"; "l"; "0"];
     expect 0 ["*2"; "$1"; "l"; "$1"; "a"];
     file_is ITS_RECORD
       (on_lines ["*4"; "$5"; "RPUSH"; "$1"; "l"; "$1"; "a"; "$1"; "b"; "*2"; "$4"; "LPOP"; "$1"; "l"])].
Definition records_nothing_for_a_blpop_that_waited_and_took_nothing : bool :=
  plays_with recording
    [Connects; send 0 ["BLPOP"; "l"; "0.1"]; expect 0 ["*-1"]; file_is ITS_RECORD []].
Definition comes_up_without_what_a_recorded_blpop_took : bool :=
  plays_with recording
    [Connects; send 0 ["RPUSH"; "l"; "a"; "b"; "c"]; HearsReply 0; send 0 ["BLPOP"; "l"; "0"]; HearsReply 0;
     Leaves 0; Restarts recording; Connects; send 0 ["LRANGE"; "l"; "0"; "-1"];
     expect 0 ["*2"; "$1"; "b"; "$1"; "c"]].
Definition records_the_writes_of_one_client_after_those_of_another : bool :=
  plays_with recording
    [Connects; Connects; send 0 ["SET"; "foo"; "1"]; expect 0 ["+OK"]; send 1 ["SET"; "bar"; "2"];
     expect 1 ["+OK"]; send 0 ["SET"; "baz"; "3"]; expect 0 ["+OK"];
     file_is ITS_RECORD
       (on_lines ["*3"; "$3"; "SET"; "$3"; "foo"; "$1"; "1"; "*3"; "$3"; "SET"; "$3"; "bar"; "$1"; "2";
                  "*3"; "$3"; "SET"; "$3"; "baz"; "$1"; "3"])].
Definition records_the_writes_a_transaction_held_back_when_it_lets_them_go : bool :=
  plays_with recording
    [Connects; send 0 ["MULTI"]; expect 0 ["+OK"]; send 0 ["SET"; "foo"; "1"]; expect 0 ["+QUEUED"];
     file_is ITS_RECORD []; send 0 ["SET"; "bar"; "2"]; expect 0 ["+QUEUED"]; send 0 ["EXEC"]; HearsReply 0;
     file_is ITS_RECORD (on_lines ["*3"; "$3"; "SET"; "$3"; "foo"; "$1"; "1";
                                   "*3"; "$3"; "SET"; "$3"; "bar"; "$1"; "2"])].
Definition records_a_write_the_client_asked_for_word_for_word : bool :=
  plays_with recording
    [Connects; send 0 ["set"; "foo"; "bar"; "px"; "100000"]; expect 0 ["+OK"];
     file_is ITS_RECORD
       (on_lines ["*5"; "$3"; "set"; "$3"; "foo"; "$3"; "bar"; "$2"; "px"; "$6"; "100000"])].
Definition records_nothing_for_a_write_that_was_refused : bool :=
  plays_with recording
    ([Connects] ++ each_answered 0 [["SET"; "foo"]; ["INCR"]] ++ [file_is ITS_RECORD []]).
Definition records_nothing_when_it_was_not_asked_to_record : bool :=
  plays_with dir_args
    [Connects; send 0 ["SET"; "foo"; "100"]; expect 0 ["+OK"]; send 0 ["GET"; "foo"]; expect 0 ["$3"; "100"];
     no_dir (data_holds "appendonlydir")].

(** A server started over a record: [left_recorded], then [Server::start_with]. *)
Definition comes_up_over (recorded : list string) (acts : list Act) : bool :=
  plays_over (left_recorded "elsewhere.aof.1.incr.aof" (on_lines recorded)) recording (Connects :: acts).

Definition comes_up_holding_what_the_recorded_command_put_there : bool :=
  comes_up_over ["*3"; "$3"; "SET"; "$3"; "foo"; "$3"; "123"] [send 0 ["GET"; "foo"]; expect 0 ["$3"; "123"]].
Definition comes_up_holding_what_every_recorded_command_put_there : bool :=
  comes_up_over
    ["*3"; "$3"; "SET"; "$4"; "key1"; "$6"; "value1"; "*3"; "$3"; "SET"; "$4"; "key2"; "$6"; "value2";
     "*3"; "$3"; "SET"; "$4"; "key3"; "$6"; "value3"]
    [send 0 ["GET"; "key1"]; expect 0 ["$6"; "value1"]; send 0 ["GET"; "key2"]; expect 0 ["$6"; "value2"];
     send 0 ["GET"; "key3"]; expect 0 ["$6"; "value3"]].
Definition comes_up_where_the_recorded_commands_left_off_between_them : bool :=
  comes_up_over
    ["*3"; "$3"; "SET"; "$1"; "n"; "$1"; "5"; "*2"; "$4"; "INCR"; "$1"; "n"; "*2"; "$4"; "INCR"; "$1"; "n";
     "*4"; "$5"; "RPUSH"; "$1"; "l"; "$1"; "a"; "$1"; "b"; "*2"; "$4"; "LPOP"; "$1"; "l"]
    [send 0 ["GET"; "n"]; expect 0 ["$1"; "7"]; send 0 ["LRANGE"; "l"; "0"; "-1"]; expect 0 ["*1"; "$1"; "b"]].
Definition comes_up_holding_the_last_word_on_a_key_recorded_twice : bool :=
  comes_up_over
    ["*3"; "$3"; "SET"; "$3"; "foo"; "$5"; "first"; "*3"; "$3"; "SET"; "$3"; "foo"; "$4"; "last"]
    [send 0 ["GET"; "foo"]; expect 0 ["$4"; "last"]].
Definition leaves_off_the_command_a_record_stops_in_the_middle_of : bool :=
  plays_over
    (left_recorded "elsewhere.aof.1.incr.aof"
       (on_lines ["*3"; "$3"; "SET"; "$3"; "foo"; "$1"; "1"; "*3"; "$3"; "SET"; "$3"] ++ lit "ba"))
    recording
    [Connects; send 0 ["GET"; "foo"]; expect 0 ["$1"; "1"]; send 0 ["KEYS"; "*"]; expect 0 ["*1"; "$3"; "foo"]].
Definition does_not_record_again_what_it_has_just_played_back : bool :=
  let recorded := ["*3"; "$3"; "SET"; "$3"; "foo"; "$3"; "123"] in
  comes_up_over recorded
    [send 0 ["GET"; "foo"]; expect 0 ["$3"; "123"]; file_is ELSEWHERE (on_lines recorded)].
Definition goes_on_recording_after_what_it_played_back : bool :=
  let recorded := ["*3"; "$3"; "SET"; "$3"; "foo"; "$1"; "1"] in
  comes_up_over recorded
    [send 0 ["SET"; "bar"; "2"]; expect 0 ["+OK"];
     file_is ELSEWHERE (on_lines (recorded ++ ["*3"; "$3"; "SET"; "$3"; "bar"; "$1"; "2"]))].
Definition comes_up_where_the_last_run_left_off : bool :=
  plays_with recording
    [Connects; send 0 ["SET"; "foo"; "123"]; expect 0 ["+OK"]; Restarts recording; Connects;
     send 0 ["GET"; "foo"]; expect 0 ["$3"; "123"]].
Definition comes_up_holding_nothing_over_a_record_with_nothing_in_it : bool :=
  plays_over (left_recording_in "elsewhere.aof.1.incr.aof") recording
    [Connects; send 0 ["KEYS"; "*"]; expect 0 ["*0"]].
Definition will_not_start_over_a_record_it_cannot_read_through : bool :=
  is_none (server_over (list_to_map (left_recorded "elsewhere.aof.1.incr.aof"
    (on_lines ["*3"; "$3"; "SET"; "nonsense"]))) 0 recording).

(** A file where the directory should be: it cannot be made. *)
Definition in_the_way : Faults := fun a =>
  match a with
  | CreateDirs p =>
      if p =b? data_holds "appendonlydir"
      then Some {| fault_said := lit "File exists (os error 17)"; fault_reached := None |} else None
  | _ => None
  end.
Definition will_not_start_with_nowhere_to_record : bool :=
  let there := {[data_holds "appendonlydir" := lit "not a directory"]} in
  match parse_config (Some (lit "/srv")) (words recording) with
  | Ok c =>
      match @start ascii_tables reference_trig sha256 in_the_way c there 0%Z (fun _ => 0%Z) 1%Z 2%Z
              (fun n k => moment {| world := {| store := empty_state; server := new_server c 1 2;
                                                files := there |}; clock_ := 0%Z; peers := [] |} 0 n k) 0 with
      | Failed (CouldNotPrepare said) => existsb (has_in_it (lit "appendonlydir")) said
      | _ => false
      end
  | Err _ => false
  end.

Lemma scenarios_record_pass :
  all_pass
    [makes_somewhere_to_record_its_writes_before_it_takes_a_client; records_under_the_names_it_was_given;
     makes_nowhere_to_record_when_it_was_not_asked_to; makes_nowhere_to_record_when_it_was_told_nothing;
     starts_over_what_it_left_behind_last_time; records_a_write_in_the_file_the_manifest_names;
     records_one_write_after_another_in_the_order_they_came;
     records_the_writes_out_of_a_mix_and_leaves_the_rest; records_nothing_at_all_when_nothing_was_changed;
     records_every_kind_of_write_it_knows; records_a_blpop_as_the_lpop_it_amounted_to;
     records_nothing_for_a_blpop_that_waited_and_took_nothing;
     comes_up_without_what_a_recorded_blpop_took; records_the_writes_of_one_client_after_those_of_another;
     records_the_writes_a_transaction_held_back_when_it_lets_them_go;
     records_a_write_the_client_asked_for_word_for_word; records_nothing_for_a_write_that_was_refused;
     records_nothing_when_it_was_not_asked_to_record;
     comes_up_holding_what_the_recorded_command_put_there;
     comes_up_holding_what_every_recorded_command_put_there;
     comes_up_where_the_recorded_commands_left_off_between_them;
     comes_up_holding_the_last_word_on_a_key_recorded_twice;
     leaves_off_the_command_a_record_stops_in_the_middle_of;
     does_not_record_again_what_it_has_just_played_back; goes_on_recording_after_what_it_played_back;
     comes_up_where_the_last_run_left_off; comes_up_holding_nothing_over_a_record_with_nothing_in_it;
     will_not_start_over_a_record_it_cannot_read_through; will_not_start_with_nowhere_to_record] = true.
Proof. passes. Qed.
