(* ===== verification/ScenariosDataset.v ===== *)
(** * Scenarios: servers started over a saved dataset

    The tests of src/tests/rdb.rs, translated under their own names and played on the
    definitions of this development ([Playing]), with the helpers that lay a dataset out
    the way Redis saves one.  Where a test sorts the keys it was told before it
    compares them, they are compared in any order. *)
From S2P Require Import Prelude Text Resp Store Config Aof Rdb Dispatch Startup Reference Testing Playing.
Open Scope Z_scope.

(** ** The dataset a test saves *)

(** [Goes]: when a saved key is to go, in milliseconds since the epoch. *)
Inductive Goes : Type := Never | AtSeconds (at_ : Z) | AtMilliseconds (at_ : Z).

(** [to_le_bytes], the first so many of them. *)
Fixpoint le_bytes (n : nat) (v : Z) : Bytes :=
  match n with O => [] | S n => byte_of (v mod 256) :: le_bytes n (v / 256) end.

(** [length], of the test file. *)
Definition saved_length (n : nat) : Bytes :=
  let n := Z.of_nat n in
  if n <=? 63 then [byte_of n] else [byte_of (Z.lor 64 (n / 256)); byte_of (Z.land n 255)].

Definition saved_entry (e : Bytes * Bytes * Goes) : Bytes :=
  let '(key, value, goes) := e in
  match goes with
  | Never => []
  | AtSeconds at_ => xfd :: le_bytes 4 (at_ / 1000)
  | AtMilliseconds at_ => xfc :: le_bytes 8 at_
  end ++ [x00] ++ saved_length (length key) ++ key ++ saved_length (length value) ++ value.
Definition is_never (e : Bytes * Bytes * Goes) : bool := match e.2 with Never => true | _ => false end.
Definition dataset_of (entries : list (Bytes * Bytes * Goes)) : Bytes :=
  lit "REDIS0011" ++ [xfa; x09] ++ lit "redis-ver" ++ [x05] ++ lit "7.2.0" ++ [xfe; x00]
  ++ [xfb; byte_of (len entries); byte_of (len (List.filter (fun e => negb (is_never e)) entries))]
  ++ flat_map saved_entry entries ++ [xff] ++ repeat x00 8.
Definition dataset_holding (entries : list (Bytes * Bytes)) : Bytes :=
  dataset_of (map (fun kv => (kv, Never)) entries).
Definition dataset (entries : list (string * string)) : Bytes :=
  dataset_holding (map (fun kv => (lit kv.1, lit kv.2)) entries).

Definition long_gone : Z := EPOCH - 3600000.
Definition far_off : Z := EPOCH + 3600000.

(** [Saved::new] and [Saved::server], [Saved::nothing] and [Server::start_with]. *)
Definition saved_args : list string := ["--dir"; "/data"; "--dbfilename"; "dump.rdb"].
Definition DUMP : Bytes := join (lit "/data") (lit "dump.rdb").
Definition plays_saved (file : Bytes) (acts : list Act) : bool := plays_over [(DUMP, file)] saved_args acts.

(** [client.read_command], its words in any order. *)
Definition these_keys (l : list string) (v : Value) : bool :=
  match v with
  | Array vs => bool_decide (vs ≡ₚ map bulk l)
  | _ => false
  end.
Definition expect_keys (i : nat) (l : list string) : Act := HearsThat i (these_keys l).

(** ** tests/rdb.rs *)
Definition lists_the_one_key_a_saved_dataset_holds : bool :=
  plays_saved (dataset [("foo", "bar")]%string) [Connects; send 0 ["KEYS"; "*"]; expect 0 ["*1"; "$3"; "foo"]].
Definition lists_every_key_a_saved_dataset_holds : bool :=
  plays_saved (dataset [("foo", "1"); ("bar", "2"); ("hello", "3"); ("mango", "4")]%string)
    [Connects; send 0 ["KEYS"; "*"]; expect_keys 0 ["bar"; "foo"; "hello"; "mango"]].
Definition holds_what_each_of_the_saved_keys_held : bool :=
  plays_saved (dataset [("foo", "1"); ("bar", "2"); ("hello", "3")]%string)
    [Connects; send 0 ["GET"; "foo"]; expect 0 ["$1"; "1"]; send 0 ["GET"; "bar"]; expect 0 ["$1"; "2"];
     send 0 ["GET"; "hello"]; expect 0 ["$1"; "3"]].
Definition hands_each_saved_value_to_a_caller_of_its_own : bool :=
  plays_saved (dataset [("foo", "bar"); ("baz", "qux"); ("hello", "world")]%string)
    [Connects; send 0 ["GET"; "foo"]; expect 0 ["$3"; "bar"]; Connects; send 1 ["GET"; "baz"];
     expect 1 ["$3"; "qux"]; Connects; send 2 ["GET"; "hello"]; expect 2 ["$5"; "world"]].
Definition lists_nothing_when_nothing_was_ever_saved : bool :=
  plays_with saved_args [Connects; send 0 ["KEYS"; "*"]; expect 0 ["*0"]].
Definition holds_what_the_saved_key_held : bool :=
  plays_saved (dataset [("foo", "bar")]%string) [Connects; send 0 ["GET"; "foo"]; expect 0 ["$3"; "bar"]].
Definition holds_a_saved_value_too_long_for_a_six_bit_length : bool :=
  let value := repeat "v"%byte 300 in
  plays_saved (dataset_holding [(lit "foo", value)])
    [Connects; send 0 ["GET"; "foo"]; Hears 0 (lit "$300" ++ CRLF ++ value ++ CRLF)].
Definition holds_a_saved_value_that_is_not_text : bool :=
  let value := [x00; xff] ++ CRLF ++ lit "not text" ++ [x80] in
  plays_saved (dataset_holding [(lit "binary", value)])
    [Connects; send 0 ["GET"; "binary"]; Hears 0 (lit "$13" ++ CRLF ++ value ++ CRLF)].
Definition holds_a_saved_value_of_nothing_at_all : bool :=
  plays_saved (dataset [("empty", "")]%string)
    [Connects; send 0 ["GET"; "empty"]; expect 0 ["$0"; ""]; send 0 ["GET"; "missing"]; expect 0 ["$-1"]].
Definition calls_a_saved_value_a_string : bool :=
  plays_saved (dataset [("foo", "bar")]%string) [Connects; send 0 ["TYPE"; "foo"]; expect 0 ["+string"]].
Definition lets_a_saved_value_be_written_over : bool :=
  plays_saved (dataset [("foo", "bar")]%string)
    [Connects; send 0 ["SET"; "foo"; "baz"]; expect 0 ["+OK"]; send 0 ["GET"; "foo"]; expect 0 ["$3"; "baz"]].
Definition counts_up_from_a_saved_number : bool :=
  plays_saved (dataset [("count", "41")]%string) [Connects; send 0 ["INCR"; "count"]; expect 0 [":42"]].
Definition lists_the_keys_it_was_given_alongside_the_ones_it_read : bool :=
  plays_saved (dataset [("foo", "bar")]%string)
    [Connects; send 0 ["SET"; "baz"; "qux"]; expect 0 ["+OK"]; send 0 ["KEYS"; "*"];
     expect_keys 0 ["baz"; "foo"]].
Definition lists_only_the_keys_the_pattern_asks_for : bool :=
  plays_saved (dataset [("foo", "1"); ("food", "2"); ("bar", "3")]%string)
    [Connects; send 0 ["KEYS"; "foo*"]; expect_keys 0 ["foo"; "food"]].
Definition lists_nothing_for_a_pattern_no_key_answers_to : bool :=
  plays_saved (dataset [("foo", "bar")]%string) [Connects; send 0 ["KEYS"; "nothing*"]; expect 0 ["*0"]].
Definition keeps_a_saved_key_out_of_the_listing_once_its_time_has_passed : bool :=
  plays_saved (dataset_of [(lit "gone", lit "value", AtMilliseconds long_gone)])
    [Connects; send 0 ["KEYS"; "*"]; expect 0 ["*0"]; send 0 ["GET"; "gone"]; expect 0 ["$-1"]].
Definition keeps_a_saved_key_whose_time_has_yet_to_come : bool :=
  plays_saved (dataset_of [(lit "later", lit "value", AtMilliseconds far_off)])
    [Connects; send 0 ["KEYS"; "*"]; expect 0 ["*1"; "$5"; "later"]; send 0 ["GET"; "later"];
     expect 0 ["$5"; "value"]].
Definition times_to_either_side : Bytes :=
  dataset_of [(lit "plain", lit "always", Never); (lit "past-ms", lit "gone", AtMilliseconds long_gone);
              (lit "future-ms", lit "alive", AtMilliseconds far_off);
              (lit "past-s", lit "gone", AtSeconds long_gone);
              (lit "future-s", lit "alive", AtSeconds far_off)].
Definition tells_the_saved_keys_that_have_gone_from_the_ones_that_have_not : bool :=
  plays_saved times_to_either_side
    [Connects; send 0 ["GET"; "plain"]; expect 0 ["$6"; "always"]; Connects; send 1 ["GET"; "past-ms"];
     expect 1 ["$-1"]; Connects; send 2 ["GET"; "future-ms"]; expect 2 ["$5"; "alive"]; Connects;
     send 3 ["GET"; "past-s"]; expect 3 ["$-1"]; Connects; send 4 ["GET"; "future-s"];
     expect 4 ["$5"; "alive"]].
Definition lists_only_the_saved_keys_that_are_still_to_come : bool :=
  plays_saved times_to_either_side
    [Connects; send 0 ["KEYS"; "*"]; expect_keys 0 ["future-ms"; "future-s"; "plain"]].
Definition a_saved_key_goes_when_its_time_comes_round : bool :=
  plays_saved (dataset_of [(lit "soon", lit "value", AtMilliseconds (EPOCH + 400))])
    [Connects; send 0 ["GET"; "soon"]; expect 0 ["$5"; "value"]; Sleeps 700; send 0 ["GET"; "soon"];
     expect 0 ["$-1"]].
Definition lets_a_saved_key_be_given_a_new_lease : bool :=
  plays_saved (dataset_of [(lit "later", lit "value", AtMilliseconds far_off)])
    [Connects; send 0 ["SET"; "later"; "fresh"]; expect 0 ["+OK"]; send 0 ["GET"; "later"];
     expect 0 ["$5"; "fresh"]].
Definition refuses_a_keys_that_names_no_pattern : bool :=
  plays_saved (dataset [("foo", "bar")]%string)
    [Connects; send 0 ["KEYS"]; expect 0 ["-ERR wrong number of arguments for 'keys' command"];
     send 0 ["KEYS"; "a"; "b"]; expect 0 ["-ERR wrong number of arguments for 'keys' command"]].
Definition keeps_serving_the_connection_after_a_keys : bool :=
  plays_saved (dataset [("foo", "bar")]%string)
    [Connects; send 0 ["KEYS"; "*"]; HearsReply 0; send 0 ["PING"]; expect 0 ["+PONG"]].
(** What [main] prints of the error is not kept, but which it is: the file is not a
    dataset. *)
Definition refuses_to_start_on_a_dataset_it_cannot_read : bool :=
  let there := {[DUMP := lit "this was never a dataset"]} in
  match parse_config (Some (lit "/srv")) (words saved_args) with
  | Ok c =>
      match load no_faults there c (EPOCH * 1000000) (fun _ => 0) empty_state with
      | Done (Err (Misread (NotADataset _))) => is_none (server_over there 0 saved_args)
      | _ => false
      end
  | Err _ => false
  end.

Lemma scenarios_dataset_pass :
  all_pass
    [lists_the_one_key_a_saved_dataset_holds; lists_every_key_a_saved_dataset_holds;
     holds_what_each_of_the_saved_keys_held; hands_each_saved_value_to_a_caller_of_its_own;
     lists_nothing_when_nothing_was_ever_saved; holds_what_the_saved_key_held;
     holds_a_saved_value_too_long_for_a_six_bit_length; holds_a_saved_value_that_is_not_text;
     holds_a_saved_value_of_nothing_at_all; calls_a_saved_value_a_string;
     lets_a_saved_value_be_written_over; counts_up_from_a_saved_number;
     lists_the_keys_it_was_given_alongside_the_ones_it_read; lists_only_the_keys_the_pattern_asks_for;
     lists_nothing_for_a_pattern_no_key_answers_to;
     keeps_a_saved_key_out_of_the_listing_once_its_time_has_passed;
     keeps_a_saved_key_whose_time_has_yet_to_come;
     tells_the_saved_keys_that_have_gone_from_the_ones_that_have_not;
     lists_only_the_saved_keys_that_are_still_to_come; a_saved_key_goes_when_its_time_comes_round;
     lets_a_saved_key_be_given_a_new_lease; refuses_a_keys_that_names_no_pattern;
     keeps_serving_the_connection_after_a_keys; refuses_to_start_on_a_dataset_it_cannot_read] = true.
Proof. passes. Qed.
