(* ===== verification/ScenariosFollowing.v ===== *)
(** * Scenarios: a server that follows a master

    The tests of src/tests/handshake.rs and src/tests/replicating.rs in which a
    stand-in ([FakeMaster]) plays the master, translated under their own names.  A
    replica is a server with clients of its own ([Playing]) and an end of a
    conversation with its master ([ReplicaSide]): until they have agreed it hears the
    master out from the start each time the master has said more, and from then on it
    keeps up with each thing said.  In the last but one of handshake.rs the master is
    a server too. *)
From S2P Require Import Prelude Text Resp Command Store Config Users Channels Transactions Replicas Dispatch.
From S2P Require Import Connection ReplicaSide Startup Reference Testing Playing.
Open Scope Z_scope.

#[local] Existing Instance sha256.
#[local] Existing Instance reference_trig.

(** ** A replica and its master's end of the conversation *)
Inductive Link : Type :=
| Alone
| Greeting (told : list Bytes)
| Keeping (before : list Bytes) (f : Follower)
| Over (before : list Bytes).
Record Following_ := { own : Sim; link : Link; port_ : Z; read_ : nat }.

Definition conversation (told : list Bytes) : Conversation :=
  {| unread := []; to_come := told; spoken := [] |}.
Definition said_by (r : Following_) : Bytes :=
  concat (match link r with
          | Alone => []
          | Greeting told => spoken (agree (port_ r) (conversation told)).2
          | Keeping before f => before ++ said f
          | Over before => before
          end).

Definition REPLICA_ITSELF : nat := 9.
Definition linked (r : Following_) (l : Link) (w : World) : Following_ :=
  {| own := with_world (own r) w; link := l; port_ := port_ r; read_ := read_ r |}.
Definition is_told (bytes : Bytes) (r : Following_) : Following_ :=
  let w := world (own r) in
  let moments n k := moment (own r) REPLICA_ITSELF n k in
  match link r with
  | Greeting told =>
      match agree (port_ r) (conversation (told ++ [bytes])) with
      | (Ok (from, _), t) =>
          let '(f, w) := hear_more moments [] (as_heard (unread t) from (trusted_client REPLICA_ITSELF)) w in
          linked r (Keeping (spoken t) f) w
      | (Err MasterHungUp, _) => linked r (Greeting (told ++ [bytes])) w
      | (Err _, t) => linked r (Over (spoken t)) w
      end
  | Keeping before f =>
      let '(f, w) := hear_more moments bytes f w in linked r (Keeping before f) w
  | l => linked r l w
  end.

(** What a test does: with the replica's own clients, or as its master. *)
Inductive Play : Type :=
| Own (a : Act)
| Says (bytes : Bytes)
| IsTold (bytes : Bytes)
| ReadsCommand
| IsToldNothing.
Definition unread_by_master (r : Following_) : Bytes := drop (read_ r) (said_by r).
Definition master_reads (n : nat) (r : Following_) : Following_ :=
  {| own := own r; link := link r; port_ := port_ r; read_ := read_ r + n |}.
Definition play (p : Play) (r : Following_) : option Following_ :=
  match p with
  | Own a => (fun s => {| own := s; link := link r; port_ := port_ r; read_ := read_ r |}) <$> act a (own r)
  | Says bytes => Some (is_told bytes r)
  | IsTold bytes => (fun n => master_reads n r) <$> these bytes (unread_by_master r)
  | ReadsCommand => (fun n => master_reads n r) <$> a_reply (unread_by_master r)
  | IsToldNothing => if unread_by_master r =b? [] then Some r else None
  end.
Fixpoint played (plays : list Play) (r : Following_) : option Following_ :=
  match plays with [] => Some r | p :: plays => play p r ≫= played plays end.

(** A server started with these arguments, which the system gives a port. *)
Definition goes_live (args : list string) : option Following_ :=
  w ← server_over ∅ 0 args;
  g ← go_live (Some 6380) w;
  Some {| own := {| world := Startup.world g; clock_ := 0; peers := [] |};
          link := match follows g with Some _ => Greeting [] | None => Alone end;
          port_ := match follows g with Some (_, settled) => settled | None => 0 end;
          read_ := O |}.
Definition follows_ : list string := ["--replicaof"; "localhost 6379"].
Definition plays_as (args : list string) (plays : list Play) : bool :=
  is_some (goes_live args ≫= played plays).
Definition plays_replica : list Play -> bool := plays_as follows_.

(** [conversation.send], [conversation.expect_reply]. *)
Definition says (l : list string) : Play := Says (encode (Array (map bulk l))).
Definition told_lines (l : list string) : Play := IsTold (on_lines l).
Definition own_send (i : nat) (l : list string) : Play := Own (send i l).
Definition own_expect (i : nat) (l : list string) : Play := Own (expect i l).

Definition DATASET : Bytes := lit "$18" ++ CRLF ++ lit "REDIS0011" ++ [xff] ++ repeat x00 8.
Definition AGREEMENT : Bytes := lit "+FULLRESYNC 8371b4fb1155b71f4a04d3e1bc3e18c4d990aeeb 0" ++ CRLF.

(** [hand_over] and [following]. *)
Definition hand_over : list Play :=
  [told_lines ["*1"; "$4"; "PING"]; Says (on_lines ["+PONG"]); ReadsCommand; Says (on_lines ["+OK"]);
   ReadsCommand; Says (on_lines ["+OK"]); ReadsCommand; Says AGREEMENT; Says DATASET].
Definition plays_following (plays : list Play) : bool := plays_replica (hand_over ++ plays).

(** [*3 REPLCONF ACK n]. *)
Definition told_how_far (n : string) : Play :=
  IsTold (encode (Array (map bulk ["REPLCONF"; "ACK"; n]))).

(** ** tests/handshake.rs *)
Definition greets_the_master_it_was_told_to_follow : bool :=
  plays_replica [told_lines ["*1"; "$4"; "PING"]].
Definition tells_the_master_where_to_reach_it_and_what_it_can_do : bool :=
  plays_replica
    [told_lines ["*1"; "$4"; "PING"]; Says (on_lines ["+PONG"]);
     told_lines ["*3"; "$8"; "REPLCONF"; "$14"; "listening-port"; "$4"; "6380"]; Says (on_lines ["+OK"]);
     told_lines ["*3"; "$8"; "REPLCONF"; "$4"; "capa"; "$6"; "psync2"]; Says (on_lines ["+OK"])].
Definition asks_the_master_for_its_whole_history : bool :=
  plays_replica
    [told_lines ["*1"; "$4"; "PING"]; Says (on_lines ["+PONG"]); ReadsCommand; Says (on_lines ["+OK"]);
     ReadsCommand; Says (on_lines ["+OK"]); told_lines ["*3"; "$5"; "PSYNC"; "$1"; "?"; "$2"; "-1"];
     Says AGREEMENT].
Definition waits_for_each_answer_before_asking_the_next_thing : bool :=
  plays_replica
    [told_lines ["*1"; "$4"; "PING"]; Says (on_lines ["+PONG"]); ReadsCommand; IsToldNothing].
Definition waits_for_the_master_to_answer_before_going_on : bool :=
  plays_replica [told_lines ["*1"; "$4"; "PING"]; IsToldNothing].
Definition leaves_the_master_alone_unless_told_to_follow_one : bool :=
  plays_as ["--port"; "0"] [IsToldNothing].
Definition serves_its_own_clients_while_greeting_the_master : bool :=
  plays_replica [Own Connects; own_send 0 ["PING"]; own_expect 0 ["+PONG"]].

(** What the replica has said goes to the master, its client, and what the master
    answers comes back, until neither has more to say. *)
Fixpoint introduced (fuel : nat) (master : Sim) (r : Following_) : option Following_ :=
  match fuel, peers master !! O with
  | S fuel, Some p =>
      let asked := unread_by_master r in
      let master := if asked =b? [] then master else sends_to 0 asked master in
      let answers := match peers master !! O with Some p => waiting_to_be_read p | None => [] end in
      let r := master_reads (length asked) r in
      if answers =b? [] then Some r
      else introduced fuel (takes 0 (length answers) master) (is_told answers r)
  | _, _ => None
  end.
Definition gets_through_the_handshake_with_a_master_of_the_same_making : bool :=
  match goes_live [], goes_live follows_ with
  | Some master, Some replica =>
      match act Connects (own master) with
      | Some master =>
          match introduced FUEL master replica with
          | Some r => match link r with Keeping _ f => Z.eqb (at_ f) 0 | _ => false end
          | None => false
          end
      | None => false
      end
  | _, _ => false
  end.
(** The line it prints is not kept, but what makes it print it is. *)
Definition says_so_when_the_master_cannot_be_followed : bool :=
  match goes_live ["--replicaof"; "127.0.0.1 1"] with
  | Some r =>
      match (follow (fun n k => moment (own r) REPLICA_ITSELF n k) None (port_ r) REPLICA_ITSELF
               (world (own r))).1.1 with
      | Err CouldNotConnect => true
      | _ => false
      end
  | None => false
  end.

(** ** tests/replicating.rs *)
Definition takes_on_what_the_master_was_told_to_change : bool :=
  plays_following
    [says ["SET"; "foo"; "1"]; Own Connects; own_send 0 ["GET"; "foo"]; own_expect 0 ["$1"; "1"]].
Definition takes_them_on_in_the_order_they_were_made : bool :=
  plays_following
    [says ["SET"; "counter"; "1"]; says ["INCR"; "counter"]; says ["INCR"; "counter"]; Own Connects;
     own_send 0 ["GET"; "counter"]; own_expect 0 ["$1"; "3"]].
Definition answers_the_master_nothing : bool :=
  plays_following [says ["SET"; "foo"; "1"]; says ["INCR"; "foo"]; IsToldNothing].
Definition takes_on_commands_that_arrive_together : bool :=
  plays_following
    [Says (on_lines ["*3"; "$3"; "SET"; "$3"; "foo"; "$1"; "1"; "*3"; "$3"; "SET"; "$3"; "bar"; "$1"; "2"]);
     Own Connects; own_send 0 ["GET"; "foo"]; own_expect 0 ["$1"; "1"]; own_send 0 ["GET"; "bar"];
     own_expect 0 ["$1"; "2"]].
Definition takes_on_a_command_that_arrives_in_pieces : bool :=
  plays_following
    [Says (on_lines ["*3"; "$3"] ++ lit "SE"); Own (Sleeps 50);
     Says (on_lines ["T"; "$3"] ++ lit "foo" ++ [x0d]); Own (Sleeps 50);
     Says ([x0a] ++ on_lines ["$5"; "value"]); Own (Sleeps 50); Own Connects; own_send 0 ["GET"; "foo"];
     own_expect 0 ["$5"; "value"]].
Definition takes_on_a_dataset_that_arrives_with_the_first_command : bool :=
  plays_replica
    [told_lines ["*1"; "$4"; "PING"]; Says (on_lines ["+PONG"]); ReadsCommand; Says (on_lines ["+OK"]);
     ReadsCommand; Says (on_lines ["+OK"]); ReadsCommand;
     Says (AGREEMENT ++ DATASET ++ on_lines ["*3"; "$3"; "SET"; "$3"; "foo"; "$1"; "1"]);
     Own Connects; own_send 0 ["GET"; "foo"]; own_expect 0 ["$1"; "1"]].
Definition serves_its_own_clients_while_following : bool :=
  plays_following
    [says ["SET"; "from-master"; "1"]; Own Connects; own_send 0 ["SET"; "from-client"; "2"];
     own_expect 0 ["+OK"]; own_send 0 ["GET"; "from-master"]; own_expect 0 ["$1"; "1"];
     own_send 0 ["GET"; "from-client"]; own_expect 0 ["$1"; "2"]].
(** It has heard everything there was, and made sense of it. *)
Definition says_so_when_the_master_goes_away : bool :=
  match goes_live follows_ with
  | Some r =>
      match (follow (fun n k => moment (own r) REPLICA_ITSELF n k)
               (Some [on_lines ["+PONG"]; on_lines ["+OK"]; on_lines ["+OK"]; AGREEMENT; DATASET])
               (port_ r) REPLICA_ITSELF (world (own r))).1.1 with
      | Ok f => match upkeep f with KeepingUp => true | _ => false end
      | Err _ => false
      end
  | None => false
  end.
Definition getack : Play := says ["REPLCONF"; "GETACK"; "*"].
Definition says_how_far_it_has_got_when_asked : bool := plays_following [getack; told_how_far "0"].
Definition counts_the_asking_itself_towards_how_far_it_has_got : bool :=
  plays_following [getack; told_how_far "0"; getack; told_how_far "37"; getack; told_how_far "74"].
Definition counts_what_it_was_told_that_changed_nothing : bool :=
  plays_following [says ["PING"]; getack; told_how_far "14"].
Definition counts_everything_the_master_sent_in_the_order_it_came : bool :=
  plays_following
    [getack; told_how_far "0"; says ["PING"]; getack; told_how_far "51"; says ["SET"; "foo"; "1"];
     says ["SET"; "bar"; "2"]; getack; told_how_far "146"].
Definition counts_commands_that_arrived_together : bool :=
  plays_following
    [Says (on_lines ["*1"; "$4"; "PING"; "*1"; "$4"; "PING"; "*3"; "$8"; "REPLCONF"; "$6"; "GETACK"; "$1"; "*"]);
     told_how_far "28"].
Definition says_how_far_it_has_got_however_the_asking_is_spelled : bool :=
  plays_following
    [says ["REPLCONF"; "GETACK"; "*"]; told_how_far "0"; says ["replconf"; "getack"; "*"]; told_how_far "37";
     says ["ReplConf"; "GetAck"; "*"]; told_how_far "74"].
Definition answers_nothing_but_the_asking : bool :=
  plays_following [says ["SET"; "foo"; "1"]; says ["PING"]; getack; told_how_far "43"; IsToldNothing].
Definition goes_on_taking_commands_in_after_being_asked : bool :=
  plays_following
    [says ["SET"; "before"; "1"]; getack; told_how_far "32"; says ["SET"; "after"; "2"]; Own Connects;
     own_send 0 ["GET"; "before"]; own_expect 0 ["$1"; "1"]; own_send 0 ["GET"; "after"];
     own_expect 0 ["$1"; "2"]].
Definition keeps_the_asking_out_of_its_own_store : bool :=
  plays_following
    [getack; told_how_far "0"; Own Connects; own_send 0 ["TYPE"; "REPLCONF"]; own_expect 0 ["+none"]].

Lemma scenarios_following_pass :
  all_pass
    [greets_the_master_it_was_told_to_follow; tells_the_master_where_to_reach_it_and_what_it_can_do;
     asks_the_master_for_its_whole_history; waits_for_each_answer_before_asking_the_next_thing;
     waits_for_the_master_to_answer_before_going_on; leaves_the_master_alone_unless_told_to_follow_one;
     serves_its_own_clients_while_greeting_the_master;
     gets_through_the_handshake_with_a_master_of_the_same_making;
     says_so_when_the_master_cannot_be_followed; takes_on_what_the_master_was_told_to_change;
     takes_them_on_in_the_order_they_were_made; answers_the_master_nothing;
     takes_on_commands_that_arrive_together; takes_on_a_command_that_arrives_in_pieces;
     takes_on_a_dataset_that_arrives_with_the_first_command; serves_its_own_clients_while_following;
     says_so_when_the_master_goes_away; says_how_far_it_has_got_when_asked;
     counts_the_asking_itself_towards_how_far_it_has_got; counts_what_it_was_told_that_changed_nothing;
     counts_everything_the_master_sent_in_the_order_it_came; counts_commands_that_arrived_together;
     says_how_far_it_has_got_however_the_asking_is_spelled; answers_nothing_but_the_asking;
     goes_on_taking_commands_in_after_being_asked; keeps_the_asking_out_of_its_own_store] = true.
Proof. passes. Qed.
