(* ===== verification/ScenariosHeard.v ===== *)
(** * Scenarios: what is to be made out of what is heard

    The tests of src/tests/ in which a client looks into what it hears, or a stand-in
    for a replica ([FakeReplica]) keeps up with the server, translated under their own
    names and played on the definitions of this development ([Playing]).  The clock
    stands still until somebody gives up waiting, so that what is to take less than a
    second takes no time at all. *)
From S2P Require Import Prelude Text Resp F64 Store Command StoreStreams StoreCommands Config Users Channels.
From S2P Require Import Transactions Replicas Dispatch Connection ReplicaSide Startup Reference Testing Playing.
Open Scope Z_scope.

(** ** What is said of what was heard *)
Definition a_report (so : Bytes -> bool) (v : Value) : bool :=
  match v with BulkString report => so report | _ => false end.
Definition expect_report (i : nat) (so : Bytes -> bool) : Act := HearsThat i (a_report so).
Definition has_line (l : string) (report : Bytes) : bool := existsb (fun x => x =b? lit l) (lines report).
Definition within_ms (ms : Z) : Act := Checks (fun s => clock_ s <? ms * 1000000).
Definition after_ms (ms : Z) : Act := Checks (fun s => ms * 1000000 <=? clock_ s).

(** [common::follow], and [FakeReplica::follow] up to the thread it starts. *)
Definition follow_ (i : nat) : list Act :=
  [Connects; send i ["PING"]; expect i ["+PONG"]; send i ["REPLCONF"; "listening-port"; "6380"];
   expect i ["+OK"]; send i ["REPLCONF"; "capa"; "psync2"]; expect i ["+OK"]; send i ["PSYNC"; "?"; "-1"];
   HearsLine i (lit "+FULLRESYNC "); HearsFile i].
Definition set_foo (i : nat) : list Act := [send i ["SET"; "foo"; "123"]; expect i ["+OK"]].

(** ** tests/wait.rs *)
Definition answers_at_once_however_many_replicas_are_asked_for : bool :=
  plays [Connects; send 0 ["WAIT"; "3"; "5000"]; expect 0 [":0"]; within_ms 1000].
Definition counts_the_replicas_that_are_following : bool :=
  plays (follow_ 0 ++ follow_ 1 ++ follow_ 2 ++ [Connects; send 3 ["WAIT"; "3"; "500"]; expect 3 [":3"]]).
Definition counts_them_all_however_few_are_asked_for : bool :=
  plays (follow_ 0 ++ follow_ 1 ++ follow_ 2 ++ [Connects]
    ++ flat_map (fun asked => [send 3 ["WAIT"; asked; "500"]; expect 3 [":3"]]) ["0"; "1"; "3"; "9"]%string).
Definition answers_at_once_when_there_is_nothing_to_catch_up_on : bool :=
  plays (follow_ 0 ++ follow_ 1 ++ [Connects; send 2 ["WAIT"; "9"; "5000"]; expect 2 [":2"]; within_ms 1000]).
Definition counts_the_replica_that_has_caught_up_with_a_write : bool :=
  plays (follow_ 0 ++ [Connects] ++ set_foo 1 ++ [send 1 ["WAIT"; "1"; "500"]; KeepsUp 0; expect 1 [":1"]]).
Definition counts_every_replica_that_has_caught_up : bool :=
  plays (follow_ 0 ++ follow_ 1 ++ follow_ 2 ++ [Connects] ++ set_foo 3
    ++ [send 3 ["WAIT"; "3"; "500"]; KeepsUp 0; KeepsUp 1; KeepsUp 2; expect 3 [":3"]]).
Definition answers_as_soon_as_enough_replicas_have_caught_up : bool :=
  plays (follow_ 0 ++ follow_ 1 ++ [Connects] ++ set_foo 2
    ++ [send 2 ["WAIT"; "2"; "5000"]; KeepsUp 0; KeepsUp 1; expect 2 [":2"]; within_ms 1000]).
Definition counts_only_the_replicas_that_answered_before_the_time_was_up : bool :=
  plays (follow_ 0 ++ follow_ 1 ++ [Connects] ++ set_foo 2
    ++ [send 2 ["WAIT"; "2"; "300"]; KeepsUp 0; expect 2 [":1"]; after_ms 300]).
Definition counts_them_afresh_for_each_write_it_is_asked_about : bool :=
  plays ([Connects] ++ follow_ 1 ++ set_foo 0 ++ [send 0 ["WAIT"; "1"; "500"]; KeepsUp 1; expect 0 [":1"]]
    ++ follow_ 2 ++ [send 0 ["SET"; "bar"; "456"]; expect 0 ["+OK"]; send 0 ["WAIT"; "2"; "500"];
                     KeepsUp 1; KeepsUp 2; expect 0 [":2"]]).
Definition stops_counting_a_replica_that_has_gone : bool :=
  plays (follow_ 0 ++ follow_ 1
    ++ [Connects; send 2 ["SET"; "key"; "value"]; expect 2 ["+OK"]; send 2 ["WAIT"; "2"; "500"]; KeepsUp 0;
        KeepsUp 1; expect 2 [":2"]; Leaves 1; send 2 ["SET"; "key"; "again"]; expect 2 ["+OK"];
        send 2 ["WAIT"; "2"; "300"]; KeepsUp 0; expect 2 [":1"]]).
Definition waits_however_long_it_takes_when_given_no_time_at_all : bool :=
  plays (follow_ 0 ++ [Connects] ++ set_foo 1 ++ [send 1 ["WAIT"; "1"; "0"]; KeepsUp 0; expect 1 [":1"]]).
Definition goes_on_waiting_when_given_no_time_and_no_answer : bool :=
  plays (follow_ 0 ++ follow_ 1 ++ [Connects] ++ set_foo 2
    ++ [send 2 ["WAIT"; "2"; "0"]; KeepsUp 0; HearsNothing 2]).
Definition takes_in_what_a_replica_said_alongside_its_request : bool :=
  plays ([Connects] ++ set_foo 0
    ++ [Connects; send 1 ["PING"]; expect 1 ["+PONG"];
        Sends 1 (on_lines ["*3"; "$5"; "PSYNC"; "$1"; "?"; "$2"; "-1";
                           "*3"; "$8"; "REPLCONF"; "$3"; "ACK"; "$5"; "10000"]);
        HearsLine 1 []; HearsFile 1; send 0 ["SET"; "bar"; "456"]; expect 0 ["+OK"];
        send 0 ["WAIT"; "1"; "1000"]; expect 0 [":1"]; within_ms 500]).

(** ** tests/propagation.rs *)
Definition keeps_reads_to_itself : bool :=
  plays (follow_ 0
    ++ [Connects; send 1 ["PING"]; expect 1 ["+PONG"]; send 1 ["ECHO"; "hello"]; expect 1 ["$5"; "hello"];
        send 1 ["GET"; "missing"]; expect 1 ["$-1"]; send 1 ["TYPE"; "missing"]; expect 1 ["+none"];
        send 1 ["INFO"; "replication"]; HearsReply 1; HearsNothing 0]).
Definition passes_a_write_on_to_every_replica : bool :=
  let heard i := expect i ["*3"; "$3"; "SET"; "$3"; "foo"; "$1"; "1"; "*3"; "$3"; "SET"; "$3"; "bar"; "$1"; "2";
                           "*3"; "$3"; "SET"; "$3"; "baz"; "$1"; "3"] in
  plays (follow_ 0 ++ follow_ 1 ++ follow_ 2
    ++ [Connects; send 3 ["SET"; "foo"; "1"]; expect 3 ["+OK"]; send 3 ["SET"; "bar"; "2"]; expect 3 ["+OK"];
        send 3 ["SET"; "baz"; "3"]; expect 3 ["+OK"]; heard 0%nat; heard 1%nat; heard 2%nat]).

(** ** tests/replconf.rs *)

(** What was agreed: an id and an offset. *)
Definition agreement_of (v : Value) : option (Bytes * Bytes) :=
  match v with
  | SimpleString said => strip_prefix (lit "FULLRESYNC ") said ≫= split_once " "%byte
  | _ => None
  end.
Definition written_to (i : nat) (s : Sim) : Bytes :=
  match peers s !! i with Some p => concat (written (conn p)) | None => [] end.
Definition unread_by (i : nat) (s : Sim) : Bytes :=
  match peers s !! i with Some p => waiting_to_be_read p | None => [] end.

Definition starts_a_replica_on_the_history_it_is_keeping : bool :=
  plays [Connects; send 0 ["PSYNC"; "?"; "-1"];
    HearsThat 0 (fun v => match agreement_of v with
                          | Some (id, offset) => (len id =? 40) && (offset =b? lit "0")
                          | None => false
                          end)].
Definition starts_a_replica_on_the_same_history_it_reports_through_info : bool :=
  plays [Connects; send 0 ["INFO"; "replication"]; HearsReply 0; Connects; send 1 ["PSYNC"; "?"; "-1"];
    Checks (fun s =>
      match parse (unread_by 1 s) with
      | Ok (Some (v, _)) =>
          match agreement_of v with
          | Some (id, _) => has_in_it (lit "master_replid:" ++ id ++ CRLF) (written_to 0 s)
          | None => false
          end
      | _ => false
      end)].
Definition hands_the_replica_the_dataset_to_start_from : bool :=
  plays [Connects; send 0 ["PSYNC"; "?"; "-1"]; HearsLine 0 (lit "+FULLRESYNC ");
    Checks (fun s =>
      match line (unread_by 0 s) with
      | Some (_, dataset) =>
          starts_with (lit "REDIS") dataset
          && bool_decide (dataset !! (length dataset - 9)%nat = Some xff)
      | None => false
      end)].

(** ** tests/info.rs *)
Definition informed (words : list string) (so : Bytes -> bool) : list Act :=
  [Connects; send 0 words; expect_report 0 so].
Definition reports_that_it_is_a_master : bool :=
  plays (informed ["INFO"; "replication"] (has_line "role:master")).
Definition heads_the_section_it_reports : bool :=
  plays (informed ["INFO"; "replication"] (starts_with (lit "# Replication" ++ CRLF))).
Definition separates_the_lines_it_reports_the_way_redis_does : bool :=
  plays (informed ["INFO"; "replication"]
    (fun report => starts_with (rev CRLF) (rev report) && negb (has_in_it (rev CRLF) report))).
Definition reports_every_section_when_asked_for_none : bool :=
  plays (informed ["INFO"] (has_in_it (lit "role:master"))).
Definition accepts_any_casing_of_the_command_and_the_section : bool :=
  plays (Connects :: flat_map (fun ns => [send 0 [fst ns; snd ns]; expect_report 0 (has_in_it (lit "role:master"))])
    [("INFO", "replication"); ("info", "REPLICATION"); ("InFo", "Replication")]%string).
Definition reports_each_of_the_sections_it_is_asked_for : bool :=
  plays (informed ["INFO"; "keyspace"; "replication"] (has_in_it (lit "role:master"))).
Definition keeps_serving_the_connection_after_an_info : bool :=
  plays (informed ["INFO"; "replication"] (fun _ => true) ++ [send 0 ["PING"]; expect 0 ["+PONG"]]).
Definition reports_that_it_is_a_replica_when_told_to_follow_a_master : bool :=
  plays_with ["--replicaof"; "localhost 6379"] (informed ["INFO"; "replication"] (has_line "role:slave")).
Definition stays_a_master_when_told_nothing : bool :=
  plays_with [] (informed ["INFO"; "replication"] (has_line "role:master")).
Definition is_ascii_hexdigit (c : byte) : bool :=
  let n := u8 c in
  (48 <=? n) && (n <=? 57) || (65 <=? n) && (n <=? 70) || (97 <=? n) && (n <=? 102).
Definition reports_the_replication_id_it_started_with : bool :=
  plays (informed ["INFO"; "replication"] (fun report =>
    match omap (strip_prefix (lit "master_replid:")) (lines report) with
    | id :: _ => (len id =? 40) && forallb is_ascii_hexdigit id
    | [] => false
    end)).
Definition reports_an_offset_of_nothing_handed_out_yet : bool :=
  plays (informed ["INFO"; "replication"] (has_line "master_repl_offset:0")).
Definition keeps_the_same_replication_id_for_as_long_as_it_runs : bool :=
  plays [Connects; Connects; send 0 ["INFO"; "replication"]; expect_report 0 (fun _ => true);
    send 1 ["INFO"; "replication"]; expect_report 1 (fun _ => true);
    Checks (fun s => written_to 0 s =b? written_to 1 s)].
(** Two servers started at one moment are two processes. *)
Definition gives_each_server_a_replication_id_of_its_own : bool :=
  match parse_config (Some (lit "/srv")) [] with
  | Ok c => negb (id (replication (new_server c EPOCH 1)) =b? id (replication (new_server c EPOCH 2)))
  | Err _ => false
  end.

(** ** tests/acl.rs, config.rs, connection.rs *)
Definition takes_a_password_that_is_not_text : bool :=
  plays
    [Connects;
     Sends 0 (on_lines ["*4"; "$3"; "ACL"; "$7"; "SETUSER"; "$7"; "default"; "$5"]
              ++ lit ">" ++ [xff; x00] ++ CRLF ++ CRLF);
     expect 0 ["+OK"]; send 0 ["ACL"; "GETUSER"; "default"];
     HearsThat 0 (fun said => has_in_it (lit "passwords") (encode said)
                              && negb (has_in_it (lit "nopass") (encode said)))].
Definition reports_where_redis_keeps_its_dataset_when_told_nothing : bool :=
  plays
    [Connects; send 0 ["CONFIG"; "GET"; "dir"]; expect 0 ["*2"; "$3"; "dir"; "$4"; "/srv"];
     send 0 ["CONFIG"; "GET"; "dbfilename"]; expect 0 ["*2"; "$10"; "dbfilename"; "$8"; "dump.rdb"]].
Definition serves_concurrent_clients : bool :=
  plays
    [Connects; Connects; Connects; send 0 ["PING"]; send 1 ["PING"]; send 2 ["PING"]; expect 0 ["+PONG"];
     expect 1 ["+PONG"]; expect 2 ["+PONG"]].
Definition survives_a_client_that_nests_values_without_end : bool :=
  plays
    [Connects; Connects; Sends 1 (Z.iter 200000 (fun l => on_lines ["*1"] ++ l) []);
     send 0 ["PING"]; expect 0 ["+PONG"]; Connects; send 2 ["SET"; "key"; "value"]; expect 2 ["+OK"];
     send 2 ["GET"; "key"]; expect 2 ["$5"; "value"]].

(** ** tests/geo.rs, pubsub.rs, push.rs *)
Definition AS_REDIS_DOES : f64 := read_f64 "0.000001".
Definition near (expected : string) (v : Value) : bool :=
  match v with
  | BulkString s =>
      match parse_f64 s with
      | Some x => f_lt (SFabs (f_sub x (read_f64 expected))) AS_REDIS_DOES
      | None => false
      end
  | _ => false
  end.
Definition expect_near (i : nat) (longitude latitude : string) : Act :=
  HearsThat i (fun v => match v with
                        | Array [Array [lon; lat]] => near longitude lon && near latitude lat
                        | _ => false
                        end).
Definition says_where_each_of_the_places_asked_after_is : bool :=
  plays (Connects
    :: flat_map (fun sp => [send 0 ["ZADD"; "location_key"; fst sp; snd sp]; expect 0 [":1"]])
         [("3663832614298053", "Foo"); ("3876464048901851", "Bar"); ("3468915414364476", "Baz");
          ("3781709020344510", "Caz")]%string
    ++ flat_map (fun '(place, longitude, latitude) =>
                   [send 0 ["GEOPOS"; "location_key"; place]; expect_near 0 longitude latitude])
         [("Foo", "2.294471561908722", "48.85846255040141"); ("Bar", "49.12499874830245", "72.99100027813946");
          ("Baz", "10.08720070123672", "34.50260034107078");
          ("Caz", "41.12499922513961", "73.99100100464303")]%string).
Definition stops_counting_a_client_that_has_hung_up : bool :=
  plays
    [Connects; Connects; send 1 ["SUBSCRIBE"; "foo"]; HearsReply 1; send 0 ["PUBLISH"; "foo"; "msg"];
     expect 0 [":1"]; Leaves 1; send 0 ["PUBLISH"; "foo"; "msg"]; expect 0 [":0"]].
Definition appends_to_an_existing_list : bool :=
  plays
    [Connects; send 0 ["RPUSH"; "list_key"; "element1"]; expect 0 [":1"];
     send 0 ["RPUSH"; "list_key"; "element2"]; expect 0 [":2"]; send 0 ["RPUSH"; "list_key"; "element3"];
     expect 0 [":3"]].

(** ** tests/xadd.rs *)

(** [add_generated]. *)
Definition an_id (v : Value) : option EntryId :=
  match v with
  | BulkString id =>
      match split_once "-"%byte id with
      | Some (ms, sq) =>
          match parse_u64 ms, parse_u64 sq with
          | Ok ms, Ok sq => Some {| milliseconds := ms; sequence := sq |}
          | _, _ => None
          end
      | None => None
      end
  | _ => None
  end.
Definition generates_the_whole_id_from_the_clock : bool :=
  plays
    [Connects; send 0 ["XADD"; "stream_key"; "*"; "foo"; "bar"];
     HearsThat 0 (fun v => match an_id v with
                           | Some i => (sequence i =? 0) && (milliseconds i =? EPOCH)
                           | None => false
                           end)].
Fixpoint replies_in (fuel : nat) (there : Bytes) : list Value :=
  match fuel, parse there with
  | S fuel, Ok (Some (v, n)) => v :: replies_in fuel (drop (Z.to_nat n) there)
  | _, _ => []
  end.
Fixpoint climbing (ids : list (option EntryId)) : bool :=
  match ids with
  | Some i :: ((Some j :: _) as ids) => id_lt i j && climbing ids
  | [Some _] => true
  | _ => false
  end.
Definition keeps_generated_ids_increasing : bool :=
  plays (Connects
    :: flat_map (fun _ => [send 0 ["XADD"; "stream_key"; "*"; "foo"; "bar"]; HearsReply 0]) (seq 0 21)
    ++ [Checks (fun s => climbing (map an_id (replies_in 30 (written_to 0 s))))]).

Lemma scenarios_heard_pass :
  all_pass
    [answers_at_once_however_many_replicas_are_asked_for;
     counts_the_replicas_that_are_following; counts_them_all_however_few_are_asked_for;
     answers_at_once_when_there_is_nothing_to_catch_up_on;
     counts_the_replica_that_has_caught_up_with_a_write;
     counts_every_replica_that_has_caught_up; answers_as_soon_as_enough_replicas_have_caught_up;
     counts_only_the_replicas_that_answered_before_the_time_was_up;
     counts_them_afresh_for_each_write_it_is_asked_about;
     stops_counting_a_replica_that_has_gone;
     waits_however_long_it_takes_when_given_no_time_at_all;
     goes_on_waiting_when_given_no_time_and_no_answer;
     takes_in_what_a_replica_said_alongside_its_request; keeps_reads_to_itself;
     passes_a_write_on_to_every_replica; starts_a_replica_on_the_history_it_is_keeping;
     starts_a_replica_on_the_same_history_it_reports_through_info;
     hands_the_replica_the_dataset_to_start_from; reports_that_it_is_a_master;
     heads_the_section_it_reports; separates_the_lines_it_reports_the_way_redis_does;
     reports_every_section_when_asked_for_none;
     accepts_any_casing_of_the_command_and_the_section;
     reports_each_of_the_sections_it_is_asked_for; keeps_serving_the_connection_after_an_info;
     reports_that_it_is_a_replica_when_told_to_follow_a_master;
     stays_a_master_when_told_nothing; reports_the_replication_id_it_started_with;
     reports_an_offset_of_nothing_handed_out_yet;
     keeps_the_same_replication_id_for_as_long_as_it_runs;
     gives_each_server_a_replication_id_of_its_own; takes_a_password_that_is_not_text;
     reports_where_redis_keeps_its_dataset_when_told_nothing; serves_concurrent_clients;
     survives_a_client_that_nests_values_without_end;
     says_where_each_of_the_places_asked_after_is; stops_counting_a_client_that_has_hung_up;
     appends_to_an_existing_list; generates_the_whole_id_from_the_clock;
     keeps_generated_ids_increasing] = true.
Proof. passes. Qed.
